(* ===== verification/_CoqProject ===== *)
-Q . S2P
Prelude.v
Json.v
Errors.v
Records.v
Env.v
Toy.v
Base64.v
Input.v
World.v
Document.v
Keystore.v
Registry.v
Recovery.v
Identity.v
RecordFacts.v
Adoption.v
Lifecycle.v
CryptoOps.v
KeyImport.v
RootTransfer.v
IdentityFacts.v
Namespace.v
Scenario.v
AdoptionFacts.v
EnrollmentFacts.v
Findings.v
LifecycleFacts.v
CryptoFacts.v
KeyImportFacts.v
RootTransferFacts.v
RootTransferRoundTrip.v
TransferScenario.v
Managed.v
DocumentChange.v
IdentityTransition.v
ManagedFacts.v
DocumentChangeFacts.v
TransitionFacts.v
RecoveryFacts.v
Store.v
StoreFacts.v
ProviderAuthorization.v
ProviderAuthorizationFacts.v
HostToy.v
Host.v
HostFacts.v
SealedHandoff.v
SealedHandoffFacts.v
SealedScenario.v
NodeHeap.v
Node.v
NodeProvider.v
NodeSystem.v
NodeFacts.v
NodeGate.v
NodeSpec.v
NodeScenario.v
Files.v
Lock.v
