(* ===== verification/Prelude.v ===== *)
(** * anp-identity: a verification library

    The crate anp-identity keeps decentralized identities (DIDs) and their private keys in a
    directory, the store.  This library models the crate's engine, its application interface
    and its Node binding, and proves that the store survives failures, that identities, keys and
    documents move only along the intended state machines, and that keys are used only for
    what they are for.

    ** The program

    - The *store* is a directory: a manifest, a registry of identities, a record per
      identity, sealed secrets, and three kinds of journals (registry.rs, keystore.rs,
      manifest.rs, store.rs, store_lock.rs, fs_util.rs).
    - The *engine* creates, opens, lists and recovers identities (identity.rs), builds their
      documents (document.rs, input.rs), enrolls devices and adopts verified documents
      (adoption.rs), updates documents (lifecycle.rs), imports keys (key_import.rs), moves
      the root key to another device (root_transfer.rs), signs and agrees on keys
      (crypto_ops.rs), and deletes identities (namespace.rs).
    - The *facade* is what applications call: a manager over the store, managed identities
      that sign and verify, sessions that publish a change of a document, and sessions that
      publish the transition of one identity to its successor (facade/).
    - The *host ports* are what a native host calls beside the facade (host/): enrollment
      sessions, adoption, migration, proofs and request signatures; an authority that issues
      leases and one-time tokens to plugins; and operations that hand secrets over sealed to
      a recipient's key, under such a token.
    - *Root keys* of stores come from a provider: injected, a private file, the environment
      or the keyring of the operating system (platform.rs).
    - The *Node binding* (bindings/node/src/lib.rs) makes the facade and the host ports
      asynchronous classes of JavaScript.  Its second entry point hands consumers leases of
      bounded capability; every operation a consumer reaches asks the authority first.

    Operations compose through the disk: each takes the store lock, compares the generation
    of its handle with the stored one, writes a journal, changes files one at a time, and
    removes the journal; [recover] finishes or undoes what a journal names.

    ** How it is modelled

    A fallible function returns [result]; a function that touches the store is a state
    passing computation [ST World E A] ([M] at the engine's error type), with Rust's
    [?] as [bind].  [World] is the disk, a fault, and the positions in the streams of random
    numbers and clock readings.  A durable operation is one atomic file replacement or
    removal; a [fault] stops the n-th one, before or after its effect, so a theorem for all
    faults covers a crash at every point.  Taking the store lock is an operation that may fail
    like any other.  Files and Lock justify the two primitives: there the file routines run
    system call by system call, and the callers that share a store interleave.  A method with
    [&mut self] returns the handle, and in the facade the handle is part of the state ([HM]).
    The root key file of the local-file provider lies in the root of the store and is kept,
    with the keyring and the environment, in the [Platform] of Store.  Integers of 64 bits are [N] with
    their checked or saturating addition; strings and byte vectors are [string], a sequence
    of bytes; JSON values are [Value].  What the crate calls from other crates (the anp
    crate, ciphers, hashes, signatures, clocks) are the fields of the class [Env]; the laws
    the theorems need are small classes of documented properties, and [Toy] is an instance
    of all of them on which every witness is evaluated.

    The state of the Node binding, [Node], is the world, what the platform offers, and a heap
    of cells: what the binding shares between objects behind [Arc] and [Mutex], each with its
    type, and one-time contents as slots that a call empties.  A method is a [Task] of polls;
    between two polls other calls run, so a call can find a lease disposed or a slot emptied
    by another one.  [loop_step] starts a call, polls one, or lets the outside change the
    disk, the clock or the platform or add a buffer, and the theorems hold for every sequence
    of such steps.

    ** Files

    - Prelude, Json, Errors, Records, Env, Toy, World: results, computations, crash Hoare
      triples, byte strings, JSON, error enums (error.rs, facade/error.rs), the record types
      of every source file, the environment, and the disk.
    - Input (input.rs), Document (document.rs), Keystore (keystore.rs), Registry
      (registry.rs), Recovery (the recovery functions of identity.rs and lifecycle.rs),
      Identity (identity.rs), Adoption (adoption.rs), Lifecycle (lifecycle.rs), Namespace
      (namespace.rs), KeyImport (key_import.rs), RootTransfer (root_transfer.rs), CryptoOps
      (crypto_ops.rs): the operations, one definition per function of the source; a long
      function is split into its guards and its journaled part.
    - Managed (facade/types.rs, identity.rs, signing.rs, manager.rs), DocumentChange
      (facade/document_change.rs), IdentityTransition (facade/identity_transition.rs).
    - Store (store.rs, manifest.rs, platform.rs and the store calls of identity.rs and
      facade/manager.rs): root-key providers, creating and opening a store.
    - Host (host/ without the next two), ProviderAuthorization
      (host/provider_authorization.rs), SealedHandoff (host/sealed_handoff.rs).  The state of
      an authority is passed beside the world ([AM]), the engine beside both ([XM]).
    - NodeHeap (cells, tasks, the serde forms as the class [Serde]), Node (the classes of the
      default entry point), NodeProvider (leases and what consumers get through them),
      NodeSystem (calls, replies, the event loop).
    - Files (fs_util.rs): directory entries, inodes, system calls, [write_atomic_private];
      Lock (store_lock.rs): the files of a store, the inode of the lock file, and callers
      that share a store.
    - RecordFacts and the other files named Facts, RootTransferRoundTrip, NodeGate and
      NodeSpec: the theorems; Findings: runs of the engine that show defects; Scenario,
      TransferScenario, SealedScenario, NodeScenario: concrete runs for the witnesses;
      Base64 and HostToy: environments whose encodings are checked as texts.

    ** What is proved

    - Crash safety: creation, deletion, adoption, both enrollments, key imports and root
      imports, interrupted at any durable operation, leave a store that recovery brings to
      the state before the call or to the completed one, however often recovery itself is
      interrupted ([recovers_to]). Three cases are left out or weaker, each with a finding:
      imports of did:web documents, adoptions by a record without a binding that holds the
      keys of a listed device, and the staged keys of a revision that a deletion discards.
      Recovery writes no journal, leaves none when it returns, and is then at its fixed
      point.
    - Files and lock: [write_atomic_private] refines [durable] whatever system call fails or
      is the last one, and a power loss never leaves a torn target; no operation on the files
      of a store replaces the lock file, so in every interleaving of callers one at a time
      holds the guard, and only the holder changes a file of the store.
    - Stores: initialization happens once and writes a manifest and at most one root key; an
      initialized store opens with the key it was
      created with, and the manifest pins the root key.
    - Creation specifications: validation accepts exactly the well-formed ones ([spec_wf]).
    - State machines: every update operation refines the publication machine of a pending
      revision; nothing is committed that was not begun, and the document changes only by a
      commit; adoption, root import and promotion move the identity and its root capability
      only along their machines; checkpoints never go back; retired devices stay retired.
      The sessions of the facade refine a session machine, and transition sessions refine
      the machine of their journal, with at most one live transition per DID, which can
      always be resumed.
    - Compare and swap: an operation through a stale handle fails and writes nothing.
    - Keys: sealed records open to what was sealed and only under their own reference; every
      operation with a secret uses a managed key of an allowed role that is active, or that
      waits for the activation the operation is for; a signature
      binds purpose, domain and payload; signing and verifying, creating and getting,
      exporting and importing a root key are round trips.
    - Authority: a one-time token is accepted at most once, for exactly the binding it was
      issued for, within five minutes and the life of its lease; a disposed lease is dead.
    - Sealed hand-off: an export delivers what the plain operation returns, to the recipient
      of the request and under the token's binding, and spends the token whatever follows;
      the sealed imports have the effect of the plain ones.
    - Node binding: in every interleaving of calls, a call under a lease shows nothing for
      itself before its lease was found granted, a disposed lease is dead for every call not
      yet let through, and a one-time object serves one call; errors keep their codes on the
      way to JavaScript, and an injected key leaves its buffer.
    - Host ports: an enrollment session is found again from its reference; the headers of a
      signed request are normalised to one map whatever their order.
    - Bounds: the replay list and its expiry, the lifetimes of transfers and tokens.
    - Equivalence of loops with closed definitions: key selection, the translation of
      change requests, header normalisation.
    - Findings: the confirmation of a root promotion accepts a document that lists a retired
      device ([promotion_revives_device]); a consumed token is accepted again when the wall
      clock is set back after its expiry, or when a call that read the clock before that
      comes to the authority after it ([replay_after_clock_step_back]); an import of a
      did:web document and an adoption with the keys of two devices write records that
      cannot be read ([web_import_unreadable], [two_device_adoption_unreadable]); a deletion
      that discards a revision leaves its staged keys ([discarded_revision_leaves_key]); an
      injected key stays in its buffer when the key identifier is missing
      ([key_left_without_identifier]); the root transfers and adoptions of the binding take a
      lease but no one-time token.

    ** Bounds and fuel

    All recursions are structural, on lists or strings.  [strip_all] (of [trim]) takes the
    byte length of its string as fuel: each round removes at least one byte.

    ** Not modelled

    - Overlapping calls of one authority: reading the clock and the critical section of a
      call are one step.  The field of transition journals that only older files have
      ([_legacy_provider_document]) is read, and never used or written.
    - [export_wrapped_root] is compiled for the tests of the crate only; it is modelled as the
      exporter that the importer is made for.
    - serde: a file is [Parsed], [Garbled] or [Unreadable]; symlinks and the parents that
      [create_dir_all] makes.
    - Zeroizing of secrets on drop (secret.rs), on which no result depends; Debug texts, and
      poisoned mutexes.
    - In the Node binding: the serde forms of requests and results ([Serde]), failed joins of
      pool threads, and the interleaving of threads within one operation of the pool, which
      is one step; the marshalling that the napi macros generate. *)

From stdpp Require Import base strings list gmap sorting numbers pretty.
From Stdlib Require Import Ascii.

(** ** Results

    Rust's [Result<A, E>]; [DidResult] and [IdentityResult] are its instances
    at the two error enums of the crate. *)

Inductive result (E A : Type) : Type :=
  | Ok (a : A)
  | Err (e : E).
Arguments Ok {E A} a.
Arguments Err {E A} e.

#[export] Instance result_eq_dec {E A} `{EqDecision E, EqDecision A} :
  EqDecision (result E A).
Proof. solve_decision. Defined.

Definition rbind {E A B} (r : result E A) (k : A → result E B) : result E B :=
  match r with Ok a => k a | Err e => Err e end.

(** [Option::ok_or]. *)
Definition ok_or {E A} (o : option A) (e : E) : result E A :=
  match o with Some a => Ok a | None => Err e end.

(** [Result::map_err]. *)
Definition map_err {E F A} (f : E → F) (r : result E A) : result F A :=
  match r with Ok a => Ok a | Err e => Err (f e) end.

Definition is_ok {E A} (r : result E A) : bool :=
  match r with Ok _ => true | Err _ => false end.

(** [if cond { return Err(e) }]. *)
Definition rguard {E} (bad : bool) (e : E) : result E unit :=
  if bad then Err e else Ok tt.

(** ** Stateful, fallible computations

    A method that mutates the store is a function from the world before the
    call to its result and the world after it.  Rust's [?] is [bind]: an error
    ends the computation and keeps whatever was already written. *)

Definition ST (W E A : Type) : Type := W → result E A * W.

Definition ret {W E A} (a : A) : ST W E A := λ w, (Ok a, w).
Definition fail {W E A} (e : E) : ST W E A := λ w, (Err e, w).
Definition lift {W E A} (r : result E A) : ST W E A := λ w, (r, w).
Definition bind {W E A B} (m : ST W E A) (k : A → ST W E B) : ST W E B :=
  λ w, match m w with
       | (Ok a, w') => k a w'
       | (Err e, w') => (Err e, w')
       end.
(** Inspect the outcome of a computation instead of propagating it. *)
Definition attempt {W E F A} (m : ST W E A) : ST W F (result E A) :=
  λ w, let (r, w') := m w in (Ok r, w').
(** [map_err(Into::into)] under [?]: change the error type of a computation. *)
Definition st_map_err {W E F A} (f : E → F) (m : ST W E A) : ST W F A :=
  λ w, let (r, w') := m w in (map_err f r, w').
Definition sguard {W E} (bad : bool) (e : E) : ST W E unit := lift (rguard bad e).

Declare Scope anp_scope.
Delimit Scope anp_scope with anp.
Notation "'let?' x := r 'in' k" := (rbind r (λ x, k))
  (at level 10, x pattern, r at level 100, k at level 200) : anp_scope.
Notation "'let!' x := m 'in' k" := (bind m (λ x, k))
  (at level 10, x pattern, m at level 100, k at level 200) : anp_scope.
Notation "'do?' r ; k" := (rbind r (λ _, k))
  (at level 10, r at level 100, k at level 200) : anp_scope.
Notation "'do!' m ; k" := (bind m (λ _, k))
  (at level 10, m at level 100, k at level 200) : anp_scope.
Open Scope anp_scope.

(** [for x in l { f(x)?; }]. *)
Fixpoint for_each {W E A} (f : A → ST W E unit) (l : list A) : ST W E unit :=
  match l with
  | [] => ret tt
  | x :: l => do! f x; for_each f l
  end.

Fixpoint for_result {E A} (f : A → result E unit) (l : list A) : result E unit :=
  match l with
  | [] => Ok tt
  | x :: l => do? f x; for_result f l
  end.

(** [iter().map(f).collect::<Result<Vec<_>, _>>()]. *)
Fixpoint map_result {E A B} (f : A → result E B) (l : list A) : result E (list B) :=
  match l with
  | [] => Ok []
  | x :: l => let? y := f x in let? ys := map_result f l in Ok (y :: ys)
  end.

Fixpoint map_st {W E A B} (f : A → ST W E B) (l : list A) : ST W E (list B) :=
  match l with
  | [] => ret []
  | x :: l => let! y := f x in let! ys := map_st f l in ret (y :: ys)
  end.

(** A loop whose body threads an accumulator. *)
Fixpoint fold_result {E A S} (f : S → A → result E S) (l : list A) (s : S) : result E S :=
  match l with
  | [] => Ok s
  | x :: l => let? s' := f s x in fold_result f l s'
  end.

(** ** Machine integers *)

Definition u64_max : N := 18446744073709551615.

(** [u64::checked_add(1)]. *)
Definition checked_succ (n : N) : option N :=
  if bool_decide (n < u64_max)%N then Some (n + 1)%N else None.

(** [u64::saturating_add(1)]. *)
Definition saturating_succ (n : N) : N :=
  if bool_decide (n < u64_max)%N then (n + 1)%N else u64_max.

(** ** Rust strings

    A [String.string] is a sequence of bytes: it stands for a Rust [String]
    (its UTF-8 bytes) and for a [Vec<u8>]. *)

Definition bytes (l : list nat) : string :=
  fold_right (λ n s, String (ascii_of_nat n) s) EmptyString l.

Definition starts_with (p s : string) : bool := String.prefix p s.

Fixpoint strip_prefix (p s : string) : option string :=
  match p, s with
  | EmptyString, _ => Some s
  | String a p, String b s => if bool_decide (a = b) then strip_prefix p s else None
  | String _ _, EmptyString => None
  end.

Fixpoint contains_char (c : ascii) (s : string) : bool :=
  match s with
  | EmptyString => false
  | String a s => bool_decide (a = c) || contains_char c s
  end.

Fixpoint all_bytes (f : ascii → bool) (s : string) : bool :=
  match s with
  | EmptyString => true
  | String a s => f a && all_bytes f s
  end.

Definition is_empty (s : string) : bool := bool_decide (s = EmptyString).

Fixpoint rev_string (acc s : string) : string :=
  match s with
  | EmptyString => acc
  | String a s => rev_string (String a acc) s
  end.

(** [str::split(c)]: always at least one piece. *)
Fixpoint split_on (c : ascii) (s : string) : list string :=
  match s with
  | EmptyString => [EmptyString]
  | String a s =>
      let rest := split_on c s in
      if bool_decide (a = c) then EmptyString :: rest
      else match rest with
           | piece :: pieces => String a piece :: pieces
           | [] => [String a EmptyString]
           end
  end.

Definition last_byte (s : string) : option ascii :=
  match rev_string EmptyString s with String a _ => Some a | EmptyString => None end.
Definition first_byte (s : string) : option ascii :=
  match s with String a _ => Some a | EmptyString => None end.

Definition byte_in (lo hi : nat) (a : ascii) : bool :=
  (lo <=? nat_of_ascii a) && (nat_of_ascii a <=? hi).
Definition is_ascii_alphanumeric (a : ascii) : bool :=
  byte_in 48 57 a || byte_in 65 90 a || byte_in 97 122 a.

(** The UTF-8 encodings of the code points with the Unicode [White_Space]
    property, the characters [str::trim] removes. *)
Definition white_space : list string :=
  map bytes
    ([[9]; [10]; [11]; [12]; [13]; [32]; [194; 133]; [194; 160]; [225; 154; 128]]
     ++ map (λ k, [226; 128; k]) (seq 128 11)
     ++ [[226; 128; 168]; [226; 128; 169]; [226; 128; 175]; [226; 129; 159];
         [227; 128; 128]]).

Fixpoint find_map {A B} (f : A → option B) (l : list A) : option B :=
  match l with
  | [] => None
  | x :: l => match f x with Some y => Some y | None => find_map f l end
  end.

(** Remove leading occurrences of the patterns; [fuel] is the byte length, and
    every removal shortens the string. *)
Fixpoint strip_all (fuel : nat) (pats : list string) (s : string) : string :=
  match fuel with
  | 0 => s
  | S fuel =>
      match find_map (λ p, strip_prefix p s) pats with
      | Some s' => strip_all fuel pats s'
      | None => s
      end
  end.

Definition trim_start (s : string) : string := strip_all (String.length s) white_space s.
Definition trim_end (s : string) : string :=
  rev_string EmptyString
    (strip_all (String.length s) (map (rev_string EmptyString) white_space)
               (rev_string EmptyString s)).
(** [str::trim]. *)
Definition trim (s : string) : string := trim_end (trim_start s).

(** Byte order on strings, the order of a [BTreeMap<String, _>] and of [sort]. *)
Definition string_le (s t : string) : Prop := String.leb s t = true.
#[export] Instance string_le_dec : RelDecision string_le.
Proof. intros s t. unfold string_le. apply _. Defined.

(** ** Crash Hoare logic

    [triple P m Q X]: from a world in [P], a run of [m] that returns [Ok a] ends
    in [Q a], and a run that stops early, at a failed guard or at a durable
    operation that did not complete, leaves a world in [X]. *)

Definition triple {W E A} (P : W → Prop) (m : ST W E A) (Q : A → W → Prop)
    (X : W → Prop) : Prop :=
  ∀ w r w', P w → m w = (r, w') →
    match r with Ok a => Q a w' | Err _ => X w' end.

Section Triples.
Context {W E : Type}.
Implicit Types P X : W → Prop.

Lemma triple_ret {A} P X (a : A) (Q : A → W → Prop) :
  (∀ w, P w → Q a w) → triple (E:=E) P (ret a) Q X.
Proof. intros HQ w r w' HP [= <- <-]. auto. Qed.

Lemma triple_fail {A} P X (e : E) (Q : A → W → Prop) :
  (∀ w, P w → X w) → triple P (fail e) Q X.
Proof. intros HX w r w' HP [= <- <-]. auto. Qed.

Lemma triple_lift {A} P X (r : result E A) (Q : A → W → Prop) :
  (∀ w, P w → X w) → (∀ a w, r = Ok a → P w → Q a w) →
  triple P (lift r) Q X.
Proof. intros HX HQ w s w1 HP Hs. injection Hs as <- <-. destruct r; auto. Qed.

Lemma triple_bind {A B} P X (m : ST W E A) (k : A → ST W E B) R Q :
  triple P m R X → (∀ a, triple (R a) (k a) Q X) → triple P (bind m k) Q X.
Proof.
  intros Hm Hk w r w' HP. unfold bind.
  destruct (m w) as [[a|e] w1] eqn:Em.
  - intros Hrun. eapply Hk; [|exact Hrun]. exact (Hm w (Ok a) w1 HP Em).
  - intros [= <- <-]. exact (Hm w (Err e) w1 HP Em).
Qed.

Lemma triple_conseq {A} P P' X X' (m : ST W E A) (Q Q' : A → W → Prop) :
  triple P m Q X → (∀ w, P' w → P w) → (∀ a w, Q a w → Q' a w) →
  (∀ w, X w → X' w) → triple P' m Q' X'.
Proof. intros Hm HP HQ HX w r w' Hw Hr. specialize (Hm w r w'). destruct r; auto. Qed.

Lemma triple_pull {A} (φ : Prop) P X (m : ST W E A) (Q : A → W → Prop) :
  (φ → triple P m Q X) → triple (λ w, φ ∧ P w) m Q X.
Proof. intros Hm w r w' [Hφ HP]. by apply Hm. Qed.

(** A loop: [I l] holds when the elements of [l] are still to be visited. *)
Lemma triple_for_each {A} (I : list A → W → Prop) X (f : A → ST W E unit) (l : list A) :
  (∀ x l', triple (I (x :: l')) (f x) (λ _, I l') X) →
  triple (I l) (for_each f l) (λ _, I []) X.
Proof.
  intros Hf. induction l as [|x l IH]; simpl.
  - by apply triple_ret.
  - eapply triple_bind; [apply Hf|]. intros ?. apply IH.
Qed.

(** The guard [sguard bad e]: passing it teaches [bad = false]. *)
Lemma triple_sguard P X bad (e : E) :
  (∀ w, P w → X w) → triple P (sguard bad e) (λ _ w, P w ∧ bad = false) X.
Proof.
  intros HX. apply triple_lift; [done|]. intros [] w Hg Hw.
  unfold rguard in Hg. by destruct bad.
Qed.
End Triples.

(** ** Automation *)

Create HintDb anp.

(** Open the binds of an equation [m w = (r, w')] and split on every outcome
    of the steps before the last one. *)
Ltac run_step :=
  match goal with
  | H : (let (_, _) := ?m in _) = _ |- _ => destruct m as [[?|?] ?] eqn:?
  | H : match ?x with _ => _ end = _ |- _ => destruct x eqn:?
  end.
Ltac unfold_monad :=
  unfold bind, lift, ret, fail, sguard, rguard, ok_or, rbind, map_err in *.

Lemma checked_succ_Some n m :
  checked_succ n = Some m ↔ m = (n + 1)%N ∧ (n < u64_max)%N.
Proof.
  unfold checked_succ. case_bool_decide; naive_solver.
Qed.

Lemma rbind_Ok {E A B} (r : result E A) (k : A → result E B) b :
  rbind r k = Ok b ↔ ∃ a, r = Ok a ∧ k a = Ok b.
Proof. destruct r; simpl; naive_solver. Qed.

Lemma ok_or_Ok {E A} (o : option A) (e : E) a : ok_or o e = Ok a ↔ o = Some a.
Proof. destruct o; simpl; naive_solver. Qed.

Lemma rguard_Ok {E} bad (e : E) u : rguard bad e = Ok u ↔ bad = false.
Proof. destruct bad, u; simpl; naive_solver. Qed.

Lemma bind_Ok {W E A B} (m : ST W E A) (k : A → ST W E B) w b w' :
  bind m k w = (Ok b, w') ↔ ∃ a w1, m w = (Ok a, w1) ∧ k a w1 = (Ok b, w').
Proof. unfold bind. destruct (m w) as [[a|e] w1]; naive_solver. Qed.

Lemma lift_Ok {W E A} (r : result E A) (w : W) a w' :
  lift r w = (Ok a, w') ↔ r = Ok a ∧ w' = w.
Proof. unfold lift. naive_solver. Qed.

Lemma ret_Ok {W E A} (x : A) (w : W) a w' :
  @ret W E A x w = (Ok a, w') ↔ a = x ∧ w' = w.
Proof. unfold ret. naive_solver. Qed.

Lemma for_result_Forall {E A} (f : A → result E unit) l :
  for_result f l = Ok tt ↔ Forall (λ x, f x = Ok tt) l.
Proof.
  induction l as [|x l IH]; simpl; [by split|].
  rewrite rbind_Ok, Forall_cons, <-IH. split; [intros ([] & ? & ?)|]; naive_solver.
Qed.

Lemma map_result_Forall2 {E A B} (f : A → result E B) l ys :
  map_result f l = Ok ys ↔ Forall2 (λ x y, f x = Ok y) l ys.
Proof.
  revert ys. induction l as [|x l IH]; intros ys; simpl.
  - split; [intros [= <-]; constructor|by inversion 1].
  - rewrite rbind_Ok. split.
    + intros (y & Hy & Hk). apply rbind_Ok in Hk as (ys' & Hys & [= <-]).
      constructor; [done|by apply IH].
    + inversion 1; subst. eexists; split; [done|]. apply rbind_Ok.
      eexists; split; [by apply IH|done].
Qed.

#[export] Hint Rewrite @rbind_Ok @ok_or_Ok @rguard_Ok @bind_Ok @lift_Ok @ret_Ok : anp_run.

(** Decompose a successful run into its steps. *)
Ltac inv_run H :=
  first
    [ rewrite bind_Ok in H; let a := fresh "a" in let w := fresh "w" in
      let H1 := fresh "Hstep" in
      destruct H as (a & w & H1 & H); simpl in H1, H
    | rewrite rbind_Ok in H; let a := fresh "a" in let H1 := fresh "Hstep" in
      destruct H as (a & H1 & H); simpl in H1, H ].

(** The unit results of checks. *)
Ltac destruct_units := repeat match goal with u : unit |- _ => destruct u end.

(** For witnesses: a result that evaluates to [Ok]. *)
Lemma is_ok_Ok {E A} (r : result E A) : is_ok r = true → ∃ a, r = Ok a.
Proof. destruct r; simpl; [eauto|discriminate]. Defined.

Definition is_some {A} (o : option A) : bool := match o with Some _ => true | None => false end.
Lemma is_some_Some {A} (o : option A) : is_some o = true → ∃ a, o = Some a.
Proof. destruct o; simpl; [eauto|discriminate]. Defined.

(** ** Facts about byte strings *)

Lemma strip_prefix_app p s : strip_prefix p (p +:+ s)%string = Some s.
Proof.
  induction p as [|a p IH]; simpl; [done|]. by rewrite bool_decide_true.
Qed.

Lemma strip_prefix_Some p s t : strip_prefix p s = Some t ↔ s = (p +:+ t)%string.
Proof.
  split.
  - revert s. induction p as [|a p IH]; intros s; simpl; [by intros [= ->]|].
    destruct s as [|b s]; [done|]. case_bool_decide; [|done].
    intros Hs. subst. change (String b s = String b (p +:+ t)). by f_equal; apply IH.
  - intros ->. apply strip_prefix_app.
Qed.

Lemma starts_with_strip p s :
  starts_with p s = match strip_prefix p s with Some _ => true | None => false end.
Proof.
  unfold starts_with. revert s. induction p as [|a p IH]; intros [|b s]; simpl; [done..|].
  destruct (ascii_dec a b); case_bool_decide; done || apply IH.
Qed.

Lemma string_app_assoc (s t u : string) : ((s +:+ t) +:+ u)%string = (s +:+ t +:+ u)%string.
Proof. induction s as [|a s IH]; simpl; [done|]. change (String a ((s +:+ t) +:+ u) = String a (s +:+ t +:+ u)). by rewrite IH. Qed.

Lemma string_app_inj_l (p s t : string) : (p +:+ s)%string = (p +:+ t)%string → s = t.
Proof. intros Heq. apply (f_equal (strip_prefix p)) in Heq. rewrite !strip_prefix_app in Heq. by injection Heq. Qed.

Lemma contains_char_app c s t :
  contains_char c (s +:+ t)%string = contains_char c s || contains_char c t.
Proof. induction s as [|a s IH]; simpl; [done|]. by rewrite IH, orb_assoc. Qed.

Lemma all_bytes_not_contains f c s :
  all_bytes f s = true → f c = false → contains_char c s = false.
Proof.
  intros Hs Hc. induction s as [|a s IH]; simpl in *; [done|].
  apply andb_true_iff in Hs as [Ha Hs]. rewrite IH by done.
  rewrite bool_decide_false by congruence. done.
Qed.

Lemma string_app_length s t :
  String.length (s +:+ t)%string = String.length s + String.length t.
Proof. induction s as [|a s IH]; simpl; [done|]. by rewrite IH. Qed.
