(* ===== verification/Json.v ===== *)
(** * JSON values

    The fragment of [serde_json::Value] the crate uses.  Maps are kept in the
    order of a [BTreeMap] (the crate does not enable [preserve_order]), so that
    equality of values is equality of the Rust values. *)

From stdpp Require Import base strings list gmap.
From S2P Require Import Prelude.

(** [serde_json::Number]: non-negative and negative integers and floats (by
    their bit pattern). *)
Inductive number : Type :=
  | PosInt (n : N)
  | NegInt (n : Z)
  | Float (bits : N).

#[export] Instance number_eq_dec : EqDecision number.
Proof. solve_decision. Defined.

Inductive Value : Type :=
  | Null
  | Bool (b : bool)
  | Number (n : number)
  | Str (s : string)
  | Array (l : list Value)
  | Object (o : list (string * Value)).

Abbreviation Map := (list (string * Value)).

Section ValueInd.
Context (P : Value → Prop).
Hypotheses (HNull : P Null) (HBool : ∀ b, P (Bool b)) (HNumber : ∀ n, P (Number n))
  (HStr : ∀ s, P (Str s)) (HArray : ∀ l, Forall P l → P (Array l))
  (HObject : ∀ o : Map, Forall (λ e, P e.2) o → P (Object o)).

Fixpoint Value_nested_ind (v : Value) : P v :=
  match v with
  | Null => HNull
  | Bool b => HBool b
  | Number n => HNumber n
  | Str s => HStr s
  | Array l => HArray l ((fix go l : Forall P l :=
      match l with
      | [] => Forall_nil_2 P
      | x :: l => Forall_cons_2 P x l (Value_nested_ind x) (go l)
      end) l)
  | Object o => HObject o ((fix go (o : Map) : Forall (λ e, P e.2) o :=
      match o with
      | [] => Forall_nil_2 _
      | e :: o => Forall_cons_2 (λ e, P e.2) e o (Value_nested_ind e.2) (go o)
      end) o)
  end.
End ValueInd.

#[export] Instance value_eq_dec : EqDecision Value.
Proof.
  refine (fix go (v w : Value) : Decision (v = w) :=
    match v, w with
    | Null, Null => left eq_refl
    | Bool b, Bool c => cast_if (decide (b = c))
    | Number b, Number c => cast_if (decide (b = c))
    | Str b, Str c => cast_if (decide (b = c))
    | Array l, Array k =>
        cast_if ((fix golist (l k : list Value) : Decision (l = k) :=
          match l, k with
          | [], [] => left eq_refl
          | x :: l, y :: k => cast_if_and (go x y) (golist l k)
          | _, _ => right _
          end) l k)
    | Object o, Object p =>
        cast_if ((fix goobj (l k : Map) : Decision (l = k) :=
          match l, k with
          | [], [] => left eq_refl
          | (a, x) :: l, (b, y) :: k =>
              cast_if_and3 (decide (a = b)) (go x y) (goobj l k)
          | _, _ => right _
          end) o p)
    | _, _ => right _
    end); clear go; abstract congruence.
Defined.

(** [Map::get]. *)
Fixpoint map_get (o : Map) (k : string) : option Value :=
  match o with
  | [] => None
  | (k', v) :: o => if bool_decide (k' = k) then Some v else map_get o k
  end.

(** [Map::insert]: replace the value of a key or add it in key order. *)
Fixpoint map_insert (o : Map) (k : string) (v : Value) : Map :=
  match o with
  | [] => [(k, v)]
  | (k', v') :: o' =>
      match String.compare k k' with
      | Lt => (k, v) :: o
      | Eq => (k, v) :: o'
      | Gt => (k', v') :: map_insert o' k v
      end
  end.

(** [Map::remove]. *)
Fixpoint map_remove (o : Map) (k : string) : Map :=
  match o with
  | [] => []
  | (k', v) :: o' => if bool_decide (k' = k) then o' else (k', v) :: map_remove o' k
  end.

(** The [json!] macro on an object literal. *)
Definition json_object (fields : list (string * Value)) : Value :=
  Object (fold_left (λ o '(k, v), map_insert o k v) fields []).

Definition get (v : Value) (k : string) : option Value :=
  match v with Object o => map_get o k | _ => None end.
Definition as_str (v : Value) : option string :=
  match v with Str s => Some s | _ => None end.
Definition as_array (v : Value) : option (list Value) :=
  match v with Array l => Some l | _ => None end.
Definition as_object (v : Value) : option Map :=
  match v with Object o => Some o | _ => None end.

(** [value.get(k).and_then(Value::as_str)]. *)
Definition get_str (v : Value) (k : string) : option string := get v k ≫= as_str.

(** ** Facts about maps *)

Lemma string_compare_refl s : String.compare s s = Eq.
Proof.
  pose proof (String.compare_antisym s s) as H.
  by destruct (String.compare s s).
Qed.


Lemma map_get_insert_eq o k v : map_get (map_insert o k v) k = Some v.
Proof.
  induction o as [|[k' v'] o IH]; simpl; [by rewrite bool_decide_true|].
  destruct (String.compare k k') eqn:Hc; simpl.
  - by rewrite bool_decide_true.
  - by rewrite bool_decide_true.
  - case_bool_decide as Hk; [|done]. subst. exfalso.
    by rewrite string_compare_refl in Hc.
Qed.

Lemma map_get_insert_ne o k k' v :
  k ≠ k' → map_get (map_insert o k v) k' = map_get o k'.
Proof.
  intros Hne. induction o as [|[k1 v1] o IH]; simpl.
  - by rewrite bool_decide_false.
  - destruct (String.compare k k1) eqn:Hc; simpl.
    + apply String.compare_eq_iff in Hc as ->. by rewrite !bool_decide_false.
    + by rewrite bool_decide_false.
    + case_bool_decide; [done|apply IH].
Qed.

Lemma map_get_remove_ne o k k' : k ≠ k' → map_get (map_remove o k) k' = map_get o k'.
Proof.
  intros Hne. induction o as [|[k1 v1] o IH]; simpl; [done|].
  case_bool_decide as H1; simpl; case_bool_decide as H2; naive_solver.
Qed.

(** The keys of a map, and maps without a duplicated key. *)
Definition map_keys (o : Map) : list string := o.*1.

Lemma map_remove_not_in o k : k ∉ map_keys o → map_remove o k = o.
Proof.
  induction o as [|[k1 v1] o IH]; simpl; [done|]. intros Hk.
  case_bool_decide as H1; [set_solver|]. rewrite IH; set_solver.
Qed.

Lemma map_get_None_not_in o k : map_get o k = None ↔ k ∉ map_keys o.
Proof.
  induction o as [|[k1 v1] o IH]; simpl; [set_solver|].
  case_bool_decide; set_solver.
Qed.
