(* ===== verification/Errors.v ===== *)
(** * Errors

    [DidError] (crates/anp-identity/src/error.rs), the error enum of the engine,
    and [IdentityError] (facade/error.rs), the coarser categories of the facade,
    with the conversion between them. *)

From stdpp Require Import base strings list.
From S2P Require Import Prelude.

Inductive DidError : Type :=
  | InvalidDomain
  | EmptyPath
  | InvalidPathSegment
  | InvalidKidFragment
  | InvalidManagedRootCount
  | ExternalRootControl
  | MissingManagedRequestSigning
  | ForeignKid
  | DuplicateKid
  | InvalidPublicKey
  | InvalidService
  | InvalidExtension
  | StoreNotFound
  | ProviderUnavailable
  | RootKeyMismatch
  | CorruptRecord
  | SecretNotFound
  | IdentityNotFound
  | DuplicateIdentity
  | KeyNotFound
  | ExternalKeyOperation
  | KeyRoleViolation
  | KeyNotUsable
  | KeyMaterialErased
  | InvalidRootTransfer
  | RootTransferExpired
  | RootCapabilityUnavailable
  | PendingRootTransferExists
  | InvalidPeerKey
  | VerificationFailed
  | PendingRevisionExists
  | PendingRevisionNotFound
  | InvalidPublicationState
  | InvalidIdentity
  | Conflict
  | Io (message : string)
  | Serialization (message : string)
  | Crypto
  | UnsupportedOperation.

#[export] Instance did_error_eq_dec : EqDecision DidError.
Proof. solve_decision. Defined.

Abbreviation DidResult := (result DidError).

(** The facade's error categories. *)
Module Facade.
Inductive IdentityError : Type :=
  | InvalidRequest
  | StoreNotFound
  | ProviderUnavailable
  | RootKeyMismatch
  | CorruptState
  | IdentityNotFound
  | IdentityAlreadyExists
  | KeyNotFound
  | KeyUnavailable
  | KeyPurposeViolation
  | AmbiguousKey
  | VerificationFailed
  | PendingDocumentChange
  | DocumentChangeNotFound
  | InvalidDocumentChangeState
  | Conflict
  | CapabilityUnavailable
  | Unsupported
  | Storage
  | Internal.

#[global] Instance identity_error_eq_dec : EqDecision IdentityError.
Proof. solve_decision. Defined.

(** [impl From<DidError> for IdentityError]. *)
Definition from_did_error (e : DidError) : IdentityError :=
  match e with
  | Errors.InvalidDomain | EmptyPath | InvalidPathSegment | InvalidKidFragment
  | InvalidManagedRootCount | ExternalRootControl | MissingManagedRequestSigning
  | ForeignKid | DuplicateKid | InvalidPublicKey | InvalidService | InvalidExtension
  | InvalidPeerKey | InvalidRootTransfer | RootTransferExpired => InvalidRequest
  | Errors.StoreNotFound => StoreNotFound
  | Errors.ProviderUnavailable => ProviderUnavailable
  | Errors.RootKeyMismatch => RootKeyMismatch
  | CorruptRecord | Serialization _ | InvalidIdentity => CorruptState
  | SecretNotFound | Errors.KeyNotFound => KeyNotFound
  | Errors.IdentityNotFound => IdentityNotFound
  | DuplicateIdentity => IdentityAlreadyExists
  | ExternalKeyOperation | KeyNotUsable | KeyMaterialErased => KeyUnavailable
  | KeyRoleViolation => KeyPurposeViolation
  | Errors.VerificationFailed => VerificationFailed
  | PendingRevisionExists | PendingRootTransferExists => PendingDocumentChange
  | PendingRevisionNotFound => DocumentChangeNotFound
  | InvalidPublicationState => InvalidDocumentChangeState
  | Errors.Conflict => Conflict
  | RootCapabilityUnavailable => CapabilityUnavailable
  | UnsupportedOperation => Unsupported
  | Io _ => Storage
  | Crypto => Internal
  end.
End Facade.

Abbreviation IdentityResult := (result Facade.IdentityError).
