(* ===== verification/Records.v ===== *)
(** * Persistent records

    The data types of the store: the enums and structs of registry.rs,
    input.rs, keystore.rs, adoption.rs, lifecycle.rs, root_transfer.rs and
    manifest.rs that are written to disk or passed between the components. *)

From stdpp Require Import base strings list gmap.
From S2P Require Import Prelude Json.

(** ** Enums *)

Module DidProfile.
Inductive t := E1 | Web.
#[global] Instance eq_dec : EqDecision t.
Proof. solve_decision. Defined.
(** [DidProfile::supports_root_control]. *)
Definition supports_root_control (p : t) : bool := bool_decide (p = E1).
End DidProfile.

Module KeyRole.
Inductive t := RootControl | DeviceSigning | RequestSigning | E2eeSigning | E2eeAgreement.
#[global] Instance eq_dec : EqDecision t.
Proof. solve_decision. Defined.
End KeyRole.

Module KeyOrigin.
Inductive t := Managed | External.
#[global] Instance eq_dec : EqDecision t.
Proof. solve_decision. Defined.
End KeyOrigin.

Module KeyState.
Inductive t := Pending | Active | Retired | Revoked.
#[global] Instance eq_dec : EqDecision t.
Proof. solve_decision. Defined.
End KeyState.

Module IdentityState.
Inductive t := Creating | Enrolling | Active | Revoked.
#[global] Instance eq_dec : EqDecision t.
Proof. solve_decision. Defined.
End IdentityState.

Module RootCapabilityState.
Inductive t := Absent | Pending | Active.
#[global] Instance eq_dec : EqDecision t.
Proof. solve_decision. Defined.
End RootCapabilityState.

Module PublicationState.
Inductive t := Prepared | PublicationInFlight | PublicationUncertain | Published.
#[global] Instance eq_dec : EqDecision t.
Proof. solve_decision. Defined.
End PublicationState.

Module CreationJournalKind.
Inductive t := Create | StateTransition | RootImport | NamespaceDelete.
#[global] Instance eq_dec : EqDecision t.
Proof. solve_decision. Defined.
End CreationJournalKind.

Module UpdateJournalKind.
Inductive t := Prepare | Cleanup.
#[global] Instance eq_dec : EqDecision t.
Proof. solve_decision. Defined.
End UpdateJournalKind.

Module IdentityTransitionJournalState.
Inductive t :=
  | Prepared | PublicationInFlight | PublicationUncertain | Committed | Aborted.
#[global] Instance eq_dec : EqDecision t.
Proof. solve_decision. Defined.
End IdentityTransitionJournalState.

(** ** Public key material of the anp crate *)

Inductive PublicKeyMaterial : Type :=
  | Ed25519 (key : string)
  | X25519 (key : string)
  | OtherKey (kind : string) (key : string).

#[export] Instance public_key_material_eq_dec : EqDecision PublicKeyMaterial.
Proof. solve_decision. Defined.

(** [anp::PrivateKeyMaterial], a key by its raw bytes. *)
Inductive PrivateKeyMaterial : Type :=
  | Ed25519Private (raw : string)
  | X25519Private (raw : string)
  | OtherPrivate (kind : string).

Record DeviceManifestEntry := {
  dme_device_id : string;
  dme_signing_key_id : string;
  dme_e2ee_key_id : string;
  dme_profiles : list string }.

Record DeviceManifest := {
  manifest_type : string;
  devices : list DeviceManifestEntry }.

(** ** Keystore references *)

Record SecretRef := {
  sr_identity_id : string;
  sr_key_id : string;
  sr_role : KeyRole.t;
  sr_version : N }.

#[export] Instance secret_ref_eq_dec : EqDecision SecretRef.
Proof. solve_decision. Defined.

Record EncryptedRecord := {
  er_schema_version : N;
  er_secret_ref : SecretRef;
  er_cipher : string;
  er_kdf : string;
  er_nonce_b64u : string;
  er_aad_b64u : string;
  er_ciphertext_b64u : string;
  er_created_at : string }.

(** ** Registry records *)

Record Capabilities := { did_wba : bool }.

Record DocumentCheckpoint := {
  document_version : N;
  registry_version : N;
  document_digest : string }.

#[export] Instance document_checkpoint_eq_dec : EqDecision DocumentCheckpoint.
Proof. solve_decision. Defined.

Record KeyMetadata := {
  kid : string;
  role : KeyRole.t;
  origin : KeyOrigin.t;
  key_state : KeyState.t;
  material_erased : bool;
  version : N;
  public_key_multibase : string;
  key_created_at : string }.

#[export] Instance key_metadata_eq_dec : EqDecision KeyMetadata.
Proof. solve_decision. Defined.

Record IdentitySummary := {
  is_identity_id : string;
  is_did : string;
  is_state : IdentityState.t;
  is_root_capability : RootCapabilityState.t;
  is_created_at : string }.

#[export] Instance identity_summary_eq_dec : EqDecision IdentitySummary.
Proof. solve_decision. Defined.

Record LocalAuthorizationRecord := {
  device_id : string;
  signing_kid : string;
  e2ee_kid : string;
  la_profiles : list string }.

Record PendingEnrollmentRecord := {
  pe_enrollment_id : string;
  pe_local_authorization : LocalAuthorizationRecord;
  pe_created_at : string }.

Record PendingRequestSigningRecord := {
  prs_enrollment_id : string;
  request_signing_kid : string;
  prs_created_at : string }.

Record PendingRootTransferRecord := {
  prt_transfer_digest : string;
  prt_root_kid : string;
  imported_at : string }.

Record RootTransferReplayRecord := {
  replay_nonce : string;
  transfer_digest : string;
  expires_at : string }.

Record PendingRevisionRecord := {
  revision_id : string;
  parent_revision : N;
  candidate_document : Value;
  candidate_digest : string;
  candidate_kids : list string;
  pending_secret_refs : list SecretRef;
  new_key_metadata : list KeyMetadata;
  retired_kids : list string;
  pr_state : PublicationState.t;
  pr_generation : N;
  pr_created_at : string }.

Record IdentityRecord := {
  schema_version : N;
  identity_id : string;
  did : string;
  state : IdentityState.t;
  revision : N;
  generation : N;
  document : Value;
  keys : list KeyMetadata;
  capabilities : Capabilities;
  root_capability : RootCapabilityState.t;
  root_key_fingerprint : option string;
  checkpoint : option DocumentCheckpoint;
  initial_publication_pending : bool;
  local_authorization : option LocalAuthorizationRecord;
  local_request_signing_kid : option string;
  pending_enrollment : option PendingEnrollmentRecord;
  pending_request_signing : option PendingRequestSigningRecord;
  pending_root_transfer : option PendingRootTransferRecord;
  root_transfer_replays : list RootTransferReplayRecord;
  retired_device_ids : list string;
  created_at : string;
  pending_revision : option PendingRevisionRecord }.

(** Field updates, for the assignments [record.field = v] of the source. *)
Definition set_state (v : IdentityState.t) (r : IdentityRecord) : IdentityRecord :=
  {| schema_version := schema_version r; identity_id := identity_id r; did := did r;
     state := v; revision := revision r; generation := generation r;
     document := document r; keys := keys r; capabilities := capabilities r;
     root_capability := root_capability r; root_key_fingerprint := root_key_fingerprint r;
     checkpoint := checkpoint r;
     initial_publication_pending := initial_publication_pending r;
     local_authorization := local_authorization r;
     local_request_signing_kid := local_request_signing_kid r;
     pending_enrollment := pending_enrollment r;
     pending_request_signing := pending_request_signing r;
     pending_root_transfer := pending_root_transfer r;
     root_transfer_replays := root_transfer_replays r;
     retired_device_ids := retired_device_ids r; created_at := created_at r;
     pending_revision := pending_revision r |}.
Definition set_revision (v : N) (r : IdentityRecord) : IdentityRecord :=
  {| schema_version := schema_version r; identity_id := identity_id r; did := did r;
     state := state r; revision := v; generation := generation r; document := document r;
     keys := keys r; capabilities := capabilities r; root_capability := root_capability r;
     root_key_fingerprint := root_key_fingerprint r; checkpoint := checkpoint r;
     initial_publication_pending := initial_publication_pending r;
     local_authorization := local_authorization r;
     local_request_signing_kid := local_request_signing_kid r;
     pending_enrollment := pending_enrollment r;
     pending_request_signing := pending_request_signing r;
     pending_root_transfer := pending_root_transfer r;
     root_transfer_replays := root_transfer_replays r;
     retired_device_ids := retired_device_ids r; created_at := created_at r;
     pending_revision := pending_revision r |}.
Definition set_generation (v : N) (r : IdentityRecord) : IdentityRecord :=
  {| schema_version := schema_version r; identity_id := identity_id r; did := did r;
     state := state r; revision := revision r; generation := v; document := document r;
     keys := keys r; capabilities := capabilities r; root_capability := root_capability r;
     root_key_fingerprint := root_key_fingerprint r; checkpoint := checkpoint r;
     initial_publication_pending := initial_publication_pending r;
     local_authorization := local_authorization r;
     local_request_signing_kid := local_request_signing_kid r;
     pending_enrollment := pending_enrollment r;
     pending_request_signing := pending_request_signing r;
     pending_root_transfer := pending_root_transfer r;
     root_transfer_replays := root_transfer_replays r;
     retired_device_ids := retired_device_ids r; created_at := created_at r;
     pending_revision := pending_revision r |}.
Definition set_document (v : Value) (r : IdentityRecord) : IdentityRecord :=
  {| schema_version := schema_version r; identity_id := identity_id r; did := did r;
     state := state r; revision := revision r; generation := generation r; document := v;
     keys := keys r; capabilities := capabilities r; root_capability := root_capability r;
     root_key_fingerprint := root_key_fingerprint r; checkpoint := checkpoint r;
     initial_publication_pending := initial_publication_pending r;
     local_authorization := local_authorization r;
     local_request_signing_kid := local_request_signing_kid r;
     pending_enrollment := pending_enrollment r;
     pending_request_signing := pending_request_signing r;
     pending_root_transfer := pending_root_transfer r;
     root_transfer_replays := root_transfer_replays r;
     retired_device_ids := retired_device_ids r; created_at := created_at r;
     pending_revision := pending_revision r |}.
Definition set_keys (v : list KeyMetadata) (r : IdentityRecord) : IdentityRecord :=
  {| schema_version := schema_version r; identity_id := identity_id r; did := did r;
     state := state r; revision := revision r; generation := generation r;
     document := document r; keys := v; capabilities := capabilities r;
     root_capability := root_capability r; root_key_fingerprint := root_key_fingerprint r;
     checkpoint := checkpoint r;
     initial_publication_pending := initial_publication_pending r;
     local_authorization := local_authorization r;
     local_request_signing_kid := local_request_signing_kid r;
     pending_enrollment := pending_enrollment r;
     pending_request_signing := pending_request_signing r;
     pending_root_transfer := pending_root_transfer r;
     root_transfer_replays := root_transfer_replays r;
     retired_device_ids := retired_device_ids r; created_at := created_at r;
     pending_revision := pending_revision r |}.
Definition set_root_capability (v : RootCapabilityState.t) (r : IdentityRecord) : IdentityRecord :=
  {| schema_version := schema_version r; identity_id := identity_id r; did := did r;
     state := state r; revision := revision r; generation := generation r;
     document := document r; keys := keys r; capabilities := capabilities r;
     root_capability := v; root_key_fingerprint := root_key_fingerprint r;
     checkpoint := checkpoint r;
     initial_publication_pending := initial_publication_pending r;
     local_authorization := local_authorization r;
     local_request_signing_kid := local_request_signing_kid r;
     pending_enrollment := pending_enrollment r;
     pending_request_signing := pending_request_signing r;
     pending_root_transfer := pending_root_transfer r;
     root_transfer_replays := root_transfer_replays r;
     retired_device_ids := retired_device_ids r; created_at := created_at r;
     pending_revision := pending_revision r |}.
Definition set_root_key_fingerprint (v : option string) (r : IdentityRecord) : IdentityRecord :=
  {| schema_version := schema_version r; identity_id := identity_id r; did := did r;
     state := state r; revision := revision r; generation := generation r;
     document := document r; keys := keys r; capabilities := capabilities r;
     root_capability := root_capability r; root_key_fingerprint := v;
     checkpoint := checkpoint r;
     initial_publication_pending := initial_publication_pending r;
     local_authorization := local_authorization r;
     local_request_signing_kid := local_request_signing_kid r;
     pending_enrollment := pending_enrollment r;
     pending_request_signing := pending_request_signing r;
     pending_root_transfer := pending_root_transfer r;
     root_transfer_replays := root_transfer_replays r;
     retired_device_ids := retired_device_ids r; created_at := created_at r;
     pending_revision := pending_revision r |}.
Definition set_checkpoint (v : option DocumentCheckpoint) (r : IdentityRecord) : IdentityRecord :=
  {| schema_version := schema_version r; identity_id := identity_id r; did := did r;
     state := state r; revision := revision r; generation := generation r;
     document := document r; keys := keys r; capabilities := capabilities r;
     root_capability := root_capability r; root_key_fingerprint := root_key_fingerprint r;
     checkpoint := v; initial_publication_pending := initial_publication_pending r;
     local_authorization := local_authorization r;
     local_request_signing_kid := local_request_signing_kid r;
     pending_enrollment := pending_enrollment r;
     pending_request_signing := pending_request_signing r;
     pending_root_transfer := pending_root_transfer r;
     root_transfer_replays := root_transfer_replays r;
     retired_device_ids := retired_device_ids r; created_at := created_at r;
     pending_revision := pending_revision r |}.
Definition set_initial_publication_pending (v : bool) (r : IdentityRecord) : IdentityRecord :=
  {| schema_version := schema_version r; identity_id := identity_id r; did := did r;
     state := state r; revision := revision r; generation := generation r;
     document := document r; keys := keys r; capabilities := capabilities r;
     root_capability := root_capability r; root_key_fingerprint := root_key_fingerprint r;
     checkpoint := checkpoint r; initial_publication_pending := v;
     local_authorization := local_authorization r;
     local_request_signing_kid := local_request_signing_kid r;
     pending_enrollment := pending_enrollment r;
     pending_request_signing := pending_request_signing r;
     pending_root_transfer := pending_root_transfer r;
     root_transfer_replays := root_transfer_replays r;
     retired_device_ids := retired_device_ids r; created_at := created_at r;
     pending_revision := pending_revision r |}.
Definition set_local_authorization (v : option LocalAuthorizationRecord) (r : IdentityRecord) : IdentityRecord :=
  {| schema_version := schema_version r; identity_id := identity_id r; did := did r;
     state := state r; revision := revision r; generation := generation r;
     document := document r; keys := keys r; capabilities := capabilities r;
     root_capability := root_capability r; root_key_fingerprint := root_key_fingerprint r;
     checkpoint := checkpoint r;
     initial_publication_pending := initial_publication_pending r;
     local_authorization := v; local_request_signing_kid := local_request_signing_kid r;
     pending_enrollment := pending_enrollment r;
     pending_request_signing := pending_request_signing r;
     pending_root_transfer := pending_root_transfer r;
     root_transfer_replays := root_transfer_replays r;
     retired_device_ids := retired_device_ids r; created_at := created_at r;
     pending_revision := pending_revision r |}.
Definition set_local_request_signing_kid (v : option string) (r : IdentityRecord) : IdentityRecord :=
  {| schema_version := schema_version r; identity_id := identity_id r; did := did r;
     state := state r; revision := revision r; generation := generation r;
     document := document r; keys := keys r; capabilities := capabilities r;
     root_capability := root_capability r; root_key_fingerprint := root_key_fingerprint r;
     checkpoint := checkpoint r;
     initial_publication_pending := initial_publication_pending r;
     local_authorization := local_authorization r; local_request_signing_kid := v;
     pending_enrollment := pending_enrollment r;
     pending_request_signing := pending_request_signing r;
     pending_root_transfer := pending_root_transfer r;
     root_transfer_replays := root_transfer_replays r;
     retired_device_ids := retired_device_ids r; created_at := created_at r;
     pending_revision := pending_revision r |}.
Definition set_pending_enrollment (v : option PendingEnrollmentRecord) (r : IdentityRecord) : IdentityRecord :=
  {| schema_version := schema_version r; identity_id := identity_id r; did := did r;
     state := state r; revision := revision r; generation := generation r;
     document := document r; keys := keys r; capabilities := capabilities r;
     root_capability := root_capability r; root_key_fingerprint := root_key_fingerprint r;
     checkpoint := checkpoint r;
     initial_publication_pending := initial_publication_pending r;
     local_authorization := local_authorization r;
     local_request_signing_kid := local_request_signing_kid r; pending_enrollment := v;
     pending_request_signing := pending_request_signing r;
     pending_root_transfer := pending_root_transfer r;
     root_transfer_replays := root_transfer_replays r;
     retired_device_ids := retired_device_ids r; created_at := created_at r;
     pending_revision := pending_revision r |}.
Definition set_pending_request_signing (v : option PendingRequestSigningRecord) (r : IdentityRecord) : IdentityRecord :=
  {| schema_version := schema_version r; identity_id := identity_id r; did := did r;
     state := state r; revision := revision r; generation := generation r;
     document := document r; keys := keys r; capabilities := capabilities r;
     root_capability := root_capability r; root_key_fingerprint := root_key_fingerprint r;
     checkpoint := checkpoint r;
     initial_publication_pending := initial_publication_pending r;
     local_authorization := local_authorization r;
     local_request_signing_kid := local_request_signing_kid r;
     pending_enrollment := pending_enrollment r; pending_request_signing := v;
     pending_root_transfer := pending_root_transfer r;
     root_transfer_replays := root_transfer_replays r;
     retired_device_ids := retired_device_ids r; created_at := created_at r;
     pending_revision := pending_revision r |}.
Definition set_pending_root_transfer (v : option PendingRootTransferRecord) (r : IdentityRecord) : IdentityRecord :=
  {| schema_version := schema_version r; identity_id := identity_id r; did := did r;
     state := state r; revision := revision r; generation := generation r;
     document := document r; keys := keys r; capabilities := capabilities r;
     root_capability := root_capability r; root_key_fingerprint := root_key_fingerprint r;
     checkpoint := checkpoint r;
     initial_publication_pending := initial_publication_pending r;
     local_authorization := local_authorization r;
     local_request_signing_kid := local_request_signing_kid r;
     pending_enrollment := pending_enrollment r;
     pending_request_signing := pending_request_signing r; pending_root_transfer := v;
     root_transfer_replays := root_transfer_replays r;
     retired_device_ids := retired_device_ids r; created_at := created_at r;
     pending_revision := pending_revision r |}.
Definition set_root_transfer_replays (v : list RootTransferReplayRecord) (r : IdentityRecord) : IdentityRecord :=
  {| schema_version := schema_version r; identity_id := identity_id r; did := did r;
     state := state r; revision := revision r; generation := generation r;
     document := document r; keys := keys r; capabilities := capabilities r;
     root_capability := root_capability r; root_key_fingerprint := root_key_fingerprint r;
     checkpoint := checkpoint r;
     initial_publication_pending := initial_publication_pending r;
     local_authorization := local_authorization r;
     local_request_signing_kid := local_request_signing_kid r;
     pending_enrollment := pending_enrollment r;
     pending_request_signing := pending_request_signing r;
     pending_root_transfer := pending_root_transfer r; root_transfer_replays := v;
     retired_device_ids := retired_device_ids r; created_at := created_at r;
     pending_revision := pending_revision r |}.
Definition set_retired_device_ids (v : list string) (r : IdentityRecord) : IdentityRecord :=
  {| schema_version := schema_version r; identity_id := identity_id r; did := did r;
     state := state r; revision := revision r; generation := generation r;
     document := document r; keys := keys r; capabilities := capabilities r;
     root_capability := root_capability r; root_key_fingerprint := root_key_fingerprint r;
     checkpoint := checkpoint r;
     initial_publication_pending := initial_publication_pending r;
     local_authorization := local_authorization r;
     local_request_signing_kid := local_request_signing_kid r;
     pending_enrollment := pending_enrollment r;
     pending_request_signing := pending_request_signing r;
     pending_root_transfer := pending_root_transfer r;
     root_transfer_replays := root_transfer_replays r; retired_device_ids := v;
     created_at := created_at r; pending_revision := pending_revision r |}.
Definition set_pending_revision (v : option PendingRevisionRecord) (r : IdentityRecord) : IdentityRecord :=
  {| schema_version := schema_version r; identity_id := identity_id r; did := did r;
     state := state r; revision := revision r; generation := generation r;
     document := document r; keys := keys r; capabilities := capabilities r;
     root_capability := root_capability r; root_key_fingerprint := root_key_fingerprint r;
     checkpoint := checkpoint r;
     initial_publication_pending := initial_publication_pending r;
     local_authorization := local_authorization r;
     local_request_signing_kid := local_request_signing_kid r;
     pending_enrollment := pending_enrollment r;
     pending_request_signing := pending_request_signing r;
     pending_root_transfer := pending_root_transfer r;
     root_transfer_replays := root_transfer_replays r;
     retired_device_ids := retired_device_ids r; created_at := created_at r;
     pending_revision := v |}.

Definition set_key_state (v : KeyState.t) (r : KeyMetadata) : KeyMetadata :=
  {| kid := kid r; role := role r; origin := origin r; key_state := v;
     material_erased := material_erased r; version := version r;
     public_key_multibase := public_key_multibase r; key_created_at := key_created_at r |}.
Definition set_origin (v : KeyOrigin.t) (r : KeyMetadata) : KeyMetadata :=
  {| kid := kid r; role := role r; origin := v; key_state := key_state r;
     material_erased := material_erased r; version := version r;
     public_key_multibase := public_key_multibase r; key_created_at := key_created_at r |}.
Definition set_material_erased (v : bool) (r : KeyMetadata) : KeyMetadata :=
  {| kid := kid r; role := role r; origin := origin r; key_state := key_state r;
     material_erased := v; version := version r;
     public_key_multibase := public_key_multibase r; key_created_at := key_created_at r |}.

Definition set_pr_state (v : PublicationState.t) (r : PendingRevisionRecord) : PendingRevisionRecord :=
  {| revision_id := revision_id r; parent_revision := parent_revision r;
     candidate_document := candidate_document r; candidate_digest := candidate_digest r;
     candidate_kids := candidate_kids r; pending_secret_refs := pending_secret_refs r;
     new_key_metadata := new_key_metadata r; retired_kids := retired_kids r; pr_state := v;
     pr_generation := pr_generation r; pr_created_at := pr_created_at r |}.
Definition set_pr_generation (v : N) (r : PendingRevisionRecord) : PendingRevisionRecord :=
  {| revision_id := revision_id r; parent_revision := parent_revision r;
     candidate_document := candidate_document r; candidate_digest := candidate_digest r;
     candidate_kids := candidate_kids r; pending_secret_refs := pending_secret_refs r;
     new_key_metadata := new_key_metadata r; retired_kids := retired_kids r;
     pr_state := pr_state r; pr_generation := v; pr_created_at := pr_created_at r |}.

Definition set_la_profiles (v : list string) (r : LocalAuthorizationRecord) : LocalAuthorizationRecord :=
  {| device_id := device_id r; signing_kid := signing_kid r; e2ee_kid := e2ee_kid r;
     la_profiles := v |}.

Definition set_is_state (v : IdentityState.t) (r : IdentitySummary) : IdentitySummary :=
  {| is_identity_id := is_identity_id r; is_did := is_did r; is_state := v;
     is_root_capability := is_root_capability r; is_created_at := is_created_at r |}.

(** ** Journals *)

Record CreationJournal := {
  cj_schema_version : N;
  cj_kind : CreationJournalKind.t;
  transaction_id : string;
  cj_identity_id : string;
  cj_did : string;
  cj_secret_refs : list SecretRef;
  cj_created_at : string }.

Record UpdateJournal := {
  uj_schema_version : N;
  uj_revision_id : string;
  uj_identity_id : string;
  uj_secret_refs : list SecretRef;
  uj_kind : UpdateJournalKind.t;
  uj_created_at : string }.

(** The journal of an identity transition.  A journal file may also have a member
    [provider_document], which older versions wrote: it is accepted when a journal is read
    ([_legacy_provider_document]), nothing reads it afterwards, and it is skipped when a
    journal is written, so that it has no part in this record. *)
Record IdentityTransitionJournal := {
  itj_schema_version : N;
  operation_id : string;
  expected_current_did : string;
  predecessor_identity_id : string;
  predecessor_generation : N;
  successor_did : string;
  successor_identity_id : string;
  successor_generation : N;
  trusted_predecessor_document : Value;
  predecessor_document : Value;
  successor_document : Value;
  predecessor_digest : string;
  successor_digest : string;
  assurance : string;
  itj_state : IdentityTransitionJournalState.t;
  itj_generation : N;
  itj_created_at : string }.

Record IdentityRegistry := {
  reg_schema_version : N;
  reg_generation : N;
  identities : gmap string IdentitySummary }.

(** [IdentityRegistry::default]. *)
Definition default_registry : IdentityRegistry :=
  {| reg_schema_version := 1; reg_generation := 0; identities := ∅ |}.

(** ** Store manifest *)

Module RootKeyProviderKind.
Inductive t := OsKeyring | Injected | LocalPrivateFile.
#[global] Instance eq_dec : EqDecision t.
Proof. solve_decision. Defined.
End RootKeyProviderKind.

Record RootKeyProviderBinding := {
  rkp_kind : RootKeyProviderKind.t;
  rkp_key_id : string;
  rkp_account : option string }.

#[export] Instance root_key_provider_binding_eq_dec : EqDecision RootKeyProviderBinding.
Proof. solve_decision. Defined.

Record StoreManifest := {
  sm_schema_version : N;
  store_id : string;
  sm_generation : N;
  provider : RootKeyProviderBinding;
  sm_root_key_fingerprint : string;
  sm_created_at : string;
  rekey_generation : N }.

(** ** Evidence of a published document *)

Record VerifiedDocumentEvidence := {
  ev_document_version : N;
  ev_registry_version : N;
  ev_document_digest : string }.

Record AdoptVerifiedDocumentSpec := {
  avd_document : Value;
  avd_evidence : VerifiedDocumentEvidence }.
