(* ===== verification/Env.v ===== *)
(** * The environment of the crate

    Everything the crate calls that is not its own code or the Rust standard
    library: the [anp] crate, the cryptographic crates, [chrono] and the
    operating system's randomness.  [Env] collects these operations; every
    definition of the library is parametric in them.  The laws a theorem relies
    on are the separate classes below, each a documented property of the
    operation it speaks about. *)

From stdpp Require Import base strings list.
From S2P Require Import Prelude Json Records.

(** Inputs of [anp::authentication::build_unsigned_e1_did_document]. *)
Module DidVerificationRelationship.
Inductive t := Authentication | AssertionMethod | KeyAgreement.
#[global] Instance eq_dec : EqDecision t.
Proof. solve_decision. Defined.
End DidVerificationRelationship.

Record SuppliedDidKey := {
  sdk_fragment : string;
  sdk_role : KeyRole.t;
  sdk_public_key : PublicKeyMaterial;
  sdk_relationships : list DidVerificationRelationship.t }.

Record SuppliedE1DidDocumentOptions := {
  sed_port : option N;
  sed_path_segments : list string;
  sed_agent_description_url : option string;
  sed_services : list Value;
  sed_root_key : SuppliedDidKey;
  sed_additional_keys : list SuppliedDidKey }.

(** [anp::proof::ProofGenerationOptions]. *)
Record ProofGenerationOptions := {
  proof_purpose : option string;
  proof_type : option string;
  cryptosuite : option string;
  proof_created : option string;
  proof_domain : option string;
  proof_challenge : option string }.

Module TransitionAssurance.
Inductive t := Verified | RecoveryVerified | ProviderAsserted | Unverified.
#[global] Instance eq_dec : EqDecision t.
Proof. solve_decision. Defined.
End TransitionAssurance.

(** [anp::authentication::HttpSignatureOptions]. *)
Record HttpSignatureOptions := {
  hso_keyid : option string;
  hso_nonce : option string;
  hso_created : option Z;
  hso_expires : option Z;
  hso_covered_components : option (list string) }.

(** [anp::proof::Rfc9421OriginProofGenerationOptions] and [Rfc9421OriginProof]. *)
Record Rfc9421OriginProofGenerationOptions := {
  origin_created : option Z;
  origin_expires : option Z;
  origin_nonce : option string;
  origin_label : option string }.
Record Rfc9421OriginProof := {
  origin_content_digest : string;
  origin_signature_input : string;
  origin_signature : string }.

Class Env := {
  (* anp::authentication *)
  did_web_resolution_url_ok : string → bool;
  extract_public_key : Value → option PublicKeyMaterial;
  find_verification_method : Value → string → option Value;
  validate_device_manifest : Value → option (option DeviceManifest);
  validate_did_document_method : Value → bool;
  validate_did_document_binding : Value → bool;
  is_authentication_authorized : Value → string → bool;
  is_assertion_method_authorized : Value → string → bool;
  manifest_from_value : Value → option DeviceManifest;
  manifest_to_value : DeviceManifest → option Value;
  device_manifest_type : string;
  build_unsigned_e1_did_document :
    string → SuppliedE1DidDocumentOptions → option Value;
  verify_active_e1_document : string → Value → bool;
  verify_transition_hop : Value → Value → option Value → option TransitionAssurance.t;
  (* anp::proof *)
  prepared_proof : Type;
  signing_input : prepared_proof → string;
  prepare_w3c_proof :
    Value → PublicKeyMaterial → string → ProofGenerationOptions → option prepared_proof;
  complete_w3c_proof : prepared_proof → string → option Value;
  prepare_object_proof :
    Value → PublicKeyMaterial → string → string → option string → option prepared_proof;
  complete_object_proof : prepared_proof → string → option Value;
  proof_type_data_integrity : string;
  cryptosuite_eddsa_jcs_2022 : string;
  prepared_origin : Type;
  origin_signing_input : prepared_origin → string;
  prepare_rfc9421_origin_proof : string → Value → Value → PublicKeyMaterial → string →
    Rfc9421OriginProofGenerationOptions → option prepared_origin;
  complete_rfc9421_origin_proof : prepared_origin → string → option Rfc9421OriginProof;
  (* request signatures of anp::authentication; a header map is in key order *)
  prepared_header : Type;
  header_signing_input : prepared_header → string;
  prepare_legacy_did_wba_auth_header :
    Value → string → string → string → option prepared_header;
  complete_legacy_did_wba_auth_header : prepared_header → string → option string;
  prepare_http_signature_headers : Value → string → string → option (list (string * string)) →
    option string → HttpSignatureOptions → option prepared_header;
  complete_http_signature_headers : prepared_header → string → option (list (string * string));
  verify_message : PublicKeyMaterial → string → string → bool;
  (* encodings and digests *)
  canonical_json : Value → option string;
  sha256 : string → string;
  b64url_encode : string → string;
  b64url_decode : string → option string;
  bs58_encode : string → string;
  (* symmetric and asymmetric primitives *)
  hkdf_sha256 : string → string → string → option string;
  aead_encrypt : string → string → string → string → option string;
  aead_decrypt : string → string → string → string → option string;
  ed25519_public : string → string;
  ed25519_sign : string → string → string;
  x25519_public : string → string;
  x25519_dh : string → string → string;
  from_pkcs8_der : string → option PrivateKeyMaterial;
  other_public : string → PublicKeyMaterial;
  (* randomness and time: the value of the n-th draw and of the n-th reading *)
  random_bytes : nat → nat → string;
  random_ed25519_key : nat → string;
  random_x25519_key : nat → string;
  clock_rfc3339 : nat → string;
  (* instants in nanoseconds since the epoch: the n-th reading, and chrono's RFC 3339 texts *)
  clock_utc : nat → Z;
  parse_rfc3339 : string → option Z;
  rfc3339_secs : Z → string;
  (* the text of an operating-system error *)
  os_error : string }.

(** Base64url encoding is decoded to what was encoded. *)
Class Base64Laws `{Env} := {
  b64url_roundtrip s : b64url_decode (b64url_encode s) = Some s }.

(** ChaCha20-Poly1305 opens what it sealed under the same key, nonce and
    associated data, and accepts a 32-byte key and a 12-byte nonce. *)
Class AeadLaws `{Env} := {
  aead_roundtrip key nonce aad msg ct :
    aead_encrypt key nonce aad msg = Some ct → aead_decrypt key nonce aad ct = Some msg }.

(** HKDF-SHA256 expands to the 32 bytes of a key, and ChaCha20-Poly1305 seals under a
    32-byte key and a 12-byte nonce. *)
Class SealLaws `{Env} := {
  hkdf_defined salt ikm info :
    ∃ key, hkdf_sha256 salt ikm info = Some key ∧ String.length key = 32;
  aead_defined key nonce aad msg :
    String.length key = 32 → String.length nonce = 12 →
    is_Some (aead_encrypt key nonce aad msg) }.

(** An instant of the years up to 9999, printed with seconds, is parsed back without
    its fraction. *)
Class TimeLaws `{Env} := {
  rfc3339_roundtrip t : (0 ≤ t < 253402300800 * 1000000000)%Z →
    parse_rfc3339 (rfc3339_secs t) = Some (t / 1000000000 * 1000000000)%Z }.

(** The operating system returns as many random bytes as were asked for, and a
    generated private key has 32 bytes. *)
Class RandomLaws `{Env} := {
  random_bytes_length n len : String.length (random_bytes n len) = len;
  random_ed25519_length n : String.length (random_ed25519_key n) = 32;
  random_x25519_length n : String.length (random_x25519_key n) = 32 }.

(** SHA-256 is used as a collision-free function. *)
Class DigestLaws `{Env} := {
  sha256_inj s t : sha256 s = sha256 t → s = t }.

(** The builder of e1 documents gives them a [did:wba] identifier, and completing
    a proof does not change the identifier of the document it was prepared for. *)
Class DidDocumentLaws `{Env} := {
  e1_document_id domain o doc :
    build_unsigned_e1_did_document domain o = Some doc →
    ∃ suffix, get_str doc "id" = Some ("did:wba:" +:+ suffix)%string;
  w3c_proof_keeps_id doc public k o prepared signature signed :
    prepare_w3c_proof doc public k o = Some prepared →
    complete_w3c_proof prepared signature = Some signed →
    get_str signed "id" = get_str doc "id" }.

(** A signature verifies under the public key of the key that made it. *)
Class SignatureLaws `{Env} := {
  verify_signed sk msg : verify_message (Ed25519 (ed25519_public sk)) msg (ed25519_sign sk msg) = true }.

(** X25519: both sides compute the same shared secret, of 32 bytes. *)
Class AgreementLaws `{Env} := {
  x25519_public_length a : String.length (x25519_public a) = 32;
  x25519_agree a b : x25519_dh a (x25519_public b) = x25519_dh b (x25519_public a) }.

(** Base58 is injective, so a multibase text determines the key. *)
Class Base58Laws `{Env} := {
  bs58_inj s t : bs58_encode s = bs58_encode t → s = t }.

(** RFC 8410: the PKCS#8 form of a raw Ed25519 key, which is what is parsed back. *)
Definition ED25519_PKCS8_PREFIX : string :=
  bytes [48; 46; 2; 1; 0; 48; 5; 6; 3; 43; 101; 112; 4; 34; 4; 32].
Class Pkcs8Laws `{Env} := {
  pkcs8_ed25519 raw : String.length raw = 32 →
    from_pkcs8_der (ED25519_PKCS8_PREFIX +:+ raw)%string = Some (Ed25519Private raw);
  pkcs8_ed25519_length s raw : from_pkcs8_der s = Some (Ed25519Private raw) → String.length raw = 32;
  pkcs8_x25519_length s raw : from_pkcs8_der s = Some (X25519Private raw) → String.length raw = 32 }.

Section Encodings.
Context `{Env, !Base64Laws}.

Lemma b64url_encode_inj s t : b64url_encode s = b64url_encode t → s = t.
Proof.
  intros Heq. apply (f_equal b64url_decode) in Heq.
  rewrite !b64url_roundtrip in Heq. by injection Heq.
Qed.
End Encodings.
