(* ===== verification/Toy.v ===== *)
(** * A concrete environment

    An executable instance of [Env], with which the witnesses evaluate the
    definitions of the library on concrete inputs: encodings and digests are the
    identity, sealing keeps the plaintext, a public key is its private key, and
    DID documents are plain JSON objects that are looked up literally. *)

From stdpp Require Import base strings list gmap pretty.
From Stdlib Require Import Ascii.
From S2P Require Import Prelude Json Records Env.

Fixpoint pad (len : nat) (s : string) : string :=
  match len with
  | 0 => EmptyString
  | S len =>
      match s with
      | EmptyString => String "x"%char (pad len EmptyString)
      | String a s => String a (pad len s)
      end
  end.

Lemma pad_length len s : String.length (pad len s) = len.
Proof. revert s. induction len as [|len IH]; intros [|a s]; simpl; auto. Qed.

(** A printer for JSON values. *)
Fixpoint print_value (v : Value) : string :=
  match v with
  | Null => "null"
  | Bool true => "true"
  | Bool false => "false"
  | Number (PosInt n) => pretty n
  | Number (NegInt n) => pretty n
  | Number (Float b) => ("f" +:+ pretty b)%string
  | Str s => ("'" +:+ s +:+ "'")%string
  | Array l =>
      ("[" +:+ (fix go l := match l with
                | [] => "]" | v :: l => print_value v +:+ "," +:+ go l end) l)%string
  | Object o =>
      ("{" +:+ (fix go (o : Map) := match o with
                | [] => "}" | (k, v) :: o => k +:+ ":" +:+ print_value v +:+ "," +:+ go o
                end) o)%string
  end.

Definition toy_extract (method : Value) : option PublicKeyMaterial :=
  match get_str method "publicKeyMultibase" with
  | Some m =>
      match strip_prefix (bytes [122; 237; 1]) m with
      | Some k => Some (Ed25519 k)
      | None =>
          match strip_prefix (bytes [122; 236; 1]) m with
          | Some k => Some (X25519 k)
          | None => None
          end
      end
  | None => None
  end.

Definition toy_find_method (doc : Value) (kid : string) : option Value :=
  match get doc "verificationMethod" ≫= as_array with
  | Some l => List.find (λ m, bool_decide (get_str m "id" = Some kid)) l
  | None => None
  end.

Definition toy_relationship (name : string) (doc : Value) (kid : string) : bool :=
  match get doc name ≫= as_array with
  | Some l => existsb (λ e, bool_decide (as_str e = Some kid)) l
  | None => false
  end.

Definition strings_of (v : Value) : option (list string) :=
  match as_array v with
  | Some l => mapM as_str l
  | None => None
  end.

Definition toy_entry (v : Value) : option DeviceManifestEntry :=
  d ← get_str v "device_id"; s ← get_str v "signing_key_id"; e ← get_str v "e2ee_key_id";
  p ← get v "profiles" ≫= strings_of;
  Some {| dme_device_id := d; dme_signing_key_id := s; dme_e2ee_key_id := e;
          dme_profiles := p |}.

Definition toy_manifest_from_value (v : Value) : option DeviceManifest :=
  t ← get_str v "type"; l ← get v "devices" ≫= as_array; ds ← mapM toy_entry l;
  Some {| manifest_type := t; devices := ds |}.

Definition toy_manifest_to_value (m : DeviceManifest) : Value :=
  json_object
    [("type", Str (manifest_type m));
     ("devices", Array (map (λ d, json_object
        [("device_id", Str (dme_device_id d)); ("signing_key_id", Str (dme_signing_key_id d));
         ("e2ee_key_id", Str (dme_e2ee_key_id d));
         ("profiles", Array (map Str (dme_profiles d)))]) (devices m)))].

Definition toy_validate_manifest (doc : Value) : option (option DeviceManifest) :=
  match get doc "deviceManifest" with
  | None => Some None
  | Some v => match toy_manifest_from_value v with Some m => Some (Some m) | None => None end
  end.

Definition toy_multibase (k : PublicKeyMaterial) : string :=
  match k with
  | Ed25519 k => bytes [122; 237; 1] +:+ k
  | X25519 k => bytes [122; 236; 1] +:+ k
  | OtherKey _ k => k
  end.

Definition toy_e1_document (domain : string) (o : SuppliedE1DidDocumentOptions)
    : option Value :=
  let did := ("did:wba:" +:+ domain +:+
    foldr (λ s acc, ":" +:+ s +:+ acc) "" (sed_path_segments o) +:+ ":e1_" +:+
    toy_multibase (sdk_public_key (sed_root_key o)))%string in
  let all := sed_root_key o :: sed_additional_keys o in
  let kid k := (did +:+ "#" +:+ sdk_fragment k)%string in
  let rel r := Array (map (λ k, Str (kid k)) (filter (λ k, r ∈ sdk_relationships k) all)) in
  Some (json_object
    [("id", Str did);
     ("verificationMethod",
       Array (map (λ k, json_object
         [("id", Str (kid k)); ("type", Str "Multikey"); ("controller", Str did);
          ("publicKeyMultibase", Str (toy_multibase (sdk_public_key k)))]) all));
     ("authentication", rel DidVerificationRelationship.Authentication);
     ("assertionMethod", rel DidVerificationRelationship.AssertionMethod);
     ("keyAgreement", rel DidVerificationRelationship.KeyAgreement)]).

Definition toy_complete_proof (p : Value * string) (signature : string) : option Value :=
  match p.1 with
  | Object o => Some (Object (map_insert o "proof"
      (json_object [("verificationMethod", Str p.2); ("proofValue", Str signature)])))
  | _ => None
  end.

Definition toy_min (k p : string) : string := if String.leb k p then k else p.

Lemma toy_min_comm k p : toy_min k p = toy_min p k.
Proof.
  unfold toy_min. destruct (String.leb k p) eqn:H1, (String.leb p k) eqn:H2; try done.
  - by apply String.leb_antisym.
  - destruct (String.leb_total k p); congruence.
Qed.

Definition toy_pkcs8 (s : string) : option PrivateKeyMaterial :=
  match strip_prefix ED25519_PKCS8_PREFIX s with
  | Some raw => if bool_decide (String.length raw = 32) then Some (Ed25519Private raw) else None
  | None => None
  end.

(** The environment, over functions that stand for base64url and for the canonical form of a
    JSON value. *)
Definition toy_env_with (encode : string → string) (decode : string → option string)
    (canonical : Value → string) : Env := {|
  did_web_resolution_url_ok _ := true;
  extract_public_key := toy_extract;
  find_verification_method := toy_find_method;
  validate_device_manifest := toy_validate_manifest;
  validate_did_document_method _ := true;
  validate_did_document_binding _ := true;
  is_authentication_authorized := toy_relationship "authentication";
  is_assertion_method_authorized := toy_relationship "assertionMethod";
  manifest_from_value := toy_manifest_from_value;
  manifest_to_value m := Some (toy_manifest_to_value m);
  device_manifest_type := "ANPDeviceManifest";
  build_unsigned_e1_did_document := toy_e1_document;
  verify_active_e1_document _ _ := true;
  verify_transition_hop _ _ _ := Some TransitionAssurance.Verified;
  prepared_proof := Value * string;
  signing_input _ := "signing-input";
  prepare_w3c_proof doc _ kid _ := Some (doc, kid);
  complete_w3c_proof := toy_complete_proof;
  prepare_object_proof doc _ kid _ _ := Some (doc, kid);
  complete_object_proof := toy_complete_proof;
  proof_type_data_integrity := "DataIntegrityProof";
  cryptosuite_eddsa_jcs_2022 := "eddsa-jcs-2022";
  prepared_origin := string;
  origin_signing_input s := s;
  prepare_rfc9421_origin_proof method _ _ _ kid _ := Some (method +:+ kid)%string;
  complete_rfc9421_origin_proof p signature :=
    Some {| origin_content_digest := ""; origin_signature_input := p; origin_signature := signature |};
  prepared_header := string;
  header_signing_input s := s;
  prepare_legacy_did_wba_auth_header _ domain version kid := Some (domain +:+ version +:+ kid)%string;
  complete_legacy_did_wba_auth_header p signature := Some (p +:+ signature)%string;
  prepare_http_signature_headers _ url method _ _ o := Some (method +:+ url +:+ default "" (hso_keyid o))%string;
  complete_http_signature_headers p signature := Some [("Signature", signature); ("Signature-Input", p)];
  verify_message k _ s := bool_decide (toy_multibase k = bytes [122; 237; 1] +:+ s);
  canonical_json v := Some (canonical v);
  sha256 s := s;
  b64url_encode := encode;
  b64url_decode := decode;
  bs58_encode s := s;
  hkdf_sha256 _ ikm _ := Some (pad 32 ikm);
  aead_encrypt _ _ _ msg := Some msg;
  aead_decrypt _ _ _ ct := Some ct;
  ed25519_public k := k;
  ed25519_sign k _ := k;
  x25519_public k := pad 32 k;
  x25519_dh k p := toy_min (pad 32 k) (pad 32 p);
  from_pkcs8_der := toy_pkcs8;
  other_public kind := OtherKey kind "";
  random_bytes n len := pad len (pretty n);
  random_ed25519_key n := pad 32 ("ed" +:+ pretty n);
  random_x25519_key n := pad 32 ("xk" +:+ pretty n);
  clock_rfc3339 n := ("t" +:+ pretty n)%string;
  clock_utc n := (Z.of_nat n * 1000000000)%Z;
  parse_rfc3339 s := match strip_prefix "Z" s with Some s => Some (Z.of_nat (String.length s) * 1000000000)%Z | None => None end;
  rfc3339_secs z := ("Z" +:+ pad (Z.to_nat (z / 1000000000)) "")%string;
  os_error := "i/o error" |}.
Definition toy_env : Env := toy_env_with (λ s, s) Some print_value.

Lemma toy_base64_laws : @Base64Laws toy_env.
Proof. constructor. reflexivity. Defined.
Lemma toy_aead_laws : @AeadLaws toy_env.
Proof. constructor. intros key nonce aad msg ct. simpl. congruence. Defined.
Lemma toy_seal_laws : @SealLaws toy_env.
Proof.
  constructor; [|eauto]. intros salt ikm info. exists (pad 32 ikm). split; [done|apply pad_length].
Defined.
Lemma toy_time_laws : @TimeLaws toy_env.
Proof.
  constructor. intros t Ht. unfold parse_rfc3339, rfc3339_secs, toy_env, toy_env_with.
  rewrite strip_prefix_app, pad_length, Z2Nat.id; [done|]. apply Z.div_pos; lia.
Defined.
Lemma toy_random_laws : @RandomLaws toy_env.
Proof. constructor; intros; apply pad_length. Defined.
Lemma toy_digest_laws : @DigestLaws toy_env.
Proof. constructor. auto. Defined.
Lemma toy_did_document_laws : @DidDocumentLaws toy_env.
Proof.
  constructor.
  - intros domain o doc Hdoc. injection Hdoc as <-. eexists. reflexivity.
  - intros doc public k o prepared signature signed Hp Hs. injection Hp as <-.
    simpl in Hs. unfold toy_complete_proof in Hs. simpl in Hs.
    destruct doc as [| | | | |m]; try discriminate Hs. injection Hs as <-.
    unfold get_str. simpl. by rewrite map_get_insert_ne.
Defined.
Lemma toy_signature_laws : @SignatureLaws toy_env.
Proof. constructor. intros sk msg. simpl. by apply bool_decide_eq_true. Defined.
Lemma pad_pad len s : pad len (pad len s) = pad len s.
Proof. revert s. induction len as [|len IH]; intros [|a s]; simpl; [done..| |]; by rewrite IH. Qed.
Lemma toy_agreement_laws : @AgreementLaws toy_env.
Proof.
  constructor; [intros; apply pad_length|]. intros a b.
  change (toy_min (pad 32 a) (pad 32 (pad 32 b)) = toy_min (pad 32 b) (pad 32 (pad 32 a))).
  rewrite !pad_pad. apply toy_min_comm.
Defined.
Lemma toy_base58_laws : @Base58Laws toy_env.
Proof. constructor. auto. Defined.
Lemma toy_pkcs8_laws : @Pkcs8Laws toy_env.
Proof.
  constructor.
  - intros raw Hl. simpl. unfold toy_pkcs8. rewrite strip_prefix_app. by rewrite bool_decide_true.
  - intros s raw. simpl. unfold toy_pkcs8. destruct (strip_prefix _ s) as [x|]; [|done].
    case_bool_decide; [|done]. by intros [= <-].
  - intros s raw. simpl. unfold toy_pkcs8. destruct (strip_prefix _ s) as [x|]; [|done].
    by case_bool_decide.
Defined.
