(* ===== verification/Base64.v ===== *)
(** * Base64url texts

    The laws of URL-safe base64 without padding (RFC 4648, section 5) that go beyond its round
    trip, and an environment in which they hold. *)

From stdpp Require Import base strings list.
From S2P Require Import Prelude Env Toy.
From Stdlib Require Import Ascii.

(** The bytes of a base64url text. *)
Definition is_base64url_byte (a : ascii) : bool :=
  is_ascii_alphanumeric a || bool_decide (a = "-"%char) || bool_decide (a = "_"%char).
Class Base64TextLaws `{Env} := {
  b64url_text s : all_bytes is_base64url_byte (b64url_encode s) = true }.

(** The engine [URL_SAFE_NO_PAD] rejects padding and non-zero trailing bits, so a text that
    decodes is the encoding of what it decodes to. *)
Class Base64CanonicalLaws `{Env} := {
  b64url_canonical s b : b64url_decode s = Some b → s = b64url_encode b }.

Lemma contains_char_none c f s : all_bytes f s = true → f c = false → contains_char c s = false.
Proof.
  intros Hs Hc. induction s as [|a s IH]; [done|]. simpl in *. apply andb_true_iff in Hs as [Ha Hs].
  rewrite IH by done. rewrite orb_false_r. apply bool_decide_eq_false. intros ->. congruence.
Qed.

(** ** An encoding with these laws: a byte is written as its eight bits *)

Definition bit_char (b : bool) : ascii := if b then "1"%char else "0"%char.
Fixpoint bits_encode (s : string) : string :=
  match s with
  | EmptyString => EmptyString
  | String (Ascii a b c d e f g h) s =>
      String (bit_char a) (String (bit_char b) (String (bit_char c) (String (bit_char d)
        (String (bit_char e) (String (bit_char f) (String (bit_char g) (String (bit_char h)
          (bits_encode s))))))))
  end.
Definition char_bit (a : ascii) : option bool :=
  if bool_decide (a = "1"%char) then Some true
  else if bool_decide (a = "0"%char) then Some false else None.
Fixpoint bits_decode (s : string) : option string :=
  match s with
  | EmptyString => Some EmptyString
  | String a (String b (String c (String d (String e (String f (String g (String h s))))))) =>
      a ← char_bit a; b ← char_bit b; c ← char_bit c; d ← char_bit d; e ← char_bit e;
      f ← char_bit f; g ← char_bit g; h ← char_bit h; t ← bits_decode s;
      Some (String (Ascii a b c d e f g h) t)
  | _ => None
  end.
Definition bits_env : Env := toy_env_with bits_encode bits_decode print_value.

Lemma char_bit_char b : char_bit (bit_char b) = Some b.
Proof. by destruct b. Defined.
Lemma char_bit_Some a b : char_bit a = Some b → a = bit_char b.
Proof. unfold char_bit. repeat case_bool_decide; [intros [= <-]..|]; by subst. Qed.
Lemma bits_base64_laws : @Base64Laws bits_env.
Proof.
  constructor. intros s. simpl. induction s as [|[a b c d e f g h] s IH]; [done|].
  simpl. rewrite !char_bit_char. simpl. by rewrite IH.
Defined.
Lemma bits_text_laws : @Base64TextLaws bits_env.
Proof.
  constructor. intros s. simpl. induction s as [|[a b c d e f g h] s IH]; [done|].
  simpl. rewrite IH. by destruct a, b, c, d, e, f, g, h.
Defined.
Lemma bits_decode_canonical n s b : String.length s ≤ n → bits_decode s = Some b → s = bits_encode b.
Proof.
  revert s b. induction n as [|n IH]; intros s t Hn.
  - destruct s; simpl in *; [by intros [= <-]|lia].
  - destruct s as [|a [|b [|c [|d [|e [|f [|g [|h s]]]]]]]]; simpl in *; try by intros [= <-].
    intros Ht. repeat (apply bind_Some in Ht as (? & ->%char_bit_Some & Ht)).
    apply bind_Some in Ht as (u & Hu & [= <-]). simpl. by rewrite <-(IH s u) by (done || lia).
Qed.
Lemma bits_canonical_laws : @Base64CanonicalLaws bits_env.
Proof. constructor. intros s b. apply (bits_decode_canonical (String.length s)). done. Defined.
Lemma bits_random_laws : @RandomLaws bits_env.
Proof. constructor; intros; apply pad_length. Defined.
Lemma bits_digest_laws : @DigestLaws bits_env.
Proof. constructor. auto. Defined.
