(* ===== verification/Input.v ===== *)
(** * Input validation (input.rs)

    The specification a caller gives to create an identity, the validation of
    its fields and the canonical form of key identifiers. *)

From stdpp Require Import base strings list gmap.
From Stdlib Require Import Ascii.
From S2P Require Import Prelude Json Errors Records Env Toy.

Definition MAX_DOMAIN_LEN : nat := 253.
Definition MAX_PATH_SEGMENT_LEN : nat := 128.
Definition MAX_KID_FRAGMENT_LEN : nat := 128.
Definition MAX_SERVICE_VALUE_LEN : nat := 2048.

Record ManagedKeySpec := { mk_fragment : string; mk_role : KeyRole.t }.

Record PublicOkpJwk := { kty : string; crv : string; jwk_x : string }.

Inductive ExternalPublicKeyMaterial : Type :=
  | Multibase (value : string)
  | Jwk (public_key_jwk : PublicOkpJwk).

Record ExternalPublicKeySpec := {
  ek_kid : string;
  ek_role : KeyRole.t;
  ek_material : ExternalPublicKeyMaterial }.

Record ServiceSpec := {
  service_id : string;
  service_type : string;
  service_endpoint : string;
  service_did : option string;
  service_profiles : list string;
  security_profiles : list string }.

Record DeviceManifestEntrySpec := {
  ds_device_id : string;
  ds_signing_key_id : string;
  ds_e2ee_key_id : string;
  ds_profiles : list string }.

Inductive DidExtensionSpec : Type :=
  | DeviceManifestSpec (devices : list DeviceManifestEntrySpec).

Record DidCreateSpec := {
  profile : DidProfile.t;
  domain : string;
  port : option N;
  path_segments : list string;
  spec_capabilities : Capabilities;
  managed_keys : list ManagedKeySpec;
  external_keys : list ExternalPublicKeySpec;
  services : list ServiceSpec;
  agent_description_url : option string;
  extensions : list DidExtensionSpec }.

(** ** Lexical checks *)

(** [u8::is_ascii_alphanumeric] or one of [- _ . ~]. *)
Definition is_identifier_byte (a : ascii) : bool :=
  is_ascii_alphanumeric a ||
  existsb (λ c, bool_decide (a = c)) ["-"%char; "_"%char; "."%char; "~"%char].

Definition is_digit (a : ascii) : bool := byte_in 48 57 a.

(** A decimal octet of [Ipv4Addr::from_str]: one to three digits, no leading
    zero, at most 255. *)
Definition ipv4_octet (s : string) : bool :=
  let value := fold_left (λ acc a, acc * 10 + (N_of_ascii a - 48))%N
                 (String.list_ascii_of_string s) 0%N in
  all_bytes is_digit s &&
  ((1 <=? String.length s) && (String.length s <=? 3)) &&
  (bool_decide (String.length s = 1) || negb (bool_decide (first_byte s = Some "0"%char))) &&
  (value <=? 255)%N.

(** [IpAddr::from_str] on a dotted quad.  An IPv6 literal contains [:] and is
    rejected with the same error by the label test of [validate_domain]. *)
Definition is_ipv4 (s : string) : bool :=
  bool_decide (length (split_on "."%char s) = 4) &&
  forallb ipv4_octet (split_on "."%char s).

Definition option_test {A} (f : A → bool) (o : option A) : bool :=
  match o with Some a => f a | None => false end.

Definition domain_label (label : string) : bool :=
  negb (is_empty label) &&
  (String.length label <=? 63) &&
  all_bytes (λ a, is_ascii_alphanumeric a || bool_decide (a = "-"%char)) label &&
  option_test is_ascii_alphanumeric (first_byte label) &&
  option_test is_ascii_alphanumeric (last_byte label).

Definition validate_domain (s : string) : DidResult unit :=
  rguard (is_empty s
          || (MAX_DOMAIN_LEN <? String.length s)
          || negb (bool_decide (trim s = s))
          || is_ipv4 s
          || negb (forallb domain_label (split_on "."%char s)))
         InvalidDomain.

Definition validate_path_segment (segment : string) : DidResult unit :=
  rguard (is_empty segment
          || (MAX_PATH_SEGMENT_LEN <? String.length segment)
          || negb (all_bytes is_identifier_byte segment))
         InvalidPathSegment.

Definition validate_fragment (fragment : string) : DidResult unit :=
  rguard (is_empty fragment
          || (MAX_KID_FRAGMENT_LEN <? String.length fragment)
          || negb (all_bytes is_identifier_byte fragment))
         InvalidKidFragment.

(** ** Key identifiers *)

Definition canonicalize_kid (did kid : string) : DidResult string :=
  let prefix := (did +:+ "#")%string in
  let? fragment :=
    match strip_prefix "#" kid with
    | Some fragment => Ok fragment
    | None =>
        match strip_prefix prefix kid with
        | Some fragment => Ok fragment
        | None =>
            if negb (contains_char ":"%char kid) && negb (contains_char "#"%char kid)
            then Ok kid else Err ForeignKid
        end
    end in
  do? validate_fragment fragment;
  Ok (prefix +:+ fragment)%string.

(** The loop of [validate_unique_kids] with its set of canonical KIDs. *)
Fixpoint validate_unique_kids_from (seen : list string) (did : string) (kids : list string)
    : DidResult unit :=
  match kids with
  | [] => Ok tt
  | k :: kids =>
      let? canonical := canonicalize_kid did k in
      if bool_decide (canonical ∈ seen) then Err DuplicateKid
      else validate_unique_kids_from (canonical :: seen) did kids
  end.

Definition validate_unique_kids (did : string) (kids : list string) : DidResult unit :=
  validate_unique_kids_from [] did kids.

(** ** Specifications *)

Definition too_long_value (s : string) : bool := MAX_SERVICE_VALUE_LEN <? String.length s.
Definition blank (s : string) : bool := is_empty (trim s).

(** [ServiceSpec::validate]. *)
Definition validate_service (s : ServiceSpec) : DidResult unit :=
  let fragment := default (service_id s) (strip_prefix "#" (service_id s)) in
  do? rguard (starts_with "#" fragment) InvalidService;
  do? map_err (λ _, InvalidService) (validate_fragment fragment);
  do? rguard (blank (service_type s) || blank (service_endpoint s)
              || too_long_value (service_type s) || too_long_value (service_endpoint s))
             InvalidService;
  rguard (option_test (λ v, blank v || negb (bool_decide (trim v = v)) || too_long_value v)
            (service_did s))
         InvalidService.

Definition invalid_device_entry (d : DeviceManifestEntrySpec) : bool :=
  blank (ds_device_id d)
  || (MAX_KID_FRAGMENT_LEN <? String.length (ds_device_id d))
  || blank (ds_signing_key_id d) || too_long_value (ds_signing_key_id d)
  || blank (ds_e2ee_key_id d) || too_long_value (ds_e2ee_key_id d)
  || bool_decide (ds_profiles d = [])
  || existsb blank (ds_profiles d).

(** [DidExtensionSpec::validate]. *)
Definition validate_extension (e : DidExtensionSpec) : DidResult unit :=
  match e with
  | DeviceManifestSpec [] => Err InvalidExtension
  | DeviceManifestSpec devices =>
      for_result (λ d, rguard (invalid_device_entry d) InvalidExtension) devices
  end.

(** The managed-key loop of [validate], with its set of fragments. *)
Fixpoint validate_managed_fragments (seen : list string) (l : list ManagedKeySpec)
    : DidResult unit :=
  match l with
  | [] => Ok tt
  | key :: l =>
      do? validate_fragment (mk_fragment key);
      if bool_decide (mk_fragment key ∈ seen) then Err DuplicateKid
      else validate_managed_fragments (mk_fragment key :: seen) l
  end.

Definition is_role (r : KeyRole.t) (r' : KeyRole.t) : bool := bool_decide (r = r').

Section Input.
Context `{Env}.

(** [DidProfile::for_did]. *)
Definition for_did (did : string) : DidResult DidProfile.t :=
  if starts_with "did:wba:" did then Ok DidProfile.E1
  else if starts_with "did:web:" did && did_web_resolution_url_ok did
  then Ok DidProfile.Web
  else Err InvalidIdentity.

(** The verification method built for an external key. *)
Definition external_method (k : ExternalPublicKeySpec) (method_type : string) : Value :=
  match ek_material k with
  | Multibase value =>
      json_object [("id", Str "#external"); ("type", Str method_type);
                   ("publicKeyMultibase", Str value)]
  | Jwk jwk =>
      json_object [("id", Str "#external"); ("type", Str "JsonWebKey2020");
                   ("publicKeyJwk",
                     json_object [("kty", Str (kty jwk)); ("crv", Str (crv jwk));
                                  ("x", Str (jwk_x jwk))])]
  end.

(** [ExternalPublicKeySpec::parse_public_key]. *)
Definition parse_public_key (k : ExternalPublicKeySpec) : DidResult PublicKeyMaterial :=
  let? method_type :=
    match ek_role k with
    | KeyRole.DeviceSigning | KeyRole.RequestSigning | KeyRole.E2eeSigning =>
        Ok "Multikey"%string
    | KeyRole.E2eeAgreement => Ok "X25519KeyAgreementKey2019"%string
    | KeyRole.RootControl => Err ExternalRootControl
    end in
  let? key := ok_or (extract_public_key (external_method k method_type)) InvalidPublicKey in
  match ek_role k, key with
  | (KeyRole.DeviceSigning | KeyRole.RequestSigning | KeyRole.E2eeSigning), Ed25519 _
  | KeyRole.E2eeAgreement, X25519 _ => Ok key
  | _, _ => Err InvalidPublicKey
  end.

(** [DidCreateSpec::validate]. *)
Definition validate (spec : DidCreateSpec) : DidResult unit :=
  do? validate_domain (domain spec);
  do? rguard (bool_decide (profile spec = DidProfile.E1)
              && bool_decide (path_segments spec = [])) EmptyPath;
  do? for_result validate_path_segment (path_segments spec);
  let root_count :=
    length (filter (λ k, mk_role k = KeyRole.RootControl) (managed_keys spec)) in
  do? rguard (negb (bool_decide (root_count =
                if DidProfile.supports_root_control (profile spec) then 1 else 0)))
             InvalidManagedRootCount;
  do? rguard (existsb (λ k, is_role (ek_role k) KeyRole.RootControl) (external_keys spec))
             ExternalRootControl;
  do? rguard (did_wba (spec_capabilities spec)
              && negb (existsb (λ k, is_role (mk_role k) KeyRole.DeviceSigning
                                     || is_role (mk_role k) KeyRole.RequestSigning)
                         (managed_keys spec)))
             MissingManagedRequestSigning;
  do? validate_managed_fragments [] (managed_keys spec);
  do? for_result (λ k, do? parse_public_key k; Ok tt) (external_keys spec);
  do? for_result validate_service (services spec);
  do? rguard (option_test (λ v, blank v || too_long_value v) (agent_description_url spec))
             InvalidService;
  for_result validate_extension (extensions spec).

(** [DidCreateSpec::validate_for_did]. *)
Definition validate_for_did (spec : DidCreateSpec) (did : string) : DidResult unit :=
  do? validate spec;
  validate_unique_kids did
    (map mk_fragment (managed_keys spec) ++ map ek_kid (external_keys spec)).
End Input.

(** ** Theorems *)

(** What [validate_fragment] accepts. *)
Definition valid_fragment (fragment : string) : Prop :=
  fragment ≠ EmptyString ∧ String.length fragment ≤ MAX_KID_FRAGMENT_LEN ∧
  all_bytes is_identifier_byte fragment = true.

Lemma validate_fragment_Ok fragment u :
  validate_fragment fragment = Ok u ↔ valid_fragment fragment.
Proof.
  unfold validate_fragment, valid_fragment, is_empty. rewrite rguard_Ok.
  rewrite !orb_false_iff, bool_decide_eq_false, Nat.ltb_ge, negb_false_iff. tauto.
Qed.

Lemma valid_fragment_plain fragment :
  valid_fragment fragment →
  contains_char ":"%char fragment = false ∧ contains_char "#"%char fragment = false.
Proof. intros (_ & _ & Hb). split; by eapply all_bytes_not_contains. Qed.

Lemma canonicalize_kid_Ok did kid c :
  canonicalize_kid did kid = Ok c →
  ∃ fragment, valid_fragment fragment ∧ c = ((did +:+ "#") +:+ fragment)%string ∧
    (kid = ("#" +:+ fragment)%string ∨ kid = ((did +:+ "#") +:+ fragment)%string
     ∨ kid = fragment).
Proof.
  unfold canonicalize_kid. intros Hc.
  apply rbind_Ok in Hc as (fragment & Hf & Hc).
  apply rbind_Ok in Hc as (u & Hv%validate_fragment_Ok & [= <-]).
  exists fragment. split_and!; [done..|].
  destruct (strip_prefix "#" kid) as [f|] eqn:E1.
  { injection Hf as ->. left. by apply strip_prefix_Some. }
  destruct (strip_prefix (did +:+ "#") kid) as [f|] eqn:E2.
  { injection Hf as ->. right; left. by apply strip_prefix_Some. }
  destruct (negb _ && negb _); [|done]. injection Hf as ->. by right; right.
Qed.

(** Every accepted spelling of a fragment has the same canonical form. *)
Lemma canonicalize_fragment did fragment kid :
  starts_with "#" did = false → valid_fragment fragment →
  kid = ("#" +:+ fragment)%string ∨ kid = ((did +:+ "#") +:+ fragment)%string ∨ kid = fragment →
  canonicalize_kid did kid = Ok ((did +:+ "#") +:+ fragment)%string.
Proof.
  intros Hdid Hv Hkid. destruct (valid_fragment_plain _ Hv) as [Hcolon Hhash].
  assert (strip_prefix "#" fragment = None) as Hns.
  { destruct (strip_prefix "#" fragment) eqn:E; [|done].
    apply strip_prefix_Some in E as ->. done. }
  assert (validate_fragment fragment = Ok tt) as Hok by by apply validate_fragment_Ok.
  unfold canonicalize_kid. destruct Hkid as [->|[->| ->]].
  - rewrite strip_prefix_app. simpl. by rewrite Hok.
  - destruct did as [|a did].
    { change (("" +:+ "#") +:+ fragment)%string with ("#" +:+ fragment)%string.
      rewrite strip_prefix_app. cbn [rbind]. by rewrite Hok. }
    assert (strip_prefix "#" ((String a did +:+ "#") +:+ fragment) = None) as ->.
    { rewrite starts_with_strip in Hdid. simpl in *. by case_bool_decide. }
    rewrite strip_prefix_app. simpl. by rewrite Hok.
  - rewrite Hns.
    assert (strip_prefix (did +:+ "#") fragment = None) as ->.
    { destruct (strip_prefix (did +:+ "#") fragment) eqn:E; [|done].
      apply strip_prefix_Some in E as ->. rewrite string_app_assoc in Hhash.
      rewrite !contains_char_app in Hhash. simpl in Hhash.
      by rewrite orb_true_r in Hhash. }
    rewrite Hcolon, Hhash. simpl. by rewrite Hok.
Qed.

Lemma validate_unique_kids_from_Ok seen did kids u :
  validate_unique_kids_from seen did kids = Ok u ↔
  ∃ cs, Forall2 (λ k c, canonicalize_kid did k = Ok c) kids cs ∧ NoDup cs ∧
        ∀ c, c ∈ cs → c ∉ seen.
Proof.
  revert seen. induction kids as [|k kids IH]; intros seen; simpl.
  - split.
    + intros _. exists []. repeat split; [constructor..|set_solver].
    + intros _. by destruct u.
  - rewrite rbind_Ok. split.
    + intros (c & Hc & Hk). case_bool_decide as Hin; [done|].
      apply IH in Hk as (cs & HF & Hnd & Hs).
      exists (c :: cs). split; [by constructor|]. split; [|set_solver].
      constructor; [|done]. intros Hcs. apply (Hs c); set_solver.
    + intros (cs & HF & Hnd & Hs). inversion HF as [|? c ? cs' Hc HF']; subst.
      inversion Hnd; subst. exists c. split; [done|].
      rewrite bool_decide_false by (apply Hs; set_solver).
      apply IH. exists cs'. split_and!; [done..|]. intros c' Hc' Hin.
      apply elem_of_cons in Hin as [->|Hin]; [done|]. eapply Hs; [|done]. set_solver.
Qed.

Lemma validate_managed_fragments_Ok seen l u :
  validate_managed_fragments seen l = Ok u ↔
  Forall (λ k, valid_fragment (mk_fragment k)) l ∧ NoDup (map mk_fragment l) ∧
  ∀ f, f ∈ map mk_fragment l → f ∉ seen.
Proof.
  revert seen. induction l as [|k l IH]; intros seen; simpl.
  - split; [|by destruct u]. intros _. repeat split; [constructor..|set_solver].
  - rewrite rbind_Ok, Forall_cons, NoDup_cons. split.
    + intros (v & Hv%validate_fragment_Ok & Hk). case_bool_decide as Hin; [done|].
      apply IH in Hk as (HF & Hnd & Hs). split_and!; [done..| |done|].
      * intros Hf. apply (Hs _ Hf). set_solver.
      * intros f Hf. apply elem_of_cons in Hf as [->|Hf]; [done|].
        intros Hs'. apply (Hs _ Hf). set_solver.
    + intros ((Hv & HF) & (Hn & Hnd) & Hs). exists tt.
      split; [by apply validate_fragment_Ok|].
      rewrite bool_decide_false by (apply Hs; set_solver).
      apply IH. split_and!; [done..|]. intros f Hf [->|Hin]%elem_of_cons; [done|].
      eapply Hs; [|done]. set_solver.
Qed.

(** Canonicalising a key identifier is idempotent and complete: an accepted
    identifier, in any of its three spellings [#f], [did#f] and [f], becomes
    [did#f] for a valid fragment [f]; the canonical form is accepted and is its
    own canonical form; and the three spellings of a valid fragment all have
    that canonical form, so two identifiers name the same key exactly when they
    have the same fragment. *)
Theorem canonicalize_kid_canonical did kid c :
  starts_with "#" did = false →
  canonicalize_kid did kid = Ok c →
  ∃ fragment, valid_fragment fragment ∧ c = ((did +:+ "#") +:+ fragment)%string ∧
    canonicalize_kid did c = Ok c ∧
    canonicalize_kid did ("#" +:+ fragment)%string = Ok c ∧
    canonicalize_kid did fragment = Ok c ∧
    (∀ fragment', valid_fragment fragment' → canonicalize_kid did fragment' = Ok c →
       fragment' = fragment).
Proof.
  intros Hdid Hc. destruct (canonicalize_kid_Ok _ _ _ Hc) as (f & Hv & -> & _).
  exists f. split_and!; [done|done|..]; [apply canonicalize_fragment; auto..|].
  intros f' Hv' Hf'. destruct (canonicalize_kid_Ok _ _ _ Hf') as (g & _ & Heq & _).
  rewrite (canonicalize_fragment did f' f' Hdid Hv' (or_intror (or_intror eq_refl))) in Hf'.
  injection Hf' as Hf'. by apply string_app_inj_l in Hf'.
Qed.

Lemma canonicalize_kid_canonical_witness :
  ∃ fragment, valid_fragment fragment ∧
    "did:wba:example.com:alice#device" =
      (("did:wba:example.com:alice" +:+ "#") +:+ fragment)%string.
Proof.
  destruct (canonicalize_kid_canonical "did:wba:example.com:alice" "#device"
              "did:wba:example.com:alice#device" eq_refl eq_refl)
    as (f & Hf & Heq & _).
  exists f. split; [exact Hf|exact Heq].
Defined.

(** [validate_unique_kids] accepts a list of identifiers exactly when every
    one of them belongs to the DID and their canonical forms are pairwise
    distinct. *)
Lemma validate_unique_kids_NoDup did kids :
  validate_unique_kids did kids = Ok tt ↔
  ∃ cs, Forall2 (λ k c, canonicalize_kid did k = Ok c) kids cs ∧ NoDup cs.
Proof.
  unfold validate_unique_kids. rewrite validate_unique_kids_from_Ok.
  split; intros (cs & ?); exists cs; [tauto|]. split; [tauto|]. split; [tauto|set_solver].
Qed.

(** ** Well-formed specifications

    What a creation specification means to be, field by field, without the order in which
    the code checks it. *)

(** Between one and [n] bytes, not all of them white space. *)
Definition filled (n : nat) (s : string) : Prop := blank s = false ∧ String.length s ≤ n.

Record valid_label (label : string) : Prop := {
  vl_length : label ≠ EmptyString ∧ String.length label ≤ 63;
  vl_bytes : all_bytes (λ a, is_ascii_alphanumeric a || bool_decide (a = "-"%char)) label = true;
  vl_first : ∃ a, first_byte label = Some a ∧ is_ascii_alphanumeric a = true;
  vl_last : ∃ a, last_byte label = Some a ∧ is_ascii_alphanumeric a = true }.

Record valid_domain (s : string) : Prop := {
  vd_length : s ≠ EmptyString ∧ String.length s ≤ MAX_DOMAIN_LEN;
  vd_trimmed : trim s = s;
  vd_name : is_ipv4 s = false;
  vd_labels : Forall valid_label (split_on "."%char s) }.

Record valid_service (s : ServiceSpec) : Prop := {
  vs_id : ∃ fragment, valid_fragment fragment ∧
    (service_id s = fragment ∨ service_id s = ("#" +:+ fragment)%string);
  vs_type : filled MAX_SERVICE_VALUE_LEN (service_type s);
  vs_endpoint : filled MAX_SERVICE_VALUE_LEN (service_endpoint s);
  vs_did : ∀ v, service_did s = Some v → filled MAX_SERVICE_VALUE_LEN v ∧ trim v = v }.

Record valid_device_entry (d : DeviceManifestEntrySpec) : Prop := {
  ve_device : filled MAX_KID_FRAGMENT_LEN (ds_device_id d);
  ve_signing : filled MAX_SERVICE_VALUE_LEN (ds_signing_key_id d);
  ve_e2ee : filled MAX_SERVICE_VALUE_LEN (ds_e2ee_key_id d);
  ve_profiles : ds_profiles d ≠ [] ∧ Forall (λ p, blank p = false) (ds_profiles d) }.

Definition valid_extension (e : DidExtensionSpec) : Prop :=
  match e with
  | DeviceManifestSpec devices => devices ≠ [] ∧ Forall valid_device_entry devices
  end.

(** The spellings of a fragment as a key identifier of a DID. *)
Definition spells (did kid fragment : string) : Prop :=
  kid = ("#" +:+ fragment)%string ∨ kid = ((did +:+ "#") +:+ fragment)%string ∨ kid = fragment.

Record spec_wf `{Env} (spec : DidCreateSpec) (did : string) : Prop := {
  sw_domain : valid_domain (domain spec);
  sw_path : (profile spec = DidProfile.E1 → path_segments spec ≠ []) ∧
    Forall valid_fragment (path_segments spec);
  sw_root : length (filter (λ k, mk_role k = KeyRole.RootControl) (managed_keys spec))
    = (if DidProfile.supports_root_control (profile spec) then 1 else 0);
  sw_wba : did_wba (spec_capabilities spec) = true →
    ∃ k, k ∈ managed_keys spec ∧ (mk_role k = KeyRole.DeviceSigning ∨ mk_role k = KeyRole.RequestSigning);
  sw_fragments : Forall (λ k, valid_fragment (mk_fragment k)) (managed_keys spec);
  sw_external : Forall (λ k, ek_role k ≠ KeyRole.RootControl ∧ ∃ p, parse_public_key k = Ok p)
    (external_keys spec);
  sw_distinct : ∃ fragments, NoDup fragments ∧
    Forall2 (λ k f, valid_fragment f ∧ spells did k f)
      (map mk_fragment (managed_keys spec) ++ map ek_kid (external_keys spec)) fragments;
  sw_services : Forall valid_service (services spec);
  sw_description : ∀ v, agent_description_url spec = Some v → filled MAX_SERVICE_VALUE_LEN v;
  sw_extensions : Forall valid_extension (extensions spec) }.

(** A sequence of checks succeeds when each of them does. *)
Lemma rseq_Ok {E} (a b : result E unit) : (do? a; b) = Ok tt ↔ a = Ok tt ∧ b = Ok tt.
Proof. rewrite rbind_Ok. split; [by intros ([] & ? & ?)|]. intros []. by exists tt. Qed.

Lemma is_empty_false s : is_empty s = false ↔ s ≠ EmptyString.
Proof. unfold is_empty. apply bool_decide_eq_false. Qed.

Lemma option_test_true {A} (f : A → bool) o :
  option_test f o = true ↔ ∃ a, o = Some a ∧ f a = true.
Proof. destruct o; simpl; naive_solver. Qed.

Lemma option_test_false {A} (f : A → bool) o :
  option_test f o = false ↔ ∀ a, o = Some a → f a = false.
Proof. destruct o; simpl; naive_solver. Qed.

Lemma existsb_false {A} (f : A → bool) l : existsb f l = false ↔ Forall (λ x, f x = false) l.
Proof.
  induction l as [|x l IH]; simpl; [by split|]. by rewrite orb_false_iff, Forall_cons, IH.
Qed.

Lemma domain_label_spec label : domain_label label = true ↔ valid_label label.
Proof.
  unfold domain_label. rewrite !andb_true_iff, negb_true_iff, is_empty_false, Nat.leb_le.
  rewrite !option_test_true. split; [|intros []; tauto]. intros ((((? & ?) & ?) & ?) & ?). by constructor.
Qed.

Lemma validate_domain_Ok s u : validate_domain s = Ok u ↔ valid_domain s.
Proof.
  unfold validate_domain.
  rewrite rguard_Ok, !orb_false_iff, is_empty_false, Nat.ltb_ge, !negb_false_iff, bool_decide_eq_true.
  rewrite forallb_forall. setoid_rewrite domain_label_spec. setoid_rewrite <-list_elem_of_In.
  rewrite <-Forall_forall. split; [|intros []; tauto]. intros ((((? & ?) & ?) & ?) & ?). by constructor.
Qed.

Lemma validate_path_segment_Ok s u : validate_path_segment s = Ok u ↔ valid_fragment s.
Proof.
  unfold validate_path_segment, valid_fragment.
  rewrite rguard_Ok, !orb_false_iff, is_empty_false, Nat.ltb_ge, negb_false_iff. tauto.
Qed.

Lemma blank_value s :
  blank s = false ∧ too_long_value s = false ↔ filled MAX_SERVICE_VALUE_LEN s.
Proof. unfold too_long_value, filled. by rewrite Nat.ltb_ge. Qed.

(** The fragment of a service: its identifier without a leading [#]. *)
Lemma service_fragment id :
  let fragment := default id (strip_prefix "#" id) in
  starts_with "#" fragment = false ∧ valid_fragment fragment ↔
  ∃ f, valid_fragment f ∧ (id = f ∨ id = ("#" +:+ f)%string).
Proof.
  assert (∀ f, valid_fragment f → strip_prefix "#" f = None) as Hplain.
  { intros f [_ Hh]%valid_fragment_plain. destruct (strip_prefix "#" f) eqn:E; [|done].
    by apply strip_prefix_Some in E as ->. }
  assert (∀ f, valid_fragment f → starts_with "#" f = false) as Hs.
  { intros f Hf. rewrite starts_with_strip. by rewrite Hplain. }
  cbv zeta. destruct (strip_prefix "#" id) as [g|] eqn:Hg; cbn [default]; split.
  - intros [_ Hv]. apply strip_prefix_Some in Hg. exists g. split; [done|by right].
  - intros (f & Hv & [->| ->]); [by rewrite (Hplain f Hv) in Hg|].
    rewrite strip_prefix_app in Hg. injection Hg as <-. auto.
  - intros [_ Hv]. exists id. split; [done|by left].
  - intros (f & Hv & [->| ->]); [auto|]. by rewrite strip_prefix_app in Hg.
Qed.

Lemma validate_service_Ok s : validate_service s = Ok tt ↔ valid_service s.
Proof.
  unfold validate_service. pose proof (service_fragment (service_id s)) as Hf. cbv zeta in Hf.
  set (fragment := default _ _) in *.
  assert (map_err (λ _, InvalidService) (validate_fragment fragment) = Ok tt
    ↔ valid_fragment fragment) as Hm.
  { rewrite <-(validate_fragment_Ok fragment tt).
    destruct (validate_fragment fragment); simpl; split; congruence. }
  rewrite !rseq_Ok, Hm, !rguard_Ok, !orb_false_iff, option_test_false.
  setoid_rewrite orb_false_iff. setoid_rewrite orb_false_iff. setoid_rewrite negb_false_iff.
  setoid_rewrite bool_decide_eq_true. split.
  - intros (Hs & Hv & (((? & ?) & ?) & ?) & Hd).
    constructor; [by apply Hf|by apply blank_value..|]. intros v ((? & ?) & ?)%Hd.
    split; [by apply blank_value|done].
  - intros [Hid Ht He Hd]. apply Hf in Hid as [Hs Hv]. apply blank_value in Ht as [? ?], He as [? ?].
    split_and!; try done. intros v [Hv' Htrim]%Hd. by apply blank_value in Hv' as [? ?].
Qed.

Lemma invalid_device_entry_false d : invalid_device_entry d = false ↔ valid_device_entry d.
Proof.
  unfold invalid_device_entry. rewrite !orb_false_iff, existsb_false, Nat.ltb_ge, bool_decide_eq_false.
  split.
  - intros (((((((? & ?) & ?) & ?) & ?) & ?) & ?) & ?).
    constructor; [done|by apply blank_value..|done].
  - intros [Hd Hs He Hp]. apply blank_value in Hs, He. unfold filled in Hd. tauto.
Qed.

Lemma validate_extension_Ok e : validate_extension e = Ok tt ↔ valid_extension e.
Proof.
  destruct e as [[|d l]]; [simpl; naive_solver|]. unfold validate_extension, valid_extension.
  rewrite for_result_Forall. split; [intros Hl; split; [done|]|intros [_ Hl]];
    (eapply Forall_impl; [exact Hl|]); intros x; by rewrite rguard_Ok, invalid_device_entry_false.
Qed.

(** Identifiers are accepted when they spell distinct fragments. *)
Lemma validate_unique_kids_spells did kids :
  starts_with "#" did = false →
  validate_unique_kids did kids = Ok tt ↔
  ∃ fragments, NoDup fragments ∧ Forall2 (λ k f, valid_fragment f ∧ spells did k f) kids fragments.
Proof.
  intros Hdid. rewrite validate_unique_kids_NoDup. set (c := λ f, ((did +:+ "#") +:+ f)%string).
  assert (∀ k x, canonicalize_kid did k = Ok x ↔ ∃ f, x = c f ∧ valid_fragment f ∧ spells did k f) as Hc.
  { intros k x. split.
    - intros Hk. destruct (canonicalize_kid_Ok _ _ _ Hk) as (f & Hv & -> & Hs). by exists f.
    - intros (f & -> & Hv & Hs). by apply canonicalize_fragment. }
  split.
  - intros (cs & HF & Hnd).
    assert (∃ fs, cs = map c fs ∧ Forall2 (λ k f, valid_fragment f ∧ spells did k f) kids fs)
      as (fs & -> & HF').
    { clear Hnd. induction HF as [|k x kids cs Hk HF (fs & -> & IH)]; [by exists []|].
      apply Hc in Hk as (f & -> & Hf). exists (f :: fs). by split; [|constructor]. }
    exists fs. split; [|done]. by apply NoDup_fmap_1 in Hnd.
  - intros (fs & Hnd & HF). exists (map c fs). split.
    + clear Hnd. induction HF as [|k f kids fs Hf HF IH]; simpl; constructor; [|done].
      apply Hc. by exists f.
    + assert (Inj (=) (=) c) by (intros f f' Heq; by apply string_app_inj_l in Heq).
      by apply (NoDup_fmap_2 c).
Qed.

(** Fragments that are spelled by distinct fragments are distinct. *)
Lemma fragments_distinct did l rest fragments :
  Forall valid_fragment l →
  Forall2 (λ k f, valid_fragment f ∧ spells did k f) (l ++ rest) fragments →
  NoDup fragments → NoDup l.
Proof.
  intros Hl HF Hnd. apply Forall2_app_inv_l in HF as (fs & gs & HF & _ & ->).
  enough (l = fs) as -> by (by apply NoDup_app in Hnd as [? _]). clear Hnd.
  induction HF as [|k f l fs [Hv Hs] HF IH]; [done|]. apply Forall_cons in Hl as [Hk Hl].
  rewrite (IH Hl). f_equal. apply valid_fragment_plain in Hk as [_ Hk].
  destruct Hs as [->|[->|]]; [done| |done]. rewrite string_app_assoc, contains_char_app in Hk.
  simpl in Hk. by rewrite orb_true_r in Hk.
Qed.

Lemma wba_signing l (b : bool) :
  b && negb (existsb (λ k, is_role (mk_role k) KeyRole.DeviceSigning
                           || is_role (mk_role k) KeyRole.RequestSigning) l) = false ↔
  (b = true → ∃ k, k ∈ l ∧ (mk_role k = KeyRole.DeviceSigning ∨ mk_role k = KeyRole.RequestSigning)).
Proof.
  assert (existsb (λ k, is_role (mk_role k) KeyRole.DeviceSigning
                        || is_role (mk_role k) KeyRole.RequestSigning) l = true ↔
    ∃ k, k ∈ l ∧ (mk_role k = KeyRole.DeviceSigning ∨ mk_role k = KeyRole.RequestSigning)) as He.
  { rewrite existsb_exists. unfold is_role. setoid_rewrite orb_true_iff.
    setoid_rewrite bool_decide_eq_true. by setoid_rewrite list_elem_of_In. }
  rewrite <-He. destruct b, (existsb _ _); simpl; naive_solver.
Qed.

(** C16.  The validation of a creation specification is exact: it accepts a specification for
    a DID precisely when the specification is well formed ([spec_wf]): a domain name with
    valid labels that is not an address, path segments (at least one for did:wba), as many
    managed root keys as the method has and no external one, a managed signing key where
    DID-WBA is asked for, valid fragments, external keys of the type of their role, key
    identifiers of the DID that name pairwise distinct fragments in whatever spelling,
    services, a description URL and device manifests within their limits. *)
Theorem validate_for_did_wf `{Env} spec did :
  starts_with "#" did = false → validate_for_did spec did = Ok tt ↔ spec_wf spec did.
Proof.
  intros Hdid. unfold validate_for_did, validate.
  rewrite !rseq_Ok, !for_result_Forall, !rguard_Ok, validate_domain_Ok, wba_signing, existsb_false,
    negb_false_iff, bool_decide_eq_true, option_test_false, validate_managed_fragments_Ok,
    (validate_unique_kids_spells did _ Hdid).
  setoid_rewrite validate_path_segment_Ok. setoid_rewrite validate_service_Ok.
  setoid_rewrite validate_extension_Ok. setoid_rewrite orb_false_iff. setoid_rewrite blank_value.
  split.
  - intros ((Hd & He & Hp & Hr & Hx & Hw & (Hf & _) & Hpk & Hsv & Hurl & Hext) & Hk).
    constructor; try done.
    + split; [|done]. intros Hprof Hnil. by rewrite !bool_decide_true in He.
    + apply Forall_and. split.
      * eapply Forall_impl; [exact Hx|]. simpl. intros k Hk' Hrole. by apply bool_decide_eq_false in Hk'.
      * eapply Forall_impl; [exact Hpk|]. simpl. intros k (p & Hpp & _)%rbind_Ok. eauto.
  - intros [Hd [He Hp] Hr Hw Hf Hx Hk Hsv Hurl Hext]. apply Forall_and in Hx as [Hx Hpk].
    destruct Hk as (fragments & Hnd & HF). split; [|by exists fragments].
    split_and!; try done.
    + apply andb_false_iff. rewrite !bool_decide_eq_false.
      destruct (decide (profile spec = DidProfile.E1)); [right|left]; auto.
    + eapply Forall_impl; [exact Hx|]. simpl. intros k Hrole. by apply bool_decide_eq_false.
    + eapply fragments_distinct; [|exact HF|done]. by apply Forall_map.
    + set_solver.
    + eapply Forall_impl; [exact Hpk|]. simpl. intros k (p & Hpp). by rewrite Hpp.
Qed.

(** A specification used by the witnesses: one root, one device key pair and a
    request-signing key. *)
Definition sample_spec : DidCreateSpec := {|
  profile := DidProfile.E1; domain := "example.com"; port := None;
  path_segments := ["agents"; "alice"]; spec_capabilities := {| did_wba := true |};
  managed_keys :=
    [{| mk_fragment := "root"; mk_role := KeyRole.RootControl |};
     {| mk_fragment := "device"; mk_role := KeyRole.DeviceSigning |};
     {| mk_fragment := "agreement"; mk_role := KeyRole.E2eeAgreement |};
     {| mk_fragment := "request"; mk_role := KeyRole.RequestSigning |}];
  external_keys := []; services := []; agent_description_url := None;
  extensions := [] |}.

Lemma validate_for_did_wf_witness :
  @spec_wf toy_env sample_spec "did:wba:example.com:agents:alice:e1_k".
Proof.
  apply (@validate_for_did_wf toy_env sample_spec "did:wba:example.com:agents:alice:e1_k" eq_refl).
  vm_compute. reflexivity.
Defined.
