(* ===== verification/World.v ===== *)
(** * The store on disk and the machine around it

    [Disk] is the content of one store directory, a finite map per
    subdirectory, keyed by file stem.  [World] adds the operating system: the
    fault that may interrupt a durable operation, and the positions in the
    streams of random draws and clock readings.

    [write_atomic_private] (fs_util.rs) writes a temporary file, renames it over
    the target and then adjusts its mode: a failure leaves either the old or the
    new content, never a partial one.  [durable] has exactly these outcomes (Files.v proves it).  A
    crash of the process between two durable operations leaves the same disk as
    a failure of the second one, so a theorem about every [fault] covers every
    crash.

    A store operation holds the exclusive lock of store_lock.rs from its first
    read to its last write, so operations of concurrent processes interleave as
    whole operations (Lock.v proves it); taking the lock may fail. *)

From stdpp Require Import base strings list gmap.
From S2P Require Import Prelude Json Errors Records Env.

(** A file that exists: what it parses to, or how reading it fails. *)
Inductive File (A : Type) : Type :=
  | Parsed (a : A)
  | Garbled
  | Unreadable.
Arguments Parsed {A} a.
Arguments Garbled {A}.
Arguments Unreadable {A}.

Record Disk := {
  d_manifest : option (File StoreManifest);
  d_registry : option (File IdentityRegistry);
  d_identities : gmap string (File IdentityRecord);
  d_journals : gmap string (File CreationJournal);
  d_updates : gmap string (File UpdateJournal);
  d_transitions : gmap string (File IdentityTransitionJournal);
  d_records : gmap string (File EncryptedRecord) }.

Definition empty_disk : Disk :=
  {| d_manifest := None; d_registry := None; d_identities := ∅; d_journals := ∅;
     d_updates := ∅; d_transitions := ∅; d_records := ∅ |}.

Definition upd_manifest f d : Disk :=
  {| d_manifest := f (d_manifest d); d_registry := d_registry d;
     d_identities := d_identities d; d_journals := d_journals d; d_updates := d_updates d;
     d_transitions := d_transitions d; d_records := d_records d |}.
Definition upd_registry f d : Disk :=
  {| d_manifest := d_manifest d; d_registry := f (d_registry d);
     d_identities := d_identities d; d_journals := d_journals d; d_updates := d_updates d;
     d_transitions := d_transitions d; d_records := d_records d |}.
Definition upd_identities f d : Disk :=
  {| d_manifest := d_manifest d; d_registry := d_registry d;
     d_identities := f (d_identities d); d_journals := d_journals d; d_updates := d_updates d;
     d_transitions := d_transitions d; d_records := d_records d |}.
Definition upd_journals f d : Disk :=
  {| d_manifest := d_manifest d; d_registry := d_registry d;
     d_identities := d_identities d; d_journals := f (d_journals d); d_updates := d_updates d;
     d_transitions := d_transitions d; d_records := d_records d |}.
Definition upd_updates f d : Disk :=
  {| d_manifest := d_manifest d; d_registry := d_registry d;
     d_identities := d_identities d; d_journals := d_journals d; d_updates := f (d_updates d);
     d_transitions := d_transitions d; d_records := d_records d |}.
Definition upd_transitions f d : Disk :=
  {| d_manifest := d_manifest d; d_registry := d_registry d;
     d_identities := d_identities d; d_journals := d_journals d; d_updates := d_updates d;
     d_transitions := f (d_transitions d); d_records := d_records d |}.
Definition upd_records f d : Disk :=
  {| d_manifest := d_manifest d; d_registry := d_registry d;
     d_identities := d_identities d; d_journals := d_journals d; d_updates := d_updates d;
     d_transitions := d_transitions d; d_records := f (d_records d) |}.

(** [FaultAfter n applied]: [n] more durable operations succeed, the next one
    returns an error, with its effect on the disk when [applied]. *)
Inductive fault : Type :=
  | NoFault
  | FaultAfter (n : nat) (applied : bool).

Record World := {
  disk : Disk;
  io : fault;
  draws : nat;
  ticks : nat }.

Definition set_disk (d : Disk) (w : World) : World :=
  {| disk := d; io := io w; draws := draws w; ticks := ticks w |}.

Abbreviation M := (ST World DidError).

(** A read of the disk. *)
Definition reads {A} (f : Disk → DidResult A) : M A := λ w, (f (disk w), w).

Section Primitives.
Context `{Env}.

(** A durable operation: one atomic file replacement or removal. *)
Definition durable (f : Disk → Disk) : M unit := λ w,
  match io w with
  | NoFault => (Ok tt, set_disk (f (disk w)) w)
  | FaultAfter (S n) b =>
      (Ok tt, {| disk := f (disk w); io := FaultAfter n b; draws := draws w;
                 ticks := ticks w |})
  | FaultAfter 0 b =>
      (Err (Io os_error),
       {| disk := if b then f (disk w) else disk w; io := FaultAfter 0 false;
          draws := draws w; ticks := ticks w |})
  end.

(** [OsRng.fill_bytes] into a buffer of [len] bytes. *)
Definition draw_bytes (len : nat) : M string := λ w,
  (Ok (random_bytes (draws w) len),
   {| disk := disk w; io := io w; draws := S (draws w); ticks := ticks w |}).

(** [Utc::now().to_rfc3339()]. *)
Definition now : M string := λ w,
  (Ok (clock_rfc3339 (ticks w)),
   {| disk := disk w; io := io w; draws := draws w; ticks := S (ticks w) |}).

(** [Utc::now()]. *)
Definition utc_now : M Z := λ w,
  (Ok (clock_utc (ticks w)),
   {| disk := disk w; io := io w; draws := draws w; ticks := S (ticks w) |}).

(** [random_id]: sixteen random bytes in base64url. *)
Definition random_id : M string :=
  let! b := draw_bytes 16 in ret (b64url_encode b).

(** The private bytes of a fresh key for a role. *)
Definition draw_key (role : KeyRole.t) : M string := λ w,
  (Ok match role with
      | KeyRole.E2eeAgreement => random_x25519_key (draws w)
      | _ => random_ed25519_key (draws w)
      end,
   {| disk := disk w; io := io w; draws := S (draws w); ticks := ticks w |}).

End Primitives.

(** ** The runtime and its write guard (store.rs, store_lock.rs) *)

Record StoreRuntime := {
  rt_root : string;
  rt_root_key : string;
  rt_manifest : StoreManifest }.

Record StoreWriteGuard := { guard_root : string }.

(** [StoreLock::acquire_exclusive]: opening the lock file and waiting for its lock is one
    operation that may fail or be the last one; it leaves the files of the store alone. *)
Definition acquire_exclusive `{Env} (root : string) : M StoreWriteGuard :=
  do! durable id;
  ret {| guard_root := root |}.

(** [StoreRuntime::acquire_write]. *)
Definition acquire_write `{Env} (rt : StoreRuntime) : M StoreWriteGuard :=
  acquire_exclusive (rt_root rt).

(** [StoreWriteGuard::require_store]. *)
Definition require_store (guard : StoreWriteGuard) (root : string) : M unit :=
  sguard (negb (bool_decide (guard_root guard = root))) Conflict.

(** ** Reasoning about the disk *)

(** [keeps m]: the computation leaves the disk alone, meets no fault of its own making, and
    only moves forward in the stream of random draws. *)
Definition keeps {E A} (m : ST World E A) : Prop :=
  ∀ w r w', m w = (r, w') →
    disk w' = disk w ∧ (io w = NoFault → io w' = NoFault) ∧ draws w ≤ draws w'.

(** A triple whose assertions speak about the disk only. *)
Definition dtriple {E A} (P : Disk → Prop) (m : ST World E A) (Q : A → Disk → Prop)
    (X : Disk → Prop) : Prop :=
  triple (λ w, P (disk w)) m (λ a w, Q a (disk w)) (λ w, X (disk w)).

Section DiskRules.
Context `{Env}.

Lemma dtriple_conseq {E A} (P P' X X' : Disk → Prop) (m : ST World E A)
    (Q Q' : A → Disk → Prop) :
  dtriple P m Q X → (∀ d, P' d → P d) → (∀ a d, Q a d → Q' a d) → (∀ d, X d → X' d) →
  dtriple P' m Q' X'.
Proof. intros Hm HP HQ HX. eapply triple_conseq; [exact Hm|..]; simpl; auto. Qed.

Lemma dtriple_durable f (P X : Disk → Prop) (Q : Disk → Prop) :
  (∀ d, P d → Q (f d)) → (∀ d, P d → X d) → (∀ d, P d → X (f d)) →
  dtriple P (durable f) (λ _, Q) X.
Proof.
  intros HQ HX HXf w r w' HP. unfold durable.
  destruct (io w) as [|[|n] []]; intros [= <- <-]; simpl; auto.
Qed.

Lemma dtriple_keeps {E A} (m : ST World E A) (P X : Disk → Prop) (Q : A → Disk → Prop) :
  keeps m →
  (∀ a d, P d → (∃ w w', disk w = d ∧ m w = (Ok a, w')) → Q a d) →
  (∀ d, P d → X d) → dtriple P m Q X.
Proof.
  intros Hk HQ HX w r w' HP Hr. destruct (Hk _ _ _ Hr) as [Hd _].
  rewrite Hd. destruct r; eauto.
Qed.

Lemma dtriple_bind {E A B} (P X : Disk → Prop) (m : ST World E A) (k : A → ST World E B)
    (R : A → Disk → Prop) (Q : B → Disk → Prop) :
  dtriple P m R X → (∀ a, dtriple (R a) (k a) Q X) → dtriple P (bind m k) Q X.
Proof. apply triple_bind. Qed.

(** Group the first two steps of a computation. *)
Lemma dtriple_group {E A B C} (P X : Disk → Prop) (m : ST World E A) (f : A → ST World E B)
    (c : B → ST World E C) Q :
  dtriple P (bind (bind m f) c) Q X → dtriple P (bind m (λ a, bind (f a) c)) Q X.
Proof.
  intros Ht w r w' HP Hr. apply (Ht w r w' HP). rewrite <-Hr. unfold bind.
  by destruct (m w) as [[a|e] w1].
Qed.

Lemma dtriple_ret {E A} (P X : Disk → Prop) (a : A) (Q : A → Disk → Prop) :
  (∀ d, P d → Q a d) → dtriple (E:=E) P (ret a) Q X.
Proof. intros HQ. apply triple_ret. auto. Qed.

Lemma dtriple_lift_bind {E A B} (P X : Disk → Prop) (x : result E A)
    (k : A → ST World E B) (Q : B → Disk → Prop) :
  (∀ d, P d → X d) → (∀ a, x = Ok a → dtriple P (k a) Q X) → dtriple P (bind (lift x) k) Q X.
Proof.
  intros HX Hk w r w' HP. unfold bind, lift. destruct x as [a|e]; [by apply Hk|].
  intros [= <- <-]. auto.
Qed.

Lemma dtriple_guard_bind {E B} (P X : Disk → Prop) bad (e : E)
    (k : unit → ST World E B) (Q : B → Disk → Prop) :
  (∀ d, P d → X d) → (bad = false → dtriple P (k tt) Q X) →
  dtriple P (bind (sguard bad e) k) Q X.
Proof.
  intros HX Hk. apply dtriple_lift_bind; [done|]. intros [] Hb. apply Hk. by apply rguard_Ok in Hb.
Qed.

Lemma dtriple_kept_bind {E A B} (m : ST World E A) (P X : Disk → Prop)
    (k : A → ST World E B) (Q : B → Disk → Prop) :
  keeps m → (∀ d, P d → X d) → (∀ a, dtriple P (k a) Q X) → dtriple P (bind m k) Q X.
Proof.
  intros Hm HX Hk. apply dtriple_bind with (λ _, P); [|done].
  intros w r w' HP Hr. destruct (Hm _ _ _ Hr) as [Hd _]. rewrite Hd. destruct r; auto.
Qed.

Lemma dtriple_pull {E A} (φ : Prop) (P X : Disk → Prop) (m : ST World E A)
    (Q : A → Disk → Prop) :
  (φ → dtriple P m Q X) → dtriple (λ d, φ ∧ P d) m Q X.
Proof. intros Hm w r w' [Hφ HP]. by apply Hm. Qed.

(** A read of a known disk. *)
Lemma dtriple_reads_bind {A B} (f : Disk → DidResult A) d0 (X : Disk → Prop)
    (k : A → M B) (Q : B → Disk → Prop) :
  (∀ d, d = d0 → X d) → (∀ a, f d0 = Ok a → dtriple (λ d, d = d0) (k a) Q X) →
  dtriple (λ d, d = d0) (bind (reads f) k) Q X.
Proof.
  intros HX Hk w r w' Hw. unfold bind, reads. rewrite Hw.
  destruct (f d0) as [a|e]; [by apply Hk|]. intros [= <- <-]. auto.
Qed.

Lemma triple_kept {E A} (m : ST World E A) d0 (X : Disk → Prop) :
  keeps m → X d0 →
  triple (λ w, disk w = d0) m (λ _ w, disk w = d0) (λ w, X (disk w)).
Proof.
  intros Hk HX w r w' Hw Hr. destruct (Hk _ _ _ Hr) as [Hd _]. rewrite Hd, Hw. by destruct r.
Qed.

Lemma dtriple_reads {A} (f : Disk → DidResult A) (P X : Disk → Prop) (Q : A → Disk → Prop) :
  (∀ a d, P d → f d = Ok a → Q a d) → (∀ d, P d → X d) → dtriple P (reads f) Q X.
Proof. intros HQ HX w r w' HP Hr. injection Hr as <- <-. destruct (f (disk w)) eqn:?; auto. Qed.

Lemma keeps_ret {E A} (a : A) : keeps (E:=E) (ret a).
Proof. intros w r w' [= <- <-]. split_and!; simpl; auto with lia. Qed.
Lemma keeps_fail {E A} (e : E) : keeps (A:=A) (fail e).
Proof. intros w r w' [= <- <-]. split_and!; simpl; auto with lia. Qed.
Lemma keeps_lift {E A} (x : result E A) : keeps (lift x).
Proof. intros w r w' Hr. injection Hr as <- <-. split_and!; auto with lia. Qed.
Lemma keeps_sguard {E} bad (e : E) : keeps (sguard bad e).
Proof. apply keeps_lift. Qed.
Lemma keeps_reads {A} (f : Disk → DidResult A) : keeps (reads f).
Proof. intros w r w' Hr. injection Hr as <- <-. split_and!; auto with lia. Qed.
Lemma keeps_bind {E A B} (m : ST World E A) (k : A → ST World E B) :
  keeps m → (∀ a, keeps (k a)) → keeps (bind m k).
Proof.
  intros Hm Hk w r w'. unfold bind. destruct (m w) as [[a|e] w1] eqn:Em.
  - intros Hr. destruct (Hk a w1 r w' Hr) as (-> & ? & ?).
    destruct (Hm w _ w1 Em) as (? & ? & ?). split_and!; [done|auto|lia].
  - intros [= <- <-]. by apply (Hm w _ w1 Em).
Qed.
Lemma keeps_draw_bytes len : keeps (draw_bytes len).
Proof. intros w r w' [= <- <-]. split_and!; simpl; auto with lia. Qed.
Lemma keeps_now : keeps now.
Proof. intros w r w' [= <- <-]. split_and!; simpl; auto with lia. Qed.
Lemma keeps_utc_now : keeps utc_now.
Proof. intros w r w' [= <- <-]. split_and!; simpl; auto with lia. Qed.
Lemma keeps_draw_key role : keeps (draw_key role).
Proof. intros w r w' [= <- <-]. split_and!; simpl; auto with lia. Qed.
Lemma keeps_random_id : keeps random_id.
Proof. apply keeps_bind; [apply keeps_draw_bytes|intros; apply keeps_ret]. Qed.
Lemma keeps_acquire_exclusive root : keeps (acquire_exclusive root).
Proof.
  apply keeps_bind; [|intros; apply keeps_ret]. intros w r w'. unfold durable.
  destruct (io w) as [|[|n] []] eqn:E; intros [= <- <-]; (split_and!; [done| |simpl; lia]); simpl; congruence.
Qed.
Lemma keeps_acquire_write rt : keeps (acquire_write rt).
Proof. apply keeps_acquire_exclusive. Qed.
Lemma keeps_require_store g root : keeps (require_store g root).
Proof. apply keeps_sguard. Qed.
Lemma keeps_for_each {E A} (f : A → ST World E unit) l :
  (∀ x, keeps (f x)) → keeps (for_each f l).
Proof.
  intros Hf. induction l as [|x l IH]; simpl; [apply keeps_ret|].
  apply keeps_bind; [apply Hf|done].
Qed.
Lemma keeps_map_st {E A B} (f : A → ST World E B) l :
  (∀ x, keeps (f x)) → keeps (map_st f l).
Proof.
  intros Hf. induction l as [|x l IH]; simpl; [apply keeps_ret|].
  apply keeps_bind; [apply Hf|]. intros. apply keeps_bind; [done|]. intros. apply keeps_ret.
Qed.
Lemma keeps_attempt {E F A} (m : ST World E A) : keeps m → keeps (attempt (F:=F) m).
Proof.
  intros Hm w r w'. unfold attempt. destruct (m w) as [x w1] eqn:Em. intros [= <- <-].
  by apply (Hm w x w1).
Qed.
Lemma keeps_map_err {E F A} (f : E → F) (m : ST World E A) : keeps m → keeps (st_map_err f m).
Proof.
  intros Hm w r w'. unfold st_map_err. destruct (m w) as [x w1] eqn:Em. intros [= <- <-].
  by apply (Hm w x w1).
Qed.
Lemma acquire_exclusive_Ok root w g w' :
  acquire_exclusive root w = (Ok g, w') → g = {| guard_root := root |} ∧ disk w' = disk w.
Proof.
  intros Hg. split; [|by apply keeps_acquire_exclusive in Hg as [? _]].
  unfold acquire_exclusive, bind in Hg. destruct (durable id w) as [[[]|] w1]; [|discriminate Hg].
  by injection Hg as <- _.
Qed.
Lemma acquire_write_Ok rt w g w' :
  acquire_write rt w = (Ok g, w') → g = {| guard_root := rt_root rt |} ∧ disk w' = disk w.
Proof. apply acquire_exclusive_Ok. Qed.
Lemma acquire_exclusive_runs root w :
  io w = NoFault → acquire_exclusive root w = (Ok {| guard_root := root |}, w).
Proof.
  intros Hio. destruct w as [d f n t]. simpl in Hio. subst f. reflexivity.
Qed.
Lemma acquire_write_runs rt w :
  io w = NoFault → acquire_write rt w = (Ok {| guard_root := rt_root rt |}, w).
Proof. apply acquire_exclusive_runs. Qed.
(** Taking the lock, in a triple. *)
Lemma dtriple_acquire_bind {B} rt (P X : Disk → Prop) (k : StoreWriteGuard → M B)
    (Q : B → Disk → Prop) :
  (∀ d, P d → X d) → (∀ g, guard_root g = rt_root rt → dtriple P (k g) Q X) →
  dtriple P (bind (acquire_write rt) k) Q X.
Proof.
  intros HX Hk. apply dtriple_bind with (λ g d, guard_root g = rt_root rt ∧ P d).
  - intros w r w' HP Hr. destruct r as [g|e].
    + apply acquire_write_Ok in Hr as [-> ->]. done.
    + apply keeps_acquire_write in Hr as [-> _]. auto.
  - intros g. apply dtriple_pull, Hk.
Qed.

(** A run that starts with a computation of this kind either stops there, with
    nothing written, or goes on from the same disk. *)
Lemma keeps_bind_split {E A B} (m : ST World E A) (k : A → ST World E B) w res w' :
  keeps m → bind m k w = (res, w') →
  (∃ e, res = Err e ∧ disk w' = disk w) ∨
  ∃ a w1, m w = (Ok a, w1) ∧ disk w1 = disk w ∧ draws w ≤ draws w1 ∧ k a w1 = (res, w').
Proof.
  intros Hm. unfold bind. destruct (m w) as [[a|e] w1] eqn:Em; destruct (Hm _ _ _ Em) as (? & _ & ?).
  - intros Hk. right. exists a, w1. done.
  - intros [= <- <-]. left. eauto.
Qed.
End DiskRules.

#[export] Hint Resolve keeps_ret keeps_fail keeps_lift keeps_sguard keeps_reads keeps_bind
  keeps_draw_bytes keeps_now keeps_utc_now keeps_draw_key keeps_random_id keeps_acquire_exclusive
  keeps_acquire_write
  keeps_require_store keeps_for_each keeps_map_st keeps_attempt keeps_map_err : anp.

(** Prove that a computation made of reads, guards and draws keeps the disk. *)
Ltac keeps_tac :=
  repeat first
    [ done
    | progress intros
    | simple apply keeps_acquire_write
    | simple apply keeps_acquire_exclusive
    | apply keeps_bind
    | solve [eauto with anp]
    | match goal with
      | |- keeps (match ?x with _ => _ end) => destruct x
      | |- keeps (let _ := _ in _) => cbv zeta
      end ].
(** [split_run H]: split the first read, guard or draw off the run [H]; the case
    in which the run stops there remains as a goal. *)
Ltac split_run H :=
  let a := fresh "a" in let w := fresh "w" in let Hs := fresh "Hs" in
  let Hd := fresh "Hd" in let Hn := fresh "Hn" in
  apply keeps_bind_split in H as [(? & -> & Hd)|(a & w & Hs & Hd & Hn & H)];
  [|..|solve [keeps_tac]]; [|simpl in H].

