(* ===== verification/Document.v ===== *)
(** * DID documents (document.rs)

    Construction of the DID document of a new identity, the digests and
    fingerprints taken of a document, and the metadata of its keys. *)

From stdpp Require Import base strings list gmap pretty.
From S2P Require Import Prelude Json Errors Records Env Input World.

Record ManagedPrivateKey := {
  mpk_fragment : string;
  mpk_role : KeyRole.t;
  mpk_bytes : string }.

Record BuiltIdentity := {
  bi_did : string;
  bi_document : Value;
  bi_managed_keys : list ManagedPrivateKey;
  bi_metadata : list KeyMetadata;
  bi_created_at : string }.

(** [value["key"] = v] on an object. *)
Definition index_set (v : Value) (k : string) (x : Value) : Value :=
  match v with Object o => Object (map_insert o k x) | _ => v end.

Definition relationships (role : KeyRole.t) : list DidVerificationRelationship.t :=
  match role with
  | KeyRole.RootControl | KeyRole.DeviceSigning =>
      [DidVerificationRelationship.Authentication; DidVerificationRelationship.AssertionMethod]
  | KeyRole.RequestSigning => [DidVerificationRelationship.Authentication]
  | KeyRole.E2eeSigning => [DidVerificationRelationship.AssertionMethod]
  | KeyRole.E2eeAgreement => [DidVerificationRelationship.KeyAgreement]
  end.

Definition public_keys_equal (l r : PublicKeyMaterial) : bool :=
  match l, r with
  | Ed25519 a, Ed25519 b => bool_decide (a = b)
  | X25519 a, X25519 b => bool_decide (a = b)
  | _, _ => false
  end.

Definition service_json (s : ServiceSpec) : Value :=
  let value := json_object
    [("id", Str (if starts_with "#" (service_id s) then service_id s
                 else "#" +:+ service_id s)%string);
     ("type", Str (service_type s));
     ("serviceEndpoint", Str (service_endpoint s))] in
  let value := match service_did s with
               | Some d => index_set value "serviceDid" (Str d) | None => value end in
  let value := if bool_decide (service_profiles s = []) then value
               else index_set value "profiles" (Array (map Str (service_profiles s))) in
  if bool_decide (security_profiles s = []) then value
  else index_set value "securityProfiles" (Array (map Str (security_profiles s))).

Section Document.
Context `{Env}.

(** [public_key_from_raw]. *)
Definition public_key_from_raw (role : KeyRole.t) (raw : string) : PublicKeyMaterial :=
  match role with
  | KeyRole.E2eeAgreement => X25519 (x25519_public raw)
  | _ => Ed25519 (ed25519_public raw)
  end.

Definition public_key_from_secret (role : KeyRole.t) (secret : string)
    : DidResult PublicKeyMaterial :=
  do? rguard (negb (bool_decide (String.length secret = 32))) InvalidIdentity;
  Ok (public_key_from_raw role secret).

(** [ManagedPrivateKey::generate], [public_key] and [sign]. *)
Definition generate (fragment : string) (role : KeyRole.t) : M ManagedPrivateKey :=
  let! b := draw_key role in
  ret {| mpk_fragment := fragment; mpk_role := role; mpk_bytes := b |}.
Definition mpk_public_key (k : ManagedPrivateKey) : PublicKeyMaterial :=
  public_key_from_raw (mpk_role k) (mpk_bytes k).
Definition mpk_sign (k : ManagedPrivateKey) (message : string) : DidResult string :=
  do? rguard (negb (is_role (mpk_role k) KeyRole.RootControl)) InvalidIdentity;
  Ok (ed25519_sign (mpk_bytes k) message).

Definition ed25519_public_multibase (k : PublicKeyMaterial) : DidResult string :=
  match k with
  | Ed25519 key => Ok ("z" +:+ bs58_encode (bytes [237; 1] +:+ key))%string
  | _ => Err InvalidPublicKey
  end.

Definition public_key_multibase_of (k : PublicKeyMaterial) : DidResult string :=
  match k with
  | Ed25519 _ => ed25519_public_multibase k
  | X25519 key => Ok ("z" +:+ bs58_encode (bytes [236; 1] +:+ key))%string
  | OtherKey _ _ => Err InvalidPublicKey
  end.

(** [document_digest]. *)
Definition digest_document (document : Value) : DidResult string :=
  let? canonical := ok_or (canonical_json document) (Serialization os_error) in
  Ok ("sha256:" +:+ b64url_encode (sha256 canonical))%string.

(** [document.get("proof").and_then(as_object)...get("verificationMethod").as_str]. *)
Definition proof_method (document : Value) : option string :=
  proof ← get document "proof"; o ← as_object proof;
  method ← map_get o "verificationMethod"; as_str method.

Definition fingerprint_of_document (document : Value) : DidResult string :=
  let? root_kid := ok_or (proof_method document) InvalidIdentity in
  let? method := ok_or (find_verification_method document root_kid) InvalidIdentity in
  let? public := ok_or (extract_public_key method) InvalidPublicKey in
  match public with
  | Ed25519 key =>
      Ok ("sha256:" +:+ b64url_encode
            (sha256 ("anp-identity:root-public-fingerprint:v1" +:+ bytes [0] +:+ key)))%string
  | _ => Err InvalidPublicKey
  end.

Definition validate_method_document (document : Value) : DidResult DidProfile.t :=
  let? did := ok_or (get_str document "id") InvalidIdentity in
  let? p := for_did did in
  do? rguard (negb (validate_did_document_method document)) InvalidIdentity;
  if DidProfile.supports_root_control p
  then do? fingerprint_of_document document; Ok p
  else Ok p.

Definition method_root_fingerprint (document : Value) : DidResult (option string) :=
  let? p := validate_method_document document in
  if DidProfile.supports_root_control p
  then let? f := fingerprint_of_document document in Ok (Some f)
  else Ok None.

Definition key_metadata_from_public (k : string) (r : KeyRole.t) (o : KeyOrigin.t)
    (s : KeyState.t) (public : PublicKeyMaterial) (at_ : string) : DidResult KeyMetadata :=
  let? multibase := public_key_multibase_of public in
  Ok {| kid := k; role := r; origin := o; key_state := s; material_erased := false;
        version := 1; public_key_multibase := multibase; key_created_at := at_ |}.

Definition key_metadata (document : Value) (k : string) (r : KeyRole.t) (o : KeyOrigin.t)
    (at_ : string) : DidResult KeyMetadata :=
  let? method := ok_or (find_verification_method document k) InvalidIdentity in
  let? multibase := ok_or (get_str method "publicKeyMultibase") InvalidPublicKey in
  Ok {| kid := k; role := r; origin := o; key_state := KeyState.Active;
        material_erased := false; version := 1; public_key_multibase := multibase;
        key_created_at := at_ |}.

Definition apply_extension (did : string) (document : Value) (e : DidExtensionSpec)
    : DidResult Value :=
  let? o := ok_or (as_object document) InvalidIdentity in
  match e with
  | DeviceManifestSpec entries =>
      do? rguard (bool_decide (is_Some (map_get o "deviceManifest"))) InvalidExtension;
      let? ds := map_result (λ d,
          let? s := canonicalize_kid did (ds_signing_key_id d) in
          let? a := canonicalize_kid did (ds_e2ee_key_id d) in
          Ok {| dme_device_id := ds_device_id d; dme_signing_key_id := s;
                dme_e2ee_key_id := a; dme_profiles := ds_profiles d |}) entries in
      let? v := ok_or (manifest_to_value
                  {| manifest_type := device_manifest_type; devices := ds |})
                  InvalidExtension in
      Ok (Object (map_insert o "deviceManifest" v))
  end.

Definition apply_extensions (document : Value) (did : string) (l : list DidExtensionSpec)
    : DidResult Value :=
  do? ok_or (as_object document) InvalidIdentity;
  fold_result (apply_extension did) l document.

Definition supplied_managed_key (k : ManagedPrivateKey) : SuppliedDidKey :=
  {| sdk_fragment := mpk_fragment k; sdk_role := mpk_role k;
     sdk_public_key := mpk_public_key k; sdk_relationships := relationships (mpk_role k) |}.

Definition random_challenge : M string :=
  let! b := draw_bytes 16 in ret (b64url_encode b).

(** [sign_root_document]. *)
Definition sign_root_document (document : Value) (root_kid root_secret : string)
    (proof_dom : option string) : M Value :=
  do! sguard (negb (bool_decide (String.length root_secret = 32))) InvalidIdentity;
  let! created := now in
  let! challenge := random_challenge in
  let! prepared := lift (ok_or
    (prepare_w3c_proof document (Ed25519 (ed25519_public root_secret)) root_kid
       {| proof_purpose := Some "assertionMethod"; proof_type := Some proof_type_data_integrity;
          cryptosuite := Some cryptosuite_eddsa_jcs_2022; proof_created := Some created;
          proof_domain := proof_dom; proof_challenge := Some challenge |}%string)
    InvalidIdentity) in
  let signature := ed25519_sign root_secret (signing_input prepared) in
  lift (ok_or (complete_w3c_proof prepared signature) InvalidIdentity).

(** The [metadata] loops shared by the two builders. *)
Definition build_metadata (document : Value) (did : string) (managed : list ManagedPrivateKey)
    (external : list ExternalPublicKeySpec) (at_ : string) : DidResult (list KeyMetadata) :=
  let? own := map_result (λ k, key_metadata document (did +:+ "#" +:+ mpk_fragment k)%string
                                 (mpk_role k) KeyOrigin.Managed at_) managed in
  let? ext := map_result (λ k, let? c := canonicalize_kid did (ek_kid k) in
                               key_metadata document c (ek_role k) KeyOrigin.External at_)
                external in
  Ok (own ++ ext).

(** The [add_key] closure of [build_web_identity]: a verification method and the
    relationships the key takes part in. *)
Definition web_method (did k : string) (public : PublicKeyMaterial) : DidResult Value :=
  let? multibase := public_key_multibase_of public in
  Ok (json_object [("id", Str k); ("type", Str "Multikey"); ("controller", Str did);
                   ("publicKeyMultibase", Str multibase)]).

Definition with_relationship (r : DidVerificationRelationship.t)
    (l : list (string * KeyRole.t * PublicKeyMaterial)) : Value :=
  Array (map (λ e, Str e.1.1) (filter (λ e, r ∈ relationships e.1.2) l)).

(** [service["id"]] made absolute when it is a bare fragment. *)
Definition absolute_service_id (did : string) (service : Value) : DidResult Value :=
  let? id := ok_or (get_str service "id") InvalidService in
  Ok (if starts_with "#" id then index_set service "id" (Str (did +:+ id)%string) else service).

Definition build_web_identity (spec : DidCreateSpec) : M BuiltIdentity :=
  let authority := match port spec with
                   | Some p => (domain spec +:+ "%3A" +:+ pretty p)%string
                   | None => domain spec
                   end in
  let did := fold_left (λ acc segment, (acc +:+ ":" +:+ segment)%string) (path_segments spec)
               ("did:web:" +:+ authority)%string in
  do! sguard (negb (did_web_resolution_url_ok did)) InvalidIdentity;
  do! lift (validate_for_did spec did);
  let! managed := map_st (λ k, generate (mk_fragment k) (mk_role k)) (managed_keys spec) in
  let! external := lift (map_result (λ k,
      let? c := canonicalize_kid did (ek_kid k) in
      let? p := parse_public_key k in Ok (c, ek_role k, p)) (external_keys spec)) in
  let all := map (λ k, ((did +:+ "#" +:+ mpk_fragment k)%string, mpk_role k, mpk_public_key k))
               managed ++ external in
  let! methods := lift (map_result (λ e, web_method did e.1.1 e.2) all) in
  let document := json_object
    [("@context", Array [Str "https://www.w3.org/ns/did/v1";
                         Str "https://w3id.org/security/multikey/v1"]);
     ("id", Str did); ("verificationMethod", Array methods);
     ("authentication", with_relationship DidVerificationRelationship.Authentication all);
     ("assertionMethod", with_relationship DidVerificationRelationship.AssertionMethod all);
     ("keyAgreement", with_relationship DidVerificationRelationship.KeyAgreement all)] in
  let list := map service_json (services spec) ++
    match agent_description_url spec with
    | Some url => [json_object [("id", Str "#agent-description"); ("type", Str "AgentDescription");
                                ("serviceEndpoint", Str url)]]
    | None => []
    end in
  let! list := lift (map_result (absolute_service_id did) list) in
  let document := if bool_decide (list = []) then document
                  else index_set document "service" (Array list) in
  let! document := lift (apply_extensions document did (extensions spec)) in
  do! lift (validate_method_document document);
  do! lift (ok_or (validate_device_manifest document) InvalidExtension);
  let! created_at := now in
  let! metadata := lift (build_metadata document did managed (external_keys spec) created_at) in
  ret {| bi_did := did; bi_document := document; bi_managed_keys := managed;
         bi_metadata := metadata; bi_created_at := created_at |}.

(** The keys other than the root given to [build_unsigned_e1_did_document]. *)
Definition supplied_external_key (did : string) (k : ExternalPublicKeySpec)
    : DidResult SuppliedDidKey :=
  let? c := canonicalize_kid did (ek_kid k) in
  let? fragment := ok_or (strip_prefix (did +:+ "#") c) ForeignKid in
  let? public := parse_public_key k in
  Ok {| sdk_fragment := fragment; sdk_role := ek_role k; sdk_public_key := public;
        sdk_relationships := relationships (ek_role k) |}.

Definition build_e1_identity (spec : DidCreateSpec) : M BuiltIdentity :=
  let! managed := map_st (λ k, generate (mk_fragment k) (mk_role k)) (managed_keys spec) in
  let! root := lift (ok_or (List.find (λ k, is_role (mpk_role k) KeyRole.RootControl) managed)
                       InvalidManagedRootCount) in
  let options url services additional :=
    {| sed_port := port spec; sed_path_segments := path_segments spec;
       sed_agent_description_url := url; sed_services := services;
       sed_root_key := supplied_managed_key root; sed_additional_keys := additional |} in
  let! root_only := lift (ok_or
    (build_unsigned_e1_did_document (domain spec) (options None [] [])) InvalidIdentity) in
  let! did := lift (ok_or (get_str root_only "id") InvalidIdentity) in
  do! lift (validate_for_did spec did);
  let! external := lift (map_result (supplied_external_key did) (external_keys spec)) in
  let supplied := map supplied_managed_key
    (filter (λ k, mpk_role k ≠ KeyRole.RootControl) managed) ++ external in
  let! unsigned := lift (ok_or
    (build_unsigned_e1_did_document (domain spec)
       (options (agent_description_url spec) (map service_json (services spec)) supplied))
    InvalidIdentity) in
  let! unsigned := lift (apply_extensions unsigned did (extensions spec)) in
  let! created_at := now in
  let root_kid := (did +:+ "#" +:+ mpk_fragment root)%string in
  let! challenge := random_challenge in
  let! prepared := lift (ok_or
    (prepare_w3c_proof unsigned (mpk_public_key root) root_kid
       {| proof_purpose := Some "assertionMethod"; proof_type := Some proof_type_data_integrity;
          cryptosuite := Some cryptosuite_eddsa_jcs_2022; proof_created := Some created_at;
          proof_domain := Some (domain spec); proof_challenge := Some challenge |}%string)
    InvalidIdentity) in
  let! signature := lift (mpk_sign root (signing_input prepared)) in
  let! document := lift (ok_or (complete_w3c_proof prepared signature) InvalidIdentity) in
  do! sguard (negb (validate_did_document_binding document)) InvalidIdentity;
  do! lift (ok_or (validate_device_manifest document) InvalidExtension);
  let! metadata := lift (build_metadata document did managed (external_keys spec) created_at) in
  ret {| bi_did := did; bi_document := document; bi_managed_keys := managed;
         bi_metadata := metadata; bi_created_at := created_at |}.

Definition build_identity (spec : DidCreateSpec) : M BuiltIdentity :=
  do! lift (validate spec);
  match profile spec with
  | DidProfile.Web => build_web_identity spec
  | DidProfile.E1 => build_e1_identity spec
  end.

(** ** Facts *)

Lemma keeps_generate f r : keeps (generate f r).
Proof. unfold generate. keeps_tac. Qed.
Lemma keeps_random_challenge : keeps random_challenge.
Proof. unfold random_challenge. keeps_tac. Qed.
Hint Resolve keeps_generate keeps_random_challenge : anp.

Lemma keeps_build_identity spec : keeps (build_identity spec).
Proof. unfold build_identity, build_web_identity, build_e1_identity. keeps_tac. Qed.
Lemma keeps_sign_root_document doc k s d : keeps (sign_root_document doc k s d).
Proof. unfold sign_root_document. keeps_tac. Qed.

Lemma public_keys_equal_eq l r : public_keys_equal l r = true → l = r.
Proof. destruct l, r; simpl; try done; by intros ->%bool_decide_eq_true. Qed.

Lemma fingerprint_nonempty document f :
  fingerprint_of_document document = Ok f → f ≠ EmptyString.
Proof.
  unfold fingerprint_of_document. intros Hf.
  do 3 (apply rbind_Ok in Hf as (? & _ & Hf)).
  match type of Hf with match ?x with _ => _ end = _ => destruct x end; by simplify_eq.
Qed.
End Document.

#[export] Hint Resolve keeps_generate keeps_random_challenge keeps_build_identity
  keeps_sign_root_document : anp.
