(* ===== verification/Keystore.v ===== *)
(** * Encrypted key records (keystore.rs)

    A managed private key is sealed with ChaCha20-Poly1305 under a key derived
    from the store's root key and from associated data that names the identity,
    the key, its role and its version; the record's file name is a digest of the
    same fields. *)

From stdpp Require Import base strings list gmap pretty.
From Stdlib Require Import Ascii.
From S2P Require Import Prelude Json Errors Records Env Toy World.

Definition RECORD_SCHEMA_VERSION : N := 1.
Definition RECORD_NONCE_LEN : nat := 12.
Definition RECORD_HKDF_SALT : string := "anp-identity:keystore:hkdf-salt:v1".

Module SealIfAbsent.
Inductive t := Sealed | AlreadyExists.
#[global] Instance eq_dec : EqDecision t.
Proof. solve_decision. Defined.
End SealIfAbsent.

Definition key_role_name (r : KeyRole.t) : string :=
  match r with
  | KeyRole.RootControl => "root-control"
  | KeyRole.DeviceSigning => "device-signing"
  | KeyRole.RequestSigning => "request-signing"
  | KeyRole.E2eeSigning => "e2ee-signing"
  | KeyRole.E2eeAgreement => "e2ee-agreement"
  end.

Definition push_field (output name value : string) : string :=
  (output +:+ name +:+ bytes [0] +:+ pretty (N.of_nat (String.length value)) +:+ bytes [0]
   +:+ value +:+ bytes [255])%string.

Definition aad_for_ref (schema_version : N) (r : SecretRef) : string :=
  let aad := EmptyString in
  let aad := push_field aad "domain" "anp-identity:keystore:v1" in
  let aad := push_field aad "schema" (pretty schema_version) in
  let aad := push_field aad "identity" (sr_identity_id r) in
  let aad := push_field aad "kid" (sr_key_id r) in
  let aad := push_field aad "role" (key_role_name (sr_role r)) in
  push_field aad "version" (pretty (sr_version r)).

(** [push_hash_field] feeds a digest with the bytes [push_field] appends. *)
Definition push_hash_field (digest name value : string) : string :=
  (digest +:+ name +:+ bytes [0] +:+ pretty (N.of_nat (String.length value)) +:+ bytes [0]
   +:+ value +:+ bytes [255])%string.

(** The bytes hashed by [record_storage_key]. *)
Definition storage_preimage (r : SecretRef) : string :=
  let d := EmptyString in
  let d := push_hash_field d "identity" (sr_identity_id r) in
  let d := push_hash_field d "kid" (sr_key_id r) in
  let d := push_hash_field d "role" (key_role_name (sr_role r)) in
  push_hash_field d "version" (pretty (sr_version r)).

Definition validate_secret_ref (r : SecretRef) : DidResult unit :=
  rguard (is_empty (trim (sr_identity_id r)) || is_empty (trim (sr_key_id r))
          || bool_decide (sr_version r = 0%N))
         InvalidKidFragment.

Section Keystore.
Context `{Env}.

Definition record_storage_key (r : SecretRef) : string :=
  b64url_encode (sha256 (storage_preimage r)).

Definition derive_record_key (root_key aad : string) : DidResult string :=
  ok_or (hkdf_sha256 RECORD_HKDF_SALT root_key aad) Crypto.

Definition seal_record (root_key : string) (r : SecretRef) (plaintext : string)
    : M EncryptedRecord :=
  let aad := aad_for_ref RECORD_SCHEMA_VERSION r in
  let! record_key := lift (derive_record_key root_key aad) in
  let! nonce := draw_bytes RECORD_NONCE_LEN in
  let! ciphertext := lift (ok_or (aead_encrypt record_key nonce aad plaintext) Crypto) in
  let! created := now in
  ret {| er_schema_version := RECORD_SCHEMA_VERSION; er_secret_ref := r;
         er_cipher := "chacha20-poly1305"; er_kdf := "hkdf-sha256";
         er_nonce_b64u := b64url_encode nonce; er_aad_b64u := b64url_encode aad;
         er_ciphertext_b64u := b64url_encode ciphertext; er_created_at := created |}.

Definition open_record (root_key : string) (record : EncryptedRecord) : DidResult string :=
  do? rguard (negb (bool_decide (er_schema_version record = RECORD_SCHEMA_VERSION))
              || negb (bool_decide (er_cipher record = "chacha20-poly1305"%string))
              || negb (bool_decide (er_kdf record = "hkdf-sha256"%string))) CorruptRecord;
  let aad := aad_for_ref (er_schema_version record) (er_secret_ref record) in
  do? rguard (negb (bool_decide (b64url_encode aad = er_aad_b64u record))) CorruptRecord;
  let? nonce := ok_or (b64url_decode (er_nonce_b64u record)) CorruptRecord in
  do? rguard (negb (bool_decide (String.length nonce = RECORD_NONCE_LEN))) CorruptRecord;
  let? ciphertext := ok_or (b64url_decode (er_ciphertext_b64u record)) CorruptRecord in
  let? record_key := derive_record_key root_key aad in
  ok_or (aead_decrypt record_key nonce aad ciphertext) CorruptRecord.

(** [FileKeyStore::seal_if_absent]. *)
Definition seal_if_absent (guard : StoreWriteGuard) (rt : StoreRuntime) (r : SecretRef)
    (plaintext : string) : M SealIfAbsent.t :=
  do! require_store guard (rt_root rt);
  do! lift (validate_secret_ref r);
  let path := record_storage_key r in
  let! exists_ := reads (λ d, Ok (bool_decide (is_Some (d_records d !! path)))) in
  if exists_ then ret SealIfAbsent.AlreadyExists
  else
    let! record := seal_record (rt_root_key rt) r plaintext in
    do! durable (upd_records (<[path := Parsed record]>));
    ret SealIfAbsent.Sealed.

(** [FileKeyStore::open], as a function of the disk. *)
Definition open_secret_at (rt : StoreRuntime) (r : SecretRef) (d : Disk) : DidResult string :=
  do? validate_secret_ref r;
  let? record := match d_records d !! record_storage_key r with
                 | None => Err SecretNotFound
                 | Some Unreadable => Err (Io os_error)
                 | Some Garbled => Err CorruptRecord
                 | Some (Parsed record) => Ok record
                 end in
  do? rguard (negb (bool_decide (er_secret_ref record = r))) CorruptRecord;
  open_record (rt_root_key rt) record.
Definition open_secret (rt : StoreRuntime) (r : SecretRef) : M string :=
  reads (open_secret_at rt r).

(** [FileKeyStore::delete]. *)
Definition delete_secret (guard : StoreWriteGuard) (rt : StoreRuntime) (r : SecretRef)
    : M unit :=
  do! require_store guard (rt_root rt);
  durable (upd_records (delete (record_storage_key r))).

End Keystore.

(** ** The field encoding is uniquely decodable *)

Lemma pretty_char_not_nul n : pretty_N_char n ≠ "000"%char.
Proof. unfold pretty_N_char. by repeat case_match. Qed.

Lemma pretty_N_go_not_nul n s :
  contains_char "000" s = false → contains_char "000" (pretty_N_go n s) = false.
Proof.
  revert s. induction (N.lt_wf_0 n) as [n _ IH]. intros s Hs.
  destruct (decide (n = 0)%N) as [->|Hn]; [done|].
  rewrite pretty_N_go_step by lia. apply IH; [apply N.div_lt; lia|].
  simpl. rewrite Hs, bool_decide_false by apply pretty_char_not_nul. done.
Qed.

Lemma pretty_N_not_nul (n : N) : contains_char "000" (pretty n) = false.
Proof.
  unfold pretty, pretty_N. case_decide; [done|]. by apply pretty_N_go_not_nul.
Qed.

Lemma split_at_char c s1 s2 t1 t2 :
  contains_char c s1 = false → contains_char c s2 = false →
  (s1 +:+ String c t1)%string = (s2 +:+ String c t2)%string → s1 = s2 ∧ t1 = t2.
Proof.
  revert s2. induction s1 as [|a s1 IH]; intros [|b s2] H1 H2; simpl; intros Heq.
  - by injection Heq.
  - injection Heq as -> _. simpl in H2. by rewrite bool_decide_true in H2.
  - injection Heq as -> _. simpl in H1. by rewrite bool_decide_true in H1.
  - simpl in H1, H2. apply orb_false_iff in H1 as [_ H1], H2 as [_ H2].
    injection Heq as -> Heq. destruct (IH s2 H1 H2 Heq) as [-> ->]. done.
Qed.

Lemma app_inj_length s1 s2 t1 t2 :
  String.length s1 = String.length s2 →
  (s1 +:+ t1)%string = (s2 +:+ t2)%string → s1 = s2 ∧ t1 = t2.
Proof.
  revert s2. induction s1 as [|a s1 IH]; intros [|b s2]; simpl; try done.
  intros [= Hl] Heq. injection Heq as -> Heq. by destruct (IH s2 Hl Heq) as [-> ->].
Qed.

(** One field in front of the rest of the message. *)
Definition field (name value rest : string) : string :=
  (name +:+ String "000" (pretty (N.of_nat (String.length value)) +:+
     String "000" (value +:+ String "255" rest)))%string.

Lemma field_inj name v1 v2 r1 r2 :
  field name v1 r1 = field name v2 r2 → v1 = v2 ∧ r1 = r2.
Proof.
  unfold field. intros Heq%string_app_inj_l. injection Heq as Heq.
  apply split_at_char in Heq as [Hl Heq]; [|apply pretty_N_not_nul..].
  apply (inj pretty), Nat2N.inj in Hl.
  apply app_inj_length in Heq as [-> Heq]; [|done]. by injection Heq as ->.
Qed.

Lemma push_field_app output name value rest :
  (push_field output name value +:+ rest)%string = (output +:+ field name value rest)%string.
Proof. unfold push_field, field. by rewrite !string_app_assoc. Qed.

Lemma string_app_nil_r (s : string) : (s +:+ "")%string = s.
Proof. induction s as [|a s IH]; [done|]. change (String a (s +:+ "") = String a s). by rewrite IH. Qed.

Lemma push_field_field output name value :
  push_field output name value = (output +:+ field name value "")%string.
Proof. rewrite <-push_field_app. by rewrite string_app_nil_r. Qed.

Lemma key_role_name_inj r1 r2 : key_role_name r1 = key_role_name r2 → r1 = r2.
Proof. by destruct r1, r2. Qed.

Lemma storage_preimage_fields r :
  storage_preimage r =
    field "identity" (sr_identity_id r) (field "kid" (sr_key_id r)
      (field "role" (key_role_name (sr_role r)) (field "version" (pretty (sr_version r)) ""))).
Proof.
  unfold storage_preimage. change push_hash_field with push_field.
  by rewrite push_field_field, !push_field_app.
Qed.

Lemma aad_fields n r :
  aad_for_ref n r =
    field "domain" "anp-identity:keystore:v1" (field "schema" (pretty n) (storage_preimage r)).
Proof.
  rewrite storage_preimage_fields. unfold aad_for_ref.
  by rewrite push_field_field, !push_field_app.
Qed.

Lemma storage_preimage_inj r1 r2 : storage_preimage r1 = storage_preimage r2 → r1 = r2.
Proof.
  rewrite !storage_preimage_fields.
  intros (Hi & (Hk & (Hr & (Hv & _)%field_inj)%field_inj)%field_inj)%field_inj.
  apply key_role_name_inj in Hr. apply (inj pretty) in Hv.
  destruct r1, r2; simpl in *. by subst.
Qed.

(** ** Theorems *)

(** The associated data of a sealed record determines the schema version and
    every field of the secret reference: no two references share associated
    data, so a ciphertext of one key cannot be presented as that of another. *)
Theorem aad_for_ref_inj n1 r1 n2 r2 :
  aad_for_ref n1 r1 = aad_for_ref n2 r2 ↔ n1 = n2 ∧ r1 = r2.
Proof.
  split; [|by intros [-> ->]]. rewrite !aad_fields.
  intros (_ & (Hn & Hr)%field_inj)%field_inj.
  split; [by apply (inj pretty) in Hn|by apply storage_preimage_inj].
Qed.

Section KeystoreFacts.
Context `{Env}.

Lemma record_storage_key_inj `{!Base64Laws, !DigestLaws} r1 r2 :
  record_storage_key r1 = record_storage_key r2 → r1 = r2.
Proof. intros Heq%b64url_encode_inj%sha256_inj. by apply storage_preimage_inj. Qed.

Lemma keeps_seal_record k r p : keeps (seal_record k r p).
Proof. unfold seal_record. keeps_tac. Qed.
Lemma keeps_open_secret rt r : keeps (open_secret rt r).
Proof. apply keeps_reads. Qed.

Lemma seal_record_open `{!Base64Laws, !AeadLaws, !RandomLaws} k r p w record w' :
  seal_record k r p w = (Ok record, w') →
  er_secret_ref record = r ∧ open_record k record = Ok p.
Proof.
  unfold seal_record. intros Hs. inv_run Hs. apply lift_Ok in Hstep as [Hkey ->].
  inv_run Hs. injection Hstep as <- <-.
  inv_run Hs. apply lift_Ok in Hstep as [Hct%ok_or_Ok ->].
  inv_run Hs. apply ret_Ok in Hs as [-> ->]. simpl. split; [done|].
  unfold open_record. simpl. rewrite !bool_decide_true by done. simpl.
  rewrite b64url_roundtrip. simpl. rewrite random_bytes_length. simpl.
  rewrite b64url_roundtrip. simpl. rewrite Hkey. simpl.
  by rewrite (aead_roundtrip _ _ _ _ _ Hct).
Qed.

(** Sealing has one durable effect, the creation of the record's own file. *)
Lemma seal_if_absent_run guard rt r p w res w' :
  seal_if_absent guard rt r p w = (res, w') →
  match res with
  | Ok SealIfAbsent.AlreadyExists =>
      disk w' = disk w ∧ is_Some (d_records (disk w) !! record_storage_key r)
  | Ok SealIfAbsent.Sealed =>
      ∃ record w1 w2, d_records (disk w) !! record_storage_key r = None ∧
        seal_record (rt_root_key rt) r p w1 = (Ok record, w2) ∧
        disk w' = upd_records (<[record_storage_key r := Parsed record]>) (disk w) ∧
        validate_secret_ref r = Ok tt
  | Err _ =>
      disk w' = disk w ∨
      (d_records (disk w) !! record_storage_key r = None ∧
       ∃ record, disk w' = upd_records (<[record_storage_key r := Parsed record]>) (disk w))
  end.
Proof.
  unfold seal_if_absent, require_store, sguard, rguard, reads, durable, bind, lift, ret.
  destruct (negb _); [intros [= <- <-]; by left|].
  destruct (validate_secret_ref r) as [[]|e] eqn:Hv; [|intros [= <- <-]; by left].
  case_bool_decide as Hex; [by intros [= <- <-]|].
  apply eq_None_not_Some in Hex.
  destruct (seal_record (rt_root_key rt) r p w) as [[record|e] w1] eqn:Hs.
  - destruct (keeps_seal_record _ _ _ _ _ _ Hs) as (Hd & Hio & _).
    destruct (io w1) as [|[|n] b]; intros [= <- <-]; simpl; rewrite ?Hd; eauto 10.
    destruct b; rewrite ?Hd; eauto 10.
  - destruct (keeps_seal_record _ _ _ _ _ _ Hs) as (Hd & Hio & _).
    intros [= <- <-]. auto.
Qed.

(** A sealed secret opens, and no other record file changes. *)
Lemma seal_opens `{!Base64Laws, !AeadLaws, !RandomLaws}
    guard rt r p w w' :
  seal_if_absent guard rt r p w = (Ok SealIfAbsent.Sealed, w') →
  open_secret_at rt r (disk w') = Ok p ∧
  (∀ path, path ≠ record_storage_key r → d_records (disk w') !! path = d_records (disk w) !! path).
Proof.
  intros Hs. apply seal_if_absent_run in Hs as (record & w1 & w2 & _ & Hseal & -> & Hv).
  destruct (seal_record_open _ _ _ _ _ _ Hseal) as [Href Hopen]. split.
  - unfold open_secret_at. rewrite Hv. simpl. rewrite lookup_insert_eq. simpl.
    rewrite bool_decide_true by done. done.
  - intros path Hne. simpl. by rewrite lookup_insert_ne.
Qed.

(** Round trip of custody: a secret sealed under a reference is the secret
    opened under that reference with the same root key, and sealing leaves every
    other record file as it was. *)
Theorem seal_then_open `{!Base64Laws, !AeadLaws, !RandomLaws}
    guard rt r p w w' :
  seal_if_absent guard rt r p w = (Ok SealIfAbsent.Sealed, w') →
  open_secret_at rt r (disk w') = Ok p ∧
  (∀ path, path ≠ record_storage_key r → d_records (disk w') !! path = d_records (disk w) !! path).
Proof. apply seal_opens. Qed.

(** Sealing never replaces a record: when a file for the reference exists,
    the call reports it and changes nothing on disk, whatever is in the file and
    whatever the fault. *)
Lemma seal_if_absent_preserves guard rt r p w :
  is_Some (d_records (disk w) !! record_storage_key r) →
  guard_root guard = rt_root rt → validate_secret_ref r = Ok tt →
  seal_if_absent guard rt r p w = (Ok SealIfAbsent.AlreadyExists, w).
Proof.
  intros Hex Hg Hv. unfold seal_if_absent, require_store, sguard, rguard, reads, bind, lift.
  rewrite bool_decide_true by done. simpl. rewrite Hv. by rewrite bool_decide_true.
Qed.

(** Isolation: the record files of different references are different files,
    so opening, sealing or deleting the key of one identity never reads or
    changes a record of another identity, key, role or version. *)
Lemma delete_secret_isolated `{!Base64Laws, !DigestLaws} guard rt r r' w res w' :
  r ≠ r' → delete_secret guard rt r w = (res, w') →
  open_secret_at rt r' (disk w') = open_secret_at rt r' (disk w).
Proof.
  intros Hne Hd. unfold open_secret_at.
  assert (d_records (disk w') !! record_storage_key r' =
          d_records (disk w) !! record_storage_key r') as ->; [|done].
  assert (record_storage_key r ≠ record_storage_key r') as Hp.
  { intros Heq. by apply Hne, record_storage_key_inj. }
  revert Hd. unfold delete_secret, require_store, sguard, rguard, durable, bind, lift.
  destruct (negb _); [by intros [= <- <-]|].
  destruct (io w) as [|[|n] []]; intros [= <- <-]; simpl; by rewrite ?lookup_delete_ne.
Qed.

(** A record that was moved or whose reference was rewritten is rejected:
    opening a reference succeeds only when the file holds a record of exactly
    that reference with the matching associated data. *)
Theorem open_secret_binds_ref rt r d p :
  open_secret_at rt r d = Ok p →
  ∃ record, d_records d !! record_storage_key r = Some (Parsed record) ∧
    er_secret_ref record = r ∧
    er_aad_b64u record = b64url_encode (aad_for_ref RECORD_SCHEMA_VERSION r).
Proof.
  unfold open_secret_at. intros Ho. inv_run Ho. inv_run Ho.
  destruct (d_records d !! record_storage_key r) as [[record| |]|]; simplify_eq.
  rename a0 into record. exists record.
  inv_run Ho. apply rguard_Ok, negb_false_iff, bool_decide_eq_true in Hstep0.
  unfold open_record in Ho. inv_run Ho.
  apply rguard_Ok in Hstep1. apply orb_false_iff in Hstep1 as [[Hsv _]%orb_false_iff _].
  apply negb_false_iff, bool_decide_eq_true in Hsv.
  inv_run Ho. apply rguard_Ok, negb_false_iff, bool_decide_eq_true in Hstep1.
  rewrite Hsv, Hstep0 in Hstep1. done.
Qed.
End KeystoreFacts.

#[export] Hint Resolve keeps_seal_record keeps_open_secret : anp.

(** ** Witnesses *)

Definition sample_ref : SecretRef :=
  {| sr_identity_id := "identity-1"; sr_key_id := "did:wba:example.com:alice#device";
     sr_role := KeyRole.DeviceSigning; sr_version := 1 |}.
Definition sample_ref' : SecretRef :=
  {| sr_identity_id := "identity-2"; sr_key_id := "did:wba:example.com:alice#device";
     sr_role := KeyRole.DeviceSigning; sr_version := 1 |}.
Definition sample_manifest : StoreManifest :=
  {| sm_schema_version := 1; store_id := "store"; sm_generation := 1;
     provider := {| rkp_kind := RootKeyProviderKind.Injected; rkp_key_id := "host";
                    rkp_account := None |};
     sm_root_key_fingerprint := "fp"; sm_created_at := "t"; rekey_generation := 0 |}.
Definition sample_runtime : StoreRuntime :=
  {| rt_root := "/store"; rt_root_key := "root-key"; rt_manifest := sample_manifest |}.
Definition sample_guard : StoreWriteGuard := {| guard_root := "/store" |}.
Definition initial_world : World :=
  {| disk := empty_disk; io := NoFault; draws := 0; ticks := 0 |}.
Definition sealed_world : World :=
  (@seal_if_absent toy_env sample_guard sample_runtime sample_ref "secret" initial_world).2.

Lemma seal_then_open_witness :
  @open_secret_at toy_env sample_runtime sample_ref (disk sealed_world) = Ok "secret"%string.
Proof.
  apply (@seal_then_open toy_env toy_base64_laws toy_aead_laws toy_random_laws
           sample_guard sample_runtime sample_ref "secret" initial_world sealed_world).
  vm_compute. reflexivity.
Defined.

Lemma seal_if_absent_preserves_witness :
  @seal_if_absent toy_env sample_guard sample_runtime sample_ref "other" sealed_world
    = (Ok SealIfAbsent.AlreadyExists, sealed_world).
Proof.
  apply (@seal_if_absent_preserves toy_env sample_guard sample_runtime sample_ref "other").
  - eexists. vm_compute. reflexivity.
  - reflexivity.
  - vm_compute. reflexivity.
Defined.

Lemma delete_secret_isolated_witness :
  @open_secret_at toy_env sample_runtime sample_ref
     (disk (@delete_secret toy_env sample_guard sample_runtime sample_ref' sealed_world).2)
  = @open_secret_at toy_env sample_runtime sample_ref (disk sealed_world).
Proof.
  apply (@delete_secret_isolated toy_env toy_base64_laws toy_digest_laws
           sample_guard sample_runtime sample_ref' sample_ref sealed_world (Ok tt)).
  - discriminate.
  - vm_compute. reflexivity.
Defined.

Lemma open_secret_binds_ref_witness :
  ∃ record, d_records (disk sealed_world) !! @record_storage_key toy_env sample_ref
              = Some (Parsed record) ∧ er_secret_ref record = sample_ref.
Proof.
  destruct (@open_secret_binds_ref toy_env sample_runtime sample_ref (disk sealed_world)
              "secret") as (record & Hr & Href & _).
  - vm_compute. reflexivity.
  - exists record. split; [exact Hr|exact Href].
Defined.
