(* ===== verification/Registry.v ===== *)
(** * The identity registry and its journals (registry.rs)

    Reading and writing of the registry, the identity records and the three
    kinds of journals, with the normalisation [read_identity] applies to records
    of older stores, and the bookkeeping of retired device identifiers. *)

From stdpp Require Import base strings list gmap sorting.
From S2P Require Import Prelude Json Errors Records Env Input World Document Keystore.

Definition REGISTRY_SCHEMA_VERSION : N := 1.
Definition IDENTITY_SCHEMA_VERSION : N := 1.
Definition JOURNAL_SCHEMA_VERSION : N := 1.
Definition UPDATE_JOURNAL_SCHEMA_VERSION : N := 1.
Definition IDENTITY_TRANSITION_JOURNAL_SCHEMA_VERSION : N := 1.

(** ** Constructors of journals and records *)

(** [CreationJournal::new], [new_state_transition], [new_root_import] and
    [new_namespace_delete], which differ in their kind. *)
Definition new_creation_journal (kind : CreationJournalKind.t) (tid iid d : string)
    (refs : list SecretRef) (at_ : string) : CreationJournal :=
  {| cj_schema_version := JOURNAL_SCHEMA_VERSION; cj_kind := kind; transaction_id := tid;
     cj_identity_id := iid; cj_did := d; cj_secret_refs := refs; cj_created_at := at_ |}.

(** [UpdateJournal::new]. *)
Definition new_update_journal (rid iid : string) (refs : list SecretRef)
    (kind : UpdateJournalKind.t) (at_ : string) : UpdateJournal :=
  {| uj_schema_version := UPDATE_JOURNAL_SCHEMA_VERSION; uj_revision_id := rid;
     uj_identity_id := iid; uj_secret_refs := refs; uj_kind := kind; uj_created_at := at_ |}.

(** [IdentityRecord::summary]. *)
Definition summary (r : IdentityRecord) : IdentitySummary :=
  {| is_identity_id := identity_id r; is_did := did r; is_state := state r;
     is_root_capability := root_capability r; is_created_at := created_at r |}.

Record NewIdentityRecord := {
  ni_identity_id : string;
  ni_did : string;
  ni_document : Value;
  ni_keys : list KeyMetadata;
  ni_capabilities : Capabilities;
  ni_root_capability : RootCapabilityState.t;
  ni_root_key_fingerprint : option string;
  ni_checkpoint : DocumentCheckpoint;
  ni_local_authorization : option LocalAuthorizationRecord;
  ni_created_at : string }.

Definition new_identity_record (i : NewIdentityRecord) : IdentityRecord :=
  {| schema_version := IDENTITY_SCHEMA_VERSION; identity_id := ni_identity_id i;
     did := ni_did i; state := IdentityState.Creating; revision := 1; generation := 1;
     document := ni_document i; keys := ni_keys i; capabilities := ni_capabilities i;
     root_capability := ni_root_capability i;
     root_key_fingerprint := ni_root_key_fingerprint i;
     checkpoint := Some (ni_checkpoint i); initial_publication_pending := false;
     local_authorization := ni_local_authorization i; local_request_signing_kid := None;
     pending_enrollment := None; pending_request_signing := None;
     pending_root_transfer := None; root_transfer_replays := []; retired_device_ids := [];
     created_at := ni_created_at i; pending_revision := None |}.

(** ** Device bookkeeping *)

(** The [ids] closure of [observe_devices]. *)
Definition device_ids (document : Value) : gset string :=
  match (m ← get document "deviceManifest"; l ← get m "devices"; as_array l) with
  | Some l => list_to_set (omap (λ d, get_str d "device_id") l)
  | None => ∅
  end.

(** [Vec::dedup]. *)
Fixpoint dedup (l : list string) : list string :=
  match l with
  | x :: ((y :: _) as l') => if bool_decide (x = y) then dedup l' else x :: dedup l'
  | _ => l
  end.

(** [IdentityRecord::observe_devices]. *)
Definition observe_devices (next : Value) (r : IdentityRecord) : DidResult IdentityRecord :=
  let next_ids := device_ids next in
  do? rguard (existsb (λ id, bool_decide (id ∈ next_ids)) (retired_device_ids r))
             InvalidExtension;
  let retired := retired_device_ids r ++ elements (device_ids (document r) ∖ next_ids) in
  Ok (set_retired_device_ids (dedup (merge_sort string_le retired)) r).

(** ** Files *)

Section Registry.
Context `{Env}.

(** [storage_key]: the file stem of an identifier. *)
Definition storage_key (value : string) : string := b64url_encode (sha256 value).

(** [infer_local_authorization] (adoption.rs). *)
Definition infer_local_authorization (doc : Value) (ks : list KeyMetadata)
    : DidResult (option LocalAuthorizationRecord) :=
  let? manifest := ok_or (validate_device_manifest doc) InvalidExtension in
  match manifest with
  | None => Ok None
  | Some m =>
      let owns r k := existsb (λ key, bool_decide (origin key = KeyOrigin.Managed)
                                      && is_role (role key) r && bool_decide (kid key = k)) ks in
      let matches := List.filter (λ d, owns KeyRole.DeviceSigning (dme_signing_key_id d)
                                    && owns KeyRole.E2eeAgreement (dme_e2ee_key_id d))
                       (devices m) in
      match matches with
      | [] => Ok None
      | [d] => Ok (Some {| device_id := dme_device_id d; signing_kid := dme_signing_key_id d;
                           e2ee_kid := dme_e2ee_key_id d; la_profiles := dme_profiles d |})
      | _ => Err InvalidExtension
      end
  end.

Definition read_registry_at (d : Disk) : DidResult IdentityRegistry :=
  match d_registry d with
  | None => Ok default_registry
  | Some Unreadable => Err (Io os_error)
  | Some Garbled => Err InvalidIdentity
  | Some (Parsed r) =>
      do? rguard (negb (bool_decide (reg_schema_version r = REGISTRY_SCHEMA_VERSION)))
                 InvalidIdentity;
      Ok r
  end.
Definition read_registry : M IdentityRegistry := reads read_registry_at.

Definition write_registry (root : string) (guard : StoreWriteGuard) (r : IdentityRegistry)
    : M unit :=
  do! require_store guard root;
  durable (upd_registry (λ _, Some (Parsed r))).

(** The fingerprint step of [read_identity]. *)
Definition normalize_fingerprint (p : DidProfile.t) (r : IdentityRecord)
    : DidResult IdentityRecord :=
  if DidProfile.supports_root_control p then
    if match root_key_fingerprint r with Some f => is_empty f | None => true end
    then let? f := fingerprint_of_document (document r) in
         Ok (set_root_key_fingerprint (Some f) r)
    else Ok r
  else
    do? rguard (bool_decide (is_Some (root_key_fingerprint r))
                || negb (bool_decide (root_capability r = RootCapabilityState.Absent))
                || existsb (λ k, is_role (role k) KeyRole.RootControl) (keys r))
               InvalidIdentity;
    Ok r.

(** The default checkpoint and local authorization of [read_identity]. *)
Definition normalize_checkpoint (r : IdentityRecord) : DidResult IdentityRecord :=
  match checkpoint r with
  | Some _ => Ok r
  | None =>
      let? dg := digest_document (document r) in
      Ok (set_checkpoint (Some {| document_version := revision r; registry_version := 1;
                                  document_digest := dg |}) r)
  end.
Definition normalize_authorization (r : IdentityRecord) : DidResult IdentityRecord :=
  match local_authorization r with
  | Some _ => Ok r
  | None => let? l := infer_local_authorization (document r) (keys r) in
            Ok (set_local_authorization l r)
  end.

Definition normalize_record (r : IdentityRecord) : DidResult IdentityRecord :=
  let? p := for_did (did r) in
  let? r := normalize_fingerprint p r in
  let? r := normalize_checkpoint r in
  normalize_authorization r.

Definition read_identity_at (iid : string) (d : Disk) : DidResult IdentityRecord :=
  let? r := match d_identities d !! storage_key iid with
            | None => Err IdentityNotFound
            | Some Unreadable => Err (Io os_error)
            | Some Garbled => Err InvalidIdentity
            | Some (Parsed r) => Ok r
            end in
  do? rguard (negb (bool_decide (schema_version r = IDENTITY_SCHEMA_VERSION))
              || negb (bool_decide (identity_id r = iid))) InvalidIdentity;
  normalize_record r.
Definition read_identity (iid : string) : M IdentityRecord := reads (read_identity_at iid).

Definition write_identity (root : string) (guard : StoreWriteGuard) (r : IdentityRecord)
    : M unit :=
  do! require_store guard root;
  durable (upd_identities (<[storage_key (identity_id r) := Parsed r]>)).

Definition remove_identity (root : string) (guard : StoreWriteGuard) (iid : string) : M unit :=
  do! require_store guard root;
  durable (upd_identities (delete (storage_key iid))).

Definition write_journal (root : string) (guard : StoreWriteGuard) (j : CreationJournal)
    : M unit :=
  do! require_store guard root;
  durable (upd_journals (<[storage_key (transaction_id j) := Parsed j]>)).

Definition remove_journal (root : string) (guard : StoreWriteGuard) (tid : string) : M unit :=
  do! require_store guard root;
  durable (upd_journals (delete (storage_key tid))).

Definition write_update_journal (root : string) (guard : StoreWriteGuard) (j : UpdateJournal)
    : M unit :=
  do! require_store guard root;
  durable (upd_updates (<[storage_key (uj_revision_id j) := Parsed j]>)).

Definition remove_update_journal (root : string) (guard : StoreWriteGuard) (rid : string)
    : M unit :=
  do! require_store guard root;
  durable (upd_updates (delete (storage_key rid))).

Definition write_identity_transition_journal (root : string) (guard : StoreWriteGuard)
    (j : IdentityTransitionJournal) : M unit :=
  do! require_store guard root;
  durable (upd_transitions (<[storage_key (operation_id j) := Parsed j]>)).

(** A directory of journals: every file must parse and have the right schema. *)
Definition parse_journals {A} (schema : A → N) (expected : N) (m : gmap string (File A))
    : DidResult (list A) :=
  map_result (λ e, match e.2 with
                   | Parsed j => do? rguard (negb (bool_decide (schema j = expected)))
                                            InvalidIdentity; Ok j
                   | _ => Err InvalidIdentity
                   end) (map_to_list m).

Definition by_key {A} (key : A → string) (a b : A) : Prop := string_le (key a) (key b).
#[export] Instance by_key_dec {A} (key : A → string) : RelDecision (by_key key).
Proof. intros a b. unfold by_key. apply _. Defined.

Definition list_journals_at (d : Disk) : DidResult (list CreationJournal) :=
  let? l := parse_journals cj_schema_version JOURNAL_SCHEMA_VERSION (d_journals d) in
  Ok (merge_sort (by_key transaction_id) l).
Definition list_journals : M (list CreationJournal) := reads list_journals_at.

Definition list_update_journals_at (d : Disk) : DidResult (list UpdateJournal) :=
  let? l := parse_journals uj_schema_version UPDATE_JOURNAL_SCHEMA_VERSION (d_updates d) in
  Ok (merge_sort (by_key uj_revision_id) l).
Definition list_update_journals : M (list UpdateJournal) := reads list_update_journals_at.

Definition list_identity_transition_journals_at (d : Disk)
    : DidResult (list IdentityTransitionJournal) :=
  let? l := parse_journals itj_schema_version IDENTITY_TRANSITION_JOURNAL_SCHEMA_VERSION
              (d_transitions d) in
  Ok (merge_sort (by_key operation_id) l).
Definition list_identity_transition_journals : M (list IdentityTransitionJournal) :=
  reads list_identity_transition_journals_at.

Definition read_identity_transition_journal_at (oid : string) (d : Disk)
    : DidResult IdentityTransitionJournal :=
  let? j := match d_transitions d !! storage_key oid with
            | None => Err PendingRevisionNotFound
            | Some Unreadable => Err (Io os_error)
            | Some Garbled => Err InvalidIdentity
            | Some (Parsed j) => Ok j
            end in
  do? rguard (negb (bool_decide
                (itj_schema_version j = IDENTITY_TRANSITION_JOURNAL_SCHEMA_VERSION))
              || negb (bool_decide (operation_id j = oid))) InvalidIdentity;
  Ok j.
Definition read_identity_transition_journal (oid : string) : M IdentityTransitionJournal :=
  reads (read_identity_transition_journal_at oid).

(** [checked_add(1).ok_or(Conflict)] on a generation. *)
Definition bump (g : N) : DidResult N := ok_or (checked_succ g) Conflict.

(** [registry.generation = registry.generation.checked_add(1)?]. *)
Definition bump_registry (r : IdentityRegistry) : DidResult IdentityRegistry :=
  let? g := bump (reg_generation r) in
  Ok {| reg_schema_version := reg_schema_version r; reg_generation := g;
        identities := identities r |}.

Definition set_identities (m : gmap string IdentitySummary) (r : IdentityRegistry)
    : IdentityRegistry :=
  {| reg_schema_version := reg_schema_version r; reg_generation := reg_generation r;
     identities := m |}.

(** ** Facts *)

(** [require_store] under the guard [acquire_write] returns is a no-op. *)
Definition held (rt : StoreRuntime) (g : StoreWriteGuard) : Prop := guard_root g = rt_root rt.

Lemma require_store_held rt g w : held rt g → require_store g (rt_root rt) w = (Ok tt, w).
Proof.
  intros Hg. unfold require_store, sguard, lift, rguard. by rewrite bool_decide_true.
Qed.

Lemma dtriple_guarded_durable root g f (P X : Disk → Prop) (Q : Disk → Prop) :
  (∀ d, P d → Q (f d)) → (∀ d, P d → X d) → (∀ d, P d → X (f d)) →
  dtriple P (do! require_store g root; durable f) (λ _, Q) X.
Proof.
  intros HQ HX HXf. eapply triple_bind.
  - apply (dtriple_keeps _ P X (λ _, P)); [apply keeps_require_store|auto..].
  - intros []. by apply dtriple_durable.
Qed.

(** A record that [read_identity] returns unchanged. *)
Definition canonical_record (r : IdentityRecord) : Prop :=
  schema_version r = IDENTITY_SCHEMA_VERSION ∧ normalize_record r = Ok r.

Lemma read_identity_canonical r d :
  canonical_record r → d_identities d !! storage_key (identity_id r) = Some (Parsed r) →
  read_identity_at (identity_id r) d = Ok r.
Proof.
  intros [Hs Hn] Hd. unfold read_identity_at. rewrite Hd. simpl.
  rewrite !bool_decide_true by done. simpl. done.
Qed.

Lemma read_identity_id iid d r : read_identity_at iid d = Ok r → identity_id r = iid.
Proof.
  unfold read_identity_at. intros Hr. inv_run Hr. inv_run Hr.
  apply rguard_Ok, orb_false_iff in Hstep0 as [_ Hid].
  apply negb_false_iff, bool_decide_eq_true in Hid.
  unfold normalize_record in Hr. inv_run Hr. inv_run Hr. inv_run Hr.
  assert (identity_id a2 = identity_id a) as E2.
  { unfold normalize_fingerprint in Hstep1. destruct (DidProfile.supports_root_control a1).
    - destruct (match root_key_fingerprint a with Some f => is_empty f | None => true end);
        [apply rbind_Ok in Hstep1 as (? & _ & [= <-])|injection Hstep1 as <-]; done.
    - by apply rbind_Ok in Hstep1 as (? & _ & [= <-]). }
  assert (identity_id a3 = identity_id a2) as E3.
  { unfold normalize_checkpoint in Hstep2. destruct (checkpoint a2);
      [injection Hstep2 as <-|apply rbind_Ok in Hstep2 as (? & _ & [= <-])]; done. }
  unfold normalize_authorization in Hr. destruct (local_authorization a3);
    [injection Hr as <-|apply rbind_Ok in Hr as (? & _ & [= <-])]; simpl; congruence.
Qed.

Lemma list_journals_empty d : d_journals d = ∅ → list_journals_at d = Ok [].
Proof. intros Hd. unfold list_journals_at, parse_journals. by rewrite Hd, map_to_list_empty. Qed.

Lemma list_journals_singleton d k j :
  d_journals d = {[k := Parsed j]} → cj_schema_version j = JOURNAL_SCHEMA_VERSION →
  list_journals_at d = Ok [j].
Proof.
  intros Hd Hj. unfold list_journals_at, parse_journals.
  rewrite Hd, map_to_list_singleton. simpl. by rewrite bool_decide_true.
Qed.

Lemma list_update_journals_empty d : d_updates d = ∅ → list_update_journals_at d = Ok [].
Proof.
  intros Hd. unfold list_update_journals_at, parse_journals. by rewrite Hd, map_to_list_empty.
Qed.

Lemma list_update_journals_singleton d k j :
  d_updates d = {[k := Parsed j]} → uj_schema_version j = UPDATE_JOURNAL_SCHEMA_VERSION →
  list_update_journals_at d = Ok [j].
Proof.
  intros Hd Hj. unfold list_update_journals_at, parse_journals.
  rewrite Hd, map_to_list_singleton. simpl. by rewrite bool_decide_true.
Qed.

Lemma bump_Ok g g' : bump g = Ok g' ↔ g' = (g + 1)%N ∧ (g < u64_max)%N.
Proof. unfold bump. by rewrite ok_or_Ok, checked_succ_Some. Qed.

Lemma list_journals_nil_inv d : list_journals_at d = Ok [] → d_journals d = ∅.
Proof.
  unfold list_journals_at. intros Hl. inv_run Hl. injection Hl as Hl.
  pose proof (merge_sort_Permutation (by_key transaction_id) a) as Hp. rewrite Hl in Hp.
  apply Permutation_nil in Hp. subst a.
  unfold parse_journals in Hstep. apply map_result_Forall2 in Hstep.
  inversion Hstep as [Hn|]. by apply map_to_list_empty_iff.
Qed.
End Registry.

(** ** Device retirement *)

Lemma elem_of_dedup l x : x ∈ dedup l ↔ x ∈ l.
Proof.
  induction l as [|a l IH]; [done|]. destruct l as [|b l]; [done|].
  change (dedup (a :: b :: l)) with
    (if bool_decide (a = b) then dedup (b :: l) else a :: dedup (b :: l)).
  case_bool_decide; subst; set_solver.
Qed.

Lemma observe_devices_Ok next r r' :
  observe_devices next r = Ok r' →
  (∀ id, id ∈ retired_device_ids r → id ∉ device_ids next) ∧
  ∃ l, r' = set_retired_device_ids l r ∧
    ∀ id, id ∈ l ↔ id ∈ retired_device_ids r ∨
                   (id ∈ device_ids (document r) ∧ id ∉ device_ids next).
Proof.
  unfold observe_devices. intros Ho. inv_run Ho. injection Ho as <-.
  apply rguard_Ok in Hstep. split.
  - intros id Hid Hn. apply not_true_iff_false in Hstep. apply Hstep.
    apply existsb_exists. exists id. split; [by apply list_elem_of_In|].
    by apply bool_decide_eq_true.
  - eexists. split; [done|]. intros id. rewrite elem_of_dedup, merge_sort_Permutation.
    rewrite elem_of_app, elem_of_elements, elem_of_difference. done.
Qed.
