(* ===== verification/Recovery.v ===== *)
(** * Recovery of interrupted transactions (identity.rs [recover], lifecycle.rs
      [recover_update_journals])

    Opening or reloading a store replays its journals: a creation whose registry
    entry was written is completed and every other one is undone, a root import
    and a state transition bring the registry summary up to date, a deletion is
    finished, and interrupted document updates drop the secrets they staged. *)

From stdpp Require Import base strings list gmap sorting.
From S2P Require Import Prelude Json Errors Records Env Input World Document Keystore Registry.

Section Recovery.
Context `{Env}.

(** [persist_record] (lifecycle.rs): bump the generation and write the record. *)
Definition persist_record (rt : StoreRuntime) (guard : StoreWriteGuard) (r : IdentityRecord)
    : M IdentityRecord :=
  let! g := lift (bump (generation r)) in
  let r := set_generation g r in
  do! write_identity (rt_root rt) guard r;
  ret r.

Definition is_pending_revision (rid : string) (r : IdentityRecord) : bool :=
  match pending_revision r with
  | Some p => bool_decide (revision_id p = rid)
  | None => false
  end.

(** The body of the loop of [recover_update_journals]. *)
Definition recover_update_journal (rt : StoreRuntime) (guard : StoreWriteGuard)
    (j : UpdateJournal) : M unit :=
  let! r := read_identity (uj_identity_id j) in
  do! match uj_kind j with
      | UpdateJournalKind.Prepare =>
          if is_pending_revision (uj_revision_id j) r then ret tt
          else for_each (delete_secret guard rt) (uj_secret_refs j)
      | UpdateJournalKind.Cleanup =>
          do! (if is_pending_revision (uj_revision_id j) r
               then do! persist_record rt guard (set_pending_revision None r); ret tt
               else ret tt);
          for_each (delete_secret guard rt) (uj_secret_refs j)
      end;
  remove_update_journal (rt_root rt) guard (uj_revision_id j).

Definition recover_update_journals (rt : StoreRuntime) (guard : StoreWriteGuard) : M unit :=
  let! journals := list_update_journals in
  for_each (recover_update_journal rt guard) journals.

(** Bring the registry's summary of a record up to date. *)
Definition sync_summary (rt : StoreRuntime) (guard : StoreWriteGuard) (jdid : string)
    (r : IdentityRecord) (registry : IdentityRegistry) : M IdentityRegistry :=
  if bool_decide (identities registry !! jdid = Some (summary r)) then ret registry
  else
    let! registry := lift (bump_registry
      (set_identities (<[jdid := summary r]> (identities registry)) registry)) in
    do! write_registry (rt_root rt) guard registry;
    ret registry.

(** A root import is committed once the record holds the managed root key. *)
Definition root_import_committed (r : IdentityRecord) : bool :=
  negb (bool_decide (root_capability r = RootCapabilityState.Absent)) &&
  existsb (λ k, is_role (role k) KeyRole.RootControl
                && bool_decide (origin k = KeyOrigin.Managed) && negb (material_erased k))
    (keys r).

Definition registered (registry : IdentityRegistry) (d iid : string) : bool :=
  match identities registry !! d with
  | Some s => bool_decide (is_identity_id s = iid)
  | None => false
  end.

(** The body of the loop of [recover]; the registry is the loop's mutable state. *)
Definition recover_journal (rt : StoreRuntime) (guard : StoreWriteGuard)
    (registry : IdentityRegistry) (j : CreationJournal) : M IdentityRegistry :=
  let root := rt_root rt in
  match cj_kind j with
  | CreationJournalKind.StateTransition =>
      let! r := read_identity (cj_identity_id j) in
      do! sguard (negb (bool_decide (did r = cj_did j))) InvalidIdentity;
      let! registry := sync_summary rt guard (cj_did j) r registry in
      do! remove_journal root guard (transaction_id j);
      ret registry
  | CreationJournalKind.RootImport =>
      let! r := read_identity (cj_identity_id j) in
      do! sguard (negb (bool_decide (did r = cj_did j))) InvalidIdentity;
      let! registry :=
        if root_import_committed r then sync_summary rt guard (cj_did j) r registry
        else do! for_each (delete_secret guard rt) (cj_secret_refs j); ret registry in
      do! remove_journal root guard (transaction_id j);
      ret registry
  | CreationJournalKind.NamespaceDelete =>
      do! for_each (delete_secret guard rt) (cj_secret_refs j);
      do! remove_identity root guard (cj_identity_id j);
      let! registry :=
        if registered registry (cj_did j) (cj_identity_id j) then
          let! registry := lift (bump_registry
            (set_identities (delete (cj_did j) (identities registry)) registry)) in
          do! write_registry root guard registry;
          ret registry
        else ret registry in
      do! remove_journal root guard (transaction_id j);
      ret registry
  | CreationJournalKind.Create =>
      do! (if registered registry (cj_did j) (cj_identity_id j) then
             let! r := read_identity (cj_identity_id j) in
             do! sguard (negb (bool_decide (did r = cj_did j))) InvalidIdentity;
             if bool_decide (state r = IdentityState.Creating)
             then write_identity root guard (set_state IdentityState.Active r)
             else ret tt
           else
             do! for_each (delete_secret guard rt) (cj_secret_refs j);
             remove_identity root guard (cj_identity_id j));
      do! remove_journal root guard (transaction_id j);
      ret registry
  end.

Fixpoint recover_journals (rt : StoreRuntime) (guard : StoreWriteGuard)
    (registry : IdentityRegistry) (l : list CreationJournal) : M unit :=
  match l with
  | [] => ret tt
  | j :: l => let! registry := recover_journal rt guard registry j in
              recover_journals rt guard registry l
  end.

Definition recover (rt : StoreRuntime) : M IdentityRegistry :=
  let! guard := acquire_write rt in
  let! registry := read_registry in
  let! journals := list_journals in
  do! recover_journals rt guard registry journals;
  do! recover_update_journals rt guard;
  read_registry.

End Recovery.

(** ** A logic for recovery

    [ctriple P m Q X]: from a disk in [P], [m] fails only where a durable
    operation fails, leaving a disk in [X]; without a fault it returns, in [Q]. *)

Definition ctriple {A} (P : Disk → Prop) (m : M A) (Q : A → Disk → Prop) (X : Disk → Prop)
    : Prop :=
  ∀ w r w', P (disk w) → m w = (r, w') →
    match r with
    | Ok a => Q a (disk w') ∧ (io w = NoFault → io w' = NoFault)
    | Err _ => X (disk w') ∧ io w ≠ NoFault
    end.

Section CRules.
Context `{Env}.

Lemma ctriple_ret {A} (P X : Disk → Prop) (a : A) (Q : A → Disk → Prop) :
  (∀ d, P d → Q a d) → ctriple P (ret a) Q X.
Proof. intros HQ w r w' HP [= <- <-]. auto. Qed.

Lemma ctriple_lift {A} (P X : Disk → Prop) (a : A) x (Q : A → Disk → Prop) :
  x = Ok a → (∀ d, P d → Q a d) → ctriple P (lift x) Q X.
Proof. intros -> HQ w r w' HP [= <- <-]. auto. Qed.

Lemma ctriple_sguard (P X : Disk → Prop) bad e (Q : Disk → Prop) :
  bad = false → (∀ d, P d → Q d) → ctriple P (sguard bad e) (λ _, Q) X.
Proof. intros -> HQ w r w' HP [= <- <-]. auto. Qed.

Lemma ctriple_reads {A} (f : Disk → DidResult A) (P X : Disk → Prop) (Q : A → Disk → Prop) :
  (∀ d, P d → ∃ a, f d = Ok a ∧ Q a d) → ctriple P (reads f) Q X.
Proof.
  intros HQ w r w' HP Hr. injection Hr as <- <-.
  destruct (HQ _ HP) as (a & -> & Ha). auto.
Qed.

Lemma ctriple_durable f (P X Q : Disk → Prop) :
  (∀ d, P d → Q (f d)) → (∀ d, P d → X d) → (∀ d, P d → X (f d)) →
  ctriple P (durable f) (λ _, Q) X.
Proof.
  intros HQ HX HXf w r w' HP. unfold durable.
  destruct (io w) as [|[|n] []] eqn:Hio; intros [= <- <-]; simpl; split; auto; discriminate.
Qed.

Lemma ctriple_bind {A B} (P X : Disk → Prop) (m : M A) (k : A → M B) R Q :
  ctriple P m R X → (∀ a, ctriple (R a) (k a) Q X) → ctriple P (bind m k) Q X.
Proof.
  intros Hm Hk w r w' HP. unfold bind.
  destruct (m w) as [[a|e] w1] eqn:Em; intros Hr;
    [|injection Hr as <- <-]; pose proof (Hm w _ w1 HP Em) as Hm1; simpl in Hm1.
  - destruct Hm1 as [HR Hio]. pose proof (Hk a w1 r w' HR Hr) as Hk1.
    destruct r; naive_solver.
  - done.
Qed.

Lemma ctriple_lift_bind {A B} (P X : Disk → Prop) x (a : A) (k : A → M B) Q :
  x = Ok a → ctriple P (k a) Q X → ctriple P (bind (lift x) k) Q X.
Proof. intros -> Hk w r w' HP Hr. by apply (Hk w r w'). Qed.

Lemma ctriple_or {A} (P P' X : Disk → Prop) (m : M A) Q :
  ctriple P m Q X → ctriple P' m Q X → ctriple (λ d, P d ∨ P' d) m Q X.
Proof. intros H1 H2 w r w' [HP|HP] Hr; [by apply (H1 w r w')|by apply (H2 w r w')]. Qed.

Lemma ctriple_conseq {A} (P P' X X' : Disk → Prop) (m : M A) (Q Q' : A → Disk → Prop) :
  ctriple P m Q X → (∀ d, P' d → P d) → (∀ a d, Q a d → Q' a d) → (∀ d, X d → X' d) →
  ctriple P' m Q' X'.
Proof.
  intros Hm HP HQ HX w r w' Hw Hr. specialize (Hm w r w' (HP _ Hw) Hr). destruct r; naive_solver.
Qed.

Lemma ctriple_for_each {A} (I : list A → Disk → Prop) (X : Disk → Prop) (f : A → M unit) l :
  (∀ x l', ctriple (I (x :: l')) (f x) (λ _, I l') X) →
  ctriple (I l) (for_each f l) (λ _, I []) X.
Proof.
  intros Hf. induction l as [|x l IH]; simpl; [by apply ctriple_ret|].
  eapply ctriple_bind; [apply Hf|]. intros ?. apply IH.
Qed.

Lemma ctriple_require rt g (P X : Disk → Prop) :
  held rt g → ctriple P (require_store g (rt_root rt)) (λ _, P) X.
Proof. intros Hg w r w' HP. rewrite require_store_held by done. intros [= <- <-]. auto. Qed.

Lemma ctriple_guarded rt g f (P X Q : Disk → Prop) :
  held rt g → (∀ d, P d → Q (f d)) → (∀ d, P d → X d) → (∀ d, P d → X (f d)) →
  ctriple P (do! require_store g (rt_root rt); durable f) (λ _, Q) X.
Proof.
  intros Hg HQ HX HXf. eapply ctriple_bind; [by apply ctriple_require|].
  intros []. by apply ctriple_durable.
Qed.

Lemma ctriple_acquire rt (P X : Disk → Prop) :
  (∀ d, P d → X d) → ctriple P (acquire_write rt) (λ g d, held rt g ∧ P d) X.
Proof.
  intros HX. apply (ctriple_bind _ _ _ _ (λ _, P)); [by apply ctriple_durable|].
  intros ?. by apply ctriple_ret.
Qed.

(** A complete run of recovery: what it returns without a fault, and where an
    interrupted run can stop. *)
Lemma ctriple_nofault {A} P (m : M A) Q X w :
  ctriple P m Q X → P (disk w) → io w = NoFault →
  ∃ a w', m w = (Ok a, w') ∧ Q a (disk w') ∧ io w' = NoFault.
Proof.
  intros Hm HP Hio. destruct (m w) as [[a|e] w'] eqn:Em;
    destruct (Hm w _ w' HP Em) as [? ?]; naive_solver.
Qed.
End CRules.

(** ** Deleting the secrets a journal names *)

Section Footprints.
Context `{Env}.

Abbreviation paths refs := (map record_storage_key refs).

(** [same_but iid refs d0 d]: outside the file of identity [iid] and the record
    files of [refs], [d] holds what [d0] holds (journals and registry aside). *)
Definition same_but (iid : string) (refs : list SecretRef) (d0 d : Disk) : Prop :=
  d_manifest d = d_manifest d0 ∧ d_updates d = d_updates d0 ∧
  d_transitions d = d_transitions d0 ∧
  (∀ p, p ≠ storage_key iid → d_identities d !! p = d_identities d0 !! p) ∧
  (∀ p, p ∉ paths refs → d_records d !! p = d_records d0 !! p).

(** The files a transaction is about to create do not exist yet. *)
Definition fresh_for (iid : string) (refs : list SecretRef) (d0 : Disk) : Prop :=
  d_identities d0 !! storage_key iid = None ∧
  (∀ p, p ∈ paths refs → d_records d0 !! p = None).

Lemma same_but_refl iid refs d : same_but iid refs d d.
Proof. by split_and!. Qed.

Lemma same_but_records iid refs d0 d r f :
  same_but iid refs d0 d → r ∈ refs →
  (∀ m p, p ≠ record_storage_key r → f m !! p = m !! p) →
  same_but iid refs d0 (upd_records f d).
Proof.
  intros (? & ? & ? & ? & Hr) Hin Hf. split_and!; simpl; [done..|].
  intros p Hp. rewrite Hf; [by apply Hr|]. intros ->. apply Hp.
  apply list_elem_of_In, in_map. by apply list_elem_of_In.
Qed.

Lemma same_but_identities iid refs d0 d f :
  same_but iid refs d0 d → (∀ m p, p ≠ storage_key iid → f m !! p = m !! p) →
  same_but iid refs d0 (upd_identities f d).
Proof.
  intros (? & ? & ? & Hi & ?) Hf. split_and!; simpl; [done..| |done].
  intros p Hp. rewrite Hf by done. by apply Hi.
Qed.

Lemma same_but_restore iid refs d0 d :
  same_but iid refs d0 d → fresh_for iid refs d0 →
  d_registry d = d_registry d0 → d_journals d = d_journals d0 →
  d_identities d !! storage_key iid = None →
  (∀ p, p ∈ paths refs → d_records d !! p = None) → d = d0.
Proof.
  intros (Hm & Hu & Ht & Hi & Hr) [Fi Fr] Hreg Hj Ni Nr.
  assert (d_identities d = d_identities d0) as Ei.
  { apply map_eq. intros p. destruct (decide (p = storage_key iid)) as [->|Hne];
      [congruence|by apply Hi]. }
  assert (d_records d = d_records d0) as Er.
  { apply map_eq. intros p. destruct (decide (p ∈ paths refs)) as [Hp|Hp];
      [by rewrite Nr, Fr by done|by apply Hr]. }
  destruct d, d0; simpl in *; by subst.
Qed.

(** Deleting every reference empties their files and touches nothing else. *)
Lemma ctriple_delete_refs rt g refs (P : Disk → Prop) :
  held rt g →
  (∀ d r, P d → r ∈ refs → P (upd_records (delete (record_storage_key r)) d)) →
  ctriple P (for_each (delete_secret g rt) refs)
    (λ _ d, P d ∧ ∀ p, p ∈ paths refs → d_records d !! p = None) P.
Proof.
  intros Hg HP.
  assert (ctriple (λ d, P d ∧ ∃ done_, refs = done_ ++ refs ∧
             ∀ p, p ∈ paths done_ → d_records d !! p = None)
    (for_each (delete_secret g rt) refs)
    (λ _ d, P d ∧ ∃ done_, refs = done_ ++ [] ∧ ∀ p, p ∈ paths done_ → d_records d !! p = None)
    P) as Hloop.
  { apply (ctriple_for_each (λ l d, P d ∧ ∃ done_, refs = done_ ++ l ∧
             ∀ p, p ∈ paths done_ → d_records d !! p = None)).
    intros r l. unfold delete_secret. eapply ctriple_conseq;
      [apply (ctriple_guarded rt g _ (λ d, P d ∧ ∃ done_, refs = done_ ++ r :: l ∧
             ∀ p, p ∈ paths done_ → d_records d !! p = None) P
             (λ d, P d ∧ ∃ done_, refs = done_ ++ l ∧
               ∀ p, p ∈ paths done_ → d_records d !! p = None)); [done|..]
      |done|done|done].
    - intros d (Hd & done_ & -> & Hn). split; [apply HP; [done|set_solver]|].
      exists (done_ ++ [r]). split; [by rewrite <-app_assoc|].
      intros p. rewrite map_app, elem_of_app. simpl. intros [Hp|Hp].
      + destruct (decide (p = record_storage_key r)) as [->|Hne];
          [apply lookup_delete_eq|by rewrite lookup_delete_ne by done; apply Hn].
      + apply list_elem_of_singleton in Hp as ->. apply lookup_delete_eq.
    - by intros d (Hd & _).
    - intros d (Hd & done_ & -> & _). apply HP; [done|set_solver]. }
  eapply ctriple_conseq; [exact Hloop|..].
  - intros d Hd. split; [done|]. exists []. split; [done|]. set_solver.
  - intros [] d (Hd & done_ & Heq & Hn). rewrite app_nil_r in Heq. subst. done.
  - done.
Qed.

(** ** Recovering one journal *)

Definition journal_dir (j : CreationJournal) : gmap string (File CreationJournal) :=
  {[storage_key (transaction_id j) := Parsed j]}.

(** A creation interrupted before its registry entry was written. *)
Definition uncommitted (j : CreationJournal) (d0 d : Disk) : Prop :=
  same_but (cj_identity_id j) (cj_secret_refs j) d0 d ∧
  d_registry d = d_registry d0 ∧ d_journals d = journal_dir j.

Lemma recover_journal_uncommitted rt g j d0 registry :
  held rt g → cj_kind j = CreationJournalKind.Create →
  d_journals d0 = ∅ → fresh_for (cj_identity_id j) (cj_secret_refs j) d0 →
  registered registry (cj_did j) (cj_identity_id j) = false →
  ctriple (uncommitted j d0) (recover_journal rt g registry j)
    (λ r d, r = registry ∧ d = d0) (λ d, uncommitted j d0 d ∨ d = d0).
Proof.
  intros Hg Hk Hj Hf Hr. unfold recover_journal. rewrite Hk, Hr.
  set (N := λ d, ∀ p, p ∈ paths (cj_secret_refs j) → d_records d !! p = None).
  set (E := λ d, d_identities d !! storage_key (cj_identity_id j) = None).
  set (X := λ d, uncommitted j d0 d ∨ d = d0).
  apply (ctriple_bind _ _ _ _ (λ _ d, uncommitted j d0 d ∧ N d ∧ E d));
    [apply (ctriple_bind _ _ _ _ (λ _ d, uncommitted j d0 d ∧ N d))|].
  - eapply ctriple_conseq;
      [apply (ctriple_delete_refs rt g _ (uncommitted j d0) Hg)|done|done|by left].
    intros d r (Hs & ? & ?) Hin. split_and!; [|done..].
    eapply same_but_records; [done|done|]. intros. by apply lookup_delete_ne.
  - intros []. assert (∀ d, uncommitted j d0 d → uncommitted j d0
      (upd_identities (delete (storage_key (cj_identity_id j))) d)) as Hdel.
    { intros d (Hs & ? & ?). split_and!; [|done..].
      apply same_but_identities; [done|]. intros. by apply lookup_delete_ne. }
    apply (ctriple_guarded rt g); [done|..].
    + intros d (Hd & Hn). split_and!; [by apply Hdel|done|apply lookup_delete_eq].
    + intros d (Hd & _). by left.
    + intros d (Hd & _). left. by apply Hdel.
  - intros [].
    assert (∀ d, uncommitted j d0 d ∧ N d ∧ E d →
      upd_journals (delete (storage_key (transaction_id j))) d = d0) as Hend.
    { intros d ((Hs & Hreg & Hjd) & Hn & Hi).
      eapply (same_but_restore (cj_identity_id j) (cj_secret_refs j)); simpl; try done.
      rewrite Hjd, Hj. apply delete_singleton_eq. }
    apply (ctriple_bind _ _ _ _ (λ _ d, d = d0)); [apply (ctriple_guarded rt g)|]; [done|..].
    + exact Hend.
    + intros d (Hd & _). by left.
    + intros d Hd. right. by apply Hend.
    + intros []. by apply ctriple_ret.
Qed.

(** A creation interrupted after its registry entry was written: the final disk,
    with the journal still present and the record possibly still [Creating]. *)
Definition committed (j : CreationJournal) (r : IdentityRecord) (df d : Disk) : Prop :=
  d = upd_journals (λ _, journal_dir j) df ∨
  d = upd_identities (<[storage_key (identity_id r) := Parsed r]>)
        (upd_journals (λ _, journal_dir j) df).

(** The record a committed creation ends with. *)
Definition activated (r : IdentityRecord) : IdentityRecord :=
  if bool_decide (state r = IdentityState.Creating) then set_state IdentityState.Active r else r.

Lemma upd_identities_insert_twice p x y d :
  upd_identities (<[p := x]>) (upd_identities (<[p := y]>) d) = upd_identities (<[p := x]>) d.
Proof. destruct d; unfold upd_identities; simpl. by rewrite insert_insert_eq. Qed.

Lemma upd_identities_id p x d :
  d_identities d !! p = Some x → upd_identities (<[p := x]>) d = d.
Proof. destruct d; unfold upd_identities; simpl. intros Hp. by rewrite insert_id. Qed.

Lemma close_journal j df :
  d_journals df = ∅ →
  upd_journals (delete (storage_key (transaction_id j)))
    (upd_journals (λ _, journal_dir j) df) = df.
Proof.
  intros Hj. destruct df; unfold upd_journals; simpl in *. subst. f_equal.
  apply delete_singleton_eq.
Qed.

Lemma activated_id r : identity_id (activated r) = identity_id r.
Proof. unfold activated. by case_bool_decide. Qed.
Lemma activated_did r : did (activated r) = did r.
Proof. unfold activated. by case_bool_decide. Qed.

Lemma recover_journal_committed rt g j r df registry :
  held rt g → cj_kind j = CreationJournalKind.Create → cj_identity_id j = identity_id r →
  cj_did j = did r → canonical_record r → canonical_record (activated r) →
  d_journals df = ∅ →
  d_identities df !! storage_key (identity_id r) = Some (Parsed (activated r)) →
  registered registry (cj_did j) (cj_identity_id j) = true →
  ctriple (committed j r df) (recover_journal rt g registry j)
    (λ x d, x = registry ∧ d = df) (λ d, committed j r df d ∨ d = df).
Proof.
  intros Hg Hk Hid Hdid Hc Hca Hj Hi Hr. unfold recover_journal. rewrite Hk, Hr.
  set (dj := upd_journals (λ _, journal_dir j) df).
  apply (ctriple_bind _ _ _ _ (λ _ d, d = dj)).
  - apply (ctriple_bind _ _ _ _ (λ x d, committed j r df d ∧
      ((x = r ∧ d = upd_identities (<[storage_key (identity_id r) := Parsed r]>) dj) ∨
       (x = activated r ∧ d = dj)))).
    + apply ctriple_reads. intros d Hd. rewrite Hid. destruct Hd as [->| ->].
      * exists (activated r). rewrite <-(activated_id r).
        split; [apply read_identity_canonical; [done|]; simpl; by rewrite activated_id|].
        split; [by left|by right].
      * exists r. split; [apply read_identity_canonical; [done|apply lookup_insert_eq]|].
        split; [by right|by left].
    + intros x. apply (ctriple_bind _ _ _ _ (λ _ d, committed j r df d ∧
      ((x = r ∧ d = upd_identities (<[storage_key (identity_id r) := Parsed r]>) dj) ∨
       (x = activated r ∧ d = dj)))).
      { intros w res w' [Hcd Hx]. rewrite bool_decide_true
          by (destruct Hx as [[-> _]|[-> _]]; rewrite ?activated_did; done).
        intros [= <- <-]. done. }
      intros []. destruct (bool_decide (state x = IdentityState.Creating)) eqn:Hst.
      * assert (∀ d, committed j r df d ∧
          ((x = r ∧ d = upd_identities (<[storage_key (identity_id r) := Parsed r]>) dj) ∨
           (x = activated r ∧ d = dj)) →
          upd_identities (<[storage_key (identity_id (set_state IdentityState.Active x)) :=
             Parsed (set_state IdentityState.Active x)]>) d = dj) as Hw.
        { intros d [_ [[-> ->]|[-> ->]]]; simpl.
          - rewrite upd_identities_insert_twice. apply upd_identities_id. simpl.
            rewrite Hi. unfold activated. by rewrite Hst.
          - apply bool_decide_eq_true in Hst. unfold activated in Hst.
            by case_bool_decide. }
        apply (ctriple_guarded rt g); [done|exact Hw|..].
        -- intros d (Hd & _). by left.
        -- intros d Hd. left. left. by apply Hw.
      * apply ctriple_ret. intros d [_ [[-> ->]|[_ ->]]]; [|done].
        apply upd_identities_id. simpl. rewrite Hi. unfold activated. by rewrite Hst.
  - intros []. apply (ctriple_bind _ _ _ _ (λ _ d, d = df));
      [apply (ctriple_guarded rt g)|]; [done|..].
    + intros d ->. by apply close_journal.
    + intros d ->. by left; left.
    + intros d ->. right. by apply close_journal.
    + intros []. by apply ctriple_ret.
Qed.

(** ** Whole recoveries *)

(** A store with no journal left. *)
Definition quiescent (d : Disk) : Prop :=
  d_journals d = ∅ ∧ d_updates d = ∅ ∧ ∃ registry, read_registry_at d = Ok registry.

Lemma held_acquired rt : held rt {| guard_root := rt_root rt |}.
Proof. done. Qed.

Lemma recover_updates_none rt g (P X : Disk → Prop) :
  (∀ d, P d → d_updates d = ∅) → ctriple P (recover_update_journals rt g) (λ _, P) X.
Proof.
  intros HP. apply (ctriple_bind _ _ _ _ (λ l d, l = [] ∧ P d)).
  - apply ctriple_reads. intros d Hd. exists [].
    split; [apply list_update_journals_empty; auto|done].
  - intros l w r w' [-> Hd]. intros [= <- <-]. auto.
Qed.

Lemma recover_quiescent rt d0 :
  quiescent d0 →
  ctriple (λ d, d = d0) (recover rt) (λ x d, d = d0 ∧ read_registry_at d0 = Ok x)
    (λ d, d = d0).
Proof.
  intros (Hj & Hu & registry & Hreg).
  eapply ctriple_bind; [by apply ctriple_acquire|]. intros g.
  apply (ctriple_bind _ _ _ _ (λ _ d, d = d0)).
  { apply ctriple_reads. intros d [_ ->]. by exists registry. }
  intros registry'. apply (ctriple_bind _ _ _ _ (λ l d, l = [] ∧ d = d0)).
  { apply ctriple_reads. intros d ->. exists []. split; [by apply list_journals_empty|done]. }
  intros l. apply (ctriple_bind _ _ _ _ (λ _ d, d = d0)).
  { intros w r w' [-> Hd]. intros [= <- <-]. auto. }
  intros ?. apply (ctriple_bind _ _ _ _ (λ _ d, d = d0)).
  { apply recover_updates_none. by intros d ->. }
  intros ?. apply ctriple_reads. intros d ->. by exists registry.
Qed.

(** One journal: the recovery of the store is the recovery of that journal. *)
Lemma recover_single rt j registry df (P X : Disk → Prop) :
  quiescent df → cj_schema_version j = JOURNAL_SCHEMA_VERSION → X df →
  (∀ d, P d → d_journals d = journal_dir j ∧ read_registry_at d = Ok registry) →
  (∀ d, P d → X d) →
  (∀ g, held rt g → ctriple P (recover_journal rt g registry j) (λ _ d, d = df) X) →
  ctriple P (recover rt) (λ x d, d = df ∧ read_registry_at df = Ok x) X.
Proof.
  intros (Hj & Hu & final & Hreg) Hs HX HP HPX Hrec.
  eapply ctriple_bind; [by apply ctriple_acquire|].
  intros g. apply (ctriple_bind _ _ _ _ (λ x d, held rt g ∧ P d ∧ x = registry)).
  { apply ctriple_reads. intros d [Hg Hd]. exists registry. split; [by apply HP|done]. }
  intros x. apply (ctriple_bind _ _ _ _ (λ l d, held rt g ∧ P d ∧ x = registry ∧ l = [j])).
  { apply ctriple_reads. intros d (Hg & Hd & ->). exists [j].
    split; [|done]. eapply list_journals_singleton; [by apply HP|done]. }
  intros l. apply (ctriple_bind _ _ _ _ (λ _ d, d = df)).
  { intros w r w' (Hg & Hd & -> & ->). simpl.
    apply (ctriple_bind P _ _ _ (λ _ d, d = df) (λ _ d, d = df) (Hrec g Hg)); [|done].
    intros ?. by apply ctriple_ret. }
  intros ?. apply (ctriple_bind _ _ _ _ (λ _ d, d = df)).
  { eapply ctriple_conseq; [apply (recover_updates_none rt g (λ d, d = df) (λ d, d = df))|..];
      [by intros d ->|done|done|by intros d ->]. }
  intros ?. apply ctriple_reads. intros d ->. by exists final.
Qed.

(** [recovers_to rt d d']: however often recovery is interrupted, every complete
    run of it ends in [d'], and a run without a fault is complete. *)
Definition recovers_to (rt : StoreRuntime) (d d' : Disk) : Prop :=
  quiescent d' ∧ ∃ P : Disk → Prop, P d ∧
    ctriple P (recover rt) (λ x d, d = d' ∧ read_registry_at d' = Ok x) P.

Lemma recovers_to_intro rt (P : Disk → Prop) d d' :
  quiescent d' → P d →
  ctriple P (recover rt) (λ x d, d = d' ∧ read_registry_at d' = Ok x) (λ d, P d ∨ d = d') →
  recovers_to rt d d'.
Proof.
  intros Hq Hd Hrec. split; [done|]. exists (λ d, P d ∨ d = d'). split; [by left|].
  intros w r w' [HP|Hw] Hr; [by apply (Hrec w r w')|].
  pose proof (recover_quiescent rt d' Hq w r w' Hw Hr) as Hres.
  destruct r; naive_solver.
Qed.

Lemma recovers_to_quiescent rt d : quiescent d → recovers_to rt d d.
Proof.
  intros Hq. split; [done|]. exists (λ x, x = d). split; [done|]. by apply recover_quiescent.
Qed.

(** What [recovers_to] means for runs: a run without a fault ends in [d'], and
    after an interrupted run the disk still recovers to [d']. *)
Lemma recovers_to_run rt d d' w :
  recovers_to rt d d' → disk w = d →
  ∀ r w', recover rt w = (r, w') →
    (io w = NoFault → ∃ x, r = Ok x ∧ disk w' = d') ∧ recovers_to rt (disk w') d'.
Proof.
  intros (Hq & P & HP & Hrec) <- r w' Hr. pose proof (Hrec w r w' HP Hr) as Hres. split.
  - intros Hio. destruct r; [|naive_solver]. destruct Hres as [[? ?] ?]. eauto.
  - destruct r as [x|e]; [destruct Hres as [[-> _] _]; by apply recovers_to_quiescent|].
    split; [done|]. exists P. naive_solver.
Qed.
End Footprints.
