(* ===== verification/Identity.v ===== *)
(** * Creating and opening identities (identity.rs)

    [DidStore] is a handle on the store with the registry generation it last
    saw; [DidIdentity] is a handle on one identity with a copy of its record.
    A method that takes [&mut self] returns the handle after the call: the source
    assigns the handle only where the call succeeds. *)

From stdpp Require Import base strings list gmap sorting.
From S2P Require Import Prelude Json Errors Records Env Toy Input World Document Keystore Registry.
From S2P Require Import Recovery.

Record DidStore := {
  ds_runtime : StoreRuntime;
  registry_generation : N }.

Record DidIdentity := {
  di_runtime : StoreRuntime;
  di_record : IdentityRecord }.

Module CreationFailurePoint.
Inductive t :=
  | JournalPersisted
  | SecretPersisted (index : nat)
  | IdentityCreatingPersisted
  | RegistryCommitted
  | IdentityActivated.
#[global] Instance eq_dec : EqDecision t.
Proof. solve_decision. Defined.
End CreationFailurePoint.

(** [maybe_fail]: the injected failure of the tests. *)
Definition maybe_fail {P} `{EqDecision P} (message : string) (configured : option P)
    (current : P) : M unit :=
  sguard (bool_decide (configured = Some current)) (Io message).

Definition CREATION_FAILURE : string := "injected creation failure".

(** [DidIdentity::key_metadata] and [managed_key_metadata]. *)
Definition find_key (k : string) (l : list KeyMetadata) : option KeyMetadata :=
  List.find (λ m, bool_decide (kid m = k)) l.
Definition identity_key_metadata (i : DidIdentity) (k : string) : DidResult KeyMetadata :=
  let? k := canonicalize_kid (did (di_record i)) k in
  ok_or (find_key k (keys (di_record i))) KeyNotFound.
Definition managed_key_metadata (i : DidIdentity) (k : string) : DidResult KeyMetadata :=
  let? m := identity_key_metadata i k in
  do? rguard (bool_decide (origin m = KeyOrigin.External)) ExternalKeyOperation;
  Ok m.

(** The secret reference of a key of an identity. *)
Definition ref_of_key (iid : string) (m : KeyMetadata) : SecretRef :=
  {| sr_identity_id := iid; sr_key_id := kid m; sr_role := role m; sr_version := version m |}.

Section Identity.
Context `{Env}.

Definition load_managed_secret (i : DidIdentity) (m : KeyMetadata) : M string :=
  open_secret (di_runtime i) (ref_of_key (identity_id (di_record i)) m).

Definition verify_persisted_key (rt : StoreRuntime) (r : SecretRef)
    (expected : PublicKeyMaterial) : M unit :=
  let! secret := open_secret rt r in
  let! actual := lift (public_key_from_secret (sr_role r) secret) in
  sguard (negb (public_keys_equal actual expected)) InvalidIdentity.

(** Seal a key, accepting an existing record only of the same public key. *)
Definition seal_or_verify (rt : StoreRuntime) (guard : StoreWriteGuard)
    (k : ManagedPrivateKey) (r : SecretRef) : M unit :=
  let! sealed := seal_if_absent guard rt r (mpk_bytes k) in
  if bool_decide (sealed = SealIfAbsent.AlreadyExists)
  then verify_persisted_key rt r (mpk_public_key k)
  else ret tt.

(** The sealing loop of [create_identity_inner]. *)
Fixpoint seal_keys (rt : StoreRuntime) (guard : StoreWriteGuard)
    (failure : option CreationFailurePoint.t) (index : nat)
    (l : list (ManagedPrivateKey * SecretRef)) : M unit :=
  match l with
  | [] => ret tt
  | (k, r) :: l =>
      do! seal_or_verify rt guard k r;
      do! maybe_fail CREATION_FAILURE failure (CreationFailurePoint.SecretPersisted index);
      seal_keys rt guard failure (S index) l
  end.

Definition verify_all_persisted_keys (rt : StoreRuntime)
    (l : list (ManagedPrivateKey * SecretRef)) : M unit :=
  for_each (λ e, verify_persisted_key rt e.2 (mpk_public_key e.1)) l.

(** [DidStore::open_identity]. *)
Definition open_identity (s : DidStore) (d : string) : M DidIdentity :=
  let! registry := read_registry in
  let! sm := lift (ok_or (identities registry !! d) IdentityNotFound) in
  let! r := read_identity (is_identity_id sm) in
  do! sguard (negb (bool_decide (did r = d))
              || bool_decide (state r = IdentityState.Creating)
              || negb (bool_decide (state r = is_state sm))) InvalidIdentity;
  ret {| di_runtime := ds_runtime s; di_record := r |}.

(** [DidStore::list_identities]: the values in key order. *)
Definition list_identities (s : DidStore) : M (list IdentitySummary) :=
  let! registry := read_registry in
  ret (map snd (merge_sort (by_key fst) (map_to_list (identities registry)))).

(** [DidStore::from_runtime] and [reload]. *)
Definition from_runtime (rt : StoreRuntime) : M DidStore :=
  let! registry := recover rt in
  ret {| ds_runtime := rt; registry_generation := reg_generation registry |}.
Definition reload (s : DidStore) : M DidStore :=
  let! registry := recover (ds_runtime s) in
  ret {| ds_runtime := ds_runtime s; registry_generation := reg_generation registry |}.

(** [DidIdentity::reload]. *)
Definition reload_identity (i : DidIdentity) : M DidIdentity :=
  let iid := identity_id (di_record i) in
  let d := did (di_record i) in
  let! registry := recover (di_runtime i) in
  do! sguard (negb (registered registry d iid)) IdentityNotFound;
  let! r := read_identity iid in
  let! sm := lift (ok_or (identities registry !! d) IdentityNotFound) in
  do! sguard (negb (bool_decide (did r = d))
              || bool_decide (state r = IdentityState.Creating)
              || negb (bool_decide (state r = is_state sm))) InvalidIdentity;
  ret {| di_runtime := di_runtime i; di_record := r |}.

(** The record [create_identity_inner] builds, before activation. *)
Definition created_record (spec : DidCreateSpec) (built : BuiltIdentity) (iid : string)
    : DidResult IdentityRecord :=
  let? fingerprint := method_root_fingerprint (bi_document built) in
  let? dg := digest_document (bi_document built) in
  let? local := infer_local_authorization (bi_document built) (bi_metadata built) in
  Ok (set_initial_publication_pending true (new_identity_record
    {| ni_identity_id := iid; ni_did := bi_did built; ni_document := bi_document built;
       ni_keys := bi_metadata built; ni_capabilities := spec_capabilities spec;
       ni_root_capability :=
         if DidProfile.supports_root_control (profile spec)
         then RootCapabilityState.Active else RootCapabilityState.Absent;
       ni_root_key_fingerprint := fingerprint;
       ni_checkpoint := {| document_version := 1; registry_version := 1;
                           document_digest := dg |};
       ni_local_authorization := local; ni_created_at := bi_created_at built |})).

Definition creation_refs (built : BuiltIdentity) (iid : string) : list SecretRef :=
  map (λ k, {| sr_identity_id := iid;
               sr_key_id := (bi_did built +:+ "#" +:+ mpk_fragment k)%string;
               sr_role := mpk_role k; sr_version := 1 |}) (bi_managed_keys built).

(** [registry.identities.insert(did, summary); registry.generation += 1]. *)
Definition register (registry : IdentityRegistry) (d : string) (sm : IdentitySummary)
    : DidResult IdentityRegistry :=
  bump_registry (set_identities (<[d := sm]> (identities registry)) registry).

(** The journaled part of [create_identity_inner]: from the write of the journal
    to its removal. *)
Definition create_transaction (rt : StoreRuntime) (guard : StoreWriteGuard)
    (failure : option CreationFailurePoint.t) (registry : IdentityRegistry)
    (spec : DidCreateSpec) (built : BuiltIdentity) (iid tid : string)
    : M (DidStore * DidIdentity) :=
  let root := rt_root rt in
  let fail_at := maybe_fail CREATION_FAILURE failure in
  let refs := creation_refs built iid in
  let journal := new_creation_journal CreationJournalKind.Create tid iid (bi_did built) refs
                   (bi_created_at built) in
  do! write_journal root guard journal;
  do! fail_at CreationFailurePoint.JournalPersisted;
  do! seal_keys rt guard failure 0 (zip (bi_managed_keys built) refs);
  do! verify_all_persisted_keys rt (zip (bi_managed_keys built) refs);
  let! record := lift (created_record spec built iid) in
  do! write_identity root guard record;
  do! fail_at CreationFailurePoint.IdentityCreatingPersisted;
  let! registry := lift (register registry (did record)
                           (set_is_state IdentityState.Active (summary record))) in
  do! write_registry root guard registry;
  do! fail_at CreationFailurePoint.RegistryCommitted;
  let record := set_state IdentityState.Active record in
  do! write_identity root guard record;
  do! fail_at CreationFailurePoint.IdentityActivated;
  do! remove_journal root guard tid;
  ret ({| ds_runtime := rt; registry_generation := reg_generation registry |},
       {| di_runtime := rt; di_record := record |}).

(** [DidStore::create_identity_inner]. *)
Definition create_identity_inner (s : DidStore) (spec : DidCreateSpec)
    (failure : option CreationFailurePoint.t) : M (DidStore * DidIdentity) :=
  let rt := ds_runtime s in
  let! guard := acquire_write rt in
  let! registry := read_registry in
  do! sguard (negb (bool_decide (reg_generation registry = registry_generation s))) Conflict;
  let! journals := list_journals in
  do! sguard (negb (bool_decide (length journals = 0))) Conflict;
  let! built := build_identity spec in
  do! sguard (bool_decide (is_Some (identities registry !! bi_did built))) DuplicateIdentity;
  let! iid := random_id in
  let! tid := random_id in
  create_transaction rt guard failure registry spec built iid tid.

Definition create_identity (s : DidStore) (spec : DidCreateSpec) : M (DidStore * DidIdentity) :=
  create_identity_inner s spec None.

End Identity.
