(* ===== verification/RecordFacts.v ===== *)
(** * Facts about stored records

    What [read_identity] returns is a fixed point of its normalization, the
    updates of the other components keep it one, and [persist_record] replaces
    exactly one file. *)

From stdpp Require Import base strings list gmap sorting.
From S2P Require Import Prelude Json Errors Records Env Input World Document Keystore Registry.
From S2P Require Import Recovery Identity.

Section RecordFacts.
Context `{Env}.

(** The fields that the normalization reads and writes. *)
Definition same_normal_fields (r r' : IdentityRecord) : Prop :=
  schema_version r' = schema_version r ∧ did r' = did r ∧
  root_key_fingerprint r' = root_key_fingerprint r ∧ document r' = document r ∧
  root_capability r' = root_capability r ∧ keys r' = keys r ∧
  is_Some (checkpoint r') ∧ local_authorization r' = local_authorization r.

(** The checks of the normalization, on a record with a checkpoint. *)
Definition normal (r : IdentityRecord) : Prop :=
  schema_version r = IDENTITY_SCHEMA_VERSION ∧ is_Some (checkpoint r) ∧
  (∃ p, for_did (did r) = Ok p ∧ normalize_fingerprint p r = Ok r) ∧
  normalize_authorization r = Ok r.

Lemma canonical_normal r : canonical_record r → normal r.
Proof.
  intros [Hs Hn]. unfold normalize_record in Hn.
  inv_run Hn. inv_run Hn. inv_run Hn.
  assert (keys a0 = keys r ∧ document a0 = document r ∧ checkpoint a0 = checkpoint r ∧
          local_authorization a0 = local_authorization r ∧
          (root_key_fingerprint a0 = root_key_fingerprint r → a0 = r)) as (K & D & C & L & E).
  { unfold normalize_fingerprint in Hstep0. destruct (DidProfile.supports_root_control a).
    - destruct (match root_key_fingerprint r with Some f => is_empty f | None => true end).
      + inv_run Hstep0. injection Hstep0 as <-. split_and!; [done..|]. simpl. intros Hf.
        destruct r; simpl in *. by subst.
      + by injection Hstep0 as <-.
    - inv_run Hstep0. by injection Hstep0 as <-. }
  assert (root_key_fingerprint a1 = root_key_fingerprint a0 ∧ is_Some (checkpoint a1) ∧
          keys a1 = keys a0 ∧ document a1 = document a0 ∧
          local_authorization a1 = local_authorization a0 ∧
          (checkpoint a1 = checkpoint a0 → a1 = a0)) as (F1 & C1 & K1 & D1 & L1 & E1).
  { unfold normalize_checkpoint in Hstep1. destruct (checkpoint a0) eqn:Hc.
    - injection Hstep1 as <-. split_and!; eauto.
    - inv_run Hstep1. injection Hstep1 as <-. split_and!; simpl; eauto. done. }
  assert (root_key_fingerprint r = root_key_fingerprint a1 ∧ checkpoint r = checkpoint a1)
    as [F2 C2].
  { unfold normalize_authorization in Hn. destruct (local_authorization a1);
      [by injection Hn as <-|inv_run Hn; by injection Hn as <-]. }
  assert (a0 = r) as -> by (apply E; congruence).
  assert (a1 = r) as -> by (apply E1; congruence).
  split_and!; eauto.
Qed.

Lemma normal_canonical r : normal r → canonical_record r.
Proof.
  intros (Hs & [c Hc] & (p & Hp & Hf) & Ha). split; [done|]. unfold normalize_record.
  rewrite Hp. simpl. rewrite Hf. simpl. unfold normalize_checkpoint. rewrite Hc. simpl. done.
Qed.

(** Normality depends on the fields of [same_normal_fields] only. *)
Lemma normal_same r r' : normal r → same_normal_fields r r' → normal r'.
Proof.
  intros (Hs & Hc & (p & Hp & Hf) & Ha) (Es & Ed & Ef & Edoc & Ecap & Ek & Ec & El).
  split_and!; [congruence|done|exists p; split; [congruence|]|].
  - unfold normalize_fingerprint in *. rewrite Ef, Edoc, Ecap, Ek.
    destruct (DidProfile.supports_root_control p).
    + destruct (match root_key_fingerprint r with Some f => is_empty f | None => true end);
        [|done]. inv_run Hf. injection Hf as Hf. rewrite Hstep. simpl. f_equal.
      apply (f_equal root_key_fingerprint) in Hf. simpl in Hf. rewrite Hf, <-Ef.
      by destruct r'.
    + inv_run Hf. rewrite Hstep. done.
  - unfold normalize_authorization in *. rewrite El, Edoc, Ek.
    destruct (local_authorization r) eqn:Hl; [done|]. inv_run Ha. injection Ha as Ha.
    rewrite Hstep. simpl. f_equal. apply (f_equal local_authorization) in Ha. simpl in Ha.
    rewrite Ha, Hl, <-El. by destruct r'.
Qed.

Lemma canonical_same r r' : canonical_record r → same_normal_fields r r' → canonical_record r'.
Proof. intros Hr Hs. apply normal_canonical. eapply normal_same; [by apply canonical_normal|done]. Qed.

Lemma canonical_checkpoint r : canonical_record r → is_Some (checkpoint r).
Proof. intros Hr. by apply canonical_normal in Hr as (_ & ? & _). Qed.

(** ** Changes that keep a record canonical *)

(** What the normalization sees of a key. *)
Definition key_shape (k : KeyMetadata) : string * KeyRole.t * KeyOrigin.t := (kid k, role k, origin k).

Lemma existsb_shape (f g : KeyMetadata → bool) ks ks' :
  map key_shape ks = map key_shape ks' →
  (∀ k k', key_shape k = key_shape k' → f k = g k') → existsb f ks = existsb g ks'.
Proof.
  intros Heq Hf. revert ks' Heq. induction ks as [|k ks IH]; intros [|k' ks'] Heq; try done.
  simpl in *. injection Heq as H1 H2 H3 Heq. rewrite (IH _ Heq).
  by rewrite (Hf k k') by (unfold key_shape; congruence).
Qed.

Lemma infer_shape doc ks ks' :
  map key_shape ks = map key_shape ks' →
  infer_local_authorization doc ks = infer_local_authorization doc ks'.
Proof.
  intros Heq. unfold infer_local_authorization.
  destruct (ok_or (validate_device_manifest doc) InvalidExtension) as [[m|]|]; simpl; try done.
  assert (∀ R k, existsb (λ key, bool_decide (origin key = KeyOrigin.Managed)
      && is_role (role key) R && bool_decide (kid key = k)) ks =
    existsb (λ key, bool_decide (origin key = KeyOrigin.Managed)
      && is_role (role key) R && bool_decide (kid key = k)) ks') as He.
  { intros R k. apply existsb_shape; [done|]. intros a b [= -> -> ->]. done. }
  erewrite filter_ext; [reflexivity|]. intros d. by rewrite !He.
Qed.

Lemma canonical_fingerprint r :
  canonical_record r →
  match root_key_fingerprint r with Some f => is_empty f = false | None => True end.
Proof.
  intros Hr. apply canonical_normal in Hr as (_ & _ & (p & Hp & Hf) & _).
  unfold normalize_fingerprint in Hf. destruct (DidProfile.supports_root_control p).
  - destruct (root_key_fingerprint r) as [f|] eqn:Hfp; [|done].
    destruct (is_empty f) eqn:He; [|done]. inv_run Hf. injection Hf as Hf.
    apply (f_equal root_key_fingerprint) in Hf. simpl in Hf. rewrite Hfp in Hf.
    injection Hf as ->. apply fingerprint_nonempty in Hstep. unfold is_empty in He.
    by apply bool_decide_eq_true in He.
  - inv_run Hf. apply rguard_Ok in Hstep. destruct (root_key_fingerprint r) as [f|]; [|done].
    rewrite bool_decide_true in Hstep by eauto. done.
Qed.

(** A canonical record with another document, keys of the same shape, a checkpoint
    and a local authorization is canonical. *)
Lemma canonical_redocument r r' :
  canonical_record r → schema_version r' = schema_version r → did r' = did r →
  root_key_fingerprint r' = root_key_fingerprint r → root_capability r' = root_capability r →
  map key_shape (keys r') = map key_shape (keys r) → is_Some (checkpoint r') →
  (is_Some (local_authorization r') ∨
   (local_authorization r' = None ∧ infer_local_authorization (document r') (keys r) = Ok None)) →
  canonical_record r'.
Proof.
  intros Hr Es Ed Ef Ecap Ek Ec Hl. apply normal_canonical.
  pose proof (canonical_fingerprint _ Hr) as Hfp'.
  apply canonical_normal in Hr as (Hs & _ & (p & Hp & Hf) & _).
  split_and!; [congruence|done| |].
  - exists p. split; [congruence|]. unfold normalize_fingerprint in *. rewrite Ef, Ecap.
    destruct (DidProfile.supports_root_control p).
    + destruct (root_key_fingerprint r) as [f|] eqn:Hfp.
      * by rewrite Hfp'.
      * inv_run Hf. injection Hf as Hf. apply (f_equal root_key_fingerprint) in Hf.
        simpl in Hf. congruence.
    + inv_run Hf. erewrite (existsb_shape _ _ (keys r') (keys r)); [by rewrite Hstep|done|].
      intros a0 b [= _ -> _]. done.
  - unfold normalize_authorization. destruct Hl as [[l ->]|[Hn Hi]]; [done|].
    rewrite Hn, (infer_shape _ _ _ Ek), Hi. simpl. f_equal. rewrite <-Hn. by destruct r'.
Qed.

(** ** Reading *)

Lemma normalize_fingerprint_fixed p r r' :
  normalize_fingerprint p r = Ok r' →
  normalize_fingerprint p r' = Ok r' ∧
  schema_version r' = schema_version r ∧ did r' = did r ∧ identity_id r' = identity_id r.
Proof.
  unfold normalize_fingerprint. destruct (DidProfile.supports_root_control p).
  - destruct (match root_key_fingerprint r with Some f => is_empty f | None => true end) eqn:Hm.
    + intros Hr. inv_run Hr. injection Hr as <-. simpl. unfold is_empty.
      rewrite bool_decide_false by by eapply fingerprint_nonempty. done.
    + intros [= <-]. by rewrite Hm.
  - intros Hr. inv_run Hr. injection Hr as <-. by rewrite Hstep.
Qed.

Lemma normalize_fixed r r' :
  normalize_record r = Ok r' → normalize_record r' = Ok r' ∧
  schema_version r' = schema_version r ∧ identity_id r' = identity_id r.
Proof.
  unfold normalize_record. intros Hr. inv_run Hr. inv_run Hr. inv_run Hr.
  destruct (normalize_fingerprint_fixed _ _ _ Hstep0) as (Hf & Hs & Hd & Hi).
  assert (∃ c, a1 = set_checkpoint (Some c) a0) as [c ->].
  { unfold normalize_checkpoint in Hstep1. destruct (checkpoint a0) as [c|] eqn:Hc.
    - injection Hstep1 as <-. exists c. rewrite <-Hc. by destruct a0.
    - inv_run Hstep1. injection Hstep1 as <-. by eexists. }
  assert (∃ l, r' = set_local_authorization l (set_checkpoint (Some c) a0) ∧
    normalize_authorization r' = Ok r') as (l & -> & Ha).
  { unfold normalize_authorization in *.
    destruct (local_authorization (set_checkpoint (Some c) a0)) as [l|] eqn:Hl.
    - injection Hr as <-. exists (Some l). split; [|by rewrite Hl].
      simpl in Hl. rewrite <-Hl. by destruct a0.
    - inv_run Hr. injection Hr as <-. exists a1. split; [done|]. simpl in *.
      destruct a1; [done|]. by rewrite Hstep2. }
  simpl. split_and!; [|done..]. rewrite Hd, Hstep. simpl.
  assert (normalize_fingerprint a (set_local_authorization l (set_checkpoint (Some c) a0)) =
    Ok (set_local_authorization l (set_checkpoint (Some c) a0))) as ->; [|done].
  unfold normalize_fingerprint in *. simpl. destruct (DidProfile.supports_root_control a).
  - destruct (match root_key_fingerprint a0 with Some f => is_empty f | None => true end); [|done].
    inv_run Hf. rewrite Hstep2. simpl. injection Hf as Hf.
    apply (f_equal root_key_fingerprint) in Hf. simpl in Hf. rewrite Hf. by destruct a0.
  - inv_run Hf. by rewrite Hstep2.
Qed.

(** What is read is canonical, so writing it back changes nothing. *)
Lemma read_identity_is_canonical iid d r :
  read_identity_at iid d = Ok r → canonical_record r ∧ identity_id r = iid.
Proof.
  intros Hr. pose proof (read_identity_id _ _ _ Hr) as Hid. split; [|done].
  unfold read_identity_at in Hr. inv_run Hr. inv_run Hr.
  apply rguard_Ok, orb_false_iff in Hstep0 as [Hs _].
  apply negb_false_iff, bool_decide_eq_true in Hs.
  apply normalize_fixed in Hr as (Hr & Hv & _). split; [congruence|done].
Qed.

(** ** Writing *)

(** The disk with a record written. *)
Definition written (r : IdentityRecord) (d : Disk) : Disk :=
  upd_identities (<[storage_key (identity_id r) := Parsed r]>) d.

Lemma read_written r d : canonical_record r → read_identity_at (identity_id r) (written r d) = Ok r.
Proof. intros Hr. apply read_identity_canonical; [done|]. apply lookup_insert_eq. Qed.

Lemma require_store_Ok g root w u w' : require_store g root w = (Ok u, w') → w' = w.
Proof. unfold require_store. by intros [_ ->]%lift_Ok. Qed.

Lemma durable_Ok f w u w' : durable f w = (Ok u, w') → disk w' = f (disk w).
Proof. unfold durable. destruct (io w) as [|[|n] []]; by intros [= <- <-]. Qed.

Lemma write_identity_Ok root g r w u w' :
  write_identity root g r w = (Ok u, w') → disk w' = written r (disk w).
Proof.
  unfold write_identity. intros Hw. inv_run Hw. apply require_store_Ok in Hstep as ->.
  by apply durable_Ok in Hw.
Qed.

Lemma persist_record_Ok rt g r w r' w' :
  persist_record rt g r w = (Ok r', w') →
  r' = set_generation (generation r + 1) r ∧ (generation r < u64_max)%N ∧
  disk w' = written r' (disk w).
Proof.
  unfold persist_record. intros Hp. inv_run Hp. apply lift_Ok in Hstep as [Hb ->].
  apply bump_Ok in Hb as [-> Hlt]. inv_run Hp. apply ret_Ok in Hp as [-> ->].
  apply write_identity_Ok in Hstep. done.
Qed.

(** A failed or interrupted write leaves the old record or the new one. *)
Lemma persist_record_run rt g r w res w' :
  persist_record rt g r w = (res, w') →
  disk w' = disk w ∨ disk w' = written (set_generation (generation r + 1) r) (disk w).
Proof.
  unfold persist_record, bind, lift. destruct (bump (generation r)) as [n|e] eqn:Hb;
    [|intros [= <- <-]; by left]. apply bump_Ok in Hb as [-> _].
  unfold write_identity, require_store, sguard, lift, bind, rguard, ret.
  destruct (negb _); [intros [= <- <-]; by left|].
  unfold durable. destruct (io w) as [|[|m] []]; intros [= <- <-]; simpl; auto.
Qed.

(** ** Operations that leave a part of the disk alone *)

Definition preserves {A B} (part : Disk → B) (m : M A) : Prop :=
  ∀ w r w', m w = (r, w') → part (disk w') = part (disk w).

Lemma preserves_keeps {A B} (part : Disk → B) (m : M A) : keeps m → preserves part m.
Proof. intros Hm w r w' Hr. by destruct (Hm _ _ _ Hr) as [-> _]. Qed.

Lemma preserves_bind {A B C} (part : Disk → C) (m : M A) (k : A → M B) :
  preserves part m → (∀ a, preserves part (k a)) → preserves part (bind m k).
Proof.
  intros Hm Hk w r w'. unfold bind. destruct (m w) as [[a|e] w1] eqn:Em.
  - intros Hr. rewrite (Hk a _ _ _ Hr). by apply (Hm _ _ _ Em).
  - intros [= <- <-]. by apply (Hm _ _ _ Em).
Qed.

Lemma preserves_durable {B} (part : Disk → B) f :
  (∀ d, part (f d) = part d) → preserves part (durable f).
Proof.
  intros Hf w r w'. unfold durable. destruct (io w) as [|[|n] []]; intros [= <- <-]; simpl; auto.
Qed.

Lemma preserves_for_each {A B} (part : Disk → B) (f : A → M unit) l :
  (∀ x, preserves part (f x)) → preserves part (for_each f l).
Proof.
  intros Hf. induction l as [|x l IH]; simpl; [apply preserves_keeps; keeps_tac|].
  by apply preserves_bind.
Qed.

Lemma identities_seal_or_verify rt g k x : preserves d_identities (seal_or_verify rt g k x).
Proof.
  unfold seal_or_verify. apply preserves_bind.
  - intros w r w' Hs. apply seal_if_absent_run in Hs. destruct r as [[]|e].
    + by destruct Hs as (? & ? & ? & _ & _ & -> & _).
    + by destruct Hs as [-> _].
    + by destruct Hs as [->|(_ & ? & ->)].
  - intros a. apply preserves_keeps. unfold verify_persisted_key. keeps_tac.
Qed.

Lemma identities_delete_secret g rt x : preserves d_identities (delete_secret g rt x).
Proof.
  apply preserves_bind; [apply preserves_keeps, keeps_require_store|]. intros _.
  by apply preserves_durable.
Qed.

Lemma identities_update_journal root g j : preserves d_identities (write_update_journal root g j).
Proof.
  apply preserves_bind; [apply preserves_keeps, keeps_require_store|]. intros _.
  by apply preserves_durable.
Qed.

Lemma identities_remove_update_journal root g rid :
  preserves d_identities (remove_update_journal root g rid).
Proof.
  apply preserves_bind; [apply preserves_keeps, keeps_require_store|]. intros _.
  by apply preserves_durable.
Qed.

Lemma keeps_maybe_fail {F} `{EqDecision F} msg (failure : option F) point :
  keeps (maybe_fail msg failure point).
Proof. apply keeps_sguard. Qed.
End RecordFacts.
