(* ===== verification/Adoption.v ===== *)
(** * Enrollment and adoption of published documents (adoption.rs)

    A device without the root key enrolls: it creates its own keys, waits in the
    state [Enrolling], and becomes [Active] when a verified document authorizes
    them.  An identity adopts verified documents under a checkpoint that never
    goes back, and is [Revoked] when a document no longer authorizes its local
    keys. *)

From stdpp Require Import base strings list gmap sorting.
From S2P Require Import Prelude Json Errors Records Env Input World Document Keystore Registry.
From S2P Require Import Recovery Identity.

Record EnrollmentSpec := {
  es_verified_document : Value;
  es_evidence : VerifiedDocumentEvidence;
  es_device_id : string;
  device_signing_fragment : string;
  device_e2ee_fragment : string;
  es_profiles : list string;
  es_capabilities : Capabilities }.

Record EnrollmentPublicKey := {
  epk_kid : string;
  epk_role : KeyRole.t;
  epk_public_key_multibase : string }.

Record PreparedEnrollment := {
  ple_enrollment_id : string;
  ple_identity_id : string;
  ple_did : string;
  ple_device_id : string;
  device_signing_key : EnrollmentPublicKey;
  device_e2ee_key : EnrollmentPublicKey;
  ple_profiles : list string;
  ple_root_key_fingerprint : option string;
  ple_checkpoint : DocumentCheckpoint }.

Record RequestSigningEnrollmentSpec := {
  rse_verified_document : Value;
  rse_evidence : VerifiedDocumentEvidence;
  rse_fragment : string;
  rse_capabilities : Capabilities }.

Record PreparedRequestSigningEnrollment := {
  prse_enrollment_id : string;
  prse_identity_id : string;
  prse_did : string;
  request_signing_key : EnrollmentPublicKey;
  prse_root_key_fingerprint : option string;
  prse_checkpoint : DocumentCheckpoint }.

Module AdoptDocumentOutcome.
Inductive t := Activated | Updated | Unchanged | Revoked.
#[global] Instance eq_dec : EqDecision t.
Proof. solve_decision. Defined.
End AdoptDocumentOutcome.

(** [checkpoint]: the checkpoint of accepted evidence. *)
Definition checkpoint_of (e : VerifiedDocumentEvidence) : DocumentCheckpoint :=
  {| document_version := ev_document_version e; registry_version := ev_registry_version e;
     document_digest := ev_document_digest e |}.

Definition validate_checkpoint_progression (current : option DocumentCheckpoint)
    (next : VerifiedDocumentEvidence) : DidResult unit :=
  match current with
  | None => Ok tt
  | Some c =>
      rguard ((ev_document_version next <? document_version c)%N
              || (ev_registry_version next <? registry_version c)%N
              || ((ev_document_version next =? document_version c)%N
                  && negb (bool_decide (ev_document_digest next = document_digest c)))) Conflict
  end.

(** [compatible_local_profiles]: the same profiles, or the additive P6 upgrade. *)
Definition P6_BASE : list string :=
  ["anp.core.binding.v1"; "anp.identity.discovery.v1"; "anp.group.e2ee.v2"].
Definition P6_ADDED : string := "anp.group.base.v2".

Fixpoint list_starts_with (l p : list string) {struct p} : bool :=
  match p, l with
  | [], _ => true
  | x :: p, y :: l => bool_decide (x = y) && list_starts_with l p
  | _ :: _, [] => false
  end.

Definition compatible_local_profiles (old new : list string) : bool :=
  bool_decide (old = new)
  || (forallb (λ p, existsb (λ v, bool_decide (v = p)) old) P6_BASE
      && negb (existsb (λ p, bool_decide (p = P6_ADDED)) old)
      && (length new =? length old + 1)
      && list_starts_with new old
      && bool_decide (last new = Some P6_ADDED)).

(** [relationship_contains]. *)
Definition relationship_contains (document : Value) (name k : string) : bool :=
  match get document name ≫= as_array with
  | Some l => existsb (λ v, bool_decide (as_str v = Some k)
                            || bool_decide (get_str v "id" = Some k)) l
  | None => false
  end.

(** [revoke_local_authorization]. *)
Definition revoke_local_authorization (r : IdentityRecord) : IdentityRecord :=
  let signing := match local_authorization r with
                 | Some l => Some (signing_kid l)
                 | None => local_request_signing_kid r
                 end in
  let e2ee := e2ee_kid <$> local_authorization r in
  set_keys (map (λ k, if bool_decide (signing = Some (kid k)) || bool_decide (e2ee = Some (kid k))
                      then set_key_state KeyState.Revoked k else k) (keys r)) r.

(** The keys of a successful enrollment: pending ones become active. *)
Definition activate_pending_keys (r : IdentityRecord) : IdentityRecord :=
  set_keys (map (λ k, if bool_decide (key_state k = KeyState.Pending)
                      then set_key_state KeyState.Active k else k) (keys r)) r.

(** [before.as_object_mut()?.remove("proof")]. *)
Definition without_proof (document : Value) : DidResult Value :=
  let? o := ok_or (as_object document) InvalidIdentity in
  Ok (Object (map_remove o "proof")).

Definition is_initial_proof_confirmation (r : IdentityRecord) (document : Value)
    (e : VerifiedDocumentEvidence) : DidResult bool :=
  if negb (initial_publication_pending r)
     || negb (bool_decide (state r = IdentityState.Active))
     || negb (bool_decide (root_capability r = RootCapabilityState.Active))
     || negb (revision r =? 1)%N
     || negb (ev_document_version e =? 1)%N
     || negb (ev_registry_version e =? 1)%N
     || negb (option_test (λ c, (document_version c =? 1)%N && (registry_version c =? 1)%N)
                (checkpoint r))
  then Ok false
  else
    let? before := without_proof (Records.document r) in
    let? after := without_proof document in
    Ok (bool_decide (before = after)).

Section Adoption.
Context `{Env}.

Definition validate_verified_document (document : Value) (e : VerifiedDocumentEvidence)
    : DidResult unit :=
  do? rguard ((ev_document_version e =? 0)%N || (ev_registry_version e =? 0)%N) InvalidIdentity;
  let? dg := digest_document document in
  do? rguard (negb (bool_decide (dg = ev_document_digest e))) InvalidIdentity;
  do? ok_or (validate_device_manifest document) InvalidExtension;
  do? validate_method_document document;
  Ok tt.

Definition validate_enrollment_spec (spec : EnrollmentSpec) : DidResult unit :=
  do? validate_verified_document (es_verified_document spec) (es_evidence spec);
  do? validate_fragment (device_signing_fragment spec);
  do? validate_fragment (device_e2ee_fragment spec);
  rguard (is_empty (trim (es_device_id spec))
          || negb (bool_decide (trim (es_device_id spec) = es_device_id spec))
          || bool_decide (es_profiles spec = [])
          || existsb (λ p, is_empty (trim p)) (es_profiles spec)) InvalidExtension.

Definition root_kid (document : Value) : DidResult string :=
  ok_or (proof_method document) InvalidIdentity.

Definition optional_root_metadata (document : Value) (at_ : string)
    : DidResult (option KeyMetadata) :=
  let? p := validate_method_document document in
  if DidProfile.supports_root_control p then
    let? k := root_kid document in
    let? m := key_metadata document k KeyRole.RootControl KeyOrigin.External at_ in
    Ok (Some m)
  else Ok None.

Definition key_matches_document (document : Value) (m : KeyMetadata) : DidResult unit :=
  let? method := ok_or (find_verification_method document (kid m)) InvalidIdentity in
  let? observed := ok_or (extract_public_key method) InvalidPublicKey in
  let? expected := public_key_multibase_of observed in
  rguard (negb (bool_decide (expected = public_key_multibase m))) InvalidPublicKey.

Definition local_authorization_matches (r : IdentityRecord) (document : Value)
    (local : LocalAuthorizationRecord) : DidResult unit :=
  let? signing := ok_or (find_key (signing_kid local) (keys r)) KeyNotFound in
  let? e2ee := ok_or (find_key (e2ee_kid local) (keys r)) KeyNotFound in
  do? key_matches_document document signing;
  do? key_matches_document document e2ee;
  do? rguard (negb (is_authentication_authorized document (kid signing))
              || negb (is_assertion_method_authorized document (kid signing))
              || negb (relationship_contains document "keyAgreement" (kid e2ee)))
             KeyRoleViolation;
  let? found := ok_or (validate_device_manifest document) InvalidExtension in
  let? manifest := ok_or found InvalidExtension in
  match List.filter (λ d, bool_decide (dme_device_id d = device_id local)) (devices manifest) with
  | [d] =>
      rguard (negb (bool_decide (dme_signing_key_id d = signing_kid local))
              || negb (bool_decide (dme_e2ee_key_id d = e2ee_kid local))
              || negb (compatible_local_profiles (la_profiles local) (dme_profiles d)))
             InvalidExtension
  | _ => Err InvalidExtension
  end.

Definition refresh_compatible_local_profiles (document : Value) (r : IdentityRecord)
    : IdentityRecord :=
  match local_authorization r with
  | None => r
  | Some local =>
      if is_ok (local_authorization_matches r document local) then
        match validate_device_manifest document with
        | Some (Some manifest) =>
            match List.find (λ d, bool_decide (dme_device_id d = device_id local))
                    (devices manifest) with
            | Some d => set_local_authorization (Some (set_la_profiles (dme_profiles d) local)) r
            | None => r
            end
        | _ => r
        end
      else r
  end.

Definition request_signing_authorization_matches (r : IdentityRecord) (document : Value)
    (k : string) : DidResult unit :=
  let? m := ok_or (List.find (λ m, bool_decide (kid m = k)
                                   && is_role (role m) KeyRole.RequestSigning) (keys r))
              KeyNotFound in
  do? key_matches_document document m;
  rguard (negb (is_authentication_authorized document k)
          || is_assertion_method_authorized document k) KeyRoleViolation.

(** The end of a journaled change of a record: the record at its next generation,
    its registry summary, and the journal removed. *)
Definition publish_record (rt : StoreRuntime) (guard : StoreWriteGuard) (tid : string)
    (r : IdentityRecord) : M IdentityRecord :=
  let root := rt_root rt in
  let! g := lift (bump (generation r)) in
  let r := set_generation g r in
  do! write_identity root guard r;
  let! registry := read_registry in
  do! sguard (negb (registered registry (did r) (identity_id r))) IdentityNotFound;
  let! registry := lift (register registry (did r) (summary r)) in
  do! write_registry root guard registry;
  do! remove_journal root guard tid;
  ret r.

(** [persist_state_transition]: the record and its registry summary, under a
    [StateTransition] journal. *)
Definition persist_state_transition (rt : StoreRuntime) (guard : StoreWriteGuard)
    (r : IdentityRecord) : M IdentityRecord :=
  let! tid := random_id in
  let! at_ := now in
  let journal := new_creation_journal CreationJournalKind.StateTransition tid (identity_id r)
                   (did r) [] at_ in
  do! write_journal (rt_root rt) guard journal;
  publish_record rt guard tid r.

(** An identity transition that is still open and involves the identity. *)
Definition transition_in_progress (iid : string) (j : IdentityTransitionJournal) : bool :=
  (bool_decide (predecessor_identity_id j = iid) || bool_decide (successor_identity_id j = iid))
  && match itj_state j with
     | IdentityTransitionJournalState.Prepared
     | IdentityTransitionJournalState.PublicationInFlight
     | IdentityTransitionJournalState.PublicationUncertain => true
     | _ => false
     end.

(** The outcome of adopting a document, with the record changed by it. *)
Definition adoption_outcome (r : IdentityRecord) (local_authorized : bool)
    (e : VerifiedDocumentEvidence) : DidResult (AdoptDocumentOutcome.t * IdentityRecord) :=
  match state r with
  | IdentityState.Creating => Err InvalidIdentity
  | IdentityState.Enrolling =>
      do? rguard (negb local_authorized
                  || (bool_decide (pending_enrollment r = None)
                      && bool_decide (pending_request_signing r = None))) InvalidIdentity;
      Ok (AdoptDocumentOutcome.Activated,
          set_state IdentityState.Active
            (set_pending_request_signing None
               (set_pending_enrollment None (activate_pending_keys r))))
  | IdentityState.Active =>
      if negb local_authorized then
        Ok (AdoptDocumentOutcome.Revoked,
            set_state IdentityState.Revoked (revoke_local_authorization r))
      else if option_test (λ c, bool_decide (document_digest c = ev_document_digest e))
                (checkpoint r)
      then Ok (AdoptDocumentOutcome.Unchanged, r)
      else Ok (AdoptDocumentOutcome.Updated, r)
  | IdentityState.Revoked => Ok (AdoptDocumentOutcome.Revoked, r)
  end.

Definition local_authorized (r : IdentityRecord) (document : Value) : bool :=
  match local_authorization r with
  | Some local => is_ok (local_authorization_matches r document local)
  | None =>
      match local_request_signing_kid r with
      | Some k => is_ok (request_signing_authorization_matches r document k)
      | None => true
      end
  end.

(** The record with an accepted document. *)
Definition accept_document (document : Value) (e : VerifiedDocumentEvidence) (r : IdentityRecord)
    : DidResult IdentityRecord :=
  let? r := observe_devices document (refresh_compatible_local_profiles document r) in
  Ok (set_revision (ev_document_version e)
        (set_initial_publication_pending false
           (set_checkpoint (Some (checkpoint_of e)) (set_document document r)))).

(** [DidIdentity::adopt_verified_document_inner]. *)
Definition adopt_verified_document_inner (i : DidIdentity) (spec : AdoptVerifiedDocumentSpec)
    (sibling_only : bool) : M (DidIdentity * AdoptDocumentOutcome.t) :=
  let rt := di_runtime i in
  let document := avd_document spec in
  let e := avd_evidence spec in
  do! lift (validate_verified_document document e);
  do! sguard (negb (bool_decide (get_str document "id" = Some (did (di_record i)))))
             InvalidIdentity;
  let! guard := acquire_write rt in
  let! r := read_identity (identity_id (di_record i)) in
  do! sguard (negb (bool_decide (generation r = generation (di_record i)))) Conflict;
  do! sguard (bool_decide (is_Some (pending_revision r))) PendingRevisionExists;
  do! (if sibling_only then
         do! sguard (negb (bool_decide (state r = IdentityState.Active))
                     || negb (bool_decide (root_capability r = RootCapabilityState.Active)))
                    KeyNotUsable;
         let! journals := list_identity_transition_journals in
         sguard (existsb (transition_in_progress (identity_id r)) journals) Conflict
       else ret tt);
  let! confirmation := lift (if sibling_only then Ok false
                             else is_initial_proof_confirmation r document e) in
  do! (if confirmation then ret tt
       else lift (validate_checkpoint_progression (checkpoint r) e));
  let! fingerprint := lift (method_root_fingerprint document) in
  do! sguard (negb (bool_decide (fingerprint = root_key_fingerprint r))) RootKeyMismatch;
  let checkpoint_unchanged := bool_decide (checkpoint r = Some (checkpoint_of e)) in
  let authorized := local_authorized r document in
  do! sguard (sibling_only && negb authorized) KeyRoleViolation;
  let! changed := lift (adoption_outcome r authorized e) in
  let '(outcome, r) := changed in
  if bool_decide (outcome = AdoptDocumentOutcome.Unchanged) && checkpoint_unchanged
     && negb (initial_publication_pending r)
  then ret (i, outcome)
  else
    let! r := lift (accept_document document e r) in
    let! r := (if sibling_only then persist_record rt guard r
               else persist_state_transition rt guard r) in
    ret ({| di_runtime := rt; di_record := r |}, outcome).

Definition adopt_verified_document (i : DidIdentity) (spec : AdoptVerifiedDocumentSpec) :=
  adopt_verified_document_inner i spec false.
Definition adopt_verified_sibling_document (i : DidIdentity) (spec : AdoptVerifiedDocumentSpec) :=
  adopt_verified_document_inner i spec true.

(** The journaled part of the two enrollments: seal the new keys, write the
    enrolling record and register it. *)
Definition enroll_transaction {A} (rt : StoreRuntime) (guard : StoreWriteGuard)
    (registry : IdentityRegistry) (tid iid d at_ : string)
    (new_keys : list (ManagedPrivateKey * SecretRef)) (record : DidResult (IdentityRecord * A))
    : M (DidStore * DidIdentity * A) :=
  let root := rt_root rt in
  let journal := new_creation_journal CreationJournalKind.Create tid iid d (map snd new_keys) at_ in
  do! write_journal root guard journal;
  do! for_each (λ e, seal_or_verify rt guard e.1 e.2) new_keys;
  let! built := lift record in
  let '(r, prepared) := built in
  do! write_identity root guard r;
  let! registry := lift (register registry d (summary r)) in
  do! write_registry root guard registry;
  do! remove_journal root guard tid;
  ret ({| ds_runtime := rt; registry_generation := reg_generation registry |},
       {| di_runtime := rt; di_record := r |}, prepared).

Definition new_ref (iid k : string) (r : KeyRole.t) : SecretRef :=
  {| sr_identity_id := iid; sr_key_id := k; sr_role := r; sr_version := 1 |}.

Definition public_of (m : KeyMetadata) : EnrollmentPublicKey :=
  {| epk_kid := kid m; epk_role := role m; epk_public_key_multibase := public_key_multibase m |}.

(** The record of an enrolling device and what its enrollment is prepared with. *)
Definition enrollment_record (spec : EnrollmentSpec) (d iid eid sk ek at_ : string)
    (signing_key e2ee_key : ManagedPrivateKey)
    : DidResult (IdentityRecord * PreparedEnrollment) :=
  let document := es_verified_document spec in
  let? root := optional_root_metadata document at_ in
  let? sm := key_metadata_from_public sk KeyRole.DeviceSigning KeyOrigin.Managed
               KeyState.Pending (mpk_public_key signing_key) at_ in
  let? em := key_metadata_from_public ek KeyRole.E2eeAgreement KeyOrigin.Managed
               KeyState.Pending (mpk_public_key e2ee_key) at_ in
  let local := {| device_id := es_device_id spec; signing_kid := sk; e2ee_kid := ek;
                  la_profiles := es_profiles spec |} in
  let? fingerprint := method_root_fingerprint document in
  let r := new_identity_record
    {| ni_identity_id := iid; ni_did := d; ni_document := document;
       ni_keys := option_list root ++ [sm; em]; ni_capabilities := es_capabilities spec;
       ni_root_capability := RootCapabilityState.Absent;
       ni_root_key_fingerprint := fingerprint;
       ni_checkpoint := checkpoint_of (es_evidence spec);
       ni_local_authorization := Some local; ni_created_at := at_ |} in
  Ok (set_pending_enrollment (Some {| pe_enrollment_id := eid; pe_local_authorization := local;
                                      pe_created_at := at_ |})
        (set_state IdentityState.Enrolling r),
      {| ple_enrollment_id := eid; ple_identity_id := iid; ple_did := d;
         ple_device_id := es_device_id spec; device_signing_key := public_of sm;
         device_e2ee_key := public_of em; ple_profiles := es_profiles spec;
         ple_root_key_fingerprint := fingerprint;
         ple_checkpoint := checkpoint_of (es_evidence spec) |}).

(** [DidStore::prepare_enrollment]. *)
Definition prepare_enrollment (s : DidStore) (spec : EnrollmentSpec)
    : M (DidStore * DidIdentity * PreparedEnrollment) :=
  let rt := ds_runtime s in
  let document := es_verified_document spec in
  do! lift (validate_enrollment_spec spec);
  let! d := lift (ok_or (get_str document "id") InvalidIdentity) in
  let! sk := lift (canonicalize_kid d (device_signing_fragment spec)) in
  let! ek := lift (canonicalize_kid d (device_e2ee_fragment spec)) in
  do! sguard (bool_decide (sk = ek)
              || bool_decide (is_Some (find_verification_method document sk))
              || bool_decide (is_Some (find_verification_method document ek))) DuplicateKid;
  let! guard := acquire_write rt in
  let! registry := read_registry in
  do! sguard (negb (bool_decide (reg_generation registry = registry_generation s))) Conflict;
  do! sguard (bool_decide (is_Some (identities registry !! d))) DuplicateIdentity;
  let! iid := random_id in
  let! eid := random_id in
  let! tid := random_id in
  let! at_ := now in
  let! signing_key := generate (device_signing_fragment spec) KeyRole.DeviceSigning in
  let! e2ee_key := generate (device_e2ee_fragment spec) KeyRole.E2eeAgreement in
  enroll_transaction rt guard registry tid iid d at_
    [(signing_key, new_ref iid sk KeyRole.DeviceSigning);
     (e2ee_key, new_ref iid ek KeyRole.E2eeAgreement)]
    (enrollment_record spec d iid eid sk ek at_ signing_key e2ee_key).

(** The record of an enrolling request signer. *)
Definition request_enrollment_record (spec : RequestSigningEnrollmentSpec)
    (d iid eid k at_ : string) (request_key : ManagedPrivateKey)
    : DidResult (IdentityRecord * PreparedRequestSigningEnrollment) :=
  let document := rse_verified_document spec in
  let? root := optional_root_metadata document at_ in
  let? rm := key_metadata_from_public k KeyRole.RequestSigning KeyOrigin.Managed
               KeyState.Pending (mpk_public_key request_key) at_ in
  let? fingerprint := method_root_fingerprint document in
  let r := new_identity_record
    {| ni_identity_id := iid; ni_did := d; ni_document := document;
       ni_keys := option_list root ++ [rm]; ni_capabilities := rse_capabilities spec;
       ni_root_capability := RootCapabilityState.Absent;
       ni_root_key_fingerprint := fingerprint;
       ni_checkpoint := checkpoint_of (rse_evidence spec);
       ni_local_authorization := None; ni_created_at := at_ |} in
  Ok (set_pending_request_signing
        (Some {| prs_enrollment_id := eid; request_signing_kid := k; prs_created_at := at_ |})
        (set_local_request_signing_kid (Some k) (set_state IdentityState.Enrolling r)),
      {| prse_enrollment_id := eid; prse_identity_id := iid; prse_did := d;
         request_signing_key := public_of rm; prse_root_key_fingerprint := fingerprint;
         prse_checkpoint := checkpoint_of (rse_evidence spec) |}).

(** [DidStore::prepare_request_signing_enrollment]. *)
Definition prepare_request_signing_enrollment (s : DidStore) (spec : RequestSigningEnrollmentSpec)
    : M (DidStore * DidIdentity * PreparedRequestSigningEnrollment) :=
  let rt := ds_runtime s in
  let document := rse_verified_document spec in
  do! lift (validate_verified_document document (rse_evidence spec));
  do! lift (validate_fragment (rse_fragment spec));
  let! d := lift (ok_or (get_str document "id") InvalidIdentity) in
  let! k := lift (canonicalize_kid d (rse_fragment spec)) in
  do! sguard (bool_decide (is_Some (find_verification_method document k))) DuplicateKid;
  let! guard := acquire_write rt in
  let! registry := read_registry in
  do! sguard (negb (bool_decide (reg_generation registry = registry_generation s))) Conflict;
  do! sguard (bool_decide (is_Some (identities registry !! d))) DuplicateIdentity;
  let! iid := random_id in
  let! eid := random_id in
  let! tid := random_id in
  let! at_ := now in
  let! request_key := generate (rse_fragment spec) KeyRole.RequestSigning in
  enroll_transaction rt guard registry tid iid d at_
    [(request_key, new_ref iid k KeyRole.RequestSigning)]
    (request_enrollment_record spec d iid eid k at_ request_key).

End Adoption.

(** [DidIdentity::pending_enrollment]. *)
Definition pending_enrollment_of (r : IdentityRecord) : option PreparedEnrollment :=
  p ← pending_enrollment r; local ← local_authorization r;
  signing ← find_key (signing_kid local) (keys r); e2ee ← find_key (e2ee_kid local) (keys r);
  c ← checkpoint r;
  Some {| ple_enrollment_id := pe_enrollment_id p; ple_identity_id := identity_id r;
          ple_did := did r; ple_device_id := device_id local;
          device_signing_key := public_of signing; device_e2ee_key := public_of e2ee;
          ple_profiles := la_profiles local;
          ple_root_key_fingerprint := root_key_fingerprint r; ple_checkpoint := c |}.

(** [DidIdentity::pending_request_signing_enrollment]. *)
Definition pending_request_signing_enrollment_of (r : IdentityRecord)
    : option PreparedRequestSigningEnrollment :=
  p ← pending_request_signing r; request ← find_key (request_signing_kid p) (keys r);
  c ← checkpoint r;
  Some {| prse_enrollment_id := prs_enrollment_id p; prse_identity_id := identity_id r;
          prse_did := did r; request_signing_key := public_of request;
          prse_root_key_fingerprint := root_key_fingerprint r; prse_checkpoint := c |}.
