(* ===== verification/Lifecycle.v ===== *)
(** * Document updates (lifecycle.rs)

    An update is prepared under an update journal as a pending revision of the
    record, published, and then committed, aborted or reconciled.  The pending
    revision's publication state is the state machine of this file. *)

From stdpp Require Import base strings list gmap sorting.
From S2P Require Import Prelude Json Errors Records Env Input World Document Keystore Registry.
From S2P Require Import Recovery Identity Adoption.

Record RequestSigningRotation := { old_kid : string; new_fragment : string }.

(** [RequestSigningPublicKeySpec] and [DevicePublicKeySpec]. *)
Record PublicKeySpec := { pk_kid : string; pk_multibase : string }.

Inductive RequestSigningMutationSpec :=
  | AddRequestKey (key : PublicKeySpec)
  | RemoveRequestKey (kid : string).

Record DeviceAddSpec := {
  da_device_id : string;
  da_signing_key : PublicKeySpec;
  da_e2ee_key : PublicKeySpec;
  da_profiles : list string }.

Inductive DeviceMutationSpec :=
  | AddDevice (device : DeviceAddSpec)
  | RemoveDevice (device_id : string)
  | AddProfiles (device_id : string) (profiles : list string).

Record DocumentUpdateSpec := {
  request_signing_rotation : option RequestSigningRotation;
  request_signing_mutations : list RequestSigningMutationSpec;
  device_mutations : list DeviceMutationSpec;
  update_services : option (list ServiceSpec) }.

Record PreparedUpdate := {
  pu_revision_id : string;
  pu_candidate_document : Value;
  pu_candidate_digest : string }.

Module ReconcileOutcome.
Inductive t := RemoteOld | Committed.
#[global] Instance eq_dec : EqDecision t.
Proof. solve_decision. Defined.
End ReconcileOutcome.

Module LifecycleFailurePoint.
Inductive t :=
  | PrepareJournalPersisted | PendingSecretPersisted | PendingIdentityPersisted
  | CleanupJournalPersisted | PendingIdentityCleared | PendingSecretsDeleted.
#[global] Instance eq_dec : EqDecision t.
Proof. solve_decision. Defined.
End LifecycleFailurePoint.

Definition LIFECYCLE_FAILURE : string := "injected lifecycle failure".

Record PreparedRotation := {
  rot_old_kid : string;
  rot_new_kid : string;
  rot_new_key : ManagedPrivateKey }.

(** [DeviceChanges], and the [added_keys] and [retired_kids] of [CandidateChanges]. *)
Record KeyChanges := {
  added_keys : list (string * KeyRole.t);
  changed_retired_kids : list string }.

Record CandidateChanges := {
  cc_document : Value;
  cc_keys : KeyChanges }.

(** ** Document fields edited in place *)

(** [object.get_mut(name).and_then(as_array_mut)?] followed by a change of the
    array, as in [methods_mut] and [relationship_mut]. *)
Definition edit_array (name : string) (f : list Value → list Value) (o : Map) : DidResult Map :=
  let? l := ok_or (map_get o name ≫= as_array) InvalidIdentity in
  Ok (map_insert o name (Array (f l))).
Definition methods_mut := edit_array "verificationMethod".
Definition relationship_mut (name : string) := edit_array name.

Definition push_str (k : string) (l : list Value) : list Value := l ++ [Str k].
Definition retain_not (k : string) (l : list Value) : list Value :=
  List.filter (λ v, negb (bool_decide (as_str v = Some k))) l.
Definition retain_methods_not (ks : list string) (l : list Value) : list Value :=
  List.filter (λ v, forallb (λ k, negb (bool_decide (get_str v "id" = Some k))) ks) l.

Definition method_exists (o : Map) (k : string) : bool :=
  match map_get o "verificationMethod" ≫= as_array with
  | Some l => existsb (λ v, bool_decide (get_str v "id" = Some k)) l
  | None => false
  end.

Definition method_json (k method_type controller multibase : string) : Value :=
  json_object [("id", Str k); ("type", Str method_type); ("controller", Str controller);
               ("publicKeyMultibase", Str multibase)].

Definition has_kid (k : string) (l : list KeyMetadata) : bool :=
  existsb (λ m, bool_decide (kid m = k)) l.

Definition validate_device_add (device : DeviceAddSpec) : DidResult unit :=
  rguard (is_empty (trim (da_device_id device))
          || negb (bool_decide (trim (da_device_id device) = da_device_id device))
          || bool_decide (da_profiles device = [])
          || existsb (λ p, is_empty (trim p)) (da_profiles device)) InvalidExtension.

(** [required_pending] and [required_pending_mut]. *)
Definition required_pending (r : IdentityRecord) (rid : string)
    : DidResult PendingRevisionRecord :=
  match pending_revision r with
  | Some p => if bool_decide (revision_id p = rid) then Ok p else Err PendingRevisionNotFound
  | None => Err PendingRevisionNotFound
  end.

Definition reject_uncertain_mutation (r : IdentityRecord) : DidResult unit :=
  rguard (option_test (λ p, bool_decide (pr_state p = PublicationState.PublicationUncertain))
            (pending_revision r)) InvalidPublicationState.

Section Lifecycle.
Context `{Env}.

(** [canonical_digest] of lifecycle.rs. *)
Definition canonical_digest (document : Value) : DidResult string :=
  let? canonical := ok_or (canonical_json document) InvalidIdentity in
  Ok (b64url_encode (sha256 canonical)).

Definition prepare_rotation (r : IdentityRecord) (rotation : RequestSigningRotation)
    : M PreparedRotation :=
  let! old := lift (canonicalize_kid (did r) (old_kid rotation)) in
  let! m := lift (ok_or (find_key old (keys r)) KeyNotFound) in
  do! sguard (bool_decide (origin m = KeyOrigin.External)) ExternalKeyOperation;
  do! sguard (is_role (role m) KeyRole.RootControl) UnsupportedOperation;
  do! sguard (negb (is_role (role m) KeyRole.RequestSigning)) KeyRoleViolation;
  do! sguard (negb (bool_decide (key_state m = KeyState.Active))) KeyNotUsable;
  do! lift (validate_fragment (new_fragment rotation));
  let! new := lift (canonicalize_kid (did r) (new_fragment rotation)) in
  do! sguard (has_kid new (keys r)) DuplicateKid;
  let! k := generate (new_fragment rotation) KeyRole.RequestSigning in
  ret {| rot_old_kid := old; rot_new_kid := new; rot_new_key := k |}.

Definition validate_request_signing_public_key (k multibase : string) : DidResult unit :=
  let method := json_object [("id", Str k); ("type", Str "Multikey");
                             ("publicKeyMultibase", Str multibase)] in
  let? public := ok_or (extract_public_key method) InvalidPublicKey in
  match public with Ed25519 _ => Ok tt | _ => Err InvalidPublicKey end.

(** One step of the loop of [apply_request_signing_mutations]. *)
Definition apply_request_signing_mutation (r : IdentityRecord) (st : Map * KeyChanges)
    (mutation : RequestSigningMutationSpec) : DidResult (Map * KeyChanges) :=
  let '(o, changes) := st in
  match mutation with
  | AddRequestKey key =>
      let? k := canonicalize_kid (did r) (pk_kid key) in
      do? rguard (has_kid k (keys r) || method_exists o k) DuplicateKid;
      do? validate_request_signing_public_key k (pk_multibase key);
      let? o := methods_mut (λ l, l ++ [method_json k "Multikey" (did r) (pk_multibase key)]) o in
      let? o := relationship_mut "authentication" (push_str k) o in
      Ok (o, {| added_keys := added_keys changes ++ [(k, KeyRole.RequestSigning)];
                changed_retired_kids := changed_retired_kids changes |})
  | RemoveRequestKey k =>
      let? k := canonicalize_kid (did r) k in
      let? m := ok_or (find_key k (keys r)) KeyNotFound in
      do? rguard (negb (is_role (role m) KeyRole.RequestSigning)) KeyRoleViolation;
      do? rguard (negb (bool_decide (origin m = KeyOrigin.External))) UnsupportedOperation;
      let? o := methods_mut (retain_methods_not [k]) o in
      let? o := relationship_mut "authentication" (retain_not k) o in
      Ok (o, {| added_keys := added_keys changes;
                changed_retired_kids := changed_retired_kids changes ++ [k] |})
  end.

Definition no_changes : KeyChanges := {| added_keys := []; changed_retired_kids := [] |}.

Definition apply_request_signing_mutations (o : Map) (r : IdentityRecord)
    (mutations : list RequestSigningMutationSpec) : DidResult (Map * KeyChanges) :=
  fold_result (apply_request_signing_mutation r) mutations (o, no_changes).

Definition validate_device_public_key (k multibase : string) (r : KeyRole.t) : DidResult unit :=
  let? method_type :=
    match r with
    | KeyRole.DeviceSigning => Ok "Multikey"%string
    | KeyRole.E2eeAgreement => Ok "X25519KeyAgreementKey2019"%string
    | _ => Err KeyRoleViolation
    end in
  let method := json_object [("id", Str k); ("type", Str method_type);
                             ("publicKeyMultibase", Str multibase)] in
  let? public := ok_or (extract_public_key method) InvalidPublicKey in
  match r, public with
  | KeyRole.DeviceSigning, Ed25519 _ | KeyRole.E2eeAgreement, X25519 _ => Ok tt
  | _, _ => Err InvalidPublicKey
  end.

(** The state of the loop of [apply_device_mutations]. *)
Record DeviceState := {
  dv_object : Map;
  dv_manifest : option DeviceManifest;
  dv_changes : KeyChanges;
  dv_retired : list string }.

(** Change the first entry of a device. *)
Fixpoint edit_entry (id : string) (f : DeviceManifestEntry → DeviceManifestEntry)
    (l : list DeviceManifestEntry) : option (list DeviceManifestEntry) :=
  match l with
  | [] => None
  | e :: l => if bool_decide (dme_device_id e = id) then Some (f e :: l)
              else (λ l, e :: l) <$> edit_entry id f l
  end.

(** Remove the first entry of a device. *)
Fixpoint take_entry (id : string) (l : list DeviceManifestEntry)
    : option (DeviceManifestEntry * list DeviceManifestEntry) :=
  match l with
  | [] => None
  | e :: l => if bool_decide (dme_device_id e = id) then Some (e, l)
              else (λ '(x, l), (x, e :: l)) <$> take_entry id l
  end.

(** [if !entry.profiles.contains(profile) { push }] for each profile. *)
Definition add_profiles (profiles : list string) (e : DeviceManifestEntry)
    : DeviceManifestEntry :=
  {| dme_device_id := dme_device_id e; dme_signing_key_id := dme_signing_key_id e;
     dme_e2ee_key_id := dme_e2ee_key_id e;
     dme_profiles := fold_left (λ acc p, if bool_decide (p ∈ acc) then acc else acc ++ [p])
                       profiles (dme_profiles e) |}.

Definition with_devices (l : list DeviceManifestEntry) (m : DeviceManifest) : DeviceManifest :=
  {| manifest_type := manifest_type m; devices := l |}.

(** [DeviceMutationSpec::AddProfiles]. *)
Definition apply_add_profiles (id : string) (profiles : list string) (st : DeviceState)
    : DidResult DeviceState :=
  do? rguard (bool_decide (profiles = [])
              || existsb (λ p, is_empty (trim p) || negb (bool_decide (trim p = p))) profiles)
             InvalidExtension;
  let? manifest := ok_or (dv_manifest st) KeyNotFound in
  let? l := ok_or (edit_entry id (add_profiles profiles) (devices manifest)) KeyNotFound in
  Ok {| dv_object := dv_object st; dv_manifest := Some (with_devices l manifest);
        dv_changes := dv_changes st; dv_retired := dv_retired st |}.

(** [DeviceMutationSpec::Add]. *)
Definition apply_add_device (r : IdentityRecord) (device : DeviceAddSpec) (st : DeviceState)
    : DidResult DeviceState :=
  let o := dv_object st in
  do? validate_device_add device;
  let? sk := canonicalize_kid (did r) (pk_kid (da_signing_key device)) in
  let? ek := canonicalize_kid (did r) (pk_kid (da_e2ee_key device)) in
  do? rguard (bool_decide (da_device_id device ∈ dv_retired st)
              || bool_decide (sk = ek)
              || existsb (λ m, bool_decide (kid m = sk) || bool_decide (kid m = ek)) (keys r)
              || method_exists o sk || method_exists o ek
              || option_test (λ m, existsb (λ e, bool_decide (dme_device_id e = da_device_id device))
                                     (devices m)) (dv_manifest st)) DuplicateKid;
  do? validate_device_public_key sk (pk_multibase (da_signing_key device)) KeyRole.DeviceSigning;
  do? validate_device_public_key ek (pk_multibase (da_e2ee_key device)) KeyRole.E2eeAgreement;
  let? o := methods_mut (λ l, l ++
    [method_json sk "Multikey" (did r) (pk_multibase (da_signing_key device));
     method_json ek "X25519KeyAgreementKey2019" (did r) (pk_multibase (da_e2ee_key device))]) o in
  let? o := relationship_mut "authentication" (push_str sk) o in
  let? o := relationship_mut "assertionMethod" (push_str sk) o in
  let? o := relationship_mut "keyAgreement" (push_str ek) o in
  let manifest := default {| manifest_type := device_manifest_type; devices := [] |}
                    (dv_manifest st) in
  let entry := {| dme_device_id := da_device_id device; dme_signing_key_id := sk;
                  dme_e2ee_key_id := ek; dme_profiles := da_profiles device |} in
  Ok {| dv_object := o; dv_manifest := Some (with_devices (devices manifest ++ [entry]) manifest);
        dv_changes := {| added_keys := added_keys (dv_changes st) ++
                           [(sk, KeyRole.DeviceSigning); (ek, KeyRole.E2eeAgreement)];
                         changed_retired_kids := changed_retired_kids (dv_changes st) |};
        dv_retired := dv_retired st |}.

(** [DeviceMutationSpec::Remove]. *)
Definition apply_remove_device (r : IdentityRecord) (id : string) (st : DeviceState)
    : DidResult DeviceState :=
  do? rguard (is_empty (trim id) || negb (bool_decide (trim id = id))) InvalidExtension;
  do? rguard (option_test (λ l, bool_decide (device_id l = id)) (local_authorization r))
             UnsupportedOperation;
  let? manifest := ok_or (dv_manifest st) KeyNotFound in
  let? taken := ok_or (take_entry id (devices manifest)) KeyNotFound in
  let '(removed, rest) := taken in
  let sk := dme_signing_key_id removed in
  let ek := dme_e2ee_key_id removed in
  let? o := methods_mut (retain_methods_not [sk; ek]) (dv_object st) in
  let? o := relationship_mut "authentication" (retain_not sk) o in
  let? o := relationship_mut "assertionMethod" (retain_not sk) o in
  let? o := relationship_mut "keyAgreement" (retain_not ek) o in
  Ok {| dv_object := o; dv_manifest := Some (with_devices rest manifest);
        dv_changes := {| added_keys := added_keys (dv_changes st);
                         changed_retired_kids := changed_retired_kids (dv_changes st) ++ [sk; ek] |};
        dv_retired := dv_retired st ++ [dme_device_id removed] |}.

Definition apply_device_mutation (r : IdentityRecord) (st : DeviceState)
    (mutation : DeviceMutationSpec) : DidResult DeviceState :=
  match mutation with
  | AddProfiles id profiles => apply_add_profiles id profiles st
  | AddDevice device => apply_add_device r device st
  | RemoveDevice id => apply_remove_device r id st
  end.

Definition apply_device_mutations (o : Map) (r : IdentityRecord)
    (mutations : list DeviceMutationSpec) : DidResult (Map * KeyChanges) :=
  let? manifest := match map_get o "deviceManifest" with
                   | None => Ok None
                   | Some v => let? m := ok_or (manifest_from_value v) InvalidExtension in Ok (Some m)
                   end in
  let? st := fold_result (apply_device_mutation r) mutations
               {| dv_object := o; dv_manifest := manifest; dv_changes := no_changes;
                  dv_retired := retired_device_ids r |} in
  let? o := match dv_manifest st with
            | None => Ok (dv_object st)
            | Some m =>
                if bool_decide (devices m = []) then Ok (map_remove (dv_object st) "deviceManifest")
                else let? v := ok_or (manifest_to_value m) InvalidExtension in
                     Ok (map_insert (dv_object st) "deviceManifest" v)
            end in
  Ok (o, dv_changes st).

(** ** Candidate documents *)

(** The verification method and relationship of a rotated request-signing key. *)
Definition apply_rotation (r : IdentityRecord) (rotation : PreparedRotation) (o : Map)
    : DidResult Map :=
  let? methods := ok_or (map_get o "verificationMethod" ≫= as_array) InvalidIdentity in
  let? multibase := ed25519_public_multibase (mpk_public_key (rot_new_key rotation)) in
  let o := map_insert o "verificationMethod" (Array (methods ++
             [method_json (rot_new_kid rotation) "Multikey" (did r) multibase])) in
  edit_array "authentication"
    (λ l, push_str (rot_new_kid rotation) (retain_not (rot_old_kid rotation) l)) o.

(** The [service] member: the agent description is kept, the rest is replaced. *)
Definition replace_services (d : string) (services : list ServiceSpec) (o : Map) : Map :=
  let kept := match map_get o "service" ≫= as_array with
              | Some l => List.filter (λ s, bool_decide (get_str s "type" = Some "AgentDescription"%string)) l
              | None => []
              end in
  let absolute s :=
    let v := service_json s in
    match get_str v "id" with
    | Some id => if starts_with "#" id then index_set v "id" (Str (d +:+ id)%string) else v
    | None => v
    end in
  map_insert o "service" (Array (kept ++ map absolute services)).

Definition build_candidate_document (i : DidIdentity) (r : IdentityRecord)
    (rotation : option PreparedRotation) (spec : DocumentUpdateSpec) : M CandidateChanges :=
  let! o := lift (ok_or (as_object (document r)) InvalidIdentity) in
  let proof_dom := (p ← map_get o "proof"; get_str p "domain") in
  let o := map_remove o "proof" in
  let! o := lift (match rotation with
                  | Some rotation => apply_rotation r rotation o
                  | None => Ok o
                  end) in
  let! requests := lift (apply_request_signing_mutations o r (request_signing_mutations spec)) in
  let '(o, request_changes) := requests in
  let! devices := lift (apply_device_mutations o r (device_mutations spec)) in
  let '(o, device_changes) := devices in
  let o := match update_services spec with
           | Some l => replace_services (did r) l o
           | None => o
           end in
  let! p := lift (for_did (did r)) in
  let! signed :=
    if DidProfile.supports_root_control p then
      let! root := lift (ok_or (List.find (λ m, is_role (role m) KeyRole.RootControl) (keys r))
                           InvalidIdentity) in
      let! root_secret := load_managed_secret i root in
      sign_root_document (Object o) (kid root) root_secret proof_dom
    else ret (Object o) in
  do! lift (validate_method_document signed);
  do! lift (ok_or (validate_device_manifest signed) InvalidExtension);
  ret {| cc_document := signed;
         cc_keys := {| added_keys := added_keys request_changes ++ added_keys device_changes;
                       changed_retired_kids := changed_retired_kids request_changes
                                               ++ changed_retired_kids device_changes |} |}.

(** ** Operations *)

(** [DidIdentity::current_record_for_mutation]. *)
Definition current_record_for_mutation (i : DidIdentity) : M IdentityRecord :=
  let! r := read_identity (identity_id (di_record i)) in
  do! sguard (negb (bool_decide (generation r = generation (di_record i)))
              || negb (bool_decide (state r = IdentityState.Active))) Conflict;
  ret r.

Definition with_record (i : DidIdentity) (r : IdentityRecord) : DidIdentity :=
  {| di_runtime := di_runtime i; di_record := r |}.

(** Everything of the pending revision that does not depend on durable state. *)
Definition pending_of (r : IdentityRecord) (changes : CandidateChanges)
    (rotation : option PreparedRotation) (metadata : list KeyMetadata) (refs : list SecretRef)
    (rid dg at_ : string) : PendingRevisionRecord :=
  {| revision_id := rid; parent_revision := revision r;
     candidate_document := cc_document changes; candidate_digest := dg;
     candidate_kids := map fst (added_keys (cc_keys changes))
                       ++ option_list (rot_new_kid <$> rotation);
     pending_secret_refs := refs; new_key_metadata := metadata;
     retired_kids := changed_retired_kids (cc_keys changes)
                     ++ option_list (rot_old_kid <$> rotation);
     pr_state := PublicationState.Prepared; pr_generation := 1; pr_created_at := at_ |}.

(** The metadata of added keys and of the rotated key, with its secret reference. *)
Definition candidate_metadata (r : IdentityRecord) (changes : CandidateChanges)
    (rotation : option PreparedRotation) (at_ : string)
    : DidResult (list KeyMetadata * list SecretRef) :=
  let candidate := cc_document changes in
  let? added := map_result (λ e, key_metadata candidate e.1 e.2 KeyOrigin.External at_)
                  (added_keys (cc_keys changes)) in
  match rotation with
  | None => Ok (added, [])
  | Some rotation =>
      let? m := key_metadata candidate (rot_new_kid rotation) KeyRole.RequestSigning
                  KeyOrigin.Managed at_ in
      Ok (added ++ [m],
          [{| sr_identity_id := identity_id r; sr_key_id := rot_new_kid rotation;
              sr_role := KeyRole.RequestSigning; sr_version := version m |}])
  end.

(** The journaled part of [prepare_update_inner]. *)
Definition prepare_transaction (rt : StoreRuntime) (guard : StoreWriteGuard)
    (failure : option LifecycleFailurePoint.t) (r : IdentityRecord) (changes : CandidateChanges)
    (rotation : option PreparedRotation) (metadata : list KeyMetadata) (refs : list SecretRef)
    (rid at_ : string) : M (IdentityRecord * PreparedUpdate) :=
  let root := rt_root rt in
  let fail_at := maybe_fail LIFECYCLE_FAILURE failure in
  do! write_update_journal root guard
        (new_update_journal rid (identity_id r) refs UpdateJournalKind.Prepare at_);
  do! fail_at LifecycleFailurePoint.PrepareJournalPersisted;
  do! match rotation, refs with
      | Some rotation, ref :: _ => seal_or_verify rt guard (rot_new_key rotation) ref
      | _, _ => ret tt
      end;
  do! fail_at LifecycleFailurePoint.PendingSecretPersisted;
  let! dg := lift (canonical_digest (cc_document changes)) in
  let pending := pending_of r changes rotation metadata refs rid dg at_ in
  let! r := persist_record rt guard (set_pending_revision (Some pending) r) in
  do! fail_at LifecycleFailurePoint.PendingIdentityPersisted;
  do! remove_update_journal root guard rid;
  ret (r, {| pu_revision_id := rid; pu_candidate_document := cc_document changes;
             pu_candidate_digest := dg |}).

(** [DidIdentity::prepare_update_inner]. *)
Definition prepare_update_inner (i : DidIdentity) (spec : DocumentUpdateSpec)
    (failure : option LifecycleFailurePoint.t) : M (DidIdentity * PreparedUpdate) :=
  let rt := di_runtime i in
  do! sguard (bool_decide (request_signing_rotation spec = None)
              && bool_decide (length (request_signing_mutations spec) = 0)
              && bool_decide (length (device_mutations spec) = 0)
              && bool_decide (update_services spec = None)) UnsupportedOperation;
  do! lift (for_result validate_service (default [] (update_services spec)));
  let! guard := acquire_write rt in
  let! r := current_record_for_mutation i in
  do! match pending_revision r with
      | Some p => fail (if bool_decide (pr_state p = PublicationState.PublicationUncertain)
                        then InvalidPublicationState else PendingRevisionExists)
      | None => ret tt
      end;
  let! rotation := match request_signing_rotation spec with
                   | Some x => let! p := prepare_rotation r x in ret (Some p)
                   | None => ret None
                   end in
  let! changes := build_candidate_document i r rotation spec in
  let! at_ := now in
  let! new := lift (candidate_metadata r changes rotation at_) in
  let '(metadata, refs) := new in
  let! rid := random_id in
  let! done := prepare_transaction rt guard failure r changes rotation metadata refs rid at_ in
  ret (with_record i done.1, done.2).

Definition prepare_update (i : DidIdentity) (spec : DocumentUpdateSpec) :=
  prepare_update_inner i spec None.

(** [DidIdentity::transition_publication]. *)
Definition transition_publication (i : DidIdentity) (rid : string)
    (expected next : PublicationState.t) : M DidIdentity :=
  let rt := di_runtime i in
  let! guard := acquire_write rt in
  let! r := current_record_for_mutation i in
  let! p := lift (required_pending r rid) in
  do! sguard (negb (bool_decide (pr_state p = expected))) InvalidPublicationState;
  let! g := lift (bump (pr_generation p)) in
  let! r := persist_record rt guard
              (set_pending_revision (Some (set_pr_generation g (set_pr_state next p))) r) in
  ret (with_record i r).

Definition begin_publication (i : DidIdentity) (rid : string) : M DidIdentity :=
  transition_publication i rid PublicationState.Prepared PublicationState.PublicationInFlight.
Definition mark_publication_uncertain (i : DidIdentity) (rid : string) : M DidIdentity :=
  transition_publication i rid PublicationState.PublicationInFlight
    PublicationState.PublicationUncertain.
Definition mark_published (i : DidIdentity) (rid : string) : M DidIdentity :=
  transition_publication i rid PublicationState.PublicationInFlight PublicationState.Published.
Definition reject_publication_before_acceptance (i : DidIdentity) (rid : string) : M DidIdentity :=
  transition_publication i rid PublicationState.PublicationInFlight PublicationState.Prepared.

(** [record.keys.iter_mut().find(|m| m.kid == k)] followed by a change. *)
Fixpoint edit_key (k : string) (f : KeyMetadata → KeyMetadata) (l : list KeyMetadata)
    : list KeyMetadata :=
  match l with
  | [] => []
  | m :: l => if bool_decide (kid m = k) then f m :: l else m :: edit_key k f l
  end.

Definition retire_keys (ks : list string) (l : list KeyMetadata) : list KeyMetadata :=
  fold_left (λ l k, edit_key k (set_key_state KeyState.Retired) l) ks l.

(** The publication states from which a commit is allowed. *)
Definition commit_allowed (p : PendingRevisionRecord) (from_reconcile : bool)
    (evidence : option VerifiedDocumentEvidence) : bool :=
  bool_decide (pr_state p = PublicationState.Published)
  || (bool_decide (is_Some evidence) && negb from_reconcile
      && bool_decide (pr_state p = PublicationState.PublicationInFlight))
  || (from_reconcile && bool_decide (pr_state p = PublicationState.PublicationUncertain)).

(** The checks of a commit against the evidence of publication. *)
Definition validate_commit_evidence (r : IdentityRecord) (p : PendingRevisionRecord)
    (evidence : option VerifiedDocumentEvidence) : DidResult unit :=
  match evidence with
  | None => Ok tt
  | Some e =>
      do? validate_verified_document (candidate_document p) e;
      let? confirmation := is_initial_proof_confirmation r (candidate_document p) e in
      if confirmation then Ok tt else validate_checkpoint_progression (checkpoint r) e
  end.

(** The record with a committed revision. *)
Definition committed_record (r : IdentityRecord) (p : PendingRevisionRecord)
    (evidence : option VerifiedDocumentEvidence) : DidResult IdentityRecord :=
  let r := set_keys (retire_keys (retired_kids p) (keys r)) r in
  let r := refresh_compatible_local_profiles (candidate_document p) r in
  let? r := observe_devices (candidate_document p) r in
  let r := set_document (candidate_document p) (set_keys (keys r ++ new_key_metadata p) r) in
  let? rev := match evidence with
              | Some e => Ok (ev_document_version e)
              | None => ok_or (checked_succ (revision r)) Conflict
              end in
  let? reg := match evidence with
              | Some e => Ok (ev_registry_version e)
              | None => ok_or (checked_succ (default 0%N (registry_version <$> checkpoint r))) Conflict
              end in
  let? dg := digest_document (document r) in
  Ok (set_initial_publication_pending false (set_pending_revision None
        (set_checkpoint (Some {| document_version := rev; registry_version := reg;
                                 document_digest := dg |}) (set_revision rev r)))).

(** [DidIdentity::commit_pending]. *)
Definition commit_pending (i : DidIdentity) (rid : string) (from_reconcile : bool)
    (evidence : option VerifiedDocumentEvidence) : M DidIdentity :=
  let rt := di_runtime i in
  let! guard := acquire_write rt in
  let! r := current_record_for_mutation i in
  let! p := lift (required_pending r rid) in
  do! sguard (negb (commit_allowed p from_reconcile evidence)
              || negb (bool_decide (parent_revision p = revision r))) InvalidPublicationState;
  do! lift (validate_commit_evidence r p evidence);
  let! r := lift (committed_record r p evidence) in
  let! r := persist_record rt guard r in
  ret (with_record i r).

Definition commit_update (i : DidIdentity) (rid : string) := commit_pending i rid false None.
Definition commit_verified_update (i : DidIdentity) (rid : string) (from_reconcile : bool)
    (e : VerifiedDocumentEvidence) := commit_pending i rid from_reconcile (Some e).

(** The checks of an abort: a rejection must be proved by a newer document. *)
Definition validate_rejection (i : DidIdentity) (r : IdentityRecord) (p : PendingRevisionRecord)
    (observation : AdoptVerifiedDocumentSpec) : DidResult unit :=
  let doc := avd_document observation in
  let e := avd_evidence observation in
  do? rguard (negb (bool_decide (pr_state p = PublicationState.PublicationUncertain)))
             InvalidPublicationState;
  do? validate_verified_document doc e;
  do? rguard (negb (bool_decide (get_str doc "id" = Some (did (di_record i))))) InvalidIdentity;
  let? fingerprint := method_root_fingerprint doc in
  do? rguard (negb (bool_decide (fingerprint = root_key_fingerprint r))) RootKeyMismatch;
  do? validate_checkpoint_progression (checkpoint r) e;
  do? match local_authorization r with
      | Some local => local_authorization_matches r doc local
      | None => match local_request_signing_kid r with
                | Some k => request_signing_authorization_matches r doc k
                | None => Ok tt
                end
      end;
  let? base := ok_or (checkpoint r) Conflict in
  rguard ((ev_document_version e =? document_version base)%N
          && (ev_registry_version e =? registry_version base)%N) Conflict.

(** The journaled part of [abort_update_inner]. *)
Definition abort_transaction (rt : StoreRuntime) (guard : StoreWriteGuard)
    (failure : option LifecycleFailurePoint.t) (r : IdentityRecord) (p : PendingRevisionRecord)
    : M IdentityRecord :=
  let root := rt_root rt in
  let fail_at := maybe_fail LIFECYCLE_FAILURE failure in
  let! at_ := now in
  do! write_update_journal root guard
        (new_update_journal (revision_id p) (identity_id r) (pending_secret_refs p)
           UpdateJournalKind.Cleanup at_);
  do! fail_at LifecycleFailurePoint.CleanupJournalPersisted;
  let! r := persist_record rt guard (set_pending_revision None r) in
  do! fail_at LifecycleFailurePoint.PendingIdentityCleared;
  do! for_each (delete_secret guard rt) (pending_secret_refs p);
  do! fail_at LifecycleFailurePoint.PendingSecretsDeleted;
  do! remove_update_journal root guard (revision_id p);
  ret r.

(** [DidIdentity::abort_update_inner]. *)
Definition abort_update_inner (i : DidIdentity) (rid : string)
    (failure : option LifecycleFailurePoint.t) (rejection : option AdoptVerifiedDocumentSpec)
    : M DidIdentity :=
  let rt := di_runtime i in
  let! guard := acquire_write rt in
  let! r := current_record_for_mutation i in
  let! p := lift (required_pending r rid) in
  do! match rejection with
      | Some observation => lift (validate_rejection i r p observation)
      | None => sguard (negb (bool_decide (pr_state p = PublicationState.Prepared)))
                       InvalidPublicationState
      end;
  let! r := abort_transaction rt guard failure r p in
  ret (with_record i r).

Definition abort_update (i : DidIdentity) (rid : string) := abort_update_inner i rid None None.
Definition reconcile_rejected_update (i : DidIdentity) (rid : string)
    (observation : AdoptVerifiedDocumentSpec) := abort_update_inner i rid None (Some observation).

(** [DidIdentity::reconcile_update]. *)
Definition reconcile_update (i : DidIdentity) (rid : string) (observed : Value)
    : M (DidIdentity * ReconcileOutcome.t) :=
  let! p := lift (required_pending (di_record i) rid) in
  do! sguard (negb (bool_decide (pr_state p = PublicationState.PublicationUncertain)))
             InvalidPublicationState;
  do! sguard (negb (bool_decide (get_str observed "id" = Some (did (di_record i))))
              || negb (is_ok (validate_method_document observed))) InvalidIdentity;
  let! dg := lift (canonical_digest observed) in
  if bool_decide (dg = candidate_digest p) then
    let! i := commit_pending i rid true None in ret (i, ReconcileOutcome.Committed)
  else
    let! old := lift (canonical_digest (document (di_record i))) in
    if bool_decide (dg = old) then
      let! profile := lift (for_did (did (di_record i))) in
      if bool_decide (profile = DidProfile.Web) then ret (i, ReconcileOutcome.RemoteOld)
      else let! i := transition_publication i rid PublicationState.PublicationUncertain
                       PublicationState.Prepared in
           ret (i, ReconcileOutcome.RemoteOld)
    else fail Conflict.

(** [DidIdentity::end_retirement]. *)
Definition end_retirement (i : DidIdentity) (k : string) : M DidIdentity :=
  let rt := di_runtime i in
  let! k := lift (canonicalize_kid (did (di_record i)) k) in
  let! guard := acquire_write rt in
  let! r := current_record_for_mutation i in
  do! lift (reject_uncertain_mutation r);
  let! m := lift (ok_or (find_key k (keys r)) KeyNotFound) in
  do! sguard (is_role (role m) KeyRole.RootControl) UnsupportedOperation;
  do! sguard (negb (bool_decide (key_state m = KeyState.Retired))) KeyNotUsable;
  let! r := persist_record rt guard
              (set_keys (edit_key k (set_key_state KeyState.Revoked) (keys r)) r) in
  ret (with_record i r).

(** [DidIdentity::delete_revoked_key]. *)
Definition delete_revoked_key (i : DidIdentity) (k : string) : M DidIdentity :=
  let rt := di_runtime i in
  let! k := lift (canonicalize_kid (did (di_record i)) k) in
  let! guard := acquire_write rt in
  let! r := current_record_for_mutation i in
  do! lift (reject_uncertain_mutation r);
  let! m := lift (ok_or (find_key k (keys r)) KeyNotFound) in
  do! sguard (bool_decide (origin m = KeyOrigin.External)) ExternalKeyOperation;
  do! sguard (is_role (role m) KeyRole.RootControl) UnsupportedOperation;
  do! sguard (negb (bool_decide (key_state m = KeyState.Revoked))) KeyNotUsable;
  do! sguard (material_erased m) KeyMaterialErased;
  do! delete_secret guard rt (ref_of_key (identity_id (di_record i)) m);
  let! r := persist_record rt guard (set_keys (edit_key k (set_material_erased true) (keys r)) r) in
  ret (with_record i r).
End Lifecycle.
