(* ===== verification/CryptoOps.v ===== *)
(** * Signing and key agreement (crypto_ops.rs)

    Every operation reads the stored record again before it opens a secret, so a
    handle that is behind the store, or an identity that is no longer active,
    uses no key.  No operation writes. *)

From stdpp Require Import base strings list gmap.
From S2P Require Import Prelude Json Errors Records Env Input World Document Keystore Registry.
From S2P Require Import Recovery Identity Adoption.
From Stdlib Require Import Ascii.

(** [bytes.iter().all(|byte| *byte == 0)]. *)
Definition all_zero (s : string) : bool := all_bytes (λ a, bool_decide (a = "000"%char)) s.

Definition require_active (m : KeyMetadata) : DidResult unit :=
  rguard (negb (bool_decide (key_state m = KeyState.Active))) KeyNotUsable.

(** A managed key that is waiting for its activation and still has its secret. *)
Definition pending_managed (m : KeyMetadata) (r : KeyRole.t) : bool :=
  is_role (role m) r && bool_decide (origin m = KeyOrigin.Managed)
  && bool_decide (key_state m = KeyState.Pending) && negb (material_erased m).

Section CryptoOps.
Context `{Env}.

(** [find_verification_method] and [extract_public_key] of the handle's document. *)
Definition document_public_key (document : Value) (k : string) : DidResult PublicKeyMaterial :=
  let? method := ok_or (find_verification_method document k) InvalidIdentity in
  ok_or (extract_public_key method) InvalidPublicKey.

(** [ed25519_signing_key] followed by [sign]. *)
Definition ed25519_signature (secret message : string) : DidResult string :=
  do? rguard (negb (bool_decide (String.length secret = 32))) InvalidIdentity;
  Ok (ed25519_sign secret message).

(** [DidIdentity::sign_prepared]. *)
Definition sign_prepared (i : DidIdentity) (m : KeyMetadata) (message : string) : M string :=
  let! secret := load_managed_secret i m in
  lift (ed25519_signature secret message).

(** [x25519_private_key], [diffie_hellman] and the check of the result. *)
Definition shared_secret (secret peer : string) : DidResult string :=
  do? rguard (negb (bool_decide (String.length secret = 32))) InvalidIdentity;
  let shared := x25519_dh secret peer in
  do? rguard (all_zero shared) InvalidPeerKey;
  Ok shared.

(** The peer's key as 32 bytes, the secret, and the shared secret. *)
Definition agree (i : DidIdentity) (m : KeyMetadata) (peer : string) : M string :=
  do! sguard (negb (bool_decide (String.length peer = 32))) InvalidPeerKey;
  let! secret := load_managed_secret i m in
  lift (shared_secret secret peer).

(** The record of the store, at the generation of the handle. *)
Definition current_record (i : DidIdentity) : M IdentityRecord :=
  let! r := read_identity (identity_id (di_record i)) in
  do! sguard (negb (bool_decide (generation r = generation (di_record i)))) Conflict;
  ret r.

Definition require_operational (i : DidIdentity) : M unit :=
  let! r := current_record i in
  sguard (negb (bool_decide (state r = IdentityState.Active))) KeyNotUsable.

Definition current_pending_enrollment (i : DidIdentity) (eid : string) : M IdentityRecord :=
  let! r := current_record i in
  do! sguard (negb (bool_decide (state r = IdentityState.Enrolling))
              || negb (option_test (λ p, bool_decide (pe_enrollment_id p = eid))
                         (pending_enrollment r))) KeyNotUsable;
  ret r.

(** An active managed key of one of the given roles. *)
Definition usable_key (i : DidIdentity) (k : string) (roles : list KeyRole.t) : M KeyMetadata :=
  do! require_operational i;
  let! m := lift (managed_key_metadata i k) in
  do! lift (require_active m);
  do! sguard (negb (existsb (is_role (role m)) roles)) KeyRoleViolation;
  ret m.

Definition request_signing_metadata (i : DidIdentity) (k : string) : M KeyMetadata :=
  usable_key i k [KeyRole.DeviceSigning; KeyRole.RequestSigning].
Definition device_signing_metadata (i : DidIdentity) (k : string) : M KeyMetadata :=
  usable_key i k [KeyRole.DeviceSigning].

(** [DidIdentity::sign]. *)
Definition sign (i : DidIdentity) (k message : string) : M string :=
  let! m := usable_key i k [KeyRole.DeviceSigning; KeyRole.RequestSigning; KeyRole.E2eeSigning] in
  sign_prepared i m message.

(** [DidIdentity::sign_device_assertion]. *)
Definition sign_device_assertion (i : DidIdentity) (k message : string) : M string :=
  let! m := usable_key i k [KeyRole.DeviceSigning] in
  sign_prepared i m message.

(** [DidIdentity::ecdh]. *)
Definition ecdh (i : DidIdentity) (k peer : string) : M string :=
  let! m := usable_key i k [KeyRole.E2eeAgreement] in
  agree i m peer.

(** [DidIdentity::verify]. *)
Definition verify (i : DidIdentity) (k message signature : string) : DidResult unit :=
  let? m := identity_key_metadata i k in
  do? rguard (bool_decide (key_state m = KeyState.Revoked)) KeyNotUsable;
  do? rguard (is_role (role m) KeyRole.E2eeAgreement) KeyRoleViolation;
  let? public := document_public_key (document (di_record i)) (kid m) in
  rguard (negb (verify_message public message signature)) VerificationFailed.

(** The common end of the two object proofs. *)
Definition object_proof (i : DidIdentity) (m : KeyMetadata) (value : Value) (issuer : string)
    (created : option string) : M Value :=
  let! public := lift (document_public_key (document (di_record i)) (kid m)) in
  let! prepared := lift (ok_or (prepare_object_proof value public (kid m) issuer created) Crypto) in
  let! signature := sign_prepared i m (signing_input prepared) in
  lift (ok_or (complete_object_proof prepared signature) Crypto).

Definition sign_object_proof (i : DidIdentity) (k : string) (value : Value) (issuer : string)
    (created : option string) : M Value :=
  let! m := device_signing_metadata i k in
  object_proof i m value issuer created.

Definition sign_pending_root_object_proof (i : DidIdentity) (k : string) (value : Value)
    (issuer : string) (created : option string) : M Value :=
  let! r := current_record i in
  do! sguard (negb (bool_decide (state r = IdentityState.Active))
              || negb (bool_decide (root_capability r = RootCapabilityState.Pending))
              || negb (bool_decide (is_Some (pending_root_transfer r)))) RootCapabilityUnavailable;
  let! k := lift (canonicalize_kid (did r) k) in
  let! m := lift (ok_or (find_key k (keys r)) KeyNotFound) in
  do! sguard (negb (pending_managed m KeyRole.RootControl)) RootCapabilityUnavailable;
  object_proof i m value issuer created.

(** The local key of a pending enrollment that is selected by [select]. *)
Definition enrollment_key (i : DidIdentity) (eid k : string)
    (select : LocalAuthorizationRecord → string) (r : KeyRole.t) : M KeyMetadata :=
  let! current := current_pending_enrollment i eid in
  let! local := lift (ok_or (local_authorization current) InvalidIdentity) in
  let! k := lift (canonicalize_kid (did current) k) in
  do! sguard (negb (bool_decide (k = select local))) KeyRoleViolation;
  let! m := lift (ok_or (find_key k (keys current)) KeyNotFound) in
  do! sguard (negb (pending_managed m r)) KeyNotUsable;
  ret m.

Definition sign_pending_enrollment (i : DidIdentity) (eid k message : string) : M string :=
  let! m := enrollment_key i eid k signing_kid KeyRole.DeviceSigning in
  sign_prepared i m message.
Definition ecdh_pending_enrollment (i : DidIdentity) (eid k peer : string) : M string :=
  let! m := enrollment_key i eid k e2ee_kid KeyRole.E2eeAgreement in
  agree i m peer.

Definition sign_document_proof (i : DidIdentity) (value : Value) (k : string)
    (options : ProofGenerationOptions) : M Value :=
  do! require_operational i;
  do! sguard (negb (bool_decide (root_capability (di_record i) = RootCapabilityState.Active)))
             RootCapabilityUnavailable;
  let! m := lift (managed_key_metadata i k) in
  do! lift (require_active m);
  do! sguard (negb (is_role (role m) KeyRole.RootControl)) KeyRoleViolation;
  let! public := lift (document_public_key (document (di_record i)) (kid m)) in
  let! prepared := lift (ok_or (prepare_w3c_proof value public (kid m) options) Crypto) in
  let! signature := sign_prepared i m (signing_input prepared) in
  lift (ok_or (complete_w3c_proof prepared signature) Crypto).

Definition sign_origin_proof (i : DidIdentity) (method : string) (meta body : Value) (k : string)
    (options : Rfc9421OriginProofGenerationOptions) : M Rfc9421OriginProof :=
  let! m := request_signing_metadata i k in
  let! public := lift (document_public_key (document (di_record i)) (kid m)) in
  let! prepared := lift (ok_or (prepare_rfc9421_origin_proof method meta body public (kid m)
                                  options) Crypto) in
  let! signature := sign_prepared i m (origin_signing_input prepared) in
  lift (ok_or (complete_rfc9421_origin_proof prepared signature) Crypto).

Definition legacy_did_wba_header (i : DidIdentity) (k service_domain version : string)
    : M string :=
  let! p := lift (for_did (did (di_record i))) in
  do! sguard (negb (bool_decide (p = DidProfile.E1))) UnsupportedOperation;
  let! m := request_signing_metadata i k in
  let! prepared := lift (ok_or (prepare_legacy_did_wba_auth_header (document (di_record i))
                                  service_domain version (kid m)) InvalidIdentity) in
  let! signature := sign_prepared i m (header_signing_input prepared) in
  lift (ok_or (complete_legacy_did_wba_auth_header prepared signature) Crypto).

(** [options.keyid = Some(metadata.kid)]. *)
Definition with_keyid (k : string) (o : HttpSignatureOptions) : HttpSignatureOptions :=
  {| hso_keyid := Some k; hso_nonce := hso_nonce o; hso_created := hso_created o;
     hso_expires := hso_expires o; hso_covered_components := hso_covered_components o |}.

Definition http_signature_headers_with_options (i : DidIdentity) (k url method : string)
    (headers : option (list (string * string))) (body : option string)
    (options : HttpSignatureOptions) : M (list (string * string)) :=
  let! m := request_signing_metadata i k in
  let! prepared := lift (ok_or (prepare_http_signature_headers (document (di_record i)) url method
                                  headers body (with_keyid (kid m) options)) InvalidIdentity) in
  let! signature := sign_prepared i m (header_signing_input prepared) in
  lift (ok_or (complete_http_signature_headers prepared signature) Crypto).

(** [DidIdentity::http_signature_headers]: the default options. *)
Definition http_signature_headers (i : DidIdentity) (k url method : string)
    (headers : option (list (string * string))) (body : option string)
    : M (list (string * string)) :=
  http_signature_headers_with_options i k url method headers body
    {| hso_keyid := None; hso_nonce := None; hso_created := None; hso_expires := None;
       hso_covered_components := None |}.

(** [DidIdentity::public_key_bytes]. *)
Definition public_key_bytes (i : DidIdentity) (k : string) : DidResult string :=
  let? m := identity_key_metadata i k in
  let? public := document_public_key (document (di_record i)) (kid m) in
  match public with
  | Ed25519 key | X25519 key => Ok key
  | OtherKey _ _ => Err InvalidPublicKey
  end.
End CryptoOps.
