(* ===== verification/KeyImport.v ===== *)
(** * Import of existing identities (key_import.rs)

    An identity whose private keys exist elsewhere is imported under a creation
    journal, after every key was checked against the verified document. *)

From stdpp Require Import base strings list gmap.
From S2P Require Import Prelude Json Errors Records Env Input World Document Keystore Registry.
From S2P Require Import Recovery Identity Adoption.

Module PrivateKeyEncoding.
Inductive t := Raw32 | Pkcs8Der.
#[global] Instance eq_dec : EqDecision t.
Proof. solve_decision. Defined.
End PrivateKeyEncoding.

Record ImportedPrivateKey := {
  ipk_kid : string;
  ipk_role : KeyRole.t;
  ipk_encoding : PrivateKeyEncoding.t;
  ipk_secret : string }.

Record IdentityImportSpec := {
  ii_verified_document : Value;
  ii_evidence : VerifiedDocumentEvidence;
  ii_capabilities : Capabilities;
  ii_private_keys : list ImportedPrivateKey }.

Record RequestSigningIdentityImportSpec := {
  rsi_verified_document : Value;
  rsi_evidence : VerifiedDocumentEvidence;
  rsi_capabilities : Capabilities;
  rsi_private_key : ImportedPrivateKey }.

Record DeviceIdentityImportSpec := {
  dii_verified_document : Value;
  dii_evidence : VerifiedDocumentEvidence;
  dii_capabilities : Capabilities;
  dii_signing_key : ImportedPrivateKey;
  dii_e2ee_key : ImportedPrivateKey }.

Record PreparedImportedKey := {
  pik_kid : string;
  pik_role : KeyRole.t;
  pik_raw : string;
  pik_public : PublicKeyMaterial }.

Section KeyImport.
Context `{Env}.

(** [PrivateKeyMaterial::public_key]. *)
Definition material_public (m : PrivateKeyMaterial) : PublicKeyMaterial :=
  match m with
  | Ed25519Private raw => Ed25519 (ed25519_public raw)
  | X25519Private raw => X25519 (x25519_public raw)
  | OtherPrivate kind => other_public kind
  end.

Definition parse_private_key (r : KeyRole.t) (encoding : PrivateKeyEncoding.t) (secret : string)
    : DidResult PrivateKeyMaterial :=
  let? material :=
    match encoding with
    | PrivateKeyEncoding.Raw32 =>
        do? rguard (negb (bool_decide (String.length secret = 32))) InvalidIdentity;
        Ok match r with
           | KeyRole.E2eeAgreement => X25519Private secret
           | _ => Ed25519Private secret
           end
    | PrivateKeyEncoding.Pkcs8Der => ok_or (from_pkcs8_der secret) InvalidIdentity
    end in
  match r, material with
  | KeyRole.E2eeAgreement, X25519Private _ => Ok material
  | KeyRole.E2eeAgreement, _ => Err KeyRoleViolation
  | _, Ed25519Private _ => Ok material
  | _, _ => Err KeyRoleViolation
  end.

Definition raw_private_key (material : PrivateKeyMaterial) (r : KeyRole.t) : DidResult string :=
  match r, material with
  | KeyRole.E2eeAgreement, X25519Private raw => Ok raw
  | KeyRole.E2eeAgreement, _ => Err KeyRoleViolation
  | _, Ed25519Private raw => Ok raw
  | _, _ => Err KeyRoleViolation
  end.

(** One step of the loop of [prepare_imported_keys]. *)
Definition prepare_imported_key (d : string) (document : Value) (output : list PreparedImportedKey)
    (key : ImportedPrivateKey) : DidResult (list PreparedImportedKey) :=
  let? k := canonicalize_kid d (ipk_kid key) in
  do? rguard (existsb (λ e, bool_decide (pik_kid e = k)) output) DuplicateKid;
  let? material := parse_private_key (ipk_role key) (ipk_encoding key) (ipk_secret key) in
  let public := material_public material in
  let? method := ok_or (find_verification_method document k) KeyNotFound in
  let? expected := ok_or (extract_public_key method) InvalidPublicKey in
  do? rguard (negb (public_keys_equal public expected)) InvalidPublicKey;
  let? raw := raw_private_key material (ipk_role key) in
  Ok (output ++ [{| pik_kid := k; pik_role := ipk_role key; pik_raw := raw; pik_public := public |}]).

Definition prepare_imported_keys (d : string) (document : Value) (l : list ImportedPrivateKey)
    : DidResult (list PreparedImportedKey) :=
  do? rguard (bool_decide (length l = 0)) KeyNotFound;
  fold_result (prepare_imported_key d document) l [].

Definition validate_imported_roles (document : Value) (c : Capabilities)
    (l : list PreparedImportedKey) : DidResult unit :=
  let? root := ok_or (proof_method document) InvalidIdentity in
  do? match List.filter (λ k, is_role (pik_role k) KeyRole.RootControl) l with
      | [k] => rguard (negb (bool_decide (pik_kid k = root))) InvalidManagedRootCount
      | _ => Err InvalidManagedRootCount
      end;
  rguard (did_wba c && negb (existsb (λ k, is_role (pik_role k) KeyRole.DeviceSigning
                                           || is_role (pik_role k) KeyRole.RequestSigning) l))
         MissingManagedRequestSigning.

Definition root_key_fingerprint_from_import (l : list PreparedImportedKey) : DidResult string :=
  let? root := ok_or (List.find (λ k, is_role (pik_role k) KeyRole.RootControl) l)
                 InvalidManagedRootCount in
  let? multibase := public_key_multibase_of (pik_public root) in
  fingerprint_of_document (json_object
    [("proof", json_object [("verificationMethod", Str (pik_kid root))]);
     ("verificationMethod",
       Array [json_object [("id", Str (pik_kid root)); ("type", Str "Multikey");
                           ("publicKeyMultibase", Str multibase)]])]).

(** A prepared key as the sealing loop uses it; its public key is [pik_public]. *)
Definition as_managed (k : PreparedImportedKey) : ManagedPrivateKey :=
  {| mpk_fragment := pik_kid k; mpk_role := pik_role k; mpk_bytes := pik_raw k |}.

(** The keys to seal, each with its reference at version 1. *)
Definition import_refs (iid : string) (l : list PreparedImportedKey)
    : list (ManagedPrivateKey * SecretRef) :=
  map (λ k, (as_managed k, new_ref iid (pik_kid k) (pik_role k))) l.

Definition import_metadata (document : Value) (at_ : string) (l : list PreparedImportedKey)
    : DidResult (list KeyMetadata) :=
  map_result (λ k, key_metadata document (pik_kid k) (pik_role k) KeyOrigin.Managed at_) l.

(** The record of an imported identity that holds its root key. *)
Definition identity_import_record (spec : IdentityImportSpec) (d iid at_ : string)
    (l : list PreparedImportedKey) : DidResult (IdentityRecord * unit) :=
  let document := ii_verified_document spec in
  let? metadata := import_metadata document at_ l in
  let? local := infer_local_authorization document metadata in
  let? fingerprint := root_key_fingerprint_from_import l in
  Ok (set_state IdentityState.Active (new_identity_record
        {| ni_identity_id := iid; ni_did := d; ni_document := document; ni_keys := metadata;
           ni_capabilities := ii_capabilities spec;
           ni_root_capability := RootCapabilityState.Active;
           ni_root_key_fingerprint := Some fingerprint;
           ni_checkpoint := checkpoint_of (ii_evidence spec);
           ni_local_authorization := local; ni_created_at := at_ |}), tt).

(** The checks of the registry, shared by the three imports. *)
Definition open_import (s : DidStore) (d : string) : M (StoreWriteGuard * IdentityRegistry) :=
  let! guard := acquire_write (ds_runtime s) in
  let! registry := read_registry in
  do! sguard (negb (bool_decide (reg_generation registry = registry_generation s))) Conflict;
  do! sguard (bool_decide (is_Some (identities registry !! d))) DuplicateIdentity;
  ret (guard, registry).

(** [DidStore::import_identity_with_id]. *)
Definition import_identity_with_id (s : DidStore) (spec : IdentityImportSpec) (iid : string)
    : M (DidStore * DidIdentity * unit) :=
  let document := ii_verified_document spec in
  do! lift (validate_verified_document document (ii_evidence spec));
  let! d := lift (ok_or (get_str document "id") InvalidIdentity) in
  let! imported := lift (prepare_imported_keys d document (ii_private_keys spec)) in
  do! lift (validate_imported_roles document (ii_capabilities spec) imported);
  let! opened := open_import s d in
  let! tid := random_id in
  let! at_ := now in
  enroll_transaction (ds_runtime s) opened.1 opened.2 tid iid d at_ (import_refs iid imported)
    (identity_import_record spec d iid at_ imported).

(** [DidStore::import_identity]. *)
Definition import_identity (s : DidStore) (spec : IdentityImportSpec)
    : M (DidStore * DidIdentity * unit) :=
  let! iid := random_id in
  import_identity_with_id s spec iid.

(** The record of an imported device without the root key. *)
Definition device_import_record (spec : DeviceIdentityImportSpec) (d iid root at_ : string)
    (l : list PreparedImportedKey) : DidResult (IdentityRecord * unit) :=
  let document := dii_verified_document spec in
  let? root_metadata := key_metadata document root KeyRole.RootControl KeyOrigin.External at_ in
  let? metadata := import_metadata document at_ l in
  let? inferred := infer_local_authorization document (root_metadata :: metadata) in
  let? local := ok_or inferred InvalidIdentity in
  let? fingerprint := fingerprint_of_document document in
  Ok (set_state IdentityState.Active (new_identity_record
        {| ni_identity_id := iid; ni_did := d; ni_document := document;
           ni_keys := root_metadata :: metadata; ni_capabilities := dii_capabilities spec;
           ni_root_capability := RootCapabilityState.Absent;
           ni_root_key_fingerprint := Some fingerprint;
           ni_checkpoint := checkpoint_of (dii_evidence spec);
           ni_local_authorization := Some local; ni_created_at := at_ |}), tt).

(** [DidStore::import_device_identity]. *)
Definition import_device_identity (s : DidStore) (spec : DeviceIdentityImportSpec)
    : M (DidStore * DidIdentity * unit) :=
  let document := dii_verified_document spec in
  do! lift (validate_verified_document document (dii_evidence spec));
  let! d := lift (ok_or (get_str document "id") InvalidIdentity) in
  let! imported := lift (prepare_imported_keys d document
                           [dii_signing_key spec; dii_e2ee_key spec]) in
  let! signing := lift (ok_or (List.find (λ k, is_role (pik_role k) KeyRole.DeviceSigning) imported)
                          KeyRoleViolation) in
  let! e2ee := lift (ok_or (List.find (λ k, is_role (pik_role k) KeyRole.E2eeAgreement) imported)
                       KeyRoleViolation) in
  do! sguard (negb (bool_decide (length imported = 2)) || bool_decide (pik_kid signing = pik_kid e2ee)
              || negb (is_authentication_authorized document (pik_kid signing))
              || negb (is_assertion_method_authorized document (pik_kid signing))) KeyRoleViolation;
  let! root := lift (ok_or (proof_method document) InvalidIdentity) in
  let! opened := open_import s d in
  let! iid := random_id in
  let! tid := random_id in
  let! at_ := now in
  enroll_transaction (ds_runtime s) opened.1 opened.2 tid iid d at_ (import_refs iid imported)
    (device_import_record spec d iid root at_ imported).

(** The record of an imported request signer. *)
Definition request_import_record (spec : RequestSigningIdentityImportSpec) (d iid root at_ : string)
    (request : PreparedImportedKey) : DidResult (IdentityRecord * unit) :=
  let document := rsi_verified_document spec in
  let? root_metadata := key_metadata document root KeyRole.RootControl KeyOrigin.External at_ in
  let? request_metadata := key_metadata document (pik_kid request) KeyRole.RequestSigning
                             KeyOrigin.Managed at_ in
  let? fingerprint := fingerprint_of_document document in
  Ok (set_local_request_signing_kid (Some (pik_kid request))
        (set_state IdentityState.Active (new_identity_record
          {| ni_identity_id := iid; ni_did := d; ni_document := document;
             ni_keys := [root_metadata; request_metadata]; ni_capabilities := rsi_capabilities spec;
             ni_root_capability := RootCapabilityState.Absent;
             ni_root_key_fingerprint := Some fingerprint;
             ni_checkpoint := checkpoint_of (rsi_evidence spec);
             ni_local_authorization := None; ni_created_at := at_ |})), tt).

(** [DidStore::import_request_signing_identity]. *)
Definition import_request_signing_identity (s : DidStore) (spec : RequestSigningIdentityImportSpec)
    : M (DidStore * DidIdentity * unit) :=
  let document := rsi_verified_document spec in
  do! lift (validate_verified_document document (rsi_evidence spec));
  let! d := lift (ok_or (get_str document "id") InvalidIdentity) in
  let! imported := lift (prepare_imported_keys d document [rsi_private_key spec]) in
  let! request := lift (ok_or (last imported) KeyNotFound) in
  do! sguard (negb (is_role (pik_role request) KeyRole.RequestSigning)
              || negb (is_authentication_authorized document (pik_kid request))
              || is_assertion_method_authorized document (pik_kid request)) KeyRoleViolation;
  let! root := lift (ok_or (proof_method document) InvalidIdentity) in
  let! opened := open_import s d in
  let! iid := random_id in
  let! tid := random_id in
  let! at_ := now in
  enroll_transaction (ds_runtime s) opened.1 opened.2 tid iid d at_ (import_refs iid [request])
    (request_import_record spec d iid root at_ request).
End KeyImport.
