(* ===== verification/RootTransfer.v ===== *)
(** * Transfer of the root key between devices (root_transfer.rs)

    A device that holds the active root key wraps it for the agreement key of
    another device of the same identity; the recipient unwraps it, seals it under
    a root-import journal and keeps it [Pending] until a verified document
    confirms the promotion.  Replays are remembered in a bounded list. *)

From stdpp Require Import base strings list gmap.
From S2P Require Import Prelude Json Errors Records Env Input World Document Keystore Registry.
From S2P Require Import Recovery Identity Adoption CryptoOps KeyImport.

Definition WRAPPED_ROOT_ENVELOPE_TYPE : string := "anp.identity.root-transfer.wrapped".
Definition WRAPPED_ROOT_ENVELOPE_VERSION : N := 1.
Definition MAX_TTL_SECONDS : Z := 600.
Definition CLOCK_SKEW_SECONDS : Z := 120.
Definition NONCE_LEN : nat := 12.
Definition MAX_REPLAY_RECORDS : nat := 256.
Definition KDF_SALT_LABEL : string := "anp-identity:root-transfer:salt:v1" +:+ bytes [0].
Definition KDF_INFO_LABEL : string := "anp-identity:root-transfer:aead:v1" +:+ bytes [0].
Definition SIGNATURE_LABEL : string := "anp-identity:root-transfer:signature:v1" +:+ bytes [0].

(** Instants are in nanoseconds. *)
Definition NANOS : Z := 1000000000.

Record RootTransferContext := {
  rtc_source_did : string;
  rtc_target_did : string;
  rtc_sender_device_id : string;
  rtc_recipient_device_id : string;
  rtc_recipient_agreement_kid : string;
  rtc_root_kid : string;
  rtc_checkpoint : DocumentCheckpoint;
  rtc_created_at : string;
  rtc_expires_at : string }.

Record WrappedRootEnvelope := {
  envelope_type : string;
  envelope_version : N;
  context : RootTransferContext;
  ephemeral_public_b64u : string;
  nonce_b64u : string;
  ciphertext_b64u : string;
  signature_b64u : string }.

Record RootTransferExportSpec := {
  rte_target_did : string;
  rte_sender_device_id : string;
  rte_recipient_device_id : string;
  rte_recipient_agreement_kid : string;
  rte_recipient_agreement_public : string;
  rte_root_kid : string;
  rte_ttl_seconds : N }.

Record RootPromotionSpec := {
  rps_document : Value;
  rps_evidence : VerifiedDocumentEvidence }.

Module RootTransferImportOutcome.
Inductive t := Pending | Active.
#[global] Instance eq_dec : EqDecision t.
Proof. solve_decision. Defined.
End RootTransferImportOutcome.

Record LegacyRootTransferEvidence := {
  lrt_transfer_id : string;
  lrt_source_did : string;
  lrt_target_did : string;
  lrt_sender_device_id : string;
  lrt_recipient_device_id : string;
  lrt_recipient_agreement_kid : string;
  lrt_root_kid : string;
  lrt_checkpoint : DocumentCheckpoint;
  lrt_accepted_at : string }.

Record LegacyRootTransferImportSpec := {
  lri_evidence : LegacyRootTransferEvidence;
  lri_encoding : PrivateKeyEncoding.t;
  lri_root_key : string }.

(** The derived [Serialize] implementations, as JSON values. *)
Definition checkpoint_value (c : DocumentCheckpoint) : Value :=
  json_object [("document_version", Number (PosInt (document_version c)));
               ("registry_version", Number (PosInt (registry_version c)));
               ("document_digest", Str (document_digest c))].

Definition context_value (c : RootTransferContext) : Value :=
  json_object
    [("source_did", Str (rtc_source_did c)); ("target_did", Str (rtc_target_did c));
     ("sender_device_id", Str (rtc_sender_device_id c));
     ("recipient_device_id", Str (rtc_recipient_device_id c));
     ("recipient_agreement_kid", Str (rtc_recipient_agreement_kid c));
     ("root_kid", Str (rtc_root_kid c)); ("checkpoint", checkpoint_value (rtc_checkpoint c));
     ("created_at", Str (rtc_created_at c)); ("expires_at", Str (rtc_expires_at c))].

Definition envelope_value (e : WrappedRootEnvelope) : Value :=
  json_object
    [("type", Str (envelope_type e)); ("version", Number (PosInt (envelope_version e)));
     ("context", context_value (context e));
     ("ephemeral_public_b64u", Str (ephemeral_public_b64u e));
     ("nonce_b64u", Str (nonce_b64u e)); ("ciphertext_b64u", Str (ciphertext_b64u e));
     ("signature_b64u", Str (signature_b64u e))].

Definition legacy_evidence_value (e : LegacyRootTransferEvidence) : Value :=
  json_object
    [("transfer_id", Str (lrt_transfer_id e)); ("source_did", Str (lrt_source_did e));
     ("target_did", Str (lrt_target_did e));
     ("sender_device_id", Str (lrt_sender_device_id e));
     ("recipient_device_id", Str (lrt_recipient_device_id e));
     ("recipient_agreement_kid", Str (lrt_recipient_agreement_kid e));
     ("root_kid", Str (lrt_root_kid e)); ("checkpoint", checkpoint_value (lrt_checkpoint e));
     ("accepted_at", Str (lrt_accepted_at e))].

(** [push_replay]: the list keeps its last [MAX_REPLAY_RECORDS] entries. *)
Definition push_replay (nonce digest expires : string) (r : IdentityRecord) : IdentityRecord :=
  let l := root_transfer_replays r ++
           [{| replay_nonce := nonce; transfer_digest := digest; expires_at := expires |}] in
  set_root_transfer_replays
    (if MAX_REPLAY_RECORDS <? length l then drop (length l - MAX_REPLAY_RECORDS) l else l) r.

Definition root_checkpoint_progression (current : option DocumentCheckpoint)
    (next : VerifiedDocumentEvidence) : DidResult unit :=
  let? c := ok_or current InvalidIdentity in
  rguard ((ev_document_version next <? document_version c)%N
          || (ev_registry_version next <? registry_version c)%N
          || ((ev_document_version next =? document_version c)%N
              && negb (bool_decide (ev_document_digest next = document_digest c)))) Conflict.

(** [keys.iter().position(p)]. *)
Fixpoint position (p : KeyMetadata → bool) (l : list KeyMetadata) : option nat :=
  match l with
  | [] => None
  | k :: l => if p k then Some 0 else S <$> position p l
  end.

(** The outcome of a transfer that was already imported. *)
Definition replayed_outcome (c : RootCapabilityState.t) : DidResult RootTransferImportOutcome.t :=
  match c with
  | RootCapabilityState.Pending => Ok RootTransferImportOutcome.Pending
  | RootCapabilityState.Active => Ok RootTransferImportOutcome.Active
  | RootCapabilityState.Absent => Err InvalidIdentity
  end.

Section RootTransfer.
Context `{Env}.

Definition canonical (v : Value) : DidResult string :=
  ok_or (canonical_json v) (Serialization os_error).

Definition digest_serialized (v : Value) : DidResult string :=
  let? c := canonical v in
  Ok ("sha256:" +:+ b64url_encode (sha256 c))%string.

Definition decode_fixed (n : nat) (value : string) : DidResult string :=
  let? b := ok_or (b64url_decode value) InvalidRootTransfer in
  do? rguard (negb (bool_decide (String.length b = n))) InvalidRootTransfer;
  Ok b.

Definition parse_timestamp (value : string) : DidResult Z :=
  ok_or (parse_rfc3339 value) InvalidRootTransfer.

(** [num_seconds] of a duration truncates towards zero. *)
Definition validate_time_window (c : RootTransferContext) (now : Z) : DidResult unit :=
  let? created := parse_timestamp (rtc_created_at c) in
  let? expires := parse_timestamp (rtc_expires_at c) in
  let ttl := Z.quot (expires - created) NANOS in
  rguard ((ttl <=? 0)%Z || (MAX_TTL_SECONDS <? ttl)%Z
          || (now <? created - CLOCK_SKEW_SECONDS * NANOS)%Z
          || (expires + CLOCK_SKEW_SECONDS * NANOS <? now)%Z) RootTransferExpired.

Definition envelope_aad (c : RootTransferContext) (ephemeral_public nonce : string)
    : DidResult string :=
  canonical (json_object
    [("type", Str WRAPPED_ROOT_ENVELOPE_TYPE);
     ("version", Number (PosInt WRAPPED_ROOT_ENVELOPE_VERSION)); ("context", context_value c);
     ("ephemeral_public_b64u", Str (b64url_encode ephemeral_public));
     ("nonce_b64u", Str (b64url_encode nonce))]).

Definition envelope_signature_input (e : WrappedRootEnvelope) : DidResult string :=
  let? c := canonical (json_object
    [("type", Str (envelope_type e)); ("version", Number (PosInt (envelope_version e)));
     ("context", context_value (context e));
     ("ephemeral_public_b64u", Str (ephemeral_public_b64u e));
     ("nonce_b64u", Str (nonce_b64u e)); ("ciphertext_b64u", Str (ciphertext_b64u e))]) in
  Ok (SIGNATURE_LABEL +:+ c)%string.

Definition derive_transfer_key (shared aad : string) : DidResult string :=
  let salt := sha256 (KDF_SALT_LABEL +:+ aad)%string in
  ok_or (hkdf_sha256 salt shared (KDF_INFO_LABEL +:+ aad)%string) Crypto.

Definition verify_root_public (r : IdentityRecord) (k : string) (public : PublicKeyMaterial)
    : DidResult unit :=
  let? method := ok_or (find_verification_method (document r) k) KeyNotFound in
  let? expected := ok_or (extract_public_key method) InvalidPublicKey in
  if negb (public_keys_equal public expected) then Err InvalidPublicKey
  else
    let? fingerprint := fingerprint_of_document (document r) in
    rguard (negb (bool_decide (Some fingerprint = root_key_fingerprint r))) InvalidPublicKey.

Definition validate_wrapped_envelope (i : DidIdentity) (e : WrappedRootEnvelope) (now : Z)
    (allow_stale_checkpoint_for_known_replay : bool) : DidResult unit :=
  let c := context e in
  let d := did (di_record i) in
  do? rguard (negb (bool_decide (envelope_type e = WRAPPED_ROOT_ENVELOPE_TYPE))
              || negb (envelope_version e =? WRAPPED_ROOT_ENVELOPE_VERSION)%N
              || negb (bool_decide (rtc_source_did c = d))
              || negb (bool_decide (rtc_target_did c = d))
              || is_empty (trim (rtc_sender_device_id c))
              || is_empty (trim (rtc_recipient_device_id c))) InvalidRootTransfer;
  let? local := ok_or (local_authorization (di_record i)) InvalidRootTransfer in
  do? rguard (negb (bool_decide (device_id local = rtc_recipient_device_id c))
              || negb (bool_decide (e2ee_kid local = rtc_recipient_agreement_kid c))
              || (negb allow_stale_checkpoint_for_known_replay
                  && negb (bool_decide (checkpoint (di_record i) = Some (rtc_checkpoint c)))))
             InvalidRootTransfer;
  do? validate_time_window c now;
  let? root := identity_key_metadata i (rtc_root_kid c) in
  do? rguard (negb (is_role (role root) KeyRole.RootControl)) KeyRoleViolation;
  let? public := document_public_key (document (di_record i)) (kid root) in
  let? signature := ok_or (b64url_decode (signature_b64u e)) InvalidRootTransfer in
  let? input := envelope_signature_input e in
  rguard (negb (verify_message public input signature)) InvalidRootTransfer.

Definition validate_legacy_evidence (i : DidIdentity) (e : LegacyRootTransferEvidence)
    : DidResult unit :=
  let? local := ok_or (local_authorization (di_record i)) InvalidRootTransfer in
  do? rguard (is_empty (trim (lrt_transfer_id e))
              || negb (bool_decide (lrt_source_did e = did (di_record i)))
              || negb (bool_decide (lrt_target_did e = did (di_record i)))
              || is_empty (trim (lrt_sender_device_id e))
              || negb (bool_decide (lrt_recipient_device_id e = device_id local))
              || negb (bool_decide (lrt_recipient_agreement_kid e = e2ee_kid local))
              || negb (bool_decide (checkpoint (di_record i) = Some (lrt_checkpoint e)))
              || negb (is_some (parse_rfc3339 (lrt_accepted_at e)))) InvalidRootTransfer;
  let? root := identity_key_metadata i (lrt_root_kid e) in
  rguard (negb (is_role (role root) KeyRole.RootControl)) KeyRoleViolation.

(** The record of a root key that waits for its confirmation. *)
Definition imported_root_record (r : IdentityRecord) (index : nat) (k nonce digest expires at_ : string)
    : IdentityRecord :=
  push_replay nonce digest expires
    (set_pending_root_transfer
       (Some {| prt_transfer_digest := digest; prt_root_kid := k; imported_at := at_ |})
       (set_root_capability RootCapabilityState.Pending
          (set_keys (alter (λ m, set_key_state KeyState.Pending (set_origin KeyOrigin.Managed m))
                       index (keys r)) r))).

(** The journaled part of [commit_pending_root]. *)
Definition root_import_transaction (rt : StoreRuntime) (guard : StoreWriteGuard)
    (r : IdentityRecord) (index : nat) (root : KeyMetadata) (k raw : string)
    (public : PublicKeyMaterial) (nonce digest expires : string) : M IdentityRecord :=
  let secret_ref := {| sr_identity_id := identity_id r; sr_key_id := k;
                       sr_role := KeyRole.RootControl; sr_version := version root |} in
  let! tid := random_id in
  let! instant := utc_now in
  let at_ := rfc3339_secs instant in
  let journal := new_creation_journal CreationJournalKind.RootImport tid (identity_id r) (did r)
                   [secret_ref] at_ in
  do! write_journal (rt_root rt) guard journal;
  let! sealed := seal_if_absent guard rt secret_ref raw in
  do! (if bool_decide (sealed = SealIfAbsent.AlreadyExists)
       then verify_persisted_key rt secret_ref public else ret tt);
  publish_record rt guard tid (imported_root_record r index k nonce digest expires at_).

(** [DidIdentity::commit_pending_root]. *)
Definition commit_pending_root (i : DidIdentity) (k raw : string) (public : PublicKeyMaterial)
    (nonce digest expires : string) : M (DidIdentity * RootTransferImportOutcome.t) :=
  let rt := di_runtime i in
  let! guard := acquire_write rt in
  let! r := read_identity (identity_id (di_record i)) in
  do! sguard (negb (bool_decide (generation r = generation (di_record i)))
              || negb (bool_decide (state r = IdentityState.Active))) Conflict;
  do! sguard (bool_decide (is_Some (pending_revision r))) PendingRevisionExists;
  match List.find (λ x, bool_decide (replay_nonce x = nonce)) (root_transfer_replays r) with
  | Some replay =>
      do! sguard (negb (bool_decide (transfer_digest replay = digest))) InvalidRootTransfer;
      let! o := lift (replayed_outcome (root_capability r)) in
      ret (i, o)
  | None =>
  if bool_decide (root_capability r = RootCapabilityState.Active) then
    do! lift (verify_root_public r k public);
    let! r := persist_state_transition rt guard (push_replay nonce digest expires r) in
    ret ({| di_runtime := rt; di_record := r |}, RootTransferImportOutcome.Active)
  else
  match pending_root_transfer r with
  | Some pending =>
      do! sguard (negb (bool_decide (prt_transfer_digest pending = digest)))
                 PendingRootTransferExists;
      ret (i, RootTransferImportOutcome.Pending)
  | None =>
      do! sguard (negb (bool_decide (root_capability r = RootCapabilityState.Absent)))
                 RootCapabilityUnavailable;
      do! lift (verify_root_public r k public);
      let! index := lift (ok_or (position (λ m, is_role (role m) KeyRole.RootControl
                                                && bool_decide (kid m = k)) (keys r))
                            KeyNotFound) in
      let! root := lift (ok_or (keys r !! index) KeyNotFound) in
      let! r := root_import_transaction rt guard r index root k raw public nonce digest expires in
      ret ({| di_runtime := rt; di_record := r |}, RootTransferImportOutcome.Pending)
  end
  end.

(** [DidIdentity::import_wrapped_root_at]. *)
Definition import_wrapped_root_at (i : DidIdentity) (e : WrappedRootEnvelope) (now : Z)
    : M (DidIdentity * RootTransferImportOutcome.t) :=
  let c := context e in
  let! digest := lift (digest_serialized (envelope_value e)) in
  let known_replay := existsb (λ x, bool_decide (replay_nonce x = nonce_b64u e)
                                    && bool_decide (transfer_digest x = digest))
                        (root_transfer_replays (di_record i)) in
  do! lift (validate_wrapped_envelope i e now known_replay);
  let! ephemeral_public := lift (decode_fixed 32 (ephemeral_public_b64u e)) in
  let! nonce := lift (decode_fixed NONCE_LEN (nonce_b64u e)) in
  let! ciphertext := lift (ok_or (b64url_decode (ciphertext_b64u e)) InvalidRootTransfer) in
  let! agreement := lift (managed_key_metadata i (rtc_recipient_agreement_kid c)) in
  do! sguard (negb (is_role (role agreement) KeyRole.E2eeAgreement)
              || negb (bool_decide (key_state agreement = KeyState.Active))) KeyRoleViolation;
  let! agreement_secret := load_managed_secret i agreement in
  let! shared := lift (shared_secret agreement_secret ephemeral_public) in
  let! aad := lift (envelope_aad c ephemeral_public nonce) in
  let! key := lift (derive_transfer_key shared aad) in
  let! raw := lift (ok_or (aead_decrypt key nonce aad ciphertext) InvalidRootTransfer) in
  do! sguard (negb (bool_decide (String.length raw = 32))) InvalidRootTransfer;
  commit_pending_root i (rtc_root_kid c) raw (Ed25519 (ed25519_public raw)) (nonce_b64u e) digest
    (rtc_expires_at c).

(** [DidIdentity::import_wrapped_root]. *)
Definition import_wrapped_root (i : DidIdentity) (e : WrappedRootEnvelope)
    : M (DidIdentity * RootTransferImportOutcome.t) :=
  let! now := utc_now in
  import_wrapped_root_at i e now.

(** [DidIdentity::import_legacy_root_transfer]. *)
Definition import_legacy_root_transfer (i : DidIdentity) (spec : LegacyRootTransferImportSpec)
    : M (DidIdentity * RootTransferImportOutcome.t) :=
  let e := lri_evidence spec in
  do! lift (validate_legacy_evidence i e);
  let! material := lift (parse_private_key KeyRole.RootControl (lri_encoding spec)
                           (lri_root_key spec)) in
  let! raw := lift (raw_private_key material KeyRole.RootControl) in
  let! digest := lift (digest_serialized (legacy_evidence_value e)) in
  commit_pending_root i (lrt_root_kid e) raw (material_public material)
    ("legacy:" +:+ lrt_transfer_id e)%string digest (lrt_accepted_at e).

(** The promoted record. *)
Definition promoted_record (index : nat) (spec : RootPromotionSpec) (r : IdentityRecord)
    : IdentityRecord :=
  set_revision (ev_document_version (rps_evidence spec))
    (set_checkpoint (Some (checkpoint_of (rps_evidence spec)))
      (set_initial_publication_pending false
        (set_document (rps_document spec)
          (set_pending_root_transfer None
            (set_root_capability RootCapabilityState.Active
              (set_keys (alter (set_key_state KeyState.Active) index (keys r)) r)))))).

(** [DidIdentity::confirm_root_promotion]. *)
Definition confirm_root_promotion (i : DidIdentity) (spec : RootPromotionSpec) : M DidIdentity :=
  let rt := di_runtime i in
  let document := rps_document spec in
  do! lift (validate_verified_document document (rps_evidence spec));
  do! (if negb (bool_decide (get_str document "id" = Some (did (di_record i))))
       then fail InvalidRootTransfer
       else
         let! fingerprint := lift (fingerprint_of_document document) in
         sguard (negb (bool_decide (Some fingerprint = root_key_fingerprint (di_record i))))
                InvalidRootTransfer);
  let! guard := acquire_write rt in
  let! r := read_identity (identity_id (di_record i)) in
  do! sguard (negb (bool_decide (generation r = generation (di_record i)))) Conflict;
  if bool_decide (root_capability r = RootCapabilityState.Active)
     && negb (is_some (pending_root_transfer r))
  then ret i
  else
    do! sguard (negb (bool_decide (root_capability r = RootCapabilityState.Pending))
                || negb (is_some (pending_root_transfer r))) RootCapabilityUnavailable;
    do! lift (root_checkpoint_progression (checkpoint r) (rps_evidence spec));
    let! index := lift (ok_or (position (λ m, is_role (role m) KeyRole.RootControl
                                              && bool_decide (origin m = KeyOrigin.Managed))
                                 (keys r)) RootCapabilityUnavailable) in
    let! r := persist_state_transition rt guard (promoted_record index spec r) in
    ret {| di_runtime := rt; di_record := r |}.

(** [DidIdentity::export_root_private_key]: the PKCS#8 form of the root key. *)
Definition export_root_private_key (i : DidIdentity) (k : string) : M string :=
  do! sguard (negb (bool_decide (state (di_record i) = IdentityState.Active))
              || negb (bool_decide (root_capability (di_record i) = RootCapabilityState.Active)))
             RootCapabilityUnavailable;
  let! root := lift (managed_key_metadata i k) in
  do! sguard (negb (is_role (role root) KeyRole.RootControl)
              || negb (bool_decide (key_state root = KeyState.Active))) RootCapabilityUnavailable;
  let! secret := load_managed_secret i root in
  do! sguard (negb (bool_decide (String.length secret = 32))) InvalidIdentity;
  ret (ED25519_PKCS8_PREFIX +:+ secret)%string.

Definition validate_export_recipient (i : DidIdentity) (spec : RootTransferExportSpec)
    : DidResult unit :=
  let document := document (di_record i) in
  let k := rte_recipient_agreement_kid spec in
  let? canonical_kid := canonicalize_kid (did (di_record i)) k in
  do? rguard (negb (bool_decide (canonical_kid = k))) InvalidRootTransfer;
  do? rguard (option_test (λ local, negb (bool_decide (device_id local = rte_sender_device_id spec)))
                (local_authorization (di_record i))) InvalidRootTransfer;
  let? method := ok_or (find_verification_method document k) InvalidRootTransfer in
  let? expected := ok_or (extract_public_key method) InvalidPublicKey in
  do? rguard (negb (public_keys_equal expected (X25519 (rte_recipient_agreement_public spec)))
              || negb (relationship_contains document "keyAgreement" k)) InvalidRootTransfer;
  let? found := ok_or (validate_device_manifest document) InvalidRootTransfer in
  let? manifest := ok_or found InvalidRootTransfer in
  match List.filter (λ d, bool_decide (dme_device_id d = rte_recipient_device_id spec))
          (devices manifest) with
  | [d] => rguard (negb (bool_decide (dme_e2ee_key_id d = k))) InvalidRootTransfer
  | _ => Err InvalidRootTransfer
  end.

Definition with_signature (signature : string) (e : WrappedRootEnvelope) : WrappedRootEnvelope :=
  {| envelope_type := envelope_type e; envelope_version := envelope_version e;
     context := context e; ephemeral_public_b64u := ephemeral_public_b64u e;
     nonce_b64u := nonce_b64u e; ciphertext_b64u := ciphertext_b64u e;
     signature_b64u := signature |}.

(** [DidIdentity::export_wrapped_root_inner].  The sending side of a transfer is compiled in
    the tests only ([#[cfg(test)]]); in production it is another implementation of the same
    envelope format, and this one is the reference of what the receiving side accepts. *)
Definition export_wrapped_root_inner (i : DidIdentity) (spec : RootTransferExportSpec)
    (created : Z) (ephemeral nonce : string) : M WrappedRootEnvelope :=
  let d := did (di_record i) in
  do! sguard (negb (bool_decide (state (di_record i) = IdentityState.Active))
              || negb (bool_decide (root_capability (di_record i) = RootCapabilityState.Active))
              || (rte_ttl_seconds spec =? 0)%N
              || (MAX_TTL_SECONDS <? Z.of_N (rte_ttl_seconds spec))%Z
              || negb (bool_decide (rte_target_did spec = d))
              || is_empty (trim (rte_sender_device_id spec))
              || is_empty (trim (rte_recipient_device_id spec))) RootCapabilityUnavailable;
  let! root := lift (managed_key_metadata i (rte_root_kid spec)) in
  do! sguard (negb (is_role (role root) KeyRole.RootControl)
              || negb (bool_decide (key_state root = KeyState.Active))) RootCapabilityUnavailable;
  let! checkpoint := lift (ok_or (checkpoint (di_record i)) InvalidIdentity) in
  let c := {| rtc_source_did := d; rtc_target_did := rte_target_did spec;
              rtc_sender_device_id := rte_sender_device_id spec;
              rtc_recipient_device_id := rte_recipient_device_id spec;
              rtc_recipient_agreement_kid := rte_recipient_agreement_kid spec;
              rtc_root_kid := kid root; rtc_checkpoint := checkpoint;
              rtc_created_at := rfc3339_secs created;
              rtc_expires_at :=
                rfc3339_secs (created + Z.of_N (rte_ttl_seconds spec) * NANOS) |} in
  let ephemeral_public := x25519_public ephemeral in
  let shared := x25519_dh ephemeral (rte_recipient_agreement_public spec) in
  do! sguard (all_zero shared) InvalidPeerKey;
  do! lift (validate_export_recipient i spec);
  let! aad := lift (envelope_aad c ephemeral_public nonce) in
  let! key := lift (derive_transfer_key shared aad) in
  let! root_secret := load_managed_secret i root in
  let! ciphertext := lift (ok_or (aead_encrypt key nonce aad root_secret) Crypto) in
  let envelope := {| envelope_type := WRAPPED_ROOT_ENVELOPE_TYPE;
                     envelope_version := WRAPPED_ROOT_ENVELOPE_VERSION; context := c;
                     ephemeral_public_b64u := b64url_encode ephemeral_public;
                     nonce_b64u := b64url_encode nonce;
                     ciphertext_b64u := b64url_encode ciphertext;
                     signature_b64u := "" |} in
  let! input := lift (envelope_signature_input envelope) in
  let! signature := lift (ed25519_signature root_secret input) in
  ret (with_signature (b64url_encode signature) envelope).

(** [DidIdentity::export_wrapped_root]. *)
Definition export_wrapped_root (i : DidIdentity) (spec : RootTransferExportSpec)
    : M WrappedRootEnvelope :=
  let! created := utc_now in
  let! ephemeral := draw_key KeyRole.E2eeAgreement in
  let! nonce := draw_bytes NONCE_LEN in
  export_wrapped_root_inner i spec created ephemeral nonce.
End RootTransfer.
