(* ===== verification/IdentityFacts.v ===== *)
(** * Correctness of creation (identity.rs)

    What [build_identity] returns, and the crash safety of [create_identity]:
    whatever durable operation fails, the store recovers either to the disk
    before the call or to the disk of a completed creation. *)

From stdpp Require Import base strings list gmap sorting.
From S2P Require Import Prelude Json Errors Records Env Toy Input World Document Keystore Registry.
From S2P Require Import Recovery Identity.

(** ** Built documents *)

Section Built.
Context `{Env}.

Lemma get_index_set_ne v k k' x : k ≠ k' → get_str (index_set v k x) k' = get_str v k'.
Proof. intros Hne. destruct v; try done. unfold get_str. simpl. by rewrite map_get_insert_ne. Qed.

Lemma apply_extension_id d v e v' :
  apply_extension d v e = Ok v' → get_str v' "id" = get_str v "id".
Proof.
  destruct e as [entries]. unfold apply_extension. intros He.
  inv_run He. apply ok_or_Ok in Hstep. destruct v; try done. injection Hstep as <-.
  inv_run He. inv_run He. inv_run He. injection He as <-.
  unfold get_str. simpl. by rewrite map_get_insert_ne.
Qed.

Lemma apply_extensions_id l d v v' :
  apply_extensions v d l = Ok v' → get_str v' "id" = get_str v "id".
Proof.
  unfold apply_extensions. intros He. inv_run He. clear Hstep. revert v He.
  induction l as [|e l IH]; intros v He; simpl in He; [by injection He as ->|].
  inv_run He. rewrite (IH _ He). by eapply apply_extension_id.
Qed.

Lemma key_metadata_Ok doc k r o t m :
  key_metadata doc k r o t = Ok m →
  kid m = k ∧ role m = r ∧ origin m = o ∧ version m = 1%N ∧ key_state m = KeyState.Active.
Proof. unfold key_metadata. intros Hm. inv_run Hm. inv_run Hm. by injection Hm as <-. Qed.

(** The metadata of a built identity: one entry per managed key, then one per
    external key. *)
Lemma build_metadata_Ok doc d managed external t l :
  build_metadata doc d managed external t = Ok l →
  ∃ own ext, l = own ++ ext ∧
    Forall2 (λ k m, kid m = (d +:+ "#" +:+ mpk_fragment k)%string ∧ role m = mpk_role k ∧
                    origin m = KeyOrigin.Managed ∧ version m = 1%N) managed own ∧
    Forall2 (λ k m, role m = ek_role k ∧ origin m = KeyOrigin.External) external ext.
Proof.
  unfold build_metadata. intros Hl. inv_run Hl. inv_run Hl. injection Hl as <-.
  apply map_result_Forall2 in Hstep, Hstep0. exists a, a0. split_and!; [done|..].
  - eapply Forall2_impl; [exact Hstep|]. intros k m Hm. by apply key_metadata_Ok in Hm as (? & ? & ? & ? & _).
  - eapply Forall2_impl; [exact Hstep0|]. intros k m Hm. simpl in Hm. inv_run Hm.
    by apply key_metadata_Ok in Hm as (? & ? & ? & _).
Qed.

Lemma generate_all_roles l w ks w' :
  map_st (λ k, generate (mk_fragment k) (mk_role k)) l w = (Ok ks, w') →
  map mpk_role ks = map mk_role l ∧ map mpk_fragment ks = map mk_fragment l.
Proof.
  revert w ks w'. induction l as [|k l IH]; intros w ks w' Hk; simpl in Hk.
  - apply ret_Ok in Hk as [-> _]. done.
  - inv_run Hk. inv_run Hk. apply ret_Ok in Hk as [-> _].
    unfold generate in Hstep. inv_run Hstep. apply ret_Ok in Hstep as [-> _]. destruct (IH _ _ _ Hstep0) as [E1 E2].
    simpl. by rewrite E1, E2.
Qed.

Lemma validate_web_roles spec :
  validate spec = Ok tt → profile spec = DidProfile.Web →
  Forall (λ k, mk_role k ≠ KeyRole.RootControl) (managed_keys spec) ∧
  Forall (λ k, ek_role k ≠ KeyRole.RootControl) (external_keys spec).
Proof.
  unfold validate. intros Hv Hp. do 5 inv_run Hv. rewrite Hp in Hstep2. simpl in Hstep2.
  apply rguard_Ok, negb_false_iff, bool_decide_eq_true in Hstep2.
  apply rguard_Ok in Hstep3. split.
  - apply nil_length_inv in Hstep2. apply Forall_forall. intros k Hin Hr.
    assert (k ∈ filter (λ k, mk_role k = KeyRole.RootControl) (managed_keys spec)) as Hf
      by by apply list_elem_of_filter.
    rewrite Hstep2 in Hf. by apply not_elem_of_nil in Hf.
  - apply Forall_forall. intros k Hin Hr. apply not_true_iff_false in Hstep3. apply Hstep3.
    apply existsb_exists. exists k. split; [by apply list_elem_of_In|].
    unfold is_role. by rewrite Hr.
Qed.

(** What a built identity satisfies. *)
Record well_built (spec : DidCreateSpec) (b : BuiltIdentity) : Prop := {
  wb_did : for_did (bi_did b) = Ok (profile spec);
  wb_document : ∃ d, get_str (bi_document b) "id" = Some d ∧ for_did d = Ok (profile spec);
  wb_metadata : ∃ own ext, bi_metadata b = own ++ ext ∧
    Forall2 (λ k m, kid m = (bi_did b +:+ "#" +:+ mpk_fragment k)%string ∧ role m = mpk_role k ∧
                    origin m = KeyOrigin.Managed ∧ version m = 1%N) (bi_managed_keys b) own ∧
    Forall (λ m, origin m = KeyOrigin.External) ext;
  wb_no_root : profile spec = DidProfile.Web →
    Forall (λ m, role m ≠ KeyRole.RootControl) (bi_metadata b) }.

Lemma metadata_no_root spec doc d managed t l :
  validate spec = Ok tt → map mpk_role managed = map mk_role (managed_keys spec) →
  build_metadata doc d managed (external_keys spec) t = Ok l →
  (∃ own ext, l = own ++ ext ∧
    Forall2 (λ k m, kid m = (d +:+ "#" +:+ mpk_fragment k)%string ∧ role m = mpk_role k ∧
                    origin m = KeyOrigin.Managed ∧ version m = 1%N) managed own ∧
    Forall (λ m, origin m = KeyOrigin.External) ext) ∧
  (profile spec = DidProfile.Web → Forall (λ m, role m ≠ KeyRole.RootControl) l).
Proof.
  intros Hv Hroles Hl. apply build_metadata_Ok in Hl as (own & ext & -> & Ho & He). split.
  - exists own, ext. split_and!; [done..|].
    eapply Forall2_Forall_r; [exact He|]. apply Forall_forall. by intros k _ m [].
  - intros Hp. destruct (validate_web_roles _ Hv Hp) as [Hm Hx]. apply Forall_app. split.
    + eapply Forall2_Forall_r; [exact Ho|]. apply Forall_forall.
      intros k Hin m (_ & -> & _) Hr.
      assert (mpk_role k ∈ map mk_role (managed_keys spec)) as Hin'.
      { rewrite <-Hroles. apply list_elem_of_In, in_map. by apply list_elem_of_In. }
      apply list_elem_of_In, in_map_iff in Hin' as (k' & Heq & Hin').
      apply list_elem_of_In in Hin'. rewrite Forall_forall in Hm. apply (Hm k' Hin').
      congruence.
    + eapply Forall2_Forall_r; [exact He|]. eapply Forall_impl; [exact Hx|].
      by intros k Hk m [-> _].
Qed.

Lemma web_did_prefix segments base :
  ∃ suffix, fold_left (λ acc segment, (acc +:+ ":" +:+ segment)%string) segments base
            = (base +:+ suffix)%string.
Proof.
  revert base. induction segments as [|x l IH]; intros base; simpl.
  - exists EmptyString. by rewrite string_app_nil_r.
  - destruct (IH (base +:+ ":" +:+ x)%string) as [suffix ->].
    eexists. by rewrite !string_app_assoc.
Qed.

Lemma for_did_web suffix :
  did_web_resolution_url_ok ("did:web:" +:+ suffix)%string = true →
  for_did ("did:web:" +:+ suffix)%string = Ok DidProfile.Web.
Proof. intros Hu. unfold for_did. rewrite !starts_with_strip. by rewrite strip_prefix_app, Hu. Qed.

Lemma for_did_e1 suffix : for_did ("did:wba:" +:+ suffix)%string = Ok DidProfile.E1.
Proof. unfold for_did. rewrite !starts_with_strip. by rewrite strip_prefix_app. Qed.

Lemma build_web_well_built spec w b w' :
  validate spec = Ok tt → profile spec = DidProfile.Web →
  build_web_identity spec w = (Ok b, w') → well_built spec b.
Proof.
  intros Hv Hp Hb. unfold build_web_identity in Hb. cbv zeta in Hb.
  set (base := match port spec with Some _ => _ | None => _ end) in Hb.
  destruct (web_did_prefix (path_segments spec) ("did:web:" +:+ base)) as [suffix Hd].
  rewrite string_app_assoc in Hd.
  set (d := fold_left _ _ _) in *. clearbody d. subst d.
  do 11 inv_run Hb. apply ret_Ok in Hb as [-> _].
  apply lift_Ok in Hstep as [Hurl%rguard_Ok%negb_false_iff ->].
  apply generate_all_roles in Hstep1 as [Hroles _].
  apply lift_Ok in Hstep5 as [Hext%apply_extensions_id ->].
  apply lift_Ok in Hstep9 as [Hmeta ->].
  destruct (metadata_no_root _ _ _ _ _ _ Hv Hroles Hmeta) as [Hm Hn].
  constructor; simpl; try done.
  - rewrite Hp. by apply for_did_web.
  - exists ("did:web:" +:+ base +:+ suffix)%string. split; [|rewrite Hp; by apply for_did_web].
    rewrite Hext. by case_bool_decide.
Qed.

Lemma build_e1_well_built `{!DidDocumentLaws} spec w b w' :
  validate spec = Ok tt → profile spec = DidProfile.E1 →
  build_e1_identity spec w = (Ok b, w') → well_built spec b.
Proof.
  intros Hv Hp Hb. unfold build_e1_identity in Hb.
  do 16 inv_run Hb. apply ret_Ok in Hb as [-> _].
  apply generate_all_roles in Hstep as [Hroles _].
  apply lift_Ok in Hstep1 as [Hdoc%ok_or_Ok ->], Hstep2 as [Hid%ok_or_Ok ->].
  apply e1_document_id in Hdoc as [suffix Hdoc]. rewrite Hdoc in Hid. injection Hid as <-.
  apply lift_Ok in Hstep5 as [Hdoc2%ok_or_Ok ->], Hstep6 as [Hext%apply_extensions_id ->],
    Hstep9 as [Hprep%ok_or_Ok ->], Hstep11 as [Hdone%ok_or_Ok ->], Hstep14 as [Hmeta ->].
  apply e1_document_id in Hdoc2 as [suffix2 Hdoc2].
  destruct (metadata_no_root _ _ _ _ _ _ Hv Hroles Hmeta) as [Hm Hn].
  constructor; simpl; try done.
  - rewrite Hp. apply for_did_e1.
  - exists ("did:wba:" +:+ suffix2)%string. split; [|rewrite Hp; apply for_did_e1].
    by rewrite (w3c_proof_keeps_id _ _ _ _ _ _ _ Hprep Hdone), Hext.
Qed.

Lemma build_identity_well_built `{!DidDocumentLaws} spec w b w' :
  build_identity spec w = (Ok b, w') → well_built spec b.
Proof.
  unfold build_identity. intros Hb. inv_run Hb. apply lift_Ok in Hstep as [Hv ->].
  destruct a. destruct (profile spec) eqn:Hp;
    [by eapply build_e1_well_built|by eapply build_web_well_built].
Qed.
End Built.

(** ** The record of a new identity *)

Section Created.
Context `{Env}.

Lemma created_record_Ok spec b iid r :
  created_record spec b iid = Ok r → well_built spec b →
  identity_id r = iid ∧ did r = bi_did b ∧ keys r = bi_metadata b ∧
  state r = IdentityState.Creating ∧
  ∀ s, canonical_record (set_state s r).
Proof.
  unfold created_record. intros Hr Hb. inv_run Hr. inv_run Hr. inv_run Hr. injection Hr as <-.
  split_and!; [done..|]. intros s. split; [done|].
  unfold normalize_record. simpl. rewrite (wb_did _ _ Hb). simpl.
  destruct (wb_document _ _ Hb) as (d & Hid & Hfor).
  unfold method_root_fingerprint, validate_method_document in Hstep.
  inv_run Hstep. inv_run Hstep2. apply ok_or_Ok in Hstep3. rewrite Hid in Hstep3.
  injection Hstep3 as <-. rewrite Hfor in Hstep2. simpl in Hstep2. inv_run Hstep2.
  unfold normalize_fingerprint. destruct (profile spec) eqn:Hp; simpl in *.
  - inv_run Hstep2. injection Hstep2 as <-. simpl in Hstep. inv_run Hstep.
    injection Hstep as <-. simpl. unfold is_empty.
    rewrite bool_decide_false by by eapply fingerprint_nonempty.
    simpl. unfold normalize_authorization. simpl. destruct a1; [done|]. by rewrite Hstep1.
  - injection Hstep2 as <-. simpl in Hstep. injection Hstep as <-. simpl.
    pose proof (wb_no_root _ _ Hb Hp) as Hn.
    destruct (existsb _ _) eqn:Hex.
    { apply existsb_exists in Hex as (m & Hin%list_elem_of_In & Hm).
      rewrite Forall_forall in Hn. destruct (Hn m Hin). unfold is_role in Hm.
      by apply bool_decide_eq_true in Hm. }
    simpl. unfold normalize_authorization. simpl. destruct a1; [done|]. by rewrite Hstep1.
Qed.
End Created.

(** ** Crash safety of creation *)

Lemma set_state_id r : set_state (state r) r = r.
Proof. by destruct r. Qed.

Lemma activated_keys r : keys (activated r) = keys r.
Proof. unfold activated. by case_bool_decide. Qed.

Section Creation.
Context `{Env}.

(** The identifiers the system will draw name no file yet. *)
Definition fresh_draws (d : Disk) (n0 : nat) : Prop :=
  ∀ n, n0 ≤ n →
    let iid := b64url_encode (random_bytes n 16) in
    d_identities d !! storage_key iid = None ∧
    ∀ r, sr_identity_id r = iid → d_records d !! record_storage_key r = None.

(** Every managed key of a record can be opened. *)
Definition secrets_open (rt : StoreRuntime) (r : IdentityRecord) (d : Disk) : Prop :=
  Forall (λ m, origin m = KeyOrigin.Managed →
            ∃ secret, open_secret_at rt (ref_of_key (identity_id r) m) d = Ok secret ∧
                      String.length secret = 32) (keys r).

(** [df] is [d0] with the identity [r], in state [st], added. *)
Record added_identity (st : IdentityState.t) (rt : StoreRuntime) (d0 : Disk) (r : IdentityRecord)
    (registry : IdentityRegistry) (df : Disk) : Prop := {
  ai_quiescent : quiescent df;
  ai_registry : read_registry_at df = Ok registry;
  ai_before : ∃ registry0, read_registry_at d0 = Ok registry0 ∧
    identities registry0 !! did r = None ∧
    identities registry = <[did r := summary r]> (identities registry0) ∧
    reg_generation registry = (reg_generation registry0 + 1)%N;
  ai_state : state r = st;
  ai_record : read_identity_at (identity_id r) df = Ok r;
  ai_secrets : secrets_open rt r df;
  ai_others : ∃ refs, Forall (λ x, sr_identity_id x = identity_id r) refs ∧
    same_but (identity_id r) refs d0 df }.

(** Where an interrupted creation leaves the store. *)
Definition creation_interrupted (st : IdentityState.t) (rt : StoreRuntime) (d0 d : Disk) : Prop :=
  recovers_to rt d d0 ∨
  ∃ r registry df, added_identity st rt d0 r registry df ∧ recovers_to rt d df.

Lemma register_Ok registry d sm registry' :
  register registry d sm = Ok registry' →
  reg_schema_version registry' = reg_schema_version registry ∧
  identities registry' = <[d := sm]> (identities registry) ∧
  reg_generation registry' = (reg_generation registry + 1)%N.
Proof.
  unfold register, bump_registry. intros Hr. inv_run Hr. injection Hr as <-.
  apply bump_Ok in Hstep as [-> _]. done.
Qed.

Lemma read_registry_written d registry registry' :
  read_registry_at d = Ok registry → reg_schema_version registry' = reg_schema_version registry →
  ∀ d', d_registry d' = Some (Parsed registry') → read_registry_at d' = Ok registry'.
Proof.
  intros Hr Hs d' Hd. unfold read_registry_at in *. rewrite Hd.
  destruct (d_registry d) as [[x| |]|]; try done.
  - inv_run Hr. injection Hr as ->. rewrite Hs. by rewrite Hstep.
  - injection Hr as <-. rewrite Hs. done.
Qed.

Lemma read_registry_same d d' : d_registry d = d_registry d' → read_registry_at d = read_registry_at d'.
Proof. unfold read_registry_at. by intros ->. Qed.

Lemma open_secret_at_records rt x d d' :
  d_records d = d_records d' → open_secret_at rt x d = open_secret_at rt x d'.
Proof. unfold open_secret_at. by intros ->. Qed.

Lemma maybe_fail_triple {F} `{EqDecision F} msg (failure : option F) point (P X : Disk → Prop) :
  (∀ d, P d → X d) → dtriple P (maybe_fail msg failure point) (λ _, P) X.
Proof. intros HX. apply dtriple_keeps; [apply keeps_sguard|auto..]. Qed.

Section Transaction.
Context (rt : StoreRuntime) (d0 : Disk) (registry : IdentityRegistry) (j : CreationJournal).
Context (Hquiet : quiescent d0) (Hregistry : read_registry_at d0 = Ok registry).
Context (Hkind : cj_kind j = CreationJournalKind.Create)
        (Hschema : cj_schema_version j = JOURNAL_SCHEMA_VERSION).
Context (Hnew : identities registry !! cj_did j = None).
Context (Hfresh : fresh_for (cj_identity_id j) (cj_secret_refs j) d0).
Context (Hrefs : Forall (λ x, sr_identity_id x = cj_identity_id j) (cj_secret_refs j)).

Lemma uncommitted_recovers d : uncommitted j d0 d → recovers_to rt d d0.
Proof using All.
  intros Hd. apply (recovers_to_intro rt (uncommitted j d0)); [done..|].
  apply (recover_single rt j registry); [done|done|by right| |by left|].
  - intros d' (_ & Hr & Hj). split; [done|]. rewrite <-Hregistry. by apply read_registry_same.
  - intros g Hg. eapply ctriple_conseq;
      [apply (recover_journal_uncommitted rt g j d0 registry)|..]; try done.
    + by destruct Hquiet.
    + unfold registered. by rewrite Hnew.
    + by intros ? ? [_ ->].
Qed.

Lemma seal_keys_uncommitted guard failure i l :
  incl (map snd l) (cj_secret_refs j) →
  dtriple (uncommitted j d0) (seal_keys rt guard failure i l) (λ _, uncommitted j d0)
    (uncommitted j d0).
Proof using All.
  revert i. induction l as [|[k r] l IH]; intros i Hin; simpl.
  - by apply triple_ret.
  - assert (∀ record d, uncommitted j d0 d →
      uncommitted j d0 (upd_records (<[record_storage_key r := Parsed record]>) d)) as Hins.
    { intros record d (Hs & ? & ?). split_and!; [|done..].
      eapply same_but_records; [done|apply list_elem_of_In, Hin; by left|].
      intros. by apply lookup_insert_ne. }
    apply triple_bind with (λ _ w, uncommitted j d0 (disk w)); [|intros []].
    + apply triple_bind with (λ _ w, uncommitted j d0 (disk w)).
      * intros w res w' HP Hs. apply seal_if_absent_run in Hs. destruct res as [[]|e].
        -- destruct Hs as (record & ? & ? & _ & _ & -> & _). by apply Hins.
        -- by destruct Hs as [-> _].
        -- destruct Hs as [->|(_ & record & ->)]; [done|by apply Hins].
      * intros a. apply (dtriple_keeps _ (uncommitted j d0) _ (λ _, uncommitted j d0)); [|auto..].
        unfold verify_persisted_key. keeps_tac.
    + apply triple_bind with (λ _ w, uncommitted j d0 (disk w));
        [|intros []; apply IH; intros x Hx; apply Hin; by right].
      apply (dtriple_keeps _ (uncommitted j d0) _ (λ _, uncommitted j d0)); [|auto..].
      unfold maybe_fail. keeps_tac.
Qed.

(** The record the transaction writes, and the registry that commits it. *)
Context (r : IdentityRecord) (registry' : IdentityRegistry).
Context (Hid : identity_id r = cj_identity_id j) (Hdid : did r = cj_did j).
Context (Hfirst : canonical_record r) (Hlast : canonical_record (activated r)).
Context (Hcommit : register registry (did r) (summary (activated r)) = Ok registry').

Abbreviation active := (activated r).
Abbreviation path := (storage_key (identity_id r)).

(** The disk of the completed creation, from the disk of the registry write. *)
Definition completed (d : Disk) : Disk :=
  upd_journals (λ _, ∅) (upd_registry (λ _, Some (Parsed registry'))
    (upd_identities (<[path := Parsed active]>) d)).

Lemma completed_added d :
  uncommitted j d0 d → secrets_open rt r d →
  added_identity (state active) rt d0 active registry' (completed d).
Proof using All.
  intros (Hs & Hr & Hj) Hopen.
  apply register_Ok in Hcommit as (Hv & Hi & Hg).
  assert (read_registry_at (completed d) = Ok registry') as Hread
    by by apply (read_registry_written d0 registry).
  constructor; try done.
  - split_and!; [done| |by exists registry'].
    destruct Hs as (_ & Hu & _). simpl. rewrite Hu. by destruct Hquiet as (_ & ? & _).
  - exists registry. rewrite activated_did, Hdid. split_and!; [done|done| |done].
    by rewrite Hi, Hdid.
  - apply read_identity_canonical; [done|]. simpl. rewrite activated_id. apply lookup_insert_eq.
  - unfold secrets_open in *. rewrite activated_id, activated_keys. exact Hopen.
  - exists (cj_secret_refs j). rewrite activated_id, Hid. split; [done|].
    apply (same_but_identities _ _ _ _ (<[path := Parsed active]>)) in Hs.
    + exact Hs.
    + intros m p Hp. rewrite lookup_insert_ne; [done|]. rewrite Hid. done.
Qed.

Lemma committed_recovers d d' :
  uncommitted j d0 d → secrets_open rt r d → committed j r (completed d) d' →
  recovers_to rt d' (completed d).
Proof using All.
  intros Hd Hopen Hc. pose proof (completed_added d Hd Hopen) as Hadd.
  apply (recovers_to_intro rt (committed j r (completed d))); [apply Hadd|done|].
  apply (recover_single rt j registry' (completed d)); [apply Hadd|done|by right| |by left|].
  - intros x Hx. assert (d_registry x = d_registry (completed d)) as Hr
      by by destruct Hx as [->| ->].
    split; [by destruct Hx as [->| ->]|]. rewrite (read_registry_same _ _ Hr). apply Hadd.
  - intros g Hg. eapply ctriple_conseq;
      [apply (recover_journal_committed rt g j r (completed d) registry')|..]; try done.
    + simpl. apply lookup_insert_eq.
    + unfold registered. apply register_Ok in Hcommit as (_ & -> & _).
      rewrite Hdid, lookup_insert_eq. simpl. by rewrite activated_id, bool_decide_true.
    + by intros ? ? [_ ->].
Qed.

(** The writes of the registry and of the active record, in order. *)
Lemma registry_write_commits d :
  uncommitted j d0 d →
  committed j r (completed d)
    (upd_registry (λ _, Some (Parsed registry')) (upd_identities (<[path := Parsed r]>) d)).
Proof using Type.
  intros (_ & _ & Hj). right. unfold completed. destruct d; simpl in *. subst.
  unfold upd_identities, upd_journals, upd_registry. simpl. by rewrite insert_insert_eq.
Qed.

Lemma activation_commits d :
  uncommitted j d0 d →
  upd_identities (<[path := Parsed active]>)
    (upd_registry (λ _, Some (Parsed registry')) (upd_identities (<[path := Parsed r]>) d))
  = upd_journals (λ _, journal_dir j) (completed d).
Proof using Type.
  intros (_ & _ & Hj). unfold completed. destruct d; simpl in *. subst.
  unfold upd_identities, upd_journals, upd_registry. simpl. by rewrite insert_insert_eq.
Qed.

Lemma uncommitted_record d :
  uncommitted j d0 d → uncommitted j d0 (upd_identities (<[path := Parsed r]>) d).
Proof using Hid.
  intros (Hs & ? & ?). split_and!; [|done..]. apply same_but_identities; [done|].
  intros m p Hp. rewrite lookup_insert_ne; [done|]. by rewrite Hid.
Qed.

(** From the registry write to the removal of the journal. *)
Lemma registry_commit_safe guard (failure : option CreationFailurePoint.t) :
  dtriple (λ d, ∃ d1, (uncommitted j d0 d1 ∧ secrets_open rt r d1) ∧
                      d = upd_identities (<[path := Parsed r]>) d1)
    (do! write_registry (rt_root rt) guard registry';
     do! maybe_fail CREATION_FAILURE failure CreationFailurePoint.RegistryCommitted;
     do! write_identity (rt_root rt) guard active;
     do! maybe_fail CREATION_FAILURE failure CreationFailurePoint.IdentityActivated;
     do! remove_journal (rt_root rt) guard (transaction_id j);
     ret ({| ds_runtime := rt; registry_generation := reg_generation registry' |},
          {| di_runtime := rt; di_record := active |}))
    (λ res d, res = ({| ds_runtime := rt; registry_generation := reg_generation registry' |},
                     {| di_runtime := rt; di_record := active |}) ∧
       added_identity (state active) rt d0 active registry' d)
    (creation_interrupted (state active) rt d0).
Proof using All.
  set (A := λ d, uncommitted j d0 d ∧ secrets_open rt r d).
  set (D := λ d, upd_registry (λ _, Some (Parsed registry'))
                   (upd_identities (<[path := Parsed r]>) d)).
  assert (∀ d1 d, A d1 → committed j r (completed d1) d → creation_interrupted (state active) rt d0 d) as HC.
  { intros d1 d [Hu Hs] Hc. right. exists active, registry', (completed d1).
    split; [by apply completed_added|by apply (committed_recovers d1)]. }
  assert (∀ d, (∃ d1, A d1 ∧ d = D d1) → creation_interrupted (state active) rt d0 d) as HD.
  { intros d (d1 & Ha & ->). eapply HC; [done|]. apply registry_write_commits, Ha. }
  assert (∀ d1, A d1 → creation_interrupted (state active) rt d0 (upd_journals (λ _, journal_dir j) (completed d1)))
    as HE by (intros d1 Ha; eapply HC; [done|by left]).
  apply triple_bind with (λ _ w, ∃ d1, A d1 ∧ disk w = D d1).
  { apply (dtriple_guarded_durable _ _ _
      (λ d, ∃ d1, A d1 ∧ d = upd_identities (<[path := Parsed r]>) d1) _
      (λ d, ∃ d1, A d1 ∧ d = D d1)).
    - intros d (d1 & Ha & ->). by exists d1.
    - intros d (d1 & [Hu _] & ->). left. apply uncommitted_recovers. by apply uncommitted_record.
    - intros d (d1 & Ha & ->). apply HD. by exists d1. }
  intros []. apply triple_bind with (λ _ w, ∃ d1, A d1 ∧ disk w = D d1);
    [by apply (maybe_fail_triple _ _ _ (λ d, ∃ d1, A d1 ∧ d = D d1))|].
  set (C := λ d, ∃ d1, A d1 ∧ d = upd_journals (λ _, journal_dir j) (completed d1)).
  intros []. apply triple_bind with (λ _ w, C (disk w)).
  { apply (dtriple_guarded_durable _ _ _ (λ d, ∃ d1, A d1 ∧ d = D d1)).
    - intros d (d1 & Ha & ->). exists d1. split; [done|]. rewrite activated_id.
      apply activation_commits, Ha.
    - exact HD.
    - intros d (d1 & Ha & ->). rewrite activated_id. unfold D.
      rewrite activation_commits by apply Ha. by apply HE. }
  assert (∀ d, C d → creation_interrupted (state active) rt d0 d) as HCi by (intros d (d1 & Ha & ->); by apply HE).
  intros []. apply triple_bind with (λ _ w, C (disk w)); [by apply maybe_fail_triple|].
  assert (∀ d1, upd_journals (delete (storage_key (transaction_id j)))
    (upd_journals (λ _, journal_dir j) (completed d1)) = completed d1) as Hclose
    by (intros; by apply close_journal).
  intros []. apply triple_bind with (λ _ w, ∃ d1, A d1 ∧ disk w = completed d1).
  { apply (dtriple_guarded_durable _ _ _ C _ (λ d, ∃ d1, A d1 ∧ d = completed d1)).
    - intros d (d1 & Ha & ->). exists d1. by rewrite Hclose.
    - exact HCi.
    - intros d (d1 & Ha & ->). rewrite Hclose. right. exists active, registry', (completed d1).
      destruct Ha. split; [by apply completed_added|]. apply recovers_to_quiescent.
      by apply completed_added. }
  intros []. apply triple_ret. intros w (d1 & [Hu Hs] & ->). split; [done|].
  by apply completed_added.
Qed.
End Transaction.

Lemma verify_persisted_key_Ok rt x expected w u w' :
  verify_persisted_key rt x expected w = (Ok u, w') →
  ∃ secret, open_secret_at rt x (disk w) = Ok secret ∧ String.length secret = 32 ∧
    public_key_from_raw (sr_role x) secret = expected.
Proof.
  unfold verify_persisted_key. intros Hv. inv_run Hv. injection Hstep as Hs <-.
  inv_run Hv. apply lift_Ok in Hstep as [Hp ->]. apply lift_Ok in Hv as [Hv _].
  apply rguard_Ok, negb_false_iff, public_keys_equal_eq in Hv as <-.
  unfold public_key_from_secret in Hp. inv_run Hp.
  apply rguard_Ok, negb_false_iff, bool_decide_eq_true in Hstep.
  injection Hp as <-. eauto.
Qed.

Lemma verify_all_Ok rt l w u w' :
  verify_all_persisted_keys rt l w = (Ok u, w') →
  Forall (λ e, ∃ secret, open_secret_at rt e.2 (disk w) = Ok secret ∧
                         String.length secret = 32) l.
Proof.
  unfold verify_all_persisted_keys. revert w. induction l as [|e l IH]; intros w Hv; [done|].
  simpl in Hv. inv_run Hv. pose proof Hstep as Hk. apply verify_persisted_key_Ok in Hstep.
  assert (keeps (verify_persisted_key rt e.2 (mpk_public_key e.1))) as Hkeep
    by (unfold verify_persisted_key; keeps_tac).
  apply Hkeep in Hk as (Hd & _). apply IH in Hv. rewrite Hd in Hv.
  constructor; naive_solver.
Qed.

(** The keys of the record are the keys that were sealed and verified. *)
Lemma built_secrets_open rt spec b iid r d :
  well_built spec b → identity_id r = iid → keys r = bi_metadata b →
  Forall (λ e, ∃ secret, open_secret_at rt e.2 d = Ok secret ∧ String.length secret = 32)
    (zip (bi_managed_keys b) (creation_refs b iid)) →
  secrets_open rt r d.
Proof.
  intros Hb Hid Hk Hf. unfold secrets_open. rewrite Hk, Hid.
  destruct (wb_metadata _ _ Hb) as (own & ext & -> & Ho & He).
  apply Forall_app. split.
  - clear He. unfold creation_refs in Hf. revert Ho Hf. generalize (bi_managed_keys b). intros l Ho.
    induction Ho as [|k m l own (H1 & H2 & H3 & H4) _ IH]; intros Hf; [done|].
    simpl in Hf. inversion Hf as [|? ? Hx Hf']; subst. constructor; [|by apply IH].
    intros _. unfold ref_of_key. rewrite H1, H2, H4. exact Hx.
  - eapply Forall_impl; [exact He|]. intros m Hm Hc. congruence.
Qed.

Lemma creation_refs_identity b iid :
  Forall (λ x, sr_identity_id x = iid) (creation_refs b iid).
Proof. unfold creation_refs. induction (bi_managed_keys b); constructor; auto. Qed.

Lemma triple_keeps {E A} (m : ST World E A) (P : World → Prop) (Q : A → World → Prop) X :
  keeps m →
  (∀ w a w', P w → m w = (Ok a, w') → disk w' = disk w → draws w ≤ draws w' → Q a w') →
  (∀ w w', P w → disk w' = disk w → X w') → triple P m Q X.
Proof.
  intros Hk HQ HX w r w' HP Hr. destruct (Hk _ _ _ Hr) as (Hd & _ & Hn). destruct r; eauto.
Qed.

Lemma random_id_Ok w x w' :
  random_id w = (Ok x, w') → x = b64url_encode (random_bytes (draws w) 16).
Proof.
  unfold random_id. intros Hr. inv_run Hr. injection Hstep as <- <-.
  by apply ret_Ok in Hr as [-> _].
Qed.

Definition creation_journal (b : BuiltIdentity) (iid tid : string) : CreationJournal :=
  new_creation_journal CreationJournalKind.Create tid iid (bi_did b) (creation_refs b iid)
    (bi_created_at b).

(** From the write of the creating record to the removal of the journal. *)
Lemma create_commit_safe rt d0 registry guard failure spec b iid tid r :
  let j := creation_journal b iid tid in
  quiescent d0 → read_registry_at d0 = Ok registry → identities registry !! bi_did b = None →
  fresh_for iid (creation_refs b iid) d0 → well_built spec b →
  created_record spec b iid = Ok r →
  dtriple (λ d, uncommitted j d0 d ∧ secrets_open rt r d)
    (do! write_identity (rt_root rt) guard r;
     do! maybe_fail CREATION_FAILURE failure CreationFailurePoint.IdentityCreatingPersisted;
     let! registry := lift (register registry (did r)
                              (set_is_state IdentityState.Active (summary r))) in
     do! write_registry (rt_root rt) guard registry;
     do! maybe_fail CREATION_FAILURE failure CreationFailurePoint.RegistryCommitted;
     do! write_identity (rt_root rt) guard (set_state IdentityState.Active r);
     do! maybe_fail CREATION_FAILURE failure CreationFailurePoint.IdentityActivated;
     do! remove_journal (rt_root rt) guard tid;
     ret ({| ds_runtime := rt; registry_generation := reg_generation registry |},
          {| di_runtime := rt; di_record := set_state IdentityState.Active r |}))
    (λ res d, ∃ registry', res.1 = {| ds_runtime := rt;
                                      registry_generation := reg_generation registry' |} ∧
       di_runtime res.2 = rt ∧
       added_identity IdentityState.Active rt d0 (di_record res.2) registry' d)
    (creation_interrupted IdentityState.Active rt d0).
Proof.
  intros j Hq Hreg Hnew Hfr Hwb Hr. pose proof (creation_refs_identity b iid) as Hrefs.
  destruct (created_record_Ok _ _ _ _ Hr Hwb) as (Hid & Hdid & Hkeys & Hst & Hcan).
  set (path := storage_key (identity_id r)).
  set (A := λ d, uncommitted j d0 d ∧ secrets_open rt r d).
  set (B := λ d, ∃ d1, A d1 ∧ d = upd_identities (<[path := Parsed r]>) d1).
  assert (∀ d, uncommitted j d0 d → creation_interrupted IdentityState.Active rt d0 d) as HU.
  { intros d Hd. left. by apply (uncommitted_recovers rt d0 registry j). }
  assert (∀ d, B d → creation_interrupted IdentityState.Active rt d0 d) as HB.
  { intros d (d1 & [Hd1 _] & ->). apply HU. by apply uncommitted_record. }
  apply triple_bind with (λ _ w, B (disk w)).
  { apply (dtriple_guarded_durable _ _ _ A).
    - intros d Hd. by exists d.
    - intros d [Hd _]. by apply HU.
    - intros d Hd. apply HB. by exists d. }
  intros []. apply triple_bind with (λ _ w, B (disk w)); [by apply maybe_fail_triple|].
  intros []. apply triple_bind with (λ x w, register registry (did r)
    (set_is_state IdentityState.Active (summary r)) = Ok x ∧ B (disk w)).
  { apply triple_lift; [intros; by apply HB|done]. }
  intros registry'. apply triple_pull. intros Hcommit.
  assert (activated r = set_state IdentityState.Active r) as Hact
    by (unfold activated; by rewrite bool_decide_true).
  pose proof (registry_commit_safe rt d0 registry j) as Hsafe. specialize (Hsafe Hq Hreg eq_refl eq_refl Hnew Hfr Hrefs r registry' Hid Hdid).
  rewrite Hact in Hsafe.
  eapply triple_conseq; [apply Hsafe|done| |done]; [|done|done|].
  - pose proof (Hcan (state r)) as Hc. by rewrite set_state_id in Hc.
  - intros res w [-> Ha]. by exists registry'.
Qed.

(** A journaled creation, from any quiet disk on which its identifiers are free. *)
Lemma create_transaction_safe rt d0 registry guard failure spec b iid tid :
  quiescent d0 → read_registry_at d0 = Ok registry → identities registry !! bi_did b = None →
  fresh_for iid (creation_refs b iid) d0 → well_built spec b →
  dtriple (λ d, d = d0) (create_transaction rt guard failure registry spec b iid tid)
    (λ res d, ∃ registry', res.1 = {| ds_runtime := rt;
                                      registry_generation := reg_generation registry' |} ∧
       di_runtime res.2 = rt ∧
       added_identity IdentityState.Active rt d0 (di_record res.2) registry' d)
    (creation_interrupted IdentityState.Active rt d0).
Proof.
  intros Hq Hreg Hnew Hfr Hwb. set (j := creation_journal b iid tid).
  pose proof (creation_refs_identity b iid) as Hrefs.
  assert (∀ d, uncommitted j d0 d → creation_interrupted IdentityState.Active rt d0 d) as HU.
  { intros d Hd. left. by apply (uncommitted_recovers rt d0 registry j). }
  unfold create_transaction. apply triple_bind with (λ _ w, uncommitted j d0 (disk w)).
  { assert (uncommitted j d0 (upd_journals (<[storage_key tid := Parsed j]>) d0)) as Hopen.
    { split_and!; simpl; [by split_and!|done|]. by destruct Hq as (-> & _). }
    apply (dtriple_guarded_durable _ _ _ (λ d, d = d0)); intros d ->; [done| |by apply HU].
    left. by apply recovers_to_quiescent. }
  intros []. apply triple_bind with (λ _ w, uncommitted j d0 (disk w)); [by apply maybe_fail_triple|].
  intros []. apply triple_bind with (λ _ w, uncommitted j d0 (disk w)).
  { eapply triple_conseq; [apply (seal_keys_uncommitted rt d0 registry j)|..]; try done.
    - intros x Hx. simpl. apply in_map_iff in Hx as ([? ?] & <- & Hx). by eapply in_combine_r.
    - intros w Hw. by apply HU. }
  intros []. apply triple_bind with (λ _ w, uncommitted j d0 (disk w) ∧
    Forall (λ e, ∃ secret, open_secret_at rt e.2 (disk w) = Ok secret ∧
      String.length secret = 32) (zip (bi_managed_keys b) (creation_refs b iid))).
  { apply triple_keeps.
    - unfold verify_all_persisted_keys, verify_persisted_key. keeps_tac.
    - intros w a w' HP Hv Hd _. rewrite Hd. split; [done|]. by eapply verify_all_Ok.
    - intros w w' HP ->. by apply HU. }
  intros []. apply triple_bind with (λ r w, created_record spec b iid = Ok r ∧
    uncommitted j d0 (disk w) ∧ secrets_open rt r (disk w)).
  { apply triple_lift; [intros w [? _]; by apply HU|]. intros r w Hr [Hu Hs].
    destruct (created_record_Ok _ _ _ _ Hr Hwb) as (? & ? & ? & _).
    split_and!; [done..|]. by eapply built_secrets_open. }
  intros r. apply triple_pull. intros Hr.
  destruct (created_record_Ok _ _ _ _ Hr Hwb) as (Hid & Hdid & Hkeys & Hst & Hcan).
  eapply create_commit_safe; done.
Qed.

Lemma create_identity_runtime s spec failure w s' i w' :
  create_identity_inner s spec failure w = (Ok (s', i), w') →
  ds_runtime s' = ds_runtime s ∧ di_runtime i = ds_runtime s.
Proof.
  unfold create_identity_inner. intros Hc. do 9 inv_run Hc. unfold create_transaction in Hc.
  do 13 inv_run Hc. apply ret_Ok in Hc as [[= -> ->] _]. done.
Qed.

(** The whole of [create_identity_inner]. *)
Lemma create_identity_safe `{!DidDocumentLaws} s spec failure w res w' :
  quiescent (disk w) → fresh_draws (disk w) (draws w) →
  create_identity_inner s spec failure w = (res, w') →
  match res with
  | Ok (s', i) =>
      ∃ registry, registry_generation s' = reg_generation registry ∧
        added_identity IdentityState.Active (ds_runtime s) (disk w) (di_record i) registry (disk w')
  | Err _ => creation_interrupted IdentityState.Active (ds_runtime s) (disk w) (disk w')
  end.
Proof.
  intros Hq Hfresh Hrun. set (d0 := disk w) in *. set (n0 := draws w) in *.
  set (P := λ w, disk w = d0 ∧ n0 ≤ draws w).
  assert (∀ w w', P w → disk w' = disk w → creation_interrupted IdentityState.Active (ds_runtime s) d0 (disk w'))
    as HX.
  { intros v v' [Hv _] ->. rewrite Hv. left. by apply recovers_to_quiescent. }
  assert (∀ A (m : M A), keeps m → triple P m (λ _, P)
    (λ w, creation_interrupted IdentityState.Active (ds_runtime s) d0 (disk w))) as Hkeep.
  { intros A m Hm. apply triple_keeps; [done| |done].
    intros v a v' [H1 H2] _ H3 H4. split; [congruence|lia]. }
  enough (triple P (create_identity_inner s spec failure)
    (λ x w, ∃ registry, x.1 = {| ds_runtime := ds_runtime s;
                                 registry_generation := reg_generation registry |} ∧
      di_runtime x.2 = ds_runtime s ∧
      added_identity IdentityState.Active (ds_runtime s) d0 (di_record x.2) registry (disk w))
    (λ w, creation_interrupted IdentityState.Active (ds_runtime s) d0 (disk w))) as Hmain.
  { assert (P w) as HP by by split. specialize (Hmain w res w' HP Hrun).
    destruct res as [[s' i]|e]; [|done]. destruct Hmain as (registry & Hs & _ & Ha).
    exists registry. simpl in *. by subst. }
  clear Hrun. unfold create_identity_inner.
  apply triple_bind with (λ _, P); [apply Hkeep; keeps_tac|intros guard].
  apply triple_bind with (λ x w, read_registry_at d0 = Ok x ∧ P w).
  { apply triple_keeps; [apply keeps_reads| |done].
    intros v a v' [Hv Hn] Hr Hd Hn'. injection Hr as Hr _. rewrite Hv in Hr.
    split; [done|]. split; [congruence|lia]. }
  intros registry. apply triple_pull. intros Hreg.
  apply triple_bind with (λ _, P); [apply Hkeep; keeps_tac|intros []].
  apply triple_bind with (λ _, P); [apply Hkeep, keeps_reads|intros js].
  apply triple_bind with (λ _, P); [apply Hkeep; keeps_tac|intros []].
  apply triple_bind with (λ b w, well_built spec b ∧ P w).
  { apply triple_keeps; [apply keeps_build_identity| |done].
    intros v b v' [Hv Hn] Hb Hd Hn'. split; [by eapply build_identity_well_built|].
    split; [congruence|lia]. }
  intros b. apply triple_pull. intros Hwb.
  apply triple_bind with (λ _ w, identities registry !! bi_did b = None ∧ P w).
  { eapply triple_conseq; [apply triple_sguard with (P := P)|done|..].
    - intros v Hv. by apply (HX v v).
    - intros [] v [Hv Hb]. split; [|done]. by apply bool_decide_eq_false, eq_None_not_Some in Hb.
    - done. }
  intros []. apply triple_pull. intros Hnew.
  apply triple_bind with (λ iid w, (∃ n, n0 ≤ n ∧ iid = b64url_encode (random_bytes n 16)) ∧ P w).
  { apply triple_keeps; [apply keeps_random_id| |done].
    intros v x v' [Hv Hn] Hr Hd Hn'. split; [exists (draws v); split; [done|]; by apply random_id_Ok in Hr|].
    split; [congruence|lia]. }
  intros iid. apply triple_pull. intros (n & Hn & ->).
  apply triple_bind with (λ _, P); [apply Hkeep, keeps_random_id|intros tid].
  eapply triple_conseq; [apply (create_transaction_safe (ds_runtime s) d0 registry); try done|..].
  - destruct (Hfresh n Hn) as [Hi Hs]. split; [done|]. intros p Hp.
    apply list_elem_of_In, in_map_iff in Hp as (x & <- & Hx). apply Hs.
    pose proof (creation_refs_identity b (b64url_encode (random_bytes n 16))) as Hf.
    rewrite Forall_forall in Hf. apply Hf. by apply list_elem_of_In.
  - by intros v [Hv _].
  - done.
  - done.
Qed.

(** C1.  Crash safety of creation: from a store with no open journal, whatever
    durable operation fails (or is the last one before a crash), [create_identity]
    either returns, having added exactly one active identity whose managed keys all
    open, or stops in a store that recovery brings back to the store before the
    call or forward to the completed creation, however often recovery itself is
    interrupted. *)
Theorem create_identity_crash_safe `{!DidDocumentLaws} s spec failure w res w' :
  quiescent (disk w) → fresh_draws (disk w) (draws w) →
  create_identity_inner s spec failure w = (res, w') →
  match res with
  | Ok (s', i) =>
      ∃ registry, registry_generation s' = reg_generation registry ∧
        added_identity IdentityState.Active (ds_runtime s) (disk w) (di_record i) registry (disk w')
  | Err _ => creation_interrupted IdentityState.Active (ds_runtime s) (disk w) (disk w')
  end.
Proof. apply create_identity_safe. Qed.

(** Creation is a compare-and-swap on the registry: a handle that is behind
    the registry, or a store with an unfinished transaction, gets [Conflict] and
    nothing is written. *)
Lemma create_identity_conflict s spec failure w registry :
  io w = NoFault → read_registry_at (disk w) = Ok registry →
  reg_generation registry ≠ registry_generation s ∨
    (∃ j js, list_journals_at (disk w) = Ok (j :: js)) →
  create_identity_inner s spec failure w = (Err Conflict, w).
Proof.
  intros Hio Hr Hc. unfold create_identity_inner, bind at 1. rewrite acquire_write_runs by done.
  unfold read_registry, list_journals, reads, sguard, rguard, bind, lift, ret. rewrite Hr. simpl.
  case_bool_decide as Hg; [|done]. destruct Hc as [Hne|(j & js & ->)]; [done|]. done.
Qed.

(** Round trip of creation: the identity a creation returns is the identity
    that opening its DID returns afterwards, and it is listed. *)
Lemma create_then_open `{!DidDocumentLaws} s spec w s' i w' :
  quiescent (disk w) → fresh_draws (disk w) (draws w) →
  create_identity s spec w = (Ok (s', i), w') →
  open_identity s' (did (di_record i)) w' = (Ok i, w') ∧
  ∃ l, list_identities s' w' = (Ok l, w') ∧ summary (di_record i) ∈ l.
Proof.
  intros Hq Hf Hc. pose proof (create_identity_runtime _ _ _ _ _ _ _ Hc) as [Hs Hi].
  apply create_identity_safe in Hc as (registry & Hg & Ha); [|done..].
  destruct (ai_before _ _ _ _ _ _ Ha) as (registry0 & _ & _ & Hids & _). split.
  - unfold open_identity, read_registry, read_identity, reads, bind, sguard, rguard, lift, ret.
    rewrite (ai_registry _ _ _ _ _ _ Ha). simpl. rewrite Hids, lookup_insert_eq. simpl.
    rewrite (ai_record _ _ _ _ _ _ Ha). simpl. rewrite !bool_decide_true by done. simpl.
    rewrite (ai_state _ _ _ _ _ _ Ha). simpl. rewrite Hs, <-Hi. by destruct i.
  - unfold list_identities, read_registry, reads, bind, ret. rewrite (ai_registry _ _ _ _ _ _ Ha).
    eexists. split; [done|]. apply list_elem_of_In, in_map_iff.
    exists (did (di_record i), summary (di_record i)). split; [done|].
    apply list_elem_of_In. rewrite merge_sort_Permutation. apply elem_of_map_to_list.
    by rewrite Hids, lookup_insert_eq.
Qed.
End Creation.

(** ** Witnesses *)

Definition sample_store : DidStore :=
  {| ds_runtime := sample_runtime; registry_generation := 0 |}.
Definition created_world : World :=
  (@create_identity toy_env sample_store sample_spec initial_world).2.

Lemma quiescent_empty : @quiescent toy_env empty_disk.
Proof. split_and!; [done..|]. by exists default_registry. Defined.
Lemma fresh_empty n : @fresh_draws toy_env empty_disk n.
Proof. intros m _. split; [apply lookup_empty|]. intros r _. apply lookup_empty. Defined.

Lemma create_identity_crash_safe_witness :
  ∃ r registry,
    @added_identity toy_env IdentityState.Active sample_runtime empty_disk r registry (disk created_world).
Proof.
  pose proof (@create_identity_crash_safe toy_env toy_did_document_laws sample_store sample_spec
    None initial_world _ _ quiescent_empty (fresh_empty _) (surjective_pairing _)) as Hc.
  destruct (@create_identity_inner toy_env sample_store sample_spec None initial_world).1 as [[s i]|e] eqn:Hr.
  - destruct Hc as (registry & _ & Ha). by exists (di_record i), registry.
  - exfalso. assert (is_ok (@create_identity_inner toy_env sample_store sample_spec None initial_world).1
      = true) as Hok by (vm_compute; reflexivity). by rewrite Hr in Hok.
Defined.

Lemma create_identity_conflict_witness :
  @create_identity_inner toy_env {| ds_runtime := sample_runtime; registry_generation := 7 |}
    sample_spec None initial_world = (Err Conflict, initial_world).
Proof.
  apply (@create_identity_conflict toy_env _ sample_spec None initial_world default_registry).
  - reflexivity.
  - reflexivity.
  - left. discriminate.
Defined.

Lemma create_then_open_witness :
  ∃ s i, @create_identity toy_env sample_store sample_spec initial_world
           = (Ok (s, i), created_world) ∧
    @open_identity toy_env s (did (di_record i)) created_world = (Ok i, created_world).
Proof.
  destruct (@create_identity toy_env sample_store sample_spec initial_world) as [[[s i]|e] w] eqn:Hr.
  - exists s, i. assert (created_world = w) as -> by (unfold created_world; by rewrite Hr).
    split; [done|].
    apply (@create_then_open toy_env toy_did_document_laws sample_store sample_spec initial_world
             s i w quiescent_empty (fresh_empty _) Hr).
  - exfalso. assert (is_ok (@create_identity toy_env sample_store sample_spec initial_world).1 = true)
      as Hok by (vm_compute; reflexivity). by rewrite Hr in Hok.
Defined.
