(* ===== verification/Namespace.v ===== *)
(** * Deleting an identity (namespace.rs)

    The deletion of an identity's namespace: its secrets, its record and its
    registry entry, under a journal that is replayed forward. *)

From stdpp Require Import base strings list gmap sorting.
From S2P Require Import Prelude Json Errors Records Env Toy Input World Document Keystore Registry.
From S2P Require Import Recovery Identity IdentityFacts.

Module NamespaceDeleteFailurePoint.
Inductive t := JournalPersisted | SecretsDeleted | IdentityDeleted | RegistryCommitted.
#[global] Instance eq_dec : EqDecision t.
Proof. solve_decision. Defined.
End NamespaceDeleteFailurePoint.

Definition NAMESPACE_FAILURE : string := "injected namespace delete failure".

(** The secret references of the managed keys whose material is still present. *)
Definition live_refs (r : IdentityRecord) : list SecretRef :=
  map (ref_of_key (identity_id r))
    (filter (λ k, origin k = KeyOrigin.Managed ∧ material_erased k = false) (keys r)).

(** The secret references of the keys that a pending revision has sealed for later: they are
    not among the keys of the record until the revision is committed. *)
Definition staged_refs (r : IdentityRecord) : list SecretRef :=
  match pending_revision r with
  | Some p => pending_secret_refs p
  | None => []
  end.

(** A pending change that a plain deletion refuses to discard. *)
Definition has_pending_changes (r : IdentityRecord) : bool :=
  bool_decide (is_Some (pending_revision r)) || bool_decide (is_Some (pending_enrollment r))
  || bool_decide (is_Some (pending_request_signing r))
  || bool_decide (is_Some (pending_root_transfer r))
  || bool_decide (root_capability r = RootCapabilityState.Pending).

Section Namespace.
Context `{Env}.

(** [registry.identities.remove(did); registry.generation += 1]. *)
Definition unregister (registry : IdentityRegistry) (d : string) : DidResult IdentityRegistry :=
  bump_registry (set_identities (delete d (identities registry)) registry).

(** The journaled part of a deletion. *)
Definition delete_transaction (rt : StoreRuntime) (guard : StoreWriteGuard)
    (failure : option NamespaceDeleteFailurePoint.t) (registry : IdentityRegistry)
    (d : string) (r : IdentityRecord) : M IdentityRegistry :=
  let root := rt_root rt in
  let fail_at := maybe_fail NAMESPACE_FAILURE failure in
  let refs := live_refs r in
  let! tid := random_id in
  let! at_ := now in
  let journal := new_creation_journal CreationJournalKind.NamespaceDelete tid (identity_id r)
                   (did r) refs at_ in
  do! write_journal root guard journal;
  do! fail_at NamespaceDeleteFailurePoint.JournalPersisted;
  do! for_each (delete_secret guard rt) refs;
  do! fail_at NamespaceDeleteFailurePoint.SecretsDeleted;
  do! remove_identity root guard (identity_id r);
  do! fail_at NamespaceDeleteFailurePoint.IdentityDeleted;
  let! registry := lift (unregister registry d) in
  do! write_registry root guard registry;
  do! fail_at NamespaceDeleteFailurePoint.RegistryCommitted;
  do! remove_journal root guard tid;
  ret registry.

(** [DidStore::delete_identity_namespace_inner]. *)
Definition delete_identity_namespace_inner (s : DidStore) (d : string)
    (expected_generation : N) (discard_pending_changes : bool)
    (failure : option NamespaceDeleteFailurePoint.t) : M DidStore :=
  let rt := ds_runtime s in
  let! guard := acquire_write rt in
  let! registry := read_registry in
  if negb (bool_decide (expected_generation = registry_generation s))
     || negb (bool_decide (reg_generation registry = expected_generation))
  then
    if bool_decide (identities registry !! d = None)
       && bool_decide (reg_generation registry = saturating_succ expected_generation)
    then ret {| ds_runtime := rt; registry_generation := reg_generation registry |}
    else fail Conflict
  else
    let! sm := lift (ok_or (identities registry !! d) IdentityNotFound) in
    let! r := read_identity (is_identity_id sm) in
    do! sguard (negb (bool_decide (did r = d))
                || bool_decide (state r = IdentityState.Creating)
                || (negb discard_pending_changes && has_pending_changes r))
               InvalidPublicationState;
    let! registry := delete_transaction rt guard failure registry d r in
    ret {| ds_runtime := rt; registry_generation := reg_generation registry |}.

Definition delete_identity_namespace (s : DidStore) (d : string) (expected : N) : M DidStore :=
  delete_identity_namespace_inner s d expected false None.
Definition delete_identity_namespace_discarding_pending (s : DidStore) (d : string)
    (expected : N) : M DidStore :=
  delete_identity_namespace_inner s d expected true None.

(** [DidStore::discard_unpublished_enrollment]. *)
Definition discard_unpublished_enrollment (s : DidStore) (d expected_identity_id : string)
    (expected_generation : N) : M DidStore :=
  let rt := ds_runtime s in
  let! guard := acquire_write rt in
  let! registry := read_registry in
  do! sguard (negb (bool_decide (expected_generation = registry_generation s))
              || negb (bool_decide (reg_generation registry = expected_generation))) Conflict;
  let! sm := lift (ok_or (identities registry !! d) IdentityNotFound) in
  let! r := read_identity (is_identity_id sm) in
  let has_one_pending_enrollment :=
    xorb (bool_decide (is_Some (pending_enrollment r)))
         (bool_decide (is_Some (pending_request_signing r))) in
  do! sguard (negb (bool_decide (identity_id r = expected_identity_id))
              || negb (bool_decide (did r = d))
              || negb (bool_decide (state r = IdentityState.Enrolling))
              || negb has_one_pending_enrollment
              || bool_decide (is_Some (pending_revision r))
              || bool_decide (is_Some (pending_root_transfer r))
              || negb (bool_decide (root_capability r = RootCapabilityState.Absent)))
             InvalidPublicationState;
  let! registry := delete_transaction rt guard None registry d r in
  ret {| ds_runtime := rt; registry_generation := reg_generation registry |}.

End Namespace.

(** ** Crash safety *)

Lemma ctriple_dtriple {A} P (m : M A) Q X : ctriple P m Q X → dtriple P m Q X.
Proof. intros Hm w r w' HP Hr. specialize (Hm w r w' HP Hr). destruct r; tauto. Qed.

Lemma lookup_delete_all {A} (m : gmap string A) l p :
  foldr delete m l !! p = if bool_decide (p ∈ l) then None else m !! p.
Proof.
  induction l as [|x l IH]; simpl; [done|].
  destruct (decide (p = x)) as [->|Hne].
  - rewrite lookup_delete_eq. by rewrite bool_decide_true by set_solver.
  - rewrite lookup_delete_ne, IH by done. case_bool_decide; case_bool_decide; set_solver.
Qed.

Section Deletion.
Context `{Env}.

Abbreviation paths refs := (map record_storage_key refs).

(** The store without an identity: its secrets, its record and its entry gone. *)
Definition erased (iid : string) (refs : list SecretRef) (registry : IdentityRegistry)
    (d : Disk) : Disk :=
  upd_registry (λ _, Some (Parsed registry))
    (upd_identities (delete (storage_key iid))
       (upd_records (λ m, foldr delete m (paths refs)) d)).

Context (rt : StoreRuntime) (d0 : Disk) (registry registry' : IdentityRegistry)
        (j : CreationJournal).
Context (Hquiet : quiescent d0) (Hregistry : read_registry_at d0 = Ok registry).
Context (Hkind : cj_kind j = CreationJournalKind.NamespaceDelete)
        (Hschema : cj_schema_version j = JOURNAL_SCHEMA_VERSION).
Context (Hmember : registered registry (cj_did j) (cj_identity_id j) = true).
Context (Hremove : unregister registry (cj_did j) = Ok registry').

Abbreviation iid := (cj_identity_id j).
Abbreviation refs := (cj_secret_refs j).
Abbreviation df := (erased iid refs registry' d0).

(** The stages of the deletion, with the journal present. *)
Definition deleting (d : Disk) : Prop :=
  same_but iid refs d0 d ∧ d_journals d = journal_dir j ∧ d_registry d = d_registry d0.
Definition emptied (d : Disk) : Prop := ∀ p, p ∈ paths refs → d_records d !! p = None.
Definition deleted (d : Disk) : Prop :=
  same_but iid refs d0 d ∧ d_journals d = journal_dir j ∧
  d_registry d = Some (Parsed registry') ∧ emptied d ∧
  d_identities d !! storage_key iid = None.

Lemma unregister_Ok :
  reg_schema_version registry' = reg_schema_version registry ∧
  identities registry' = delete (cj_did j) (identities registry) ∧
  reg_generation registry' = (reg_generation registry + 1)%N.
Proof using Hremove.
  unfold unregister, bump_registry in Hremove. pose proof Hremove as Hr. inv_run Hr.
  injection Hr as <-. apply bump_Ok in Hstep as [-> _]. done.
Qed.

Lemma quiescent_erased : quiescent df.
Proof using Hquiet Hregistry Hremove.
  destruct unregister_Ok as (Hs & _). destruct Hquiet as (Hj & Hu & _).
  split_and!; [done..|]. exists registry'. by apply (read_registry_written d0 registry).
Qed.

Lemma deleted_close d :
  deleted d → upd_journals (delete (storage_key (transaction_id j))) d = df.
Proof using Hquiet.
  intros ((Hm & Hu & Ht & Hi & Hr) & Hj & Hreg & He & Hn).
  assert (d_identities d = delete (storage_key iid) (d_identities d0)) as Ei.
  { apply map_eq. intros p. destruct (decide (p = storage_key iid)) as [->|Hne];
      [by rewrite Hn, lookup_delete_eq|by rewrite lookup_delete_ne, Hi by done]. }
  assert (d_records d = foldr delete (d_records d0) (paths refs)) as Er.
  { apply map_eq. intros p. rewrite lookup_delete_all.
    case_bool_decide as Hp; [by apply He|by apply Hr]. }
  destruct Hquiet as (Hj0 & _).
  unfold erased, upd_journals, upd_registry, upd_identities, upd_records. simpl.
  rewrite Hm, Hreg, Ei, Hu, Ht, Er, Hj, Hj0. unfold journal_dir. by rewrite delete_singleton_eq.
Qed.

Lemma deleting_records d x :
  deleting d → x ∈ refs → deleting (upd_records (delete (record_storage_key x)) d).
Proof using Type.
  intros (Hs & ? & ?) Hin. split_and!; [|done..].
  eapply same_but_records; [done..|]. intros. by apply lookup_delete_ne.
Qed.

Lemma deleting_identity d :
  deleting d → deleting (upd_identities (delete (storage_key iid)) d).
Proof using Type.
  intros (Hs & ? & ?). split_and!; [|done..].
  apply same_but_identities; [done|]. intros. by apply lookup_delete_ne.
Qed.

Lemma deleted_records d x :
  deleted d → x ∈ refs → deleted (upd_records (delete (record_storage_key x)) d).
Proof using Type.
  intros (Hs & ? & ? & He & ?) Hin. split_and!; try done.
  - eapply same_but_records; [done..|]. intros. by apply lookup_delete_ne.
  - intros p Hp. simpl. destruct (decide (p = record_storage_key x)) as [->|Hne];
      [apply lookup_delete_eq|rewrite lookup_delete_ne by done; by apply He].
Qed.

Lemma deleted_identity d : deleted d → deleted (upd_identities (delete (storage_key iid)) d).
Proof using Type.
  intros (Hs & ? & ? & ? & ?). split_and!; try done.
  - apply same_but_identities; [done|]. intros. by apply lookup_delete_ne.
  - apply lookup_delete_eq.
Qed.

(** Each durable step of the deletion, in the order of the source. *)
Definition stopped (d : Disk) : Prop := deleting d ∨ deleted d ∨ d = df.

Lemma erase_secrets g :
  held rt g →
  ctriple deleting (for_each (delete_secret g rt) refs) (λ _ d, deleting d ∧ emptied d) stopped.
Proof using Type.
  intros Hg. eapply ctriple_conseq; [apply (ctriple_delete_refs rt g refs deleting Hg)|..];
    [by apply deleting_records|done|done|by left].
Qed.

Lemma erase_identity g :
  held rt g →
  ctriple (λ d, deleting d ∧ emptied d) (remove_identity (rt_root rt) g iid)
    (λ _ d, deleting d ∧ emptied d ∧ d_identities d !! storage_key iid = None) stopped.
Proof using Type.
  intros Hg. apply (ctriple_guarded rt g); [done|..].
  - intros d [Hd He]. split_and!; [by apply deleting_identity|done|apply lookup_delete_eq].
  - intros d [Hd _]. by left.
  - intros d [Hd _]. left. by apply deleting_identity.
Qed.

Lemma erase_entry g :
  held rt g →
  ctriple (λ d, deleting d ∧ emptied d ∧ d_identities d !! storage_key iid = None)
    (write_registry (rt_root rt) g registry') (λ _, deleted) stopped.
Proof using Type.
  intros Hg. assert (∀ d, deleting d ∧ emptied d ∧ d_identities d !! storage_key iid = None →
    deleted (upd_registry (λ _, Some (Parsed registry')) d)) as Hw
    by (intros d ((Hs & ? & ?) & He & Hn); by split_and!).
  apply (ctriple_guarded rt g); [done|exact Hw|..].
  - intros d [Hd _]. by left.
  - intros d Hd. right; left. by apply Hw.
Qed.

Lemma erase_journal g :
  held rt g →
  ctriple deleted (remove_journal (rt_root rt) g (transaction_id j)) (λ _ d, d = df) stopped.
Proof using Hquiet.
  intros Hg. apply (ctriple_guarded rt g); [done|apply deleted_close|..].
  - intros d Hd. by right; left.
  - intros d Hd. right; right. by apply deleted_close.
Qed.

Lemma recover_deleting g :
  held rt g → ctriple deleting (recover_journal rt g registry j) (λ _ d, d = df) stopped.
Proof using Hkind Hmember Hquiet Hremove.
  intros Hg. unfold recover_journal. rewrite Hkind, Hmember.
  eapply ctriple_bind; [by apply erase_secrets|intros []].
  eapply ctriple_bind; [by apply erase_identity|intros []].
  apply (ctriple_bind _ _ _ _ (λ _, deleted)).
  { eapply ctriple_lift_bind; [exact Hremove|].
    eapply ctriple_bind; [by apply erase_entry|intros []; by apply ctriple_ret]. }
  intros x. eapply ctriple_bind; [by apply erase_journal|intros []; by apply ctriple_ret].
Qed.

Lemma recover_deleted g :
  held rt g → ctriple deleted (recover_journal rt g registry' j) (λ _ d, d = df) stopped.
Proof using Hkind Hquiet Hremove.
  intros Hg. unfold recover_journal. rewrite Hkind.
  assert (registered registry' (cj_did j) iid = false) as ->.
  { unfold registered. destruct unregister_Ok as (_ & -> & _). by rewrite lookup_delete_eq. }
  apply (ctriple_bind _ _ _ _ (λ _, deleted)).
  { eapply ctriple_conseq; [apply (ctriple_delete_refs rt g refs deleted Hg)|..];
      [by apply deleted_records|done|by intros ? ? []|by right; left]. }
  intros []. apply (ctriple_bind _ _ _ _ (λ _, deleted)).
  { apply (ctriple_guarded rt g); [done|..]; intros d Hd; [by apply deleted_identity| |];
      right; left; [done|by apply deleted_identity]. }
  intros []. apply (ctriple_bind _ _ _ _ (λ _, deleted)); [by apply ctriple_ret|].
  intros x. eapply ctriple_bind; [by apply erase_journal|intros []; by apply ctriple_ret].
Qed.

(** From any stage the deletion is completed. *)
Lemma stopped_recovers d : stopped d → recovers_to rt d df.
Proof using All.
  intros Hd. destruct unregister_Ok as (Hs & _). split; [by apply quiescent_erased|].
  exists stopped. split; [done|]. apply ctriple_or; [|apply ctriple_or].
  - apply (recover_single rt j registry); [apply quiescent_erased|done|by right; right| |by left|].
    + intros x (_ & Hj & Hr). split; [done|]. rewrite <-Hregistry. by apply read_registry_same.
    + apply recover_deleting.
  - apply (recover_single rt j registry'); [apply quiescent_erased|done|by right; right| |by right; left|].
    + intros x (_ & Hj & Hr & _). split; [done|]. by apply (read_registry_written d0 registry).
    + apply recover_deleted.
  - eapply ctriple_conseq; [apply (recover_quiescent rt df), quiescent_erased|done|done|].
    intros x ->. by right; right.
Qed.
End Deletion.

Section NamespaceFacts.
Context `{Env}.

Lemma delete_transaction_safe rt g d0 registry registry' failure r :
  held rt g → quiescent d0 → read_registry_at d0 = Ok registry →
  registered registry (did r) (identity_id r) = true →
  unregister registry (did r) = Ok registry' →
  dtriple (λ d, d = d0) (delete_transaction rt g failure registry (did r) r)
    (λ x d, x = registry' ∧ d = erased (identity_id r) (live_refs r) registry' d0)
    (λ d, recovers_to rt d d0 ∨
          recovers_to rt d (erased (identity_id r) (live_refs r) registry' d0)).
Proof.
  intros Hg Hq Hreg Hm Hr. unfold delete_transaction.
  set (df := erased _ _ _ _). set (X := λ d, recovers_to rt d d0 ∨ recovers_to rt d df).
  assert (X d0) as H0 by (left; by apply recovers_to_quiescent).
  apply dtriple_kept_bind; [apply keeps_random_id|by intros d ->|intros tid].
  apply dtriple_kept_bind; [apply keeps_now|by intros d ->|].
  intros t. set (j := new_creation_journal _ _ _ _ _ _).
  assert (∀ d, stopped d0 registry' j d → X d) as HS
    by (intros d Hd; right; by apply (stopped_recovers rt d0 registry registry' j)).
  assert (deleting d0 j (upd_journals (<[storage_key tid := Parsed j]>) d0)) as Hstart.
  { split_and!; [by split_and!| |done]. simpl. by destruct Hq as (-> & _). }
  assert (∀ A P (m : M A) Q, ctriple P m Q (stopped d0 registry' j) → dtriple P m Q X) as HC.
  { intros A P m Q Hc. eapply triple_conseq; [by apply ctriple_dtriple|done|done|].
    intros w. apply HS. }
  assert (∀ point P, (∀ d, P d → X d) →
    dtriple P (maybe_fail NAMESPACE_FAILURE failure point) (λ _, P) X) as HF
    by (intros; by apply maybe_fail_triple).
  eapply dtriple_bind; [apply (dtriple_guarded_durable _ _ _ _ _ (deleting d0 j))|intros []];
    [by intros d ->|by intros d ->|intros d ->; apply HS; by left|].
  eapply dtriple_bind; [apply HF; intros d Hd; apply HS; by left|intros []].
  eapply dtriple_bind; [by apply HC, erase_secrets|intros []].
  eapply dtriple_bind; [apply HF; intros d [Hd _]; apply HS; by left|intros []].
  eapply dtriple_bind; [by apply HC, erase_identity|intros []].
  eapply dtriple_bind; [apply HF; intros d [Hd _]; apply HS; by left|intros []].
  rewrite Hr. apply dtriple_lift_bind; [intros d [Hd _]; apply HS; by left|intros ? [= <-]].
  eapply dtriple_bind; [by apply HC, erase_entry|intros []].
  eapply dtriple_bind; [apply HF; intros d Hd; apply HS; by right; left|intros []].
  eapply dtriple_bind; [by apply HC, erase_journal|intros []].
  by apply dtriple_ret.
Qed.

(** [registry'] is [registry] without the identity [r] of the DID [d], which has no staged
    keys unless pending changes are discarded. *)
Definition deletes (discard : bool) (d0 : Disk) (registry : IdentityRegistry) (d : string) (r : IdentityRecord)
    (registry' : IdentityRegistry) : Prop :=
  read_identity_at (identity_id r) d0 = Ok r ∧ did r = d ∧
  registered registry d (identity_id r) = true ∧ unregister registry d = Ok registry' ∧
  (discard = false → staged_refs r = []).

Lemma unregister_defined registry d :
  (reg_generation registry < u64_max)%N → ∃ registry', unregister registry d = Ok registry'.
Proof.
  intros Hlt. unfold unregister, bump_registry. simpl.
  assert (bump (reg_generation registry) = Ok (reg_generation registry + 1)%N) as ->
    by by apply bump_Ok.
  simpl. eauto.
Qed.

(** The part shared by the two deletions: guards passed, [r] is deleted. *)
Lemma delete_registered_safe rt g d0 registry discard failure sm d r :
  held rt g → quiescent d0 → read_registry_at d0 = Ok registry →
  (reg_generation registry < u64_max)%N →
  identities registry !! d = Some sm → read_identity_at (is_identity_id sm) d0 = Ok r →
  did r = d → (discard = false → staged_refs r = []) →
  dtriple (λ x, x = d0)
    (let! registry := delete_transaction rt g failure registry d r in
     ret {| ds_runtime := rt; registry_generation := reg_generation registry |})
    (λ s' x, ∃ r registry', deletes discard d0 registry d r registry' ∧
       x = erased (identity_id r) (live_refs r) registry' d0 ∧
       s' = {| ds_runtime := rt; registry_generation := reg_generation registry' |})
    (λ x, recovers_to rt x d0 ∨
       ∃ r registry', deletes discard d0 registry d r registry' ∧
         recovers_to rt x (erased (identity_id r) (live_refs r) registry' d0)).
Proof.
  intros Hg Hq Hreg Hlt Hsm Hr Hd Hst. pose proof (read_identity_id _ _ _ Hr) as Hid.
  destruct (unregister_defined registry d Hlt) as [registry' Hun].
  assert (registered registry d (identity_id r) = true) as Hm.
  { unfold registered. rewrite Hsm, Hid. by apply bool_decide_eq_true. }
  assert (deletes discard d0 registry d r registry') as Hdel
    by (split_and!; [by rewrite Hid|done..]).
  eapply dtriple_bind.
  - eapply dtriple_conseq; [subst d; by apply (delete_transaction_safe rt g d0 registry registry')|
      done| |].
    + intros a x Hx. exact Hx.
    + intros x [Hx|Hx]; [by left|right; eauto].
  - intros x. apply dtriple_ret. intros y [-> ->]. eauto 10.
Qed.

Lemma delete_namespace_safe s d expected discard failure w res w' registry :
  quiescent (disk w) → read_registry_at (disk w) = Ok registry →
  (reg_generation registry < u64_max)%N →
  delete_identity_namespace_inner s d expected discard failure w = (res, w') →
  match res with
  | Ok s' =>
      (disk w' = disk w ∧ identities registry !! d = None) ∨
      ∃ r registry', deletes discard (disk w) registry d r registry' ∧
        disk w' = erased (identity_id r) (live_refs r) registry' (disk w) ∧
        s' = {| ds_runtime := ds_runtime s; registry_generation := reg_generation registry' |}
  | Err _ =>
      recovers_to (ds_runtime s) (disk w') (disk w) ∨
      ∃ r registry', deletes discard (disk w) registry d r registry' ∧
        recovers_to (ds_runtime s) (disk w')
          (erased (identity_id r) (live_refs r) registry' (disk w))
  end.
Proof.
  intros Hq Hreg Hlt. set (rt := ds_runtime s). set (d0 := disk w) in *.
  set (X := λ x, recovers_to rt x d0 ∨ ∃ r registry', deletes discard d0 registry d r registry' ∧
       recovers_to rt x (erased (identity_id r) (live_refs r) registry' d0)).
  assert (∀ x, x = d0 → X x) as HX by (intros x ->; left; by apply recovers_to_quiescent).
  enough (dtriple (λ x, x = d0) (delete_identity_namespace_inner s d expected discard failure)
    (λ s' x, (x = d0 ∧ identities registry !! d = None) ∨
       ∃ r registry', deletes discard d0 registry d r registry' ∧
         x = erased (identity_id r) (live_refs r) registry' d0 ∧
         s' = {| ds_runtime := rt; registry_generation := reg_generation registry' |}) X) as Hmain.
  { intros Hrun. exact (Hmain w res w' eq_refl Hrun). }
  unfold delete_identity_namespace_inner. fold rt.
  apply dtriple_acquire_bind; [done|intros g Hg].
  apply dtriple_reads_bind; [done|intros registry1 Hr1].
  rewrite Hreg in Hr1. injection Hr1 as <-.
  destruct (negb _ || _).
  { destruct (_ && _) eqn:Hb; [|by apply triple_fail; intros; apply HX].
    apply andb_true_iff in Hb as [Hb%bool_decide_eq_true _]. apply dtriple_ret. by left. }
  apply dtriple_lift_bind; [done|intros sm Hsm%ok_or_Ok].
  apply dtriple_reads_bind; [done|intros r Hr].
  apply dtriple_guard_bind; [done|intros Hb].
  apply orb_false_iff in Hb as [[Hb _]%orb_false_iff Hpend].
  apply negb_false_iff, bool_decide_eq_true in Hb.
  assert (discard = false → staged_refs r = []) as Hst.
  { intros ->. simpl in Hpend. unfold has_pending_changes in Hpend.
    rewrite !orb_false_iff, bool_decide_eq_false in Hpend. destruct Hpend as ((((Hn & _) & _) & _) & _).
    apply eq_None_not_Some in Hn. unfold staged_refs. by rewrite Hn. }
  eapply dtriple_conseq; [by apply (delete_registered_safe rt g d0 registry discard failure sm)|done|
    by right|done].
Qed.

(** C2.  Crash safety of deletion: from a store with no open journal, whatever
    durable operation fails, [delete_identity_namespace] either returns, with the
    identity's record, its registry entry and the sealed keys of the managed keys its
    record lists gone and nothing else changed, or stops in a store that recovery
    brings back to the store before the call (no journal was written) or forward to
    the completed deletion.  A deletion that may not discard pending changes meets
    no key that is sealed but not listed yet; one that discards a pending revision
    leaves the sealed keys the revision has staged where they are. *)
Theorem delete_namespace_crash_safe s d expected discard failure w res w' registry :
  quiescent (disk w) → read_registry_at (disk w) = Ok registry →
  (reg_generation registry < u64_max)%N →
  delete_identity_namespace_inner s d expected discard failure w = (res, w') →
  match res with
  | Ok s' =>
      (disk w' = disk w ∧ identities registry !! d = None) ∨
      ∃ r registry', deletes discard (disk w) registry d r registry' ∧
        disk w' = erased (identity_id r) (live_refs r) registry' (disk w) ∧
        s' = {| ds_runtime := ds_runtime s; registry_generation := reg_generation registry' |}
  | Err _ =>
      recovers_to (ds_runtime s) (disk w') (disk w) ∨
      ∃ r registry', deletes discard (disk w) registry d r registry' ∧
        recovers_to (ds_runtime s) (disk w')
          (erased (identity_id r) (live_refs r) registry' (disk w))
  end.
Proof. apply delete_namespace_safe. Qed.

Lemma storage_key_inj `{!Base64Laws, !DigestLaws} x y : storage_key x = storage_key y → x = y.
Proof. intros Heq%b64url_encode_inj. by apply sha256_inj in Heq. Qed.

Lemma live_refs_identity r x : x ∈ live_refs r → sr_identity_id x = identity_id r.
Proof.
  unfold live_refs. intros Hx. apply list_elem_of_In, in_map_iff in Hx as (k & <- & _). done.
Qed.

(** What a deletion removes and what it keeps. *)
Lemma delete_namespace_frame `{!Base64Laws, !DigestLaws}
    s d expected discard failure w s' w' registry sm :
  quiescent (disk w) → read_registry_at (disk w) = Ok registry →
  (reg_generation registry < u64_max)%N → identities registry !! d = Some sm →
  delete_identity_namespace_inner s d expected discard failure w = (Ok s', w') →
  open_identity s' d w' = (Err IdentityNotFound, w') ∧
  (∀ r x, read_identity_at (is_identity_id sm) (disk w) = Ok r → x ∈ live_refs r →
     d_records (disk w') !! record_storage_key x = None) ∧
  (∃ registry', read_registry_at (disk w') = Ok registry' ∧
     ∀ d', d' ≠ d → identities registry' !! d' = identities registry !! d') ∧
  (∀ iid, iid ≠ is_identity_id sm →
     read_identity_at iid (disk w') = read_identity_at iid (disk w) ∧
     ∀ x, sr_identity_id x = iid →
       open_secret_at (ds_runtime s) x (disk w') = open_secret_at (ds_runtime s) x (disk w)).
Proof.
  intros Hq Hreg Hlt Hsm Hrun. apply (delete_namespace_safe _ _ _ _ _ _ _ _ registry) in Hrun;
    [|done..]. destruct Hrun as [[_ Hn]|(r & registry' & (Hr & Hd & Hm & Hun & _) & Hdisk & ->)];
    [congruence|].
  unfold registered in Hm. rewrite Hsm in Hm. apply bool_decide_eq_true in Hm.
  assert (reg_schema_version registry' = reg_schema_version registry ∧
    identities registry' = delete d (identities registry)) as [Hs Hi].
  { unfold unregister, bump_registry in Hun. inv_run Hun. by injection Hun as <-. }
  assert (read_registry_at (disk w') = Ok registry') as Hreg'.
  { apply (read_registry_written (disk w) registry); [done..|]. by rewrite Hdisk. }
  split_and!.
  - unfold open_identity, read_registry, reads, bind, lift. rewrite Hreg'. simpl.
    by rewrite Hi, lookup_delete_eq.
  - intros r' x Hr' Hx. rewrite Hm, Hr in Hr'. injection Hr' as <-. rewrite Hdisk. simpl.
    rewrite lookup_delete_all, bool_decide_true; [done|].
    apply list_elem_of_In, in_map. by apply list_elem_of_In.
  - exists registry'. split; [done|]. intros d' Hne. by rewrite Hi, lookup_delete_ne.
  - intros iid Hne. rewrite Hm in Hne. split.
    + unfold read_identity_at. rewrite Hdisk. simpl. rewrite lookup_delete_ne; [done|].
      intros Heq%storage_key_inj. congruence.
    + intros x Hx. unfold open_secret_at. rewrite Hdisk. simpl.
      rewrite lookup_delete_all, bool_decide_false; [done|].
      intros Hin%list_elem_of_In%in_map_iff. destruct Hin as (y & Heq & Hy).
      apply record_storage_key_inj in Heq as ->. apply list_elem_of_In, live_refs_identity in Hy.
      congruence.
Qed.

End NamespaceFacts.

(** ** Witnesses *)

(** The world after a creation in the concrete environment. *)
Definition created_store : DidStore := {| ds_runtime := sample_runtime; registry_generation := 1 |}.
Definition created_did : string :=
  match (@create_identity toy_env sample_store sample_spec initial_world).1 with
  | Ok (_, i) => did (di_record i)
  | Err _ => EmptyString
  end.
Definition created_registry : IdentityRegistry :=
  match @read_registry_at toy_env (disk created_world) with
  | Ok r => r
  | Err _ => default_registry
  end.
Definition deleted_world : World :=
  (@delete_identity_namespace toy_env created_store created_did 1 created_world).2.

Lemma created_registry_read :
  @read_registry_at toy_env (disk created_world) = Ok created_registry.
Proof.
  destruct (is_ok_Ok (@read_registry_at toy_env (disk created_world))) as [registry Hr];
    [vm_compute; reflexivity|]. unfold created_registry. by rewrite Hr.
Defined.
Lemma created_quiescent : @quiescent toy_env (disk created_world).
Proof.
  split_and!; [apply map_size_empty_inv; vm_compute; reflexivity..|].
  exists created_registry. apply created_registry_read.
Defined.

Lemma created_member : ∃ sm, identities created_registry !! created_did = Some sm.
Proof. apply is_some_Some. vm_compute. reflexivity. Defined.
Lemma created_deletes : ∃ s,
  @delete_identity_namespace_inner toy_env created_store created_did 1 false None created_world
  = (Ok s, deleted_world).
Proof.
  destruct (is_ok_Ok (@delete_identity_namespace_inner toy_env created_store created_did 1 false
    None created_world).1) as [s Hs]; [vm_compute; reflexivity|].
  exists s. rewrite <-Hs. apply surjective_pairing.
Defined.

Lemma delete_namespace_crash_safe_witness :
  ∃ r registry', disk deleted_world
    = @erased toy_env (identity_id r) (live_refs r) registry' (disk created_world).
Proof.
  destruct created_deletes as [s Hs]. destruct created_member as [sm Hsm].
  destruct (@delete_namespace_crash_safe toy_env created_store created_did 1 false None
    created_world _ _ created_registry created_quiescent created_registry_read
    ltac:(vm_compute; reflexivity) Hs) as [[_ Hn]|(r & registry' & _ & Hd & _)].
  - rewrite Hsm in Hn. discriminate Hn.
  - exists r, registry'. exact Hd.
Defined.
