(* ===== verification/Scenario.v ===== *)
(** * Concrete runs

    Programs in the concrete environment of [Toy] on which the witnesses of the
    library are evaluated: a device enrolls, is authorized, and is revoked; an
    identity is created and its request-signing key is rotated. *)

From stdpp Require Import base strings list gmap sorting.
From S2P Require Import Prelude Json Errors Records Env Toy Input World Document Keystore Registry.
From S2P Require Import Recovery Identity Adoption Lifecycle KeyImport IdentityFacts Namespace.

(** In the concrete environment a public key is its private key. *)
Definition root_raw : string := pad 32 "root-key".
Definition device_raw : string := pad 32 "device-key".

(** A published document: the root key, and the keys of the given devices. *)
Definition sample_did : string := "did:wba:example.com:agents:bob:e1_root".
Definition sample_kid (fragment : string) : string := (sample_did +:+ "#" +:+ fragment)%string.

Definition sample_method (k multibase : string) : Value :=
  json_object [("id", Str k); ("type", Str "Multikey"); ("controller", Str sample_did);
               ("publicKeyMultibase", Str multibase)].

Definition sample_document (keys : list (string * string)) (signing agreement : list string)
    (manifest : list DeviceManifestEntry) : Value :=
  json_object
    ([("id", Str sample_did);
      ("verificationMethod", Array (sample_method (sample_kid "root")
          (bytes [122; 237; 1] +:+ root_raw)
          :: map (λ e, sample_method e.1 e.2) keys));
      ("authentication", Array (map Str signing));
      ("assertionMethod", Array (Str (sample_kid "root") :: map Str signing));
      ("keyAgreement", Array (map Str agreement));
      ("proof", json_object [("verificationMethod", Str (sample_kid "root"));
                             ("proofValue", Str "signature")])] ++
     match manifest with
     | [] => []
     | _ => [("deviceManifest", toy_manifest_to_value
                {| manifest_type := "ANPDeviceManifest"; devices := manifest |})]
     end).

Definition imported_document : Value :=
  sample_document [(sample_kid "device", (bytes [122; 237; 1] +:+ device_raw)%string)]
    [sample_kid "device"] [] [].
Definition base_document : Value := sample_document [] [] [] [].

(** [base_document] with the keys of an enrolling device. *)
Definition authorizing_document (p : PreparedEnrollment) : Value :=
  let s := device_signing_key p in
  let e := device_e2ee_key p in
  sample_document
    [(epk_kid s, epk_public_key_multibase s); (epk_kid e, epk_public_key_multibase e)]
    [epk_kid s] [epk_kid e]
    [{| dme_device_id := ple_device_id p; dme_signing_key_id := epk_kid s;
        dme_e2ee_key_id := epk_kid e; dme_profiles := ple_profiles p |}].

Definition evidence_for (doc : Value) (version : N) : VerifiedDocumentEvidence :=
  {| ev_document_version := version; ev_registry_version := version;
     ev_document_digest := match @digest_document toy_env doc with
                           | Ok dg => dg
                           | Err _ => EmptyString
                           end |}.
Definition observation (doc : Value) (version : N) : AdoptVerifiedDocumentSpec :=
  {| avd_document := doc; avd_evidence := evidence_for doc version |}.

Definition sample_enrollment : EnrollmentSpec := {|
  es_verified_document := base_document; es_evidence := evidence_for base_document 1;
  es_device_id := "phone"; device_signing_fragment := "phone-sign";
  device_e2ee_fragment := "phone-e2ee"; es_profiles := ["anp.core.binding.v1"];
  es_capabilities := {| did_wba := true |} |}.

Definition sample_request_enrollment : RequestSigningEnrollmentSpec := {|
  rse_verified_document := base_document; rse_evidence := evidence_for base_document 1;
  rse_fragment := "phone-request"; rse_capabilities := {| did_wba := true |} |}.

(** A device enrolls, is authorized by version 2, sees it again, and is dropped by
    version 3. *)
Definition enrollment_program : M unit :=
  let! enrolled := @prepare_enrollment toy_env sample_store sample_enrollment in
  let document := authorizing_document enrolled.2 in
  let! active := @adopt_verified_document_inner toy_env enrolled.1.2 (observation document 2) false in
  do! sguard (negb (bool_decide (active.2 = AdoptDocumentOutcome.Activated))) Conflict;
  let! same := @adopt_verified_document_inner toy_env active.1 (observation document 2) false in
  do! sguard (negb (bool_decide (same.2 = AdoptDocumentOutcome.Unchanged))) Conflict;
  let! revoked := @adopt_verified_document_inner toy_env same.1 (observation base_document 3) false in
  sguard (negb (bool_decide (revoked.2 = AdoptDocumentOutcome.Revoked))) Conflict.

(** Another device, whose random numbers are other ones. *)
Definition other_world : World :=
  {| disk := empty_disk; io := NoFault; draws := 40; ticks := 0 |}.

Lemma enrollment_runs w0 :
  w0 = initial_world ∨ w0 = other_world → ∃ w, enrollment_program w0 = (Ok tt, w).
Proof.
  intros Hw0. destruct (is_ok_Ok (enrollment_program w0).1) as [[] Hr];
    [destruct Hw0 as [->| ->]; vm_compute; reflexivity|].
  exists (enrollment_program w0).2. rewrite <-Hr. apply surjective_pairing.
Defined.

(** The request-signing key of a created identity is rotated: the update is
    prepared, published and committed, and the old key is retired, revoked and
    erased. *)
Definition rotation_spec : DocumentUpdateSpec := {|
  request_signing_rotation := Some {| old_kid := "request"; new_fragment := "request-2" |};
  request_signing_mutations := []; device_mutations := []; update_services := None |}.

Definition rotation_program : M unit :=
  let! created := @create_identity toy_env sample_store sample_spec in
  let! prepared := @prepare_update toy_env created.2 rotation_spec in
  let rid := pu_revision_id prepared.2 in
  let! begun := @begin_publication toy_env prepared.1 rid in
  let! published := @mark_published toy_env begun rid in
  let! committed := @commit_pending toy_env published rid false None in
  let! ended := @end_retirement toy_env committed "request" in
  let! erased := @delete_revoked_key toy_env ended "request" in
  ret tt.

Lemma rotation_runs : ∃ w, rotation_program initial_world = (Ok tt, w).
Proof.
  destruct (is_ok_Ok (rotation_program initial_world).1) as [[] Hr]; [vm_compute; reflexivity|].
  exists (rotation_program initial_world).2. rewrite <-Hr. apply surjective_pairing.
Defined.

(** The steps of the two programs. *)
Lemma enrollment_scenario_at w0 : w0 = initial_world ∨ w0 = other_world →
  ∃ s i p w1 active w2 same w3 revoked w4,
  @prepare_enrollment toy_env sample_store sample_enrollment w0 = (Ok (s, i, p), w1) ∧
  @adopt_verified_document_inner toy_env i (observation (authorizing_document p) 2) false w1
    = (Ok (active, AdoptDocumentOutcome.Activated), w2) ∧
  @adopt_verified_document_inner toy_env active (observation (authorizing_document p) 2) false w2
    = (Ok (same, AdoptDocumentOutcome.Unchanged), w3) ∧
  @adopt_verified_document_inner toy_env same (observation base_document 3) false w3
    = (Ok (revoked, AdoptDocumentOutcome.Revoked), w4).
Proof.
  intros Hw0. destruct (enrollment_runs w0 Hw0) as [w Hw]. unfold enrollment_program in Hw.
  rewrite bind_Ok in Hw. destruct Hw as ([[s i] p] & w1 & H1 & Hw). cbn [fst snd] in Hw.
  do 3 (rewrite bind_Ok in Hw; let Ha := fresh "Ha" in destruct Hw as ([? ?] & ? & Ha & Hw);
    cbn [fst snd] in Hw; try (rewrite bind_Ok in Hw; let Hg := fresh "Hg" in
      destruct Hw as (? & ? & Hg & Hw); apply lift_Ok in Hg as [Hg%rguard_Ok ->];
      apply negb_false_iff, bool_decide_eq_true in Hg as ->)).
  apply lift_Ok in Hw as [Hg%rguard_Ok ->]. apply negb_false_iff, bool_decide_eq_true in Hg as ->.
  eexists _, _, _, _, _, _, _, _, _, _. split_and!; eassumption.
Qed.

Definition enrollment_scenario := enrollment_scenario_at initial_world (or_introl eq_refl).

Lemma rotation_scenario : ∃ s i w0 i1 u w1 i2 w2 i3 w3 i4 w4 i5 w5 i6 w6,
  @create_identity toy_env sample_store sample_spec initial_world = (Ok (s, i), w0) ∧
  @prepare_update toy_env i rotation_spec w0 = (Ok (i1, u), w1) ∧
  @begin_publication toy_env i1 (pu_revision_id u) w1 = (Ok i2, w2) ∧
  @mark_published toy_env i2 (pu_revision_id u) w2 = (Ok i3, w3) ∧
  @commit_pending toy_env i3 (pu_revision_id u) false None w3 = (Ok i4, w4) ∧
  @end_retirement toy_env i4 "request" w4 = (Ok i5, w5) ∧
  @delete_revoked_key toy_env i5 "request" w5 = (Ok i6, w6).
Proof.
  destruct rotation_runs as [w Hw]. unfold rotation_program in Hw.
  rewrite bind_Ok in Hw. destruct Hw as ([s i] & w0 & H0 & Hw). cbn [fst snd] in Hw.
  rewrite bind_Ok in Hw. destruct Hw as ([i1 u] & w1 & H1 & Hw). cbn [fst snd] in Hw.
  do 5 (rewrite bind_Ok in Hw; destruct Hw as (? & ? & ? & Hw)).
  eexists _, _, _, _, _, _, _, _, _, _, _, _, _, _, _, _. split_and!; eassumption.
Qed.

(** An identity with its root and a device key is imported. *)
Definition import_key (fragment raw : string) (r : KeyRole.t) : ImportedPrivateKey :=
  {| ipk_kid := fragment; ipk_role := r; ipk_encoding := PrivateKeyEncoding.Raw32;
     ipk_secret := raw |}.
Definition sample_import : IdentityImportSpec := {|
  ii_verified_document := imported_document; ii_evidence := evidence_for imported_document 4;
  ii_capabilities := {| did_wba := true |};
  ii_private_keys := [import_key "root" root_raw KeyRole.RootControl;
                      import_key "device" device_raw KeyRole.DeviceSigning] |}.

Lemma import_runs : ∃ s i w,
  @import_identity toy_env sample_store sample_import initial_world = (Ok (s, i, tt), w).
Proof.
  destruct (is_ok_Ok (@import_identity toy_env sample_store sample_import initial_world).1)
    as [[[s i] []] Hr]; [vm_compute; reflexivity|].
  exists s, i, (@import_identity toy_env sample_store sample_import initial_world).2.
  rewrite <-Hr. apply surjective_pairing.
Defined.
