(* ===== verification/AdoptionFacts.v ===== *)
(** * Correctness of adoption and enrollment (adoption.rs)

    Checkpoints never go back, local profiles change only by the additive
    upgrade, enrollment and state transitions survive crashes. *)

From stdpp Require Import base strings list gmap sorting.
From S2P Require Import Prelude Json Errors Records Env Toy Input World Document Keystore Registry.
From S2P Require Import Recovery Identity RecordFacts Adoption IdentityFacts Namespace Scenario.

(** ** Checkpoints *)

(** The order in which an identity accepts documents. *)
Definition checkpoint_le (c c' : DocumentCheckpoint) : Prop :=
  (document_version c ≤ document_version c')%N ∧ (registry_version c ≤ registry_version c')%N.

#[global] Instance checkpoint_le_preorder : PreOrder checkpoint_le.
Proof.
  split; [by intros c; split|]. intros c1 c2 c3 [H1 H2] [H3 H4]. split; lia.
Qed.

(** The same document up to its proof. *)
Definition same_intent (before after : Value) : Prop :=
  ∃ v, without_proof before = Ok v ∧ without_proof after = Ok v.

Lemma initial_confirmation_Ok r doc e :
  is_initial_proof_confirmation r doc e = Ok true →
  initial_publication_pending r = true ∧ ev_document_version e = 1%N ∧ ev_registry_version e = 1%N ∧
  (∃ c, checkpoint r = Some c ∧ document_version c = 1%N ∧ registry_version c = 1%N) ∧
  same_intent (document r) doc.
Proof.
  unfold is_initial_proof_confirmation. destruct (_ || _) eqn:Hb; [done|].
  rewrite !orb_false_iff, !negb_false_iff in Hb.
  destruct Hb as ((((((H1 & H2) & H3) & H4) & H5) & H6) & H7). intros Hc.
  inv_run Hc. inv_run Hc. injection Hc as Hc. apply bool_decide_eq_true in Hc as ->.
  destruct (checkpoint r) as [c|]; [|done]. simpl in H7. apply andb_true_iff in H7 as [H7 H8].
  split_and!; [done|by apply N.eqb_eq|by apply N.eqb_eq| |by exists a0].
  exists c. split_and!; [done|by apply N.eqb_eq..].
Qed.

Lemma checkpoint_progression_Ok c e :
  validate_checkpoint_progression (Some c) e = Ok tt →
  checkpoint_le c (checkpoint_of e) ∧
  (document_version c = ev_document_version e → document_digest c = ev_document_digest e).
Proof.
  intros Hp%rguard_Ok. rewrite !orb_false_iff, andb_false_iff, negb_false_iff in Hp.
  destruct Hp as [[H1%N.ltb_ge H2%N.ltb_ge] H3]. split; [by split|]. intros Heq.
  destruct H3 as [H3%N.eqb_neq|H3%bool_decide_eq_true]; congruence.
Qed.

(** What accepted evidence says about the document it replaces. *)
Definition accepts (r : IdentityRecord) (doc : Value) (e : VerifiedDocumentEvidence) : Prop :=
  ∀ c, checkpoint r = Some c →
    checkpoint_le c (checkpoint_of e) ∧
    (document_version c = ev_document_version e →
     document_digest c = ev_document_digest e ∨
     (initial_publication_pending r = true ∧ same_intent (document r) doc)).

Lemma progression_accepts r doc e :
  validate_checkpoint_progression (checkpoint r) e = Ok tt → accepts r doc e.
Proof.
  intros Hp c Hc. rewrite Hc in Hp. apply checkpoint_progression_Ok in Hp as [Hle Heq].
  split; [done|]. intros Hv. left. auto.
Qed.

Lemma confirmation_accepts r doc e :
  is_initial_proof_confirmation r doc e = Ok true → accepts r doc e.
Proof.
  intros Hi c Hc. apply initial_confirmation_Ok in Hi as (Hp & H1 & H2 & (c' & Hc' & H3 & H4) & Hs).
  rewrite Hc in Hc'. injection Hc' as <-. split; [|by right].
  split; simpl; rewrite ?H1, ?H2, ?H3, ?H4; done.
Qed.

Section AdoptionFacts.
Context `{Env}.

(** ** A successful adoption *)

Lemma guarded_durable_Ok root g f w u w' :
  bind (require_store g root) (λ _, durable f) w = (Ok u, w') → disk w' = f (disk w).
Proof.
  intros Hw. inv_run Hw. apply require_store_Ok in Hstep as ->. by apply durable_Ok in Hw.
Qed.

Lemma publish_record_Ok rt g tid r w r' w' :
  publish_record rt g tid r w = (Ok r', w') →
  r' = set_generation (generation r + 1) r ∧
  ∃ registry registry', read_registry_at (disk w) = Ok registry ∧
    registered registry (did r) (identity_id r) = true ∧
    register registry (did r) (summary r') = Ok registry' ∧
    disk w' = upd_journals (delete (storage_key tid))
      (upd_registry (λ _, Some (Parsed registry')) (written r' (disk w))).
Proof.
  unfold publish_record. intros Hp.
  inv_run Hp. apply lift_Ok in Hstep as [Hb%bump_Ok ->]. destruct Hb as [-> _].
  inv_run Hp. apply write_identity_Ok in Hstep.
  inv_run Hp. injection Hstep0 as Hreg <-.
  inv_run Hp. apply lift_Ok in Hstep0 as [Hm%rguard_Ok ->]. apply negb_false_iff in Hm.
  inv_run Hp. apply lift_Ok in Hstep0 as [Hadd ->].
  inv_run Hp. apply guarded_durable_Ok in Hstep0.
  inv_run Hp. apply guarded_durable_Ok in Hstep1. apply ret_Ok in Hp as [-> ->].
  split; [done|]. eexists a0, a2. split_and!; [|done|done|].
  - rewrite <-Hreg. apply read_registry_same. by rewrite Hstep.
  - by rewrite Hstep1, Hstep0, Hstep.
Qed.

Lemma persist_state_transition_Ok rt g r w r' w' :
  persist_state_transition rt g r w = (Ok r', w') →
  r' = set_generation (generation r + 1) r ∧
  ∃ registry registry' tid j, read_registry_at (disk w) = Ok registry ∧
    registered registry (did r) (identity_id r) = true ∧
    register registry (did r) (summary r') = Ok registry' ∧
    disk w' = upd_journals (delete (storage_key tid))
      (upd_registry (λ _, Some (Parsed registry')) (written r'
        (upd_journals (<[storage_key tid := Parsed j]>) (disk w)))).
Proof.
  unfold persist_state_transition. intros Hp. inv_run Hp. apply keeps_random_id in Hstep as [E0 _].
  inv_run Hp. apply keeps_now in Hstep as [E1 _].
  inv_run Hp. apply guarded_durable_Ok in Hstep.
  apply publish_record_Ok in Hp as (-> & registry & registry' & Hreg & Hm & Hadd & Hd).
  rewrite Hstep, E1, E0 in *. split; [done|]. eexists registry, registry', _, _. by split_and!.
Qed.

Lemma refresh_shape doc r :
  ∃ la, refresh_compatible_local_profiles doc r = set_local_authorization la r ∧
    (is_Some la ↔ is_Some (local_authorization r)).
Proof.
  assert (r = set_local_authorization (local_authorization r) r) as Hr by by destruct r.
  unfold refresh_compatible_local_profiles.
  destruct (local_authorization r) as [l|] eqn:Hl; [|exists None; by rewrite <-Hr].
  repeat case_match; (eexists; split; [first [done|exact Hr]|]); done || eauto.
Qed.

(** An accepted record: the fields that change, and how the retired devices do. *)
Lemma accept_document_shape doc e r r' :
  accept_document doc e r = Ok r' →
  ∃ la l, r' = set_revision (ev_document_version e) (set_initial_publication_pending false
      (set_checkpoint (Some (checkpoint_of e)) (set_document doc
        (set_retired_device_ids l (set_local_authorization la r))))) ∧
    (∀ id, id ∈ retired_device_ids r → id ∉ device_ids doc) ∧
    (∀ id, id ∈ l ↔ id ∈ retired_device_ids r ∨
                    (id ∈ device_ids (document r) ∧ id ∉ device_ids doc)) ∧
    (is_Some la ↔ is_Some (local_authorization r)).
Proof.
  unfold accept_document. intros Ha. inv_run Ha. injection Ha as <-.
  apply observe_devices_Ok in Hstep as (Hn & l & -> & Hl).
  destruct (refresh_shape doc r) as [la [Hr Hla]]. rewrite Hr in *. exists la, l. by split_and!.
Qed.

Lemma adoption_outcome_Ok r b e o r' :
  adoption_outcome r b e = Ok (o, r') →
  identity_id r' = identity_id r ∧ did r' = did r ∧ generation r' = generation r ∧
  document r' = document r ∧ checkpoint r' = checkpoint r ∧
  retired_device_ids r' = retired_device_ids r.
Proof.
  unfold adoption_outcome. intros Ho. repeat case_match; simplify_eq; try done.
  inv_run Ho. by injection Ho as _ <-.
Qed.

Lemma map_shape (f : KeyMetadata → KeyMetadata) ks :
  (∀ k, key_shape (f k) = key_shape k) → map key_shape (map f ks) = map key_shape ks.
Proof. intros Hf. rewrite map_map. by apply map_ext. Qed.

(** The outcome keeps what the normalization of a record looks at. *)
Lemma adoption_outcome_shape r b e o r' :
  adoption_outcome r b e = Ok (o, r') →
  schema_version r' = schema_version r ∧ root_key_fingerprint r' = root_key_fingerprint r ∧
  root_capability r' = root_capability r ∧ map key_shape (keys r') = map key_shape (keys r) ∧
  local_authorization r' = local_authorization r ∧ created_at r' = created_at r ∧
  (state r' = state r ∨ o = AdoptDocumentOutcome.Activated ∨ o = AdoptDocumentOutcome.Revoked).
Proof.
  unfold adoption_outcome. intros Ho. destruct (state r) eqn:Hs; [done| | |].
  - inv_run Ho. injection Ho as <- <-. split_and!; [done..| |done|done|auto].
    apply map_shape. intros k. destruct (bool_decide (key_state k = _)); reflexivity.
  - destruct b; simpl in Ho; [destruct (option_test _ _); injection Ho as <- <-; by split_and!; auto|].
    injection Ho as <- <-. split_and!; [done..| |done|done|auto].
    apply map_shape. intros k. by destruct (_ || _).
  - injection Ho as <- <-. split_and!; auto.
Qed.

(** The record an adoption writes is canonical, so it can be read again. *)
Lemma accepted_canonical r doc e o x y n :
  canonical_record r → adoption_outcome r (local_authorized r doc) e = Ok (o, x) →
  accept_document doc e x = Ok y →
  is_Some (local_authorization r) ∨ infer_local_authorization doc (keys r) = Ok None →
  canonical_record (set_generation n y).
Proof.
  intros Hr Ho Hy Hl. destruct (adoption_outcome_Ok _ _ _ _ _ Ho) as (_ & Hd & _).
  destruct (adoption_outcome_shape _ _ _ _ _ Ho) as (Hs & Hf & Hc & Hk & Hla & _).
  destruct (accept_document_shape _ _ _ _ Hy) as (la & l & -> & _ & _ & Hiff).
  eapply canonical_redocument; [exact Hr|..]; simpl; try done; eauto.
  rewrite Hla in Hiff. destruct la as [a|]; [by left; eauto|right]. split; [done|].
  destruct Hl as [Hl|Hl]; [|done]. apply Hiff in Hl as [? ?]. done.
Qed.

(** Everything a successful adoption establishes. *)
Record adopted (i : DidIdentity) (spec : AdoptVerifiedDocumentSpec) (sibling_only : bool)
    (d : Disk) (i' : DidIdentity) (o : AdoptDocumentOutcome.t) (d' : Disk)
    (r : IdentityRecord) : Prop := {
  ad_read : read_identity_at (identity_id (di_record i)) d = Ok r;
  ad_generation : generation r = generation (di_record i);
  ad_idle : pending_revision r = None;
  ad_verified : validate_verified_document (avd_document spec) (avd_evidence spec) = Ok tt;
  ad_did : get_str (avd_document spec) "id" = Some (did (di_record i));
  ad_root : method_root_fingerprint (avd_document spec) = Ok (root_key_fingerprint r);
  ad_accepts : accepts r (avd_document spec) (avd_evidence spec);
  ad_local : sibling_only = true → local_authorized r (avd_document spec) = true;
  ad_result :
    (o = AdoptDocumentOutcome.Unchanged ∧ i' = i ∧ d' = d ∧
     state r = IdentityState.Active ∧ local_authorized r (avd_document spec) = true ∧
     checkpoint r = Some (checkpoint_of (avd_evidence spec))) ∨
    (∃ x y, adoption_outcome r (local_authorized r (avd_document spec)) (avd_evidence spec)
              = Ok (o, x) ∧
       accept_document (avd_document spec) (avd_evidence spec) x = Ok y ∧
       di_runtime i' = di_runtime i ∧
       di_record i' = set_generation (generation r + 1) y ∧
       d_identities d' = <[storage_key (identity_id r) := Parsed (di_record i')]> (d_identities d)) }.

Lemma adopt_run i spec sibling w i' o w' :
  adopt_verified_document_inner i spec sibling w = (Ok (i', o), w') →
  ∃ r, adopted i spec sibling (disk w) i' o (disk w') r.
Proof.
  unfold adopt_verified_document_inner. intros Hp.
  inv_run Hp. apply lift_Ok in Hstep as [Hv ->]. destruct a.
  inv_run Hp. apply lift_Ok in Hstep as [Hid%rguard_Ok ->].
  apply negb_false_iff, bool_decide_eq_true in Hid.
  inv_run Hp. apply acquire_write_Ok in Hstep as [-> <-]. clear w. rename w0 into w.
  inv_run Hp. injection Hstep as Hr <-.
  inv_run Hp. apply lift_Ok in Hstep as [Hg%rguard_Ok ->].
  apply negb_false_iff, bool_decide_eq_true in Hg.
  inv_run Hp. apply lift_Ok in Hstep as [Hpend%rguard_Ok ->].
  apply bool_decide_eq_false, eq_None_not_Some in Hpend.
  inv_run Hp. assert (w0 = w) as ->.
  { destruct sibling; [|by apply ret_Ok in Hstep as [_ ->]].
    inv_run Hstep. apply lift_Ok in Hstep0 as [_ ->]. inv_run Hstep. injection Hstep0 as _ <-.
    by apply lift_Ok in Hstep as [_ ->]. }
  clear Hstep. inv_run Hp. apply lift_Ok in Hstep as [Hconf ->].
  inv_run Hp. assert (w0 = w ∧ accepts a0 (avd_document spec) (avd_evidence spec)) as [-> Hacc].
  { destruct a4; [apply ret_Ok in Hstep as [_ ->]|apply lift_Ok in Hstep as [Hpr ->]].
    - split; [done|]. destruct sibling; [done|]. by apply confirmation_accepts.
    - split; [done|]. destruct a5. by apply progression_accepts. }
  clear Hstep. inv_run Hp. apply lift_Ok in Hstep as [Hfp ->].
  inv_run Hp. apply lift_Ok in Hstep as [Hroot%rguard_Ok ->].
  apply negb_false_iff, bool_decide_eq_true in Hroot. subst a6.
  inv_run Hp. apply lift_Ok in Hstep as [Hloc%rguard_Ok ->].
  inv_run Hp. apply lift_Ok in Hstep as [Hout ->]. destruct a8 as [out x].
  exists a0. constructor; try done; [by intros ->; simpl in Hloc; apply negb_false_iff|].
  match type of Hp with (if ?b then _ else _) _ = _ => destruct b eqn:Hsame end.
  - apply ret_Ok in Hp as [[= -> ->] ->]. left.
    apply andb_true_iff in Hsame as [[Hu Hc]%andb_true_iff _].
    apply bool_decide_eq_true in Hu as ->. apply bool_decide_eq_true in Hc.
    unfold adoption_outcome in Hout. destruct (state a0); simplify_eq.
    + inv_run Hout. done.
    + destruct (local_authorized a0 _); simpl in Hout; [|done].
      by split_and!.
  - inv_run Hp. apply lift_Ok in Hstep as [Hy ->]. inv_run Hp. apply ret_Ok in Hp as [[= -> ->] ->].
    right. exists x, a8. simpl.
    destruct (adoption_outcome_Ok _ _ _ _ _ Hout) as (I1 & _ & G1 & _).
    assert (identity_id a8 = identity_id x ∧ generation a8 = generation x) as [I2 G2]
      by (destruct (accept_document_shape _ _ _ _ Hy) as (la & l & -> & _); done).
    split_and!; try done; destruct sibling.
    + apply persist_record_Ok in Hstep as (-> & _). congruence.
    + apply persist_state_transition_Ok in Hstep as (-> & _). congruence.
    + apply persist_record_Ok in Hstep as (-> & _ & ->). simpl. by rewrite I2, I1.
    + apply persist_state_transition_Ok in Hstep as (-> & ? & ? & ? & ? & _ & _ & _ & ->).
      simpl. by rewrite I2, I1.
Qed.

Lemma adopted_checkpoint i spec sibling d i' o d' r :
  adopted i spec sibling d i' o d' r → ∃ c, checkpoint r = Some c.
Proof.
  intros Ha. destruct (read_identity_is_canonical _ _ _ (ad_read _ _ _ _ _ _ _ _ Ha)) as [Hc _].
  by apply canonical_checkpoint in Hc as [c ?]; exists c.
Qed.

(** C13.  Checkpoints never go back: a successful adoption accepts a document whose
    document and registry versions are at least the recorded ones and whose digest
    is the verified one; at the same document version only the recorded digest is
    accepted, or, for the first publication of an identity created here, the same
    document with another proof.  Otherwise nothing changes. *)
Theorem adoption_checkpoint_monotone i spec sibling w i' o w' :
  adopt_verified_document_inner i spec sibling w = (Ok (i', o), w') →
  ∃ r c, read_identity_at (identity_id (di_record i)) (disk w) = Ok r ∧
    checkpoint r = Some c ∧
    checkpoint_le c (checkpoint_of (avd_evidence spec)) ∧
    (document_version c = ev_document_version (avd_evidence spec) →
     document_digest c = ev_document_digest (avd_evidence spec) ∨
     (initial_publication_pending r = true ∧ same_intent (document r) (avd_document spec))) ∧
    digest_document (avd_document spec) = Ok (ev_document_digest (avd_evidence spec)) ∧
    ((i' = i ∧ disk w' = disk w ∧ c = checkpoint_of (avd_evidence spec)) ∨
     (checkpoint (di_record i') = Some (checkpoint_of (avd_evidence spec)) ∧
      document (di_record i') = avd_document spec ∧
      revision (di_record i') = ev_document_version (avd_evidence spec) ∧
      generation (di_record i') = (generation r + 1)%N)).
Proof.
  intros Hrun. apply adopt_run in Hrun as [r Ha].
  destruct (adopted_checkpoint _ _ _ _ _ _ _ _ Ha) as [c Hc].
  destruct (ad_accepts _ _ _ _ _ _ _ _ Ha c Hc) as [Hle Heq].
  exists r, c. split_and!; [apply Ha|done|done|done| |].
  - pose proof (ad_verified _ _ _ _ _ _ _ _ Ha) as Hv. unfold validate_verified_document in Hv.
    do 3 inv_run Hv. apply rguard_Ok, negb_false_iff, bool_decide_eq_true in Hstep1. congruence.
  - destruct (ad_result _ _ _ _ _ _ _ _ Ha) as [(_ & -> & -> & _ & _ & Hu)|
      (x & y & Hout & Hy & _ & Hi & _)]; [left; split_and!; congruence|right].
    destruct (accept_document_shape _ _ _ _ Hy) as (la & l & -> & _). rewrite Hi. by split_and!.
Qed.

(** ** Identity states *)

(** The effect of adopting a document on the state of the identity, given whether
    the document authorizes the local keys. *)
Inductive adopt_step : IdentityState.t → bool → AdoptDocumentOutcome.t → IdentityState.t → Prop :=
  | adopt_activates :
      adopt_step IdentityState.Enrolling true AdoptDocumentOutcome.Activated IdentityState.Active
  | adopt_updates :
      adopt_step IdentityState.Active true AdoptDocumentOutcome.Updated IdentityState.Active
  | adopt_confirms :
      adopt_step IdentityState.Active true AdoptDocumentOutcome.Unchanged IdentityState.Active
  | adopt_revokes :
      adopt_step IdentityState.Active false AdoptDocumentOutcome.Revoked IdentityState.Revoked
  | adopt_stays_revoked b :
      adopt_step IdentityState.Revoked b AdoptDocumentOutcome.Revoked IdentityState.Revoked.

(** The keys of the local authorization. *)
Definition is_local_key (r : IdentityRecord) (k : KeyMetadata) : Prop :=
  match local_authorization r with
  | Some l => kid k = signing_kid l ∨ kid k = e2ee_kid l
  | None => local_request_signing_kid r = Some (kid k)
  end.

Lemma revoke_local_keys r k' :
  k' ∈ keys (revoke_local_authorization r) →
  ∃ k, k ∈ keys r ∧ kid k' = kid k ∧
    (is_local_key r k → key_state k' = KeyState.Revoked) ∧ (¬ is_local_key r k → k' = k).
Proof.
  unfold revoke_local_authorization, is_local_key. simpl. intros Hk.
  apply list_elem_of_In, in_map_iff in Hk as (k & <- & Hin). exists k.
  split; [by apply list_elem_of_In|]. destruct (local_authorization r) as [l|]; simpl.
  all: repeat case_bool_decide; simpl; (split; [done|split]); intros ?; try done;
    exfalso; intuition congruence.
Qed.

(** C14.  The identity state machine of adoption: an enrolling identity becomes
    active only on a document that authorizes its keys, an active one stays active
    exactly while its keys are authorized and is otherwise revoked with all its
    local keys, and a revoked one never leaves that state. *)
Theorem adoption_state_machine i spec w i' o w' :
  adopt_verified_document i spec w = (Ok (i', o), w') →
  ∃ r, read_identity_at (identity_id (di_record i)) (disk w) = Ok r ∧
    ((i' = i ∧ disk w' = disk w ∧
      adopt_step (state r) (local_authorized r (avd_document spec)) o (state r)) ∨
     adopt_step (state r) (local_authorized r (avd_document spec)) o (state (di_record i'))) ∧
    (o = AdoptDocumentOutcome.Revoked → state r = IdentityState.Active →
     ∀ k', k' ∈ keys (di_record i') →
       ∃ k, k ∈ keys r ∧ kid k' = kid k ∧
         (is_local_key r k → key_state k' = KeyState.Revoked) ∧ (¬ is_local_key r k → k' = k)) ∧
    (o = AdoptDocumentOutcome.Activated →
     pending_enrollment (di_record i') = None ∧ pending_request_signing (di_record i') = None ∧
     ∀ k', k' ∈ keys (di_record i') → key_state k' ≠ KeyState.Pending).
Proof.
  intros Hrun. apply adopt_run in Hrun as [r Ha]. exists r. split; [apply Ha|].
  destruct (ad_result _ _ _ _ _ _ _ _ Ha) as [(-> & -> & -> & Hs & Hl & _)|
    (x & y & Hout & Hy & _ & Hi & _)].
  { split; [left; rewrite Hs, Hl; split; [done|]; split; [done|constructor]|done]. }
  destruct (accept_document_shape _ _ _ _ Hy) as (la & l & -> & _). rewrite Hi. simpl. clear Hi Hy.
  unfold adoption_outcome in Hout. destruct (state r) eqn:Hs; [done| | |].
  - inv_run Hout. apply rguard_Ok, orb_false_iff in Hstep as [Hl%negb_false_iff _].
    injection Hout as <- <-. rewrite Hl. split_and!; [right; constructor|done|intros _; split_and!; [done..|]].
    simpl. intros k' Hk. apply list_elem_of_In, in_map_iff in Hk as (k & <- & _).
    by case_bool_decide.
  - destruct (local_authorized r (avd_document spec)); simpl in Hout.
    + destruct (option_test _ _); injection Hout as <- <-; rewrite Hs;
        (split_and!; [right; constructor|done|done]).
    + injection Hout as <- <-. split_and!; [right; constructor| |done].
      intros _ _ k' Hk. by apply revoke_local_keys.
  - injection Hout as <- <-. rewrite Hs. split_and!; [right; constructor|done|done].
Qed.

(** ** Devices *)

(** No device of the current document was retired before. *)
Definition devices_sound (r : IdentityRecord) : Prop :=
  ∀ id, id ∈ retired_device_ids r → id ∉ device_ids (document r).

(** The device history of [r'] extends that of [r]: retired devices stay retired,
    and a device of the old document is still listed or is now retired. *)
Definition devices_extend (r r' : IdentityRecord) : Prop :=
  devices_sound r' ∧
  (∀ id, id ∈ retired_device_ids r → id ∈ retired_device_ids r') ∧
  (∀ id, id ∈ device_ids (document r) →
         id ∈ device_ids (document r') ∨ id ∈ retired_device_ids r').

Lemma devices_extend_intro r r' :
  (∀ id, id ∈ retired_device_ids r → id ∉ device_ids (document r')) →
  (∀ id, id ∈ retired_device_ids r' ↔ id ∈ retired_device_ids r ∨
           (id ∈ device_ids (document r) ∧ id ∉ device_ids (document r'))) →
  devices_extend r r'.
Proof.
  intros Hn Hl. split_and!.
  - intros id Hid. apply Hl in Hid as [Hid|[_ Hid]]; [by apply Hn|done].
  - intros id Hid. apply Hl. by left.
  - intros id Hid. destruct (decide (id ∈ device_ids (document r'))) as [?|Hno]; [by left|].
    right. apply Hl. by right.
Qed.

End AdoptionFacts.

(** ** Crash safety of state transitions *)

(** [df] is [d0] with the record [r'] and its summary in the registry. *)
Record transitioned `{Env} (d0 : Disk) (r' : IdentityRecord) (df : Disk) : Prop := {
  tr_quiescent : quiescent df;
  tr_record : read_identity_at (identity_id r') df = Ok r';
  tr_registry : ∃ registry0 registry, read_registry_at d0 = Ok registry0 ∧
    read_registry_at df = Ok registry ∧
    identities registry = <[did r' := summary r']> (identities registry0);
  tr_others : same_but (identity_id r') [] d0 df }.

Section Transition.
Context `{Env}.
Context (rt : StoreRuntime) (j : CreationJournal).
Context (Hschema : cj_schema_version j = JOURNAL_SCHEMA_VERSION).

(** The journals whose recovery brings the summary of the record [x] up to date. *)
Definition syncs (x : IdentityRecord) : Prop :=
  cj_kind j = CreationJournalKind.StateTransition ∨
  cj_kind j = CreationJournalKind.RootImport ∧ root_import_committed x = true.

(** The recovery of such a journal, from the disk [d] whose record is [x]. *)
Lemma recover_syncing g registry d x (Q : IdentityRegistry → Disk → Prop) (X : Disk → Prop) :
  syncs x → read_identity_at (cj_identity_id j) d = Ok x → did x = cj_did j →
  ctriple (λ y, y = d) (let! registry := sync_summary rt g (cj_did j) x registry in
      do! remove_journal (rt_root rt) g (transaction_id j); ret registry) Q X →
  ctriple (λ y, y = d) (recover_journal rt g registry j) Q X.
Proof using Type.
  intros Hk Hx Hd Hm w r w' Hw. unfold recover_journal.
  assert (read_identity (cj_identity_id j) w = (Ok x, w)) as Hread
    by (unfold read_identity, reads; by rewrite Hw, Hx).
  destruct Hk as [->|[-> Hc]]; unfold bind at 1 2; rewrite Hread; simpl;
    rewrite bool_decide_true by done; simpl; [|rewrite Hc]; by apply Hm.
Qed.

Abbreviation closed d := (upd_journals (delete (storage_key (transaction_id j))) d).

(** A journal whose record and summary agree is only removed. *)
Lemma recover_transition_synced g registry d x :
  syncs x → held rt g → read_identity_at (cj_identity_id j) d = Ok x → did x = cj_did j →
  identities registry !! cj_did j = Some (summary x) →
  ctriple (λ y, y = d) (recover_journal rt g registry j) (λ _ y, y = closed d)
    (λ y, y = d ∨ y = closed d).
Proof using Type.
  intros Hk Hg Hx Hd Hs. apply (recover_syncing _ _ _ x); [done..|].
  apply (ctriple_bind _ _ _ _ (λ _ y, y = d)).
  { unfold sync_summary. rewrite bool_decide_true by done. by apply ctriple_ret. }
  intros b. apply (ctriple_bind _ _ _ _ (λ _ y, y = closed d));
    [apply (ctriple_guarded rt g); [done|by intros y ->|by left|intros y ->; by right]|].
  intros []. by apply ctriple_ret.
Qed.

(** A journal whose record moved on updates the summary first. *)
Lemma recover_transition_stale g registry registry' d x :
  syncs x → held rt g → read_identity_at (cj_identity_id j) d = Ok x → did x = cj_did j →
  identities registry !! cj_did j ≠ Some (summary x) →
  register registry (cj_did j) (summary x) = Ok registry' →
  let d' := upd_registry (λ _, Some (Parsed registry')) d in
  ctriple (λ y, y = d) (recover_journal rt g registry j) (λ _ y, y = closed d')
    (λ y, y = d ∨ y = d' ∨ y = closed d').
Proof using Type.
  intros Hk Hg Hx Hd Hs Hr d'. apply (recover_syncing _ _ _ x); [done..|].
  apply (ctriple_bind _ _ _ _ (λ _ y, y = d')).
  { unfold sync_summary. rewrite bool_decide_false by done.
    change (bump_registry _) with (register registry (cj_did j) (summary x)).
    apply (ctriple_lift_bind _ _ _ registry'); [done|].
    apply (ctriple_bind _ _ _ _ (λ _ y, y = d')); [|intros []; by apply ctriple_ret].
    apply (ctriple_guarded rt g); [done|by intros y ->|by left|intros y ->; by right; left]. }
  intros b. apply (ctriple_bind _ _ _ _ (λ _ y, y = closed d'));
    [apply (ctriple_guarded rt g); [done|by intros y ->|by right; left|intros y ->; by right; right]|].
  intros []. by apply ctriple_ret.
Qed.

(** Whole recoveries from the two situations. *)
Lemma transition_recovers_synced registry d x :
  syncs x → d_journals d = journal_dir j → quiescent (closed d) → read_registry_at d = Ok registry →
  read_identity_at (cj_identity_id j) d = Ok x → did x = cj_did j →
  identities registry !! cj_did j = Some (summary x) →
  recovers_to rt d (closed d).
Proof using Hschema.
  intros Hk Hj Hq Hreg Hx Hd Hs. apply (recovers_to_intro rt (λ y, y = d)); [done..|].
  apply (recover_single rt j registry); [done|done|by right|by intros y ->|by left|].
  intros g Hg. by eapply recover_transition_synced.
Qed.

Lemma transition_recovers_stale registry registry' d x :
  let d' := upd_registry (λ _, Some (Parsed registry')) d in
  syncs x → d_journals d = journal_dir j → quiescent (closed d') → read_registry_at d = Ok registry →
  read_registry_at d' = Ok registry' →
  read_identity_at (cj_identity_id j) d = Ok x → did x = cj_did j →
  identities registry !! cj_did j ≠ Some (summary x) →
  register registry (cj_did j) (summary x) = Ok registry' →
  recovers_to rt d (closed d').
Proof using Hschema.
  intros d' Hk Hj Hq Hreg Hreg' Hx Hd Hs Hr.
  apply (recovers_to_intro rt (λ y, y = d ∨ y = d')); [done|by left|]. apply ctriple_or.
  - apply (recover_single rt j registry); [done|done|by right|by intros y ->|by intros y ->; left; left|].
    intros g Hg. eapply ctriple_conseq; [by eapply recover_transition_stale|done|done|].
    intros y [->|[->| ->]]; [by left; left|by left; right|by right].
  - apply (recover_single rt j registry'); [done|done|by right|by intros y ->|by intros y ->; left; right|].
    intros g Hg. eapply ctriple_conseq;
      [eapply (recover_transition_synced g registry' d' x)|done|done|]; try done.
    + apply register_Ok in Hr as (_ & -> & _). by rewrite lookup_insert_eq.
    + intros y [->| ->]; [by left; right|by right].
Qed.
End Transition.

Section TransitionSafety.
Context `{Env}.

(** Where an interrupted transition to [r'] leaves the store. *)
Definition transition_interrupted (rt : StoreRuntime) (d0 : Disk) (r' : IdentityRecord) (d : Disk)
    : Prop :=
  recovers_to rt d d0 ∨ ∃ df, transitioned d0 r' df ∧ recovers_to rt d df.

(** The identity [r] of the store and its registry entry agree. *)
Definition registered_as (d : Disk) (r : IdentityRecord) : Prop :=
  read_identity_at (identity_id r) d = Ok r ∧
  ∃ registry, read_registry_at d = Ok registry ∧ (reg_generation registry < u64_max)%N ∧
    identities registry !! did r = Some (summary r).

Lemma written_journals r d m : d_journals (written r (upd_journals m d)) = m (d_journals d).
Proof. done. Qed.

Lemma same_but_written r d0 d :
  same_but (identity_id r) [] d0 d → same_but (identity_id r) [] d0 (written r d).
Proof. intros Hs. apply same_but_identities; [done|]. intros m p Hp. by apply lookup_insert_ne. Qed.

Lemma register_defined registry d sm :
  (reg_generation registry < u64_max)%N → ∃ registry', register registry d sm = Ok registry'.
Proof.
  intros Hlt. unfold register, bump_registry. simpl.
  assert (bump (reg_generation registry) = Ok (reg_generation registry + 1)%N) as ->
    by by apply bump_Ok. simpl. eauto.
Qed.

Section Stages.
Context (rt : StoreRuntime) (d0 : Disk) (r r' : IdentityRecord) (kind : CreationJournalKind.t)
        (tid at_ : string) (refs : list SecretRef).
Context (registry registry' : IdentityRegistry).
Context (Hquiet : quiescent d0) (Hread : read_identity_at (identity_id r) d0 = Ok r).
Context (Hregistry : read_registry_at d0 = Ok registry)
        (Hentry : identities registry !! did r = Some (summary r)).
Context (Hid : identity_id r' = identity_id r) (Hdid : did r' = did r)
        (Hcanonical : canonical_record r').
Context (Hregister : register registry (did r') (summary r') = Ok registry').

Abbreviation j := (new_creation_journal kind tid (identity_id r') (did r') refs at_).
Abbreviation opened := (upd_journals (<[storage_key tid := Parsed j]>)).
Abbreviation closed := (upd_journals (delete (storage_key tid))).
Abbreviation committed_registry := (upd_registry (λ _, Some (Parsed registry'))).

Lemma opened_journal d : d_journals d = ∅ → d_journals (opened d) = journal_dir j.
Proof using Type. intros Hd. simpl. by rewrite Hd. Qed.

Lemma close_opened d : d_journals d = ∅ → closed (opened d) = d.
Proof using Type.
  intros Hd. destruct d; unfold upd_journals; simpl in *. subst. f_equal.
  apply delete_insert_id. apply lookup_empty.
Qed.

Lemma read_registry_committed d : d_registry d = Some (Parsed registry') → read_registry_at d = Ok registry'.
Proof using Hregistry Hregister.
  intros Hd. apply (read_registry_written d0 registry); [done| |done].
  by apply register_Ok in Hregister as (-> & _).
Qed.

Lemma transitioned_full : transitioned d0 r' (committed_registry (written r' d0)).
Proof using Hquiet Hregistry Hcanonical Hregister.
  destruct Hquiet as (Hj & Hu & _). constructor.
  - split_and!; [done..|]. exists registry'. by apply read_registry_committed.
  - by apply read_identity_canonical, lookup_insert_eq.
  - exists registry, registry'. split_and!; [done|by apply read_registry_committed|].
    by apply register_Ok in Hregister as (_ & -> & _).
  - pose proof (same_but_written r' d0 d0 (same_but_refl _ _ _)) as (? & ? & ? & ? & ?).
    by split_and!.
Qed.

(** When the summary does not change, recovery leaves the registry alone. *)
Lemma transitioned_record :
  summary r' = summary r → transitioned d0 r' (written r' d0).
Proof using Hquiet Hregistry Hentry Hdid Hcanonical.
  intros Hs. destruct Hquiet as (Hj & Hu & Hr). constructor.
  - split_and!; [done..|]. exists registry. by rewrite <-Hregistry.
  - by apply read_written.
  - exists registry, registry. split_and!; [done|by rewrite <-Hregistry|].
    rewrite Hdid, Hs. symmetry. by apply insert_id.
  - apply same_but_written, same_but_refl.
Qed.

Lemma opened_recovers : syncs j r → recovers_to rt (opened d0) d0.
Proof using Hquiet Hread Hregistry Hentry Hid Hdid.
  intros Hsync.
  assert (d_journals d0 = ∅) as Hj by apply Hquiet.
  rewrite <-(close_opened d0 Hj) at 2.
  apply (transition_recovers_synced rt j eq_refl registry (opened d0) r); simpl; [done|..].
  - by rewrite Hj.
  - by rewrite close_opened.
  - by rewrite <-Hregistry.
  - by rewrite Hid, <-Hread.
  - done.
  - by rewrite Hdid.
Qed.

Lemma written_recovers :
  syncs j r' → ∃ df, transitioned d0 r' df ∧ recovers_to rt (written r' (opened d0)) df.
Proof using All.
  intros Hsync. assert (d_journals d0 = ∅) as Hj by apply Hquiet.
  assert (closed (written r' (opened d0)) = written r' d0) as Hc.
  { transitivity (written r' (closed (opened d0))); [done|]. by rewrite close_opened. }
  destruct (decide (summary r' = summary r)) as [Hs|Hs].
  - exists (written r' d0). split; [by apply transitioned_record|]. rewrite <-Hc.
    apply (transition_recovers_synced rt j eq_refl registry _ r'); simpl; [done|..].
    + by rewrite Hj.
    + rewrite Hc. by apply transitioned_record.
    + by rewrite <-Hregistry.
    + by apply read_written.
    + done.
    + by rewrite Hdid, Hs.
  - exists (committed_registry (written r' d0)). split; [apply transitioned_full|].
    replace (committed_registry (written r' d0))
      with (closed (committed_registry (written r' (opened d0)))) by by rewrite <-Hc.
    apply (transition_recovers_stale rt j eq_refl registry registry' _ r'); simpl; [done|..].
    + by rewrite Hj.
    + replace (closed (committed_registry (written r' (opened d0))))
        with (committed_registry (written r' d0)) by by rewrite <-Hc.
      apply transitioned_full.
    + by rewrite <-Hregistry.
    + by apply read_registry_committed.
    + by apply read_written.
    + done.
    + rewrite Hdid, Hentry. congruence.
    + done.
Qed.

Lemma committed_recovers_full :
  syncs j r' → recovers_to rt (committed_registry (written r' (opened d0)))
    (committed_registry (written r' d0)).
Proof using All.
  intros Hsync. assert (d_journals d0 = ∅) as Hj by apply Hquiet.
  assert (closed (committed_registry (written r' (opened d0))) = committed_registry (written r' d0))
    as Hc by (transitivity (committed_registry (written r' (closed (opened d0))));
              [done|by rewrite close_opened]).
  rewrite <-Hc. apply (transition_recovers_synced rt j eq_refl registry' _ r'); simpl; [done|..].
  - by rewrite Hj.
  - rewrite Hc. apply transitioned_full.
  - by apply read_registry_committed.
  - apply read_identity_canonical; [done|]. apply lookup_insert_eq.
  - done.
  - apply register_Ok in Hregister as (_ & -> & _). by rewrite lookup_insert_eq.
Qed.
End Stages.
(** The journaled end of a change, from the disk [base] with the journal opened. *)
Lemma publish_record_safe rt g base r x kind tid t refs :
  held rt g → quiescent base → registered_as base r →
  identity_id x = identity_id r → did x = did r →
  let r' := set_generation (generation x + 1) x in
  let j := new_creation_journal kind tid (identity_id x) (did x) refs t in
  canonical_record r' → syncs j r' →
  let opened := upd_journals (<[storage_key tid := Parsed j]>) base in
  dtriple (λ d, d = opened) (publish_record rt g tid x) (λ y d, y = r' ∧ transitioned base r' d)
    (λ d, d = opened ∨ ∃ df, transitioned base r' df ∧ recovers_to rt d df).
Proof.
  intros Hg Hq (Hread & registry & Hreg & Hlt & Hentry) Hid Hdid r' j Hcan Hsync d1.
  destruct (register_defined registry (did r') (summary r') Hlt) as [registry' Hregister].
  unfold publish_record. set (X := λ d, d = d1 ∨ _).
  apply dtriple_lift_bind; [by left|]. intros n [-> _]%bump_Ok. fold r'.
  assert (X (written r' d1)) as H2.
  { right. eapply (written_recovers rt base r r' kind tid t refs registry registry'); eauto. }
  eapply dtriple_bind; [apply (dtriple_guarded_durable _ _ _ _ _ (λ d, d = written r' d1))|intros []];
    [by intros d ->|by left|by intros d ->|].
  apply dtriple_reads_bind; [by intros d ->|intros reg1 Hreg1].
  assert (reg1 = registry) as ->.
  { rewrite (read_registry_same (written r' d1) base eq_refl) in Hreg1. congruence. }
  apply dtriple_guard_bind; [by intros d ->|intros _].
  apply dtriple_lift_bind; [by intros d ->|]. intros reg2 Hreg2.
  change (register registry (did r') (summary r') = Ok reg2) in Hreg2.
  rewrite Hregister in Hreg2. injection Hreg2 as <-.
  assert (recovers_to rt (upd_registry (λ _, Some (Parsed registry')) (written r' d1))
    (upd_registry (λ _, Some (Parsed registry')) (written r' base))) as H3
    by (eapply (committed_recovers_full rt base r r' kind tid t refs registry registry'); eauto).
  assert (transitioned base r' (upd_registry (λ _, Some (Parsed registry')) (written r' base))) as H4
    by by eapply (transitioned_full base r' registry registry').
  eapply dtriple_bind; [apply (dtriple_guarded_durable _ _ _ _ _
      (λ d, d = upd_registry (λ _, Some (Parsed registry')) (written r' d1)))|intros []];
    [by intros d ->|by intros d ->|intros d ->; right; eauto|].
  assert (upd_journals (delete (storage_key tid)) (upd_registry (λ _, Some (Parsed registry'))
    (written r' d1)) = upd_registry (λ _, Some (Parsed registry')) (written r' base)) as Hc.
  { transitivity (upd_registry (λ _, Some (Parsed registry'))
      (written r' (upd_journals (delete (storage_key tid)) d1))); [done|].
    unfold d1. rewrite (close_opened r' kind tid t refs); [done|apply Hq]. }
  eapply dtriple_bind; [apply (dtriple_guarded_durable _ _ _ _ _ (λ d, transitioned base r' d))|intros []].
  - intros d ->. by rewrite Hc.
  - intros d ->. right. eauto.
  - intros d ->. rewrite Hc. right. eexists. split; [done|]. apply recovers_to_quiescent. apply H4.
  - by apply dtriple_ret.
Qed.

Lemma persist_state_transition_safe rt g d0 r x :
  held rt g → quiescent d0 → registered_as d0 r →
  identity_id x = identity_id r → did x = did r →
  let r' := set_generation (generation x + 1) x in
  canonical_record r' →
  dtriple (λ d, d = d0) (persist_state_transition rt g x)
    (λ y d, y = r' ∧ transitioned d0 r' d) (transition_interrupted rt d0 r').
Proof.
  intros Hg Hq Hr Hid Hdid r' Hcan.
  assert (∀ d, d = d0 → transition_interrupted rt d0 r' d) as H0
    by (intros d ->; left; by apply recovers_to_quiescent).
  unfold persist_state_transition.
  apply dtriple_kept_bind; [apply keeps_random_id|done|intros tid].
  apply dtriple_kept_bind; [apply keeps_now|done|intros t].
  set (j := new_creation_journal _ _ _ _ _ _).
  set (d1 := upd_journals (<[storage_key tid := Parsed j]>) d0).
  assert (transition_interrupted rt d0 r' d1) as H1.
  { left. destruct Hr as (Hread & registry & Hreg & _ & Hentry).
    eapply (opened_recovers rt d0 r r' CreationJournalKind.StateTransition tid t [] registry); eauto.
    by left. }
  eapply dtriple_bind; [apply (dtriple_guarded_durable _ _ _ _ _ (λ d, d = d1))|intros []];
    [by intros d ->|done|by intros d ->|].
  eapply dtriple_conseq; [apply (publish_record_safe rt g d0 r x CreationJournalKind.StateTransition
    tid t []); try done; by left|done|done|].
  intros d [->|Hd]; [done|by right].
Qed.
(** The last step of an adoption: the record is written, alone for a sibling and
    with its registry summary otherwise. *)
Lemma persist_adoption_safe rt g d0 r x (sibling : bool) :
  held rt g → quiescent d0 → registered_as d0 r →
  identity_id x = identity_id r → did x = did r →
  (sibling = true → summary x = summary r) →
  let r' := set_generation (generation x + 1) x in
  canonical_record r' →
  dtriple (λ d, d = d0) (if sibling then persist_record rt g x else persist_state_transition rt g x)
    (λ y d, y = r' ∧ transitioned d0 r' d) (transition_interrupted rt d0 r').
Proof.
  intros Hg Hq Hreg Hid Hdid Hsum r' Hcan. destruct sibling.
  - destruct Hreg as (Hread & registry & Hreg & _ & Hentry).
    assert (transitioned d0 r' (written r' d0)) as Ht
      by (apply (transitioned_record d0 r r' registry); auto).
    intros w res w' Hw Hrun. pose proof (persist_record_run _ _ _ _ _ _ Hrun) as Hd.
    destruct res as [y|e].
    + apply persist_record_Ok in Hrun as (-> & _ & ->). rewrite Hw. done.
    + destruct Hd as [-> | ->]; rewrite Hw; [left; by apply recovers_to_quiescent|right].
      exists (written r' d0). split; [done|]. apply recovers_to_quiescent, Ht.
  - by eapply persist_state_transition_safe.
Qed.

Lemma sibling_outcome_summary r doc e o x :
  state r = IdentityState.Active → local_authorized r doc = true →
  adoption_outcome r (local_authorized r doc) e = Ok (o, x) → x = r.
Proof.
  intros Hs Hl. unfold adoption_outcome. rewrite Hs, Hl. simpl.
  by destruct (option_test _ _); intros [= _ <-].
Qed.

(** The checks of an adoption that is for siblings only read the disk, and pass for an active
    identity. *)
Lemma sibling_checks_safe r (sibling : bool) d0 (X : Disk → Prop) :
  X d0 →
  dtriple (λ d, d = d0)
    (if sibling then
       do! sguard (negb (bool_decide (state r = IdentityState.Active))
                   || negb (bool_decide (root_capability r = RootCapabilityState.Active)))
                  KeyNotUsable;
       let! journals := list_identity_transition_journals in
       sguard (existsb (transition_in_progress (identity_id r)) journals) Conflict
     else ret tt)
    (λ _ d, (sibling = true → state r = IdentityState.Active) ∧ d = d0) X.
Proof.
  intros HX. destruct sibling; [|by apply dtriple_ret].
  apply dtriple_guard_bind; [by intros ? ->|]. intros [Hs _]%orb_false_iff.
  apply negb_false_iff, bool_decide_eq_true in Hs.
  apply dtriple_reads_bind; [by intros ? ->|intros js _]. intros v res' v' Hv Hr.
  pose proof (keeps_sguard _ _ _ _ _ Hr) as [Hd _]. rewrite Hd, Hv. by destruct res'.
Qed.

(** Whether the record says to which device of a document its keys belong: it is bound to a
    device, or its keys are not those of a device the document lists.  The second holds for
    every document when the record lacks a signing or an agreement key of a device. *)
Definition binding_settled (r : IdentityRecord) (doc : Value) : Prop :=
  is_Some (local_authorization r) ∨ infer_local_authorization doc (keys r) = Ok None.

(** C3.  Crash safety of adoption: for a record that is bound to a device, or that does not
    hold the keys of a device the adopted document lists ([binding_settled]), whatever
    durable operation fails, the store recovers to the record before the call or to the
    record with the adopted document, and the registry summary always agrees with the
    record.  Left out is a record without a binding that holds the keys of a device which
    the document lists: reading it after the adoption adds the binding of the one device,
    or fails when there are two. *)
Theorem adoption_crash_safe i spec sibling w res w' r :
  quiescent (disk w) → registered_as (disk w) r → identity_id (di_record i) = identity_id r →
  binding_settled r (avd_document spec) →
  adopt_verified_document_inner i spec sibling w = (res, w') →
  match res with
  | Ok (i', _) => i' = i ∧ disk w' = disk w ∨ transitioned (disk w) (di_record i') (disk w')
  | Err _ =>
      ∃ r', document r' = avd_document spec ∧
        checkpoint r' = Some (checkpoint_of (avd_evidence spec)) ∧
        transition_interrupted (di_runtime i) (disk w) r' (disk w')
  end.
Proof.
  intros Hq Hreg Hi Hloc. set (d0 := disk w) in *. set (rt := di_runtime i).
  set (X := λ d, ∃ r', document r' = avd_document spec ∧
    checkpoint r' = Some (checkpoint_of (avd_evidence spec)) ∧ transition_interrupted rt d0 r' d).
  assert (∀ d, d = d0 → X d) as HX.
  { intros d ->. exists (set_checkpoint (Some (checkpoint_of (avd_evidence spec)))
      (set_document (avd_document spec) r)). split_and!; [done..|].
    left. by apply recovers_to_quiescent. }
  enough (dtriple (λ d, d = d0) (adopt_verified_document_inner i spec sibling)
    (λ x d, x.1 = i ∧ d = d0 ∨ transitioned d0 (di_record x.1) d) X) as Hmain.
  { intros Hrun. specialize (Hmain w res w' eq_refl Hrun). by destruct res as [[]|]. }
  unfold adopt_verified_document_inner. fold rt.
  apply dtriple_lift_bind; [done|intros [] _].
  apply dtriple_guard_bind; [done|intros _].
  apply dtriple_acquire_bind; [done|intros g Hg]. rewrite Hi.
  apply dtriple_reads_bind; [done|intros r1 Hr1].
  assert (r1 = r) as -> by (destruct Hreg as [Hr _]; congruence).
  apply dtriple_guard_bind; [done|intros _]. apply dtriple_guard_bind; [done|intros _].
  eapply dtriple_bind; [by apply (sibling_checks_safe r sibling d0 X), HX|].
  intros []. apply dtriple_pull. intros Hst.
  apply dtriple_lift_bind; [done|intros conf _].
  apply dtriple_kept_bind; [destruct conf; keeps_tac|done|intros []].
  apply dtriple_lift_bind; [done|intros fp _]. apply dtriple_guard_bind; [done|intros _].
  apply dtriple_guard_bind; [done|intros Hauth].
  apply dtriple_lift_bind; [done|intros [o x] Hout].
  match goal with |- dtriple _ (if ?b then _ else _) _ _ => destruct b end;
    [apply dtriple_ret; by left|].
  apply dtriple_lift_bind; [done|intros y Hy].
  destruct (adoption_outcome_Ok _ _ _ _ _ Hout) as (Hxi & Hxd & _).
  destruct (accept_document_shape _ _ _ _ Hy) as (la & l & Hshape & _).
  eapply dtriple_bind; [eapply dtriple_conseq;
    [apply (persist_adoption_safe rt g d0 r y sibling)|done| |]|]; try done.
  - by rewrite Hshape.
  - by rewrite Hshape.
  - intros Hsib. rewrite Hsib in Hauth. simpl in Hauth. apply negb_false_iff in Hauth.
    rewrite (sibling_outcome_summary r (avd_document spec) _ o x (Hst Hsib) Hauth Hout) in Hshape.
    by rewrite Hshape.
  - eapply accepted_canonical; [|exact Hout|exact Hy|done].
    destruct Hreg as [Hr _]. by apply read_identity_is_canonical in Hr as [? _].
  - intros d Hd. exists (set_generation (generation y + 1) y). split_and!; [by rewrite Hshape..|done].
  - intros a. apply dtriple_ret. intros d [-> Ht]. by right.
Qed.
End TransitionSafety.

(** ** Profiles *)

Lemma list_starts_with_prefix l p : list_starts_with l p = true ↔ ∃ q, l = p ++ q.
Proof.
  revert l. induction p as [|x p IH]; intros l; simpl; [split; [by exists l|done]|].
  destruct l as [|y l]; [split; [done|by intros [? ?]]|].
  rewrite andb_true_iff, bool_decide_eq_true, IH. split.
  - intros [-> [q ->]]. by exists q.
  - intros [q [= -> ->]]. eauto.
Qed.

Lemma existsb_elem (l : list string) x : existsb (λ v, bool_decide (v = x)) l = true ↔ x ∈ l.
Proof.
  rewrite existsb_exists. setoid_rewrite bool_decide_eq_true. split.
  - intros (y & Hy & ->). by apply list_elem_of_In.
  - intros Hx. exists x. split; [by apply list_elem_of_In|done].
Qed.

(** The only change of a device's profiles that keeps its authorization is
    the additive upgrade: the profiles are the same, or they had the three base
    profiles and gained exactly [anp.group.base.v2] at the end. *)
Lemma compatible_local_profiles_spec old new :
  compatible_local_profiles old new = true ↔
  new = old ∨
  (Forall (λ p, p ∈ old) P6_BASE ∧ P6_ADDED ∉ old ∧ new = old ++ [P6_ADDED]).
Proof.
  unfold compatible_local_profiles. rewrite orb_true_iff, bool_decide_eq_true.
  rewrite !andb_true_iff, negb_true_iff, Nat.eqb_eq, bool_decide_eq_true, list_starts_with_prefix.
  assert (forallb (λ p, existsb (λ v, bool_decide (v = p)) old) P6_BASE = true ↔
          Forall (λ p, p ∈ old) P6_BASE) as ->.
  { rewrite forallb_forall, Forall_forall. setoid_rewrite existsb_elem.
    setoid_rewrite list_elem_of_In. done. }
  assert (existsb (λ p, bool_decide (p = P6_ADDED)) old = false ↔ P6_ADDED ∉ old) as ->.
  { rewrite <-not_true_iff_false. by rewrite existsb_elem. }
  split.
  - intros [->|[[[[Hb Hn] Hlen] [q ->]] Hlast]]; [by left|right]. split_and!; [done..|].
    rewrite length_app in Hlen. destruct q as [|x [|y q]]; simpl in Hlen; try lia.
    rewrite last_snoc in Hlast. by injection Hlast as ->.
  - intros [->|(Hb & Hn & ->)]; [by left|right]. split_and!; [done..| | |].
    + rewrite length_app. done.
    + by eexists.
    + by rewrite last_snoc.
Qed.

(** ** Witnesses *)

Lemma adoption_checkpoint_monotone_witness :
  ∃ i w r c, @read_identity_at toy_env (identity_id (di_record i)) (disk w) = Ok r ∧
    checkpoint r = Some c ∧ checkpoint_le c (checkpoint_of (evidence_for base_document 3)).
Proof.
  destruct enrollment_scenario as (s & i & p & w1 & a & w2 & b & w3 & c & w4 & _ & _ & _ & Hrun).
  destruct (@adoption_checkpoint_monotone toy_env _ _ _ _ _ _ _ Hrun)
    as (r & c' & Hr & Hc & Hle & _).
  exists b, w3, r, c'. split; [exact Hr|]. split; [exact Hc|exact Hle].
Defined.

Lemma adoption_state_machine_witness :
  ∃ i spec w i' w',
    @adopt_verified_document toy_env i spec w = (Ok (i', AdoptDocumentOutcome.Activated), w') ∧
    state (di_record i') = IdentityState.Active ∧ pending_enrollment (di_record i') = None.
Proof.
  destruct enrollment_scenario as (s & i & p & w1 & a & w2 & b & w3 & c & w4 & _ & Hrun & _).
  exists i, (observation (authorizing_document p) 2), w1, a, w2. split; [exact Hrun|].
  destruct (@adoption_state_machine toy_env _ _ _ _ _ _ Hrun) as (r & Hr & Hstep & _ & Hact).
  destruct (Hact eq_refl) as (Hp & _). split; [|exact Hp].
  destruct Hstep as [(_ & _ & Hstep)|Hstep]; inversion Hstep; congruence.
Defined.

