(* ===== verification/EnrollmentFacts.v ===== *)
(** * Correctness of enrollment (adoption.rs)

    The record of an enrolling identity is canonical, its new keys open, and
    enrollment is crash safe. *)

From stdpp Require Import base strings list gmap sorting.
From S2P Require Import Prelude Json Errors Records Env Toy Input World Document Keystore Registry.
From S2P Require Import Recovery Identity RecordFacts Adoption IdentityFacts Scenario AdoptionFacts.

Section Sealing.
Context `{Env, !Base64Laws, !AeadLaws, !RandomLaws, !DigestLaws}.
Context (rt : StoreRuntime) (d0 : Disk) (j : CreationJournal).

(** Sealing fresh keys one after the other: those done open, those to do are
    still absent. *)
Definition sealing (done_ todo : list (ManagedPrivateKey * SecretRef)) (d : Disk) : Prop :=
  uncommitted j d0 d ∧
  (∀ e, e ∈ done_ → open_secret_at rt e.2 d = Ok (mpk_bytes e.1)) ∧
  (∀ e, e ∈ todo → d_records d !! record_storage_key e.2 = None).

Lemma open_secret_at_lookup x d d' :
  d_records d !! record_storage_key x = d_records d' !! record_storage_key x →
  open_secret_at rt x d = open_secret_at rt x d'.
Proof using Type. unfold open_secret_at. by intros ->. Qed.

Lemma uncommitted_record_file x record d :
  x ∈ cj_secret_refs j → uncommitted j d0 d →
  uncommitted j d0 (upd_records (<[record_storage_key x := Parsed record]>) d).
Proof using Type.
  intros Hin (Hs & ? & ?). split_and!; [|done..].
  eapply same_but_records; [done..|]. intros. by apply lookup_insert_ne.
Qed.

Lemma seal_one g done_ k x todo :
  x ∈ cj_secret_refs j → x ∉ map snd done_ → x ∉ map snd todo →
  dtriple (sealing done_ ((k, x) :: todo)) (seal_or_verify rt g k x)
    (λ _, sealing (done_ ++ [(k, x)]) todo) (uncommitted j d0).
Proof using All.
  intros Hin Hnd Hnt w res w' (Hu & Hd & Ht). unfold seal_or_verify, bind.
  destruct (seal_if_absent g rt x (mpk_bytes k) w) as [[[]|e] w1] eqn:Hs;
    pose proof (seal_if_absent_run _ _ _ _ _ _ _ Hs) as Hr.
  - rewrite bool_decide_false by done. intros [= <- <-].
    destruct (seal_opens _ _ _ _ _ _ Hs) as [Hopen Hother].
    destruct Hr as (record & _ & _ & _ & _ & Hdisk & _). split_and!.
    + rewrite Hdisk. by apply uncommitted_record_file.
    + intros e [He| ->%list_elem_of_singleton]%elem_of_app; [|done].
      rewrite <-(Hd e He). apply open_secret_at_lookup, Hother.
      intros Heq%record_storage_key_inj. apply Hnd. rewrite <-Heq.
      apply list_elem_of_In, in_map. by apply list_elem_of_In.
    + intros e He. rewrite Hother; [apply Ht; set_solver|].
      intros Heq%record_storage_key_inj. apply Hnt. rewrite <-Heq.
      apply list_elem_of_In, in_map. by apply list_elem_of_In.
  - destruct Hr as [_ [y Hy]]. pose proof (Ht (k, x)) as Hx. simpl in Hx. rewrite Hy in Hx.
    by assert (Some y = None) by (apply Hx; set_solver).
  - intros [= <- <-]. destruct Hr as [->|(_ & record & ->)]; [done|].
    by apply uncommitted_record_file.
Qed.

Lemma seal_new_keys g l done_ :
  incl (map snd l) (cj_secret_refs j) → NoDup (map snd (done_ ++ l)) →
  dtriple (sealing done_ l) (for_each (λ e, seal_or_verify rt g e.1 e.2) l)
    (λ _, sealing (done_ ++ l) []) (uncommitted j d0).
Proof using All.
  revert done_. induction l as [|[k x] l IH]; intros done_ Hin Hnd; simpl.
  - rewrite app_nil_r. apply dtriple_ret. done.
  - assert (NoDup (map snd done_ ++ x :: map snd l)) as Hnd'
      by by rewrite map_app in Hnd.
    apply NoDup_app in Hnd' as (_ & Hdisj & Hl). apply NoDup_cons in Hl as [Hx Hl].
    eapply dtriple_bind; [apply seal_one; [apply list_elem_of_In, Hin; by left| |done]|intros []].
    + intros Hc. apply (Hdisj x Hc). set_solver.
    + replace (done_ ++ (k, x) :: l) with ((done_ ++ [(k, x)]) ++ l) by by rewrite <-app_assoc.
      apply IH; [intros y Hy; apply Hin; by right|]. by rewrite <-app_assoc.
Qed.
End Sealing.

Section Enrollment.
Context `{Env, !Base64Laws, !AeadLaws, !RandomLaws, !DigestLaws}.

(** Every managed key opens, to a secret with the property [φ]. *)
Definition secrets_hold (φ : KeyMetadata → string → Prop) (rt : StoreRuntime)
    (r : IdentityRecord) (d : Disk) : Prop :=
  Forall (λ m, origin m = KeyOrigin.Managed →
            ∃ secret, open_secret_at rt (ref_of_key (identity_id r) m) d = Ok secret ∧
              String.length secret = 32 ∧ φ m secret) (keys r).

(** The metadata shows the public key of the secret. *)
Definition shows_public (m : KeyMetadata) (secret : string) : Prop :=
  public_key_multibase_of (public_key_from_raw (role m) secret) = Ok (public_key_multibase m).

Lemma secrets_hold_open φ rt r d : secrets_hold φ rt r d → secrets_open rt r d.
Proof.
  intros Hm. eapply Forall_impl; [exact Hm|]. simpl. intros m Hs Ho.
  destruct (Hs Ho) as (secret & ? & ? & _). eauto.
Qed.

Lemma secrets_hold_records φ rt r d d' :
  d_records d' = d_records d → secrets_hold φ rt r d → secrets_hold φ rt r d'.
Proof.
  intros Hr Hm. eapply Forall_impl; [exact Hm|]. simpl. intros m Hs Ho.
  destruct (Hs Ho) as (secret & Hopen & ?). exists secret. split; [|done].
  by rewrite (open_secret_at_lookup _ _ _ d) by by rewrite Hr.
Qed.

(** What the enrollments and imports give their transaction: an identity in the
    state [st]. *)
Record enrollable {A} (st : IdentityState.t) (φ : KeyMetadata → string → Prop) (rt : StoreRuntime) (iid d : string)
    (new_keys : list (ManagedPrivateKey * SecretRef)) (r : IdentityRecord) (prepared : A)
    : Prop := {
  en_id : identity_id r = iid;
  en_did : did r = d;
  en_state : state r = st;
  en_canonical : canonical_record r;
  en_secrets : ∀ x, (∀ e, e ∈ new_keys → open_secret_at rt e.2 x = Ok (mpk_bytes e.1)) →
                    secrets_hold φ rt r x }.

Lemma enroll_transaction_safe {A} st φ rt g d0 registry tid iid d at_ new_keys
    (record : DidResult (IdentityRecord * A)) :
  st ≠ IdentityState.Creating → quiescent d0 → read_registry_at d0 = Ok registry → identities registry !! d = None →
  fresh_for iid (map snd new_keys) d0 → NoDup (map snd new_keys) →
  Forall (λ x, sr_identity_id x = iid) (map snd new_keys) →
  (∀ r p, record = Ok (r, p) → enrollable st φ rt iid d new_keys r p) →
  dtriple (λ x, x = d0) (enroll_transaction rt g registry tid iid d at_ new_keys record)
    (λ res x, ∃ registry', registry_generation res.1.1 = reg_generation registry' ∧
       record = Ok (di_record res.1.2, res.2) ∧
       added_identity st rt d0 (di_record res.1.2) registry' x ∧
       secrets_hold φ rt (di_record res.1.2) x)
    (creation_interrupted st rt d0).
Proof.
  intros Hne Hq Hreg Hnew Hfr Hnd Hrefs Hrec.
  set (j := new_creation_journal CreationJournalKind.Create tid iid d (map snd new_keys) at_).
  set (X := creation_interrupted st rt d0).
  assert (∀ x, uncommitted j d0 x → X x) as HU.
  { intros x Hx. left. by apply (uncommitted_recovers rt d0 registry j). }
  unfold enroll_transaction. fold j.
  eapply dtriple_bind; [apply (dtriple_guarded_durable _ _ _ _ _ (sealing rt d0 j [] new_keys))|intros []].
  { intros x ->. split_and!; [split_and!; simpl; [by split_and!|done|by destruct Hq as (-> & _)]
      |set_solver|]. intros e He. simpl. apply (proj2 Hfr).
    apply list_elem_of_In, in_map, in_map. by apply list_elem_of_In. }
  { intros x ->. left. by apply recovers_to_quiescent. }
  { intros x ->. apply HU. split_and!; simpl; [by split_and!|done|by destruct Hq as (-> & _)]. }
  eapply dtriple_bind; [eapply dtriple_conseq;
    [apply (seal_new_keys rt d0 j g new_keys []); [apply incl_refl|exact Hnd]
    |done|intros ? ? Hx; exact Hx|exact HU]|intros []].
  apply dtriple_lift_bind; [intros x (Hu & _); by apply HU|intros [r p] Hr].
  destruct (Hrec r p Hr) as [Hid Hdid Hst Hcan Hsec].
  assert (activated r = r) as Hact by (unfold activated; by rewrite bool_decide_false by congruence).
  set (U := λ x, uncommitted j d0 x ∧ secrets_hold φ rt r x).
  set (V := λ x, ∃ y, U y ∧ x = upd_identities (<[storage_key (identity_id r) := Parsed r]>) y).
  assert (∀ x, V x → X x) as HV.
  { intros x (y & [Hy _] & ->). apply HU. by apply uncommitted_record. }
  eapply dtriple_bind; [apply (dtriple_guarded_durable _ _ _ _ _ V)|intros []].
  { intros x (Hu & Ho & _). exists x. split; [split; [done|by apply Hsec]|done]. }
  { intros x (Hu & _). by apply HU. }
  { intros x (Hu & Ho & _). apply HV. exists x. split; [split; [done|by apply Hsec]|done]. }
  apply dtriple_lift_bind; [exact HV|intros registry' Hcommit].
  rewrite <-Hdid in Hcommit.
  assert (∀ y, U y → added_identity st rt d0 r registry' (completed r registry' y))
    as Hadd.
  { intros y [Hu Ho%secrets_hold_open].
    assert (added_identity (state (activated r)) rt d0 (activated r) registry'
      (completed r registry' y)) as Ha
      by (apply (completed_added rt d0 registry j); rewrite ?Hact; done).
    by rewrite Hact, Hst in Ha. }
  set (C := λ x, ∃ y, U y ∧ x = upd_journals (λ _, journal_dir j) (completed r registry' y)).
  assert (∀ y, U y → upd_registry (λ _, Some (Parsed registry'))
    (upd_identities (<[storage_key (identity_id r) := Parsed r]>) y) =
    upd_journals (λ _, journal_dir j) (completed r registry' y)) as Heq.
  { intros y [(_ & _ & Hj) _]. unfold completed. rewrite Hact. destruct y; simpl in *. by subst. }
  assert (∀ x, C x → X x) as HC.
  { intros x (y & Hy & ->). right. exists r, registry', (completed r registry' y).
    split; [by apply Hadd|]. destruct Hy as [Hu Ho%secrets_hold_open].
    apply (committed_recovers rt d0 registry j); rewrite ?Hact; try done. by left. }
  eapply dtriple_bind; [apply (dtriple_guarded_durable _ _ _ _ _ C)|intros []].
  { intros x (y & Hy & ->). exists y. split; [done|]. by apply Heq. }
  { exact HV. }
  { intros x (y & Hy & ->). apply HC. exists y. split; [done|]. by apply Heq. }
  assert (∀ y, upd_journals (delete (storage_key tid))
    (upd_journals (λ _, journal_dir j) (completed r registry' y)) = completed r registry' y)
    as Hclose by (intros; by apply (close_journal j)).
  eapply dtriple_bind; [apply (dtriple_guarded_durable _ _ _ _ _
    (λ x, added_identity st rt d0 r registry' x ∧
          secrets_hold φ rt r x))|intros []].
  { intros x (y & Hy & ->). rewrite Hclose. split; [by apply Hadd|].
    by apply (secrets_hold_records _ _ _ y), Hy. }
  { exact HC. }
  { intros x (y & Hy & ->). rewrite Hclose. right. exists r, registry', (completed r registry' y).
    split; [by apply Hadd|]. apply recovers_to_quiescent. by apply (Hadd y Hy). }
  apply dtriple_ret. intros x [Hx Hm]. by exists registry'.
Qed.

(** ** The two records *)

Lemma key_metadata_from_public_Ok k r o s pk t m :
  key_metadata_from_public k r o s pk t = Ok m →
  kid m = k ∧ role m = r ∧ origin m = o ∧ key_state m = s ∧ version m = 1%N ∧
  public_key_multibase_of pk = Ok (public_key_multibase m).
Proof. unfold key_metadata_from_public. intros Hm. inv_run Hm. by injection Hm as <-. Qed.

(** The method checks of a verified document settle the root key of the record. *)
Lemma method_root_fixed doc d t root fp r :
  get_str doc "id" = Some d → optional_root_metadata doc t = Ok root →
  method_root_fingerprint doc = Ok fp →
  did r = d → root_key_fingerprint r = fp → root_capability r = RootCapabilityState.Absent →
  document r = doc →
  (∃ ks, keys r = option_list root ++ ks ∧ Forall (λ k, role k ≠ KeyRole.RootControl) ks) →
  ∃ p, for_did (did r) = Ok p ∧ normalize_fingerprint p r = Ok r.
Proof.
  intros Hid Hroot Hfp Hd Hf Hc Hdoc (ks & Hk & Hks).
  unfold method_root_fingerprint, optional_root_metadata in *.
  inv_run Hfp. rewrite Hstep in Hroot. simpl in Hroot.
  unfold validate_method_document in Hstep. inv_run Hstep. apply ok_or_Ok in Hstep0.
  rewrite Hid in Hstep0. injection Hstep0 as <-. inv_run Hstep. inv_run Hstep.
  assert (a = a0) as ->.
  { destruct (DidProfile.supports_root_control a0); [inv_run Hstep|]; by injection Hstep as <-. }
  exists a0. split; [congruence|]. unfold normalize_fingerprint. rewrite Hf.
  destruct (DidProfile.supports_root_control a0).
  - inv_run Hfp. injection Hfp as <-. unfold is_empty.
    by rewrite bool_decide_false by by eapply fingerprint_nonempty.
  - injection Hfp as <-. injection Hroot as <-. rewrite Hc, Hk. simpl.
    destruct (existsb _ ks) eqn:Hex; [|done].
    apply existsb_exists in Hex as (k & Hin%list_elem_of_In & Hr).
    rewrite Forall_forall in Hks. destruct (Hks k Hin). unfold is_role in Hr.
    by apply bool_decide_eq_true in Hr.
Qed.

(** The metadata of the root key, when there is one, is external. *)
Lemma optional_root_external doc t root :
  optional_root_metadata doc t = Ok root →
  Forall (λ k, origin k = KeyOrigin.External) (option_list root).
Proof.
  unfold optional_root_metadata. intros Hr. inv_run Hr.
  destruct (DidProfile.supports_root_control a); [|by injection Hr as <-].
  inv_run Hr. inv_run Hr. injection Hr as <-. apply key_metadata_Ok in Hstep1 as (_ & _ & ? & _).
  by repeat constructor.
Qed.

Lemma secrets_hold_new φ rt r x root (new : list (ManagedPrivateKey * KeyMetadata)) :
  keys r = root ++ map snd new → Forall (λ k, origin k = KeyOrigin.External) root →
  (∀ k m, (k, m) ∈ new → open_secret_at rt (ref_of_key (identity_id r) m) x = Ok (mpk_bytes k) ∧
                         String.length (mpk_bytes k) = 32 ∧
                         φ m (mpk_bytes k)) →
  secrets_hold φ rt r x.
Proof.
  intros Hk Hroot Hnew. unfold secrets_hold. rewrite Hk. apply Forall_app. split.
  - eapply Forall_impl; [exact Hroot|]. intros m Hm Hc. congruence.
  - apply Forall_forall. intros m Hin _. apply list_elem_of_In, in_map_iff in Hin as ([k m'] & <- & Hin).
    apply list_elem_of_In, Hnew in Hin as (Ho & Hl & Hp). simpl. eauto.
Qed.

Lemma enrollment_record_Ok rt spec d iid eid sk ek t k1 k2 r p :
  get_str (es_verified_document spec) "id" = Some d →
  enrollment_record spec d iid eid sk ek t k1 k2 = Ok (r, p) →
  String.length (mpk_bytes k1) = 32 ∧ mpk_role k1 = KeyRole.DeviceSigning →
  String.length (mpk_bytes k2) = 32 ∧ mpk_role k2 = KeyRole.E2eeAgreement →
  enrollable IdentityState.Enrolling shows_public rt iid d [(k1, new_ref iid sk KeyRole.DeviceSigning);
                       (k2, new_ref iid ek KeyRole.E2eeAgreement)] r p.
Proof.
  intros Hid Hr [L1 M1] [L2 M2]. unfold enrollment_record in Hr. do 4 inv_run Hr. injection Hr as <- _.
  apply key_metadata_from_public_Ok in Hstep0 as (K0 & R0 & O0 & S0 & V0 & P0),
    Hstep1 as (K1 & R1 & O1 & S1 & V1 & P1).
  constructor; try done.
  - apply normal_canonical. split_and!; [done|by eexists| |done].
    apply (method_root_fixed (es_verified_document spec) d t a a2); try done.
    exists [a0; a1]. split; [done|]. repeat constructor; congruence.
  - intros x Hx. eapply (secrets_hold_new shows_public rt _ x (option_list a) [(k1, a0); (k2, a1)]);
      [done|by eapply optional_root_external|].
    intros k m Hm. assert ((k, m) = (k1, a0) ∨ (k, m) = (k2, a1)) as [[= -> ->]|[= -> ->]]
      by set_solver; unfold shows_public, ref_of_key, mpk_public_key in *; simpl.
    + rewrite K0, R0, V0. rewrite M1 in P0. split; [|done].
      apply (Hx (k1, new_ref iid sk KeyRole.DeviceSigning)). set_solver.
    + rewrite K1, R1, V1. rewrite M2 in P1. split; [|done].
      apply (Hx (k2, new_ref iid ek KeyRole.E2eeAgreement)). set_solver.
Qed.

(** Without a device-signing key there is no local authorization to infer. *)
Lemma infer_no_device doc ks :
  is_Some (validate_device_manifest doc) →
  Forall (λ k, origin k = KeyOrigin.External ∨ role k ≠ KeyRole.DeviceSigning) ks →
  infer_local_authorization doc ks = Ok None.
Proof.
  intros [mf Hmf] Hks. unfold infer_local_authorization. rewrite Hmf. simpl.
  destruct mf as [m|]; [|done].
  assert (∀ k, existsb (λ key, bool_decide (origin key = KeyOrigin.Managed) &&
    is_role (role key) KeyRole.DeviceSigning && bool_decide (kid key = k)) ks = false) as Hno.
  { intros k. clear -Hks. induction Hks as [|x ks Hx _ IH]; [done|]. simpl. rewrite IH, orb_false_r.
    destruct Hx as [Hx|Hx]; [by rewrite Hx|]. unfold is_role. rewrite (bool_decide_false (role x = _)) by done.
    by rewrite andb_false_r. }
  assert (∀ g l, List.filter (λ d0, existsb (λ key, bool_decide (origin key = KeyOrigin.Managed) &&
    is_role (role key) KeyRole.DeviceSigning && bool_decide (kid key = dme_signing_key_id d0)) ks
    && g d0) l = []) as Hfil.
  { intros g l. induction l as [|x l IH]; [done|]. cbn [List.filter]. by rewrite Hno. }
  by rewrite Hfil.
Qed.

Lemma request_enrollment_record_Ok rt spec d iid eid k0 t k1 r p :
  get_str (rse_verified_document spec) "id" = Some d →
  is_Some (validate_device_manifest (rse_verified_document spec)) →
  request_enrollment_record spec d iid eid k0 t k1 = Ok (r, p) →
  String.length (mpk_bytes k1) = 32 ∧ mpk_role k1 = KeyRole.RequestSigning →
  enrollable IdentityState.Enrolling shows_public rt iid d [(k1, new_ref iid k0 KeyRole.RequestSigning)] r p.
Proof.
  intros Hid [mf Hmf] Hr [L1 M1]. unfold request_enrollment_record in Hr. do 3 inv_run Hr.
  injection Hr as <- _.
  apply key_metadata_from_public_Ok in Hstep0 as (K0 & R0 & O0 & S0 & V0 & P0).
  pose proof (optional_root_external _ _ _ Hstep) as Hext.
  constructor; try done.
  - apply normal_canonical. split_and!; [done|by eexists| |].
    { apply (method_root_fixed (rse_verified_document spec) d t a a1); try done.
      exists [a0]. split; [done|]. repeat constructor; congruence. }
    unfold normalize_authorization. simpl.
    rewrite infer_no_device; [done|by eexists|]. apply Forall_app. split.
    + eapply Forall_impl; [exact Hext|]. by left.
    + apply Forall_singleton. right. by rewrite R0.
  - intros x Hx. eapply (secrets_hold_new shows_public rt _ x (option_list a) [(k1, a0)]); [done|done|].
    intros k m Hm. assert ((k, m) = (k1, a0)) as [= -> ->] by set_solver.
    unfold shows_public, ref_of_key, mpk_public_key in *. simpl. rewrite K0, R0, V0. rewrite M1 in P0.
    split; [|done]. apply (Hx (k1, new_ref iid k0 KeyRole.RequestSigning)). set_solver.
Qed.

(** ** The whole of both enrollments *)

Lemma generate_Ok fragment role w k w' :
  generate fragment role w = (Ok k, w') → String.length (mpk_bytes k) = 32 ∧ mpk_role k = role.
Proof.
  unfold generate, draw_key, bind, ret. intros [= <- _]. simpl. split; [|done].
  destruct role; auto using random_ed25519_length, random_x25519_length.
Qed.

Lemma fresh_draws_for d n0 n refs :
  fresh_draws d n0 → n0 ≤ n →
  Forall (λ x, sr_identity_id x = b64url_encode (random_bytes n 16)) refs →
  fresh_for (b64url_encode (random_bytes n 16)) refs d.
Proof.
  intros Hf Hn Hr. destruct (Hf n Hn) as [Hi Hs]. split; [done|]. intros p Hp.
  apply list_elem_of_In, in_map_iff in Hp as (x & <- & Hx). apply Hs.
  rewrite Forall_forall in Hr. apply Hr. by apply list_elem_of_In.
Qed.

(** An absent method is not the root method, so the root key is passed over. *)
Lemma find_key_new doc t root k m ks :
  optional_root_metadata doc t = Ok root → find_verification_method doc k = None →
  find_key k ks = Some m → find_key k (option_list root ++ ks) = Some m.
Proof.
  unfold optional_root_metadata. intros Hr Hk Hf. inv_run Hr.
  destruct (DidProfile.supports_root_control a); [|by injection Hr as <-].
  inv_run Hr. inv_run Hr. injection Hr as <-. unfold find_key. simpl.
  unfold key_metadata in Hstep1. inv_run Hstep1. inv_run Hstep1. injection Hstep1 as <-. simpl.
  apply ok_or_Ok in Hstep2. by rewrite bool_decide_false by congruence.
Qed.

(** What is handed to the enrolling device can be read back from the record. *)
Lemma enrollment_record_pending spec d iid eid sk ek t k1 k2 r p :
  enrollment_record spec d iid eid sk ek t k1 k2 = Ok (r, p) → sk ≠ ek →
  find_verification_method (es_verified_document spec) sk = None →
  find_verification_method (es_verified_document spec) ek = None →
  pending_enrollment_of r = Some p.
Proof.
  intros Hr Hne H1' H2'. unfold enrollment_record in Hr. do 4 inv_run Hr. injection Hr as <- <-.
  apply key_metadata_from_public_Ok in Hstep0 as (K0 & _), Hstep1 as (K1 & _).
  unfold pending_enrollment_of. simpl.
  rewrite (find_key_new (es_verified_document spec) t a sk a0 _); [|done|done|]; simpl.
  - rewrite (find_key_new (es_verified_document spec) t a ek a1 _); [done..|].
    unfold find_key. simpl. by rewrite bool_decide_false, bool_decide_true by congruence.
  - unfold find_key. simpl. by rewrite bool_decide_true by congruence.
Qed.

Lemma request_enrollment_record_pending spec d iid eid k t k1 r p :
  request_enrollment_record spec d iid eid k t k1 = Ok (r, p) →
  find_verification_method (rse_verified_document spec) k = None →
  pending_request_signing_enrollment_of r = Some p.
Proof.
  intros Hr Hnone. unfold request_enrollment_record in Hr. do 3 inv_run Hr. injection Hr as <- <-.
  apply key_metadata_from_public_Ok in Hstep0 as (K0 & _).
  unfold pending_request_signing_enrollment_of. simpl.
  rewrite (find_key_new (rse_verified_document spec) t a k a0 _); [done..|].
  unfold find_key. simpl. by rewrite bool_decide_true by congruence.
Qed.

(** A completed enrollment transaction holds the record it was given. *)
Lemma enroll_transaction_Ok {A} rt g registry tid iid d at_ new_keys
    (record : DidResult (IdentityRecord * A)) w s i p w' :
  enroll_transaction rt g registry tid iid d at_ new_keys record w = (Ok (s, i, p), w') →
  ds_runtime s = rt ∧ di_runtime i = rt ∧ record = Ok (di_record i, p).
Proof.
  unfold enroll_transaction. intros Hr. do 3 inv_run Hr. apply lift_Ok in Hstep1 as [Hrec _].
  destruct a1 as [r q]. do 4 inv_run Hr. by apply ret_Ok in Hr as [[= -> -> ->] _].
Qed.

(** Where an enrollment stops: a new identity in the state [st] whose keys open
    and whose record gives back the prepared value, or an interrupted creation. *)
Definition enrolled {A} (st : IdentityState.t) (φ : KeyMetadata → string → Prop)
    (pending : IdentityRecord → option A) (rt : StoreRuntime) (d0 : Disk)
    (res : DidResult (DidStore * DidIdentity * A)) (d : Disk) : Prop :=
  match res with
  | Ok (s, i, p) => ∃ registry, registry_generation s = reg_generation registry ∧
      pending (di_record i) = Some p ∧ secrets_hold φ rt (di_record i) d ∧
      added_identity st rt d0 (di_record i) registry d
  | Err _ => creation_interrupted st rt d0 d
  end.

Lemma enroll_transaction_enrolled {A} st φ pending rt g d0 registry tid iid d at_ new_keys
    (record : DidResult (IdentityRecord * A)) w res w' :
  enroll_transaction rt g registry tid iid d at_ new_keys record w = (res, w') → disk w = d0 →
  st ≠ IdentityState.Creating →
  quiescent d0 → read_registry_at d0 = Ok registry → identities registry !! d = None →
  fresh_for iid (map snd new_keys) d0 → NoDup (map snd new_keys) →
  Forall (λ x, sr_identity_id x = iid) (map snd new_keys) →
  (∀ r p, record = Ok (r, p) → enrollable st φ rt iid d new_keys r p ∧ pending r = Some p) →
  enrolled st φ pending rt d0 res (disk w').
Proof.
  intros Hrun Hd Hne Hq Hreg Hnew Hfr Hnd Hrefs Hrec.
  pose proof (enroll_transaction_safe st φ rt g d0 registry tid iid d at_ new_keys record Hne Hq Hreg Hnew
    Hfr Hnd Hrefs (λ r p Hr, proj1 (Hrec r p Hr)) w res w' Hd Hrun) as Hs.
  destruct res as [[[s i] p]|e]; [|done]. destruct Hs as (registry' & Hg & Hr & Ha & Hm).
  exists registry'. split_and!; [done| |done|done]. by apply Hrec.
Qed.

Lemma guard_absent (bad : bool) (e : DidError) (w : World) a w' :
  sguard bad e w = (Ok a, w') → bad = false.
Proof. unfold sguard, lift. intros [= Hb _]. by apply rguard_Ok in Hb. Qed.

Lemma not_found_None {A} (o : option A) : bool_decide (is_Some o) = false → o = None.
Proof. intros Hb%bool_decide_eq_false. by apply eq_None_not_Some. Qed.

Lemma prepare_enrollment_safe s spec w res w' :
  quiescent (disk w) → fresh_draws (disk w) (draws w) →
  prepare_enrollment s spec w = (res, w') →
  enrolled IdentityState.Enrolling shows_public pending_enrollment_of (ds_runtime s) (disk w) res (disk w').
Proof.
  intros Hq Hf Hrun.
  assert (creation_interrupted IdentityState.Enrolling (ds_runtime s) (disk w) (disk w)) as HX
    by (left; by apply recovers_to_quiescent).
  unfold prepare_enrollment in Hrun.
  do 15 (split_run Hrun; [simpl; replace (disk w') with (disk w) by congruence; exact HX|]).
  injection Hs0 as Hid _. apply ok_or_Ok in Hid.
  apply guard_absent in Hs3. apply orb_false_iff in Hs3 as [[Hne Hk1]%orb_false_iff Hk2].
  apply bool_decide_eq_false in Hne. apply not_found_None in Hk1, Hk2.
  apply guard_absent, not_found_None in Hs7. injection Hs5 as Hreg _.
  apply random_id_Ok in Hs8 as ->. apply generate_Ok in Hs12, Hs13.
  assert (disk w14 = disk w) as Hdisk by congruence.
  rewrite Hd4, Hd3, Hd2, Hd1, Hd0, Hd in Hreg.
  eapply enroll_transaction_enrolled; try done.
  - eapply fresh_draws_for; [done|lia|by repeat constructor].
  - apply NoDup_cons. split; [|apply NoDup_singleton].
    intros Hc%list_elem_of_singleton. by injection Hc.
  - by repeat constructor.
  - intros r p Hr. split; [by eapply enrollment_record_Ok|by eapply enrollment_record_pending].
Qed.

Lemma prepare_request_signing_enrollment_safe s spec w res w' :
  quiescent (disk w) → fresh_draws (disk w) (draws w) →
  prepare_request_signing_enrollment s spec w = (res, w') →
  enrolled IdentityState.Enrolling shows_public pending_request_signing_enrollment_of (ds_runtime s) (disk w) res (disk w').
Proof.
  intros Hq Hf Hrun.
  assert (creation_interrupted IdentityState.Enrolling (ds_runtime s) (disk w) (disk w)) as HX
    by (left; by apply recovers_to_quiescent).
  unfold prepare_request_signing_enrollment in Hrun.
  do 14 (split_run Hrun; [simpl; replace (disk w') with (disk w) by congruence; exact HX|]).
  injection Hs as Hv _. injection Hs1 as Hid _. apply ok_or_Ok in Hid.
  apply guard_absent, not_found_None in Hs3, Hs7. injection Hs5 as Hreg _.
  apply random_id_Ok in Hs8 as ->. apply generate_Ok in Hs12.
  rewrite Hd4, Hd3, Hd2, Hd1, Hd0, Hd in Hreg.
  unfold validate_verified_document in Hv. do 3 inv_run Hv. inv_run Hv. apply ok_or_Ok in Hstep2.
  eapply enroll_transaction_enrolled; [exact Hrun|congruence|try done..].
  - eapply fresh_draws_for; [done|lia|by repeat constructor].
  - apply NoDup_singleton.
  - by repeat constructor.
  - intros r p Hr. split; [eapply request_enrollment_record_Ok; eauto
      |by eapply request_enrollment_record_pending].
Qed.

(** ** Enrolled devices *)

(** A key that a pending enrollment created. *)
Definition enrolled_key (r : IdentityRecord) (fragment : string) (ro : KeyRole.t) (k : string)
    (m : KeyMetadata) : Prop :=
  canonicalize_kid (did r) fragment = Ok k ∧ find_key k (keys r) = Some m ∧ kid m = k ∧
  role m = ro ∧ origin m = KeyOrigin.Managed ∧ key_state m = KeyState.Pending.

Lemma enrollment_record_keys spec d iid eid sk ek t k1 k2 r p :
  enrollment_record spec d iid eid sk ek t k1 k2 = Ok (r, p) → sk ≠ ek →
  find_verification_method (es_verified_document spec) sk = None →
  find_verification_method (es_verified_document spec) ek = None →
  canonicalize_kid d (device_signing_fragment spec) = Ok sk →
  canonicalize_kid d (device_e2ee_fragment spec) = Ok ek →
  ∃ local sm em, local_authorization r = Some local ∧
    enrolled_key r (device_signing_fragment spec) KeyRole.DeviceSigning (signing_kid local) sm ∧
    enrolled_key r (device_e2ee_fragment spec) KeyRole.E2eeAgreement (e2ee_kid local) em.
Proof.
  intros Hr Hne N1 N2 C1 C2. unfold enrollment_record in Hr. do 4 inv_run Hr.
  injection Hr as <- _. unfold enrolled_key.
  apply key_metadata_from_public_Ok in Hstep0 as (K0 & R0 & O0 & S0 & _),
    Hstep1 as (K1 & R1 & O1 & S1 & _).
  eexists _, a0, a1. split_and!; try done; simpl;
    apply (find_key_new (es_verified_document spec) t); try done; unfold find_key; simpl.
  - by rewrite bool_decide_true by congruence.
  - by rewrite bool_decide_false, bool_decide_true by congruence.
Qed.

Lemma prepare_enrollment_keys s spec w s' i p w' :
  prepare_enrollment s spec w = (Ok (s', i, p), w') →
  ∃ local sm em, di_runtime i = ds_runtime s ∧ local_authorization (di_record i) = Some local ∧
    enrolled_key (di_record i) (device_signing_fragment spec) KeyRole.DeviceSigning
      (signing_kid local) sm ∧
    enrolled_key (di_record i) (device_e2ee_fragment spec) KeyRole.E2eeAgreement
      (e2ee_kid local) em.
Proof.
  unfold prepare_enrollment. intros Hrun. inv_run Hrun. inv_run Hrun.
  inv_run Hrun. apply lift_Ok in Hstep1 as [C1 ->]. inv_run Hrun. apply lift_Ok in Hstep1 as [C2 ->].
  inv_run Hrun. apply guard_absent in Hstep1. apply orb_false_iff in Hstep1 as [[Hne N1]%orb_false_iff N2].
  apply bool_decide_eq_false in Hne. apply not_found_None in N1, N2.
  do 10 inv_run Hrun. unfold enroll_transaction in Hrun. do 2 inv_run Hrun. inv_run Hrun.
  apply lift_Ok in Hstep13 as [Hrec ->]. destruct a16 as [r q].
  assert (did r = a0) as Hdid.
  { unfold enrollment_record in Hrec. do 4 inv_run Hrec. by injection Hrec as <- _. }
  do 4 inv_run Hrun. apply ret_Ok in Hrun as [[= -> -> ->] _]. simpl.
  destruct (enrollment_record_keys _ _ _ _ _ _ _ _ _ _ _ Hrec Hne N1 N2 C1 C2) as
    (local & sm & em & Hl & H1' & H2'). exists local, sm, em. split_and!; try done; congruence.
Qed.

(** C4.  Crash safety of enrollment: from a store with no open journal,
    [prepare_enrollment] either adds exactly one identity in state [Enrolling],
    whose two new keys open to secrets of the public keys its record shows, and from
    whose record [pending_enrollment] gives back
    the value it returned, or stops in a store that recovery brings back to the
    store before the call or forward to the completed enrollment. *)
Theorem prepare_enrollment_crash_safe s spec w res w' :
  quiescent (disk w) → fresh_draws (disk w) (draws w) →
  prepare_enrollment s spec w = (res, w') →
  enrolled IdentityState.Enrolling shows_public pending_enrollment_of (ds_runtime s) (disk w) res (disk w').
Proof. apply prepare_enrollment_safe. Qed.

(** The same of the enrollment of a request-signing key. *)
Theorem prepare_request_signing_enrollment_crash_safe s spec w res w' :
  quiescent (disk w) → fresh_draws (disk w) (draws w) →
  prepare_request_signing_enrollment s spec w = (res, w') →
  enrolled IdentityState.Enrolling shows_public pending_request_signing_enrollment_of (ds_runtime s) (disk w) res (disk w').
Proof. apply prepare_request_signing_enrollment_safe. Qed.
End Enrollment.

(** ** Witnesses *)

Lemma prepare_enrollment_crash_safe_witness :
  ∃ s i p w, @prepare_enrollment toy_env sample_store sample_enrollment initial_world
               = (Ok (s, i, p), w) ∧
    @enrolled toy_env _ IdentityState.Enrolling (@shows_public toy_env) pending_enrollment_of sample_runtime empty_disk (Ok (s, i, p)) (disk w).
Proof.
  destruct enrollment_scenario as (s & i & p & w1 & a & w2 & b & w3 & c & w4 & Hrun & _).
  exists s, i, p, w1. split; [exact Hrun|].
  exact (@prepare_enrollment_crash_safe toy_env toy_base64_laws toy_aead_laws toy_random_laws
    toy_digest_laws sample_store sample_enrollment initial_world _ w1 quiescent_empty
    (fresh_empty _) Hrun).
Defined.

Lemma prepare_request_signing_enrollment_crash_safe_witness :
  ∃ s i p w, @prepare_request_signing_enrollment toy_env sample_store sample_request_enrollment
               initial_world = (Ok (s, i, p), w) ∧
    @enrolled toy_env _ IdentityState.Enrolling (@shows_public toy_env) pending_request_signing_enrollment_of sample_runtime empty_disk
      (Ok (s, i, p)) (disk w).
Proof.
  destruct (@prepare_request_signing_enrollment toy_env sample_store sample_request_enrollment
    initial_world) as [[[[s i] p]|e] w] eqn:Hr.
  - exists s, i, p, w. split; [reflexivity|].
    exact (@prepare_request_signing_enrollment_crash_safe toy_env toy_base64_laws toy_aead_laws
      toy_random_laws toy_digest_laws sample_store sample_request_enrollment initial_world _ w
      quiescent_empty (fresh_empty _) Hr).
  - exfalso. assert (is_ok (@prepare_request_signing_enrollment toy_env sample_store
      sample_request_enrollment initial_world).1 = true) as Hok by (vm_compute; reflexivity).
    rewrite Hr in Hok. discriminate Hok.
Defined.

(** The device that enrolled is in the registry with its record, and adopts. *)
Lemma adoption_crash_safe_witness :
  ∃ i p w i' w',
    @adopt_verified_document_inner toy_env i (observation (authorizing_document p) 2) false w
      = (Ok (i', AdoptDocumentOutcome.Activated), w') ∧
    (i' = i ∧ disk w' = disk w ∨ @transitioned toy_env (disk w) (di_record i') (disk w')).
Proof.
  destruct enrollment_scenario as (s & i & p & w1 & a & w2 & b & w3 & c & w4 & Hen & Hrun & _).
  exists i, p, w1, a, w2. split; [exact Hrun|].
  pose proof (@prepare_enrollment_safe toy_env toy_base64_laws toy_aead_laws toy_random_laws
    toy_digest_laws sample_store sample_enrollment initial_world _ w1 quiescent_empty
    (fresh_empty _) Hen) as (registry & Hg & Hp & _ & Ha).
  destruct (ai_before _ _ _ _ _ _ Ha) as (registry0 & Hr0 & _ & Hids & Hgen).
  refine (@adoption_crash_safe toy_env i _ false w1 _ w2 (di_record i)
    (ai_quiescent _ _ _ _ _ _ Ha) _ eq_refl _ Hrun).
  - split; [exact (ai_record _ _ _ _ _ _ Ha)|]. exists registry.
    split; [exact (ai_registry _ _ _ _ _ _ Ha)|].
    rewrite Hids, lookup_insert_eq, Hgen. injection Hr0 as <-. split; [reflexivity|reflexivity].
  - left. unfold pending_enrollment_of in Hp. destruct (pending_enrollment (di_record i)); [|done].
    simpl in Hp. destruct (local_authorization (di_record i)) as [l|]; [eexists; reflexivity|done].
Defined.
