(* ===== verification/Findings.v ===== *)
(** * Concrete runs of what the development found

    Runs, in the concrete environment, of the places where the code does not do what it
    means to: an import and an adoption after which the identity cannot be read, and a
    deletion that leaves a sealed key behind. *)

From stdpp Require Import base strings list gmap sorting.
From S2P Require Import Prelude Json Errors Records Env Toy Input World Document Keystore Registry.
From S2P Require Import Recovery Identity Adoption Lifecycle KeyImport IdentityFacts Namespace Scenario.

(** ** A did:web identity that is imported cannot be read *)

Definition web_did : string := "did:web:example.com".
Definition web_kid (fragment : string) : string := (web_did +:+ "#" +:+ fragment)%string.
Definition web_method (fragment raw : string) : Value :=
  json_object [("id", Str (web_kid fragment)); ("type", Str "Multikey"); ("controller", Str web_did);
               ("publicKeyMultibase", Str (bytes [122; 237; 1] +:+ raw)%string)].

(** A document of a did:web identity that carries a proof. *)
Definition web_document : Value :=
  json_object
    [("id", Str web_did);
     ("verificationMethod", Array [web_method "root" root_raw; web_method "device" device_raw]);
     ("authentication", Array [Str (web_kid "device")]);
     ("assertionMethod", Array [Str (web_kid "root"); Str (web_kid "device")]);
     ("keyAgreement", Array []);
     ("proof", json_object [("verificationMethod", Str (web_kid "root"));
                            ("proofValue", Str "signature")])].
Definition web_import : IdentityImportSpec := {|
  ii_verified_document := web_document; ii_evidence := evidence_for web_document 4;
  ii_capabilities := {| did_wba := true |};
  ii_private_keys := [import_key "root" root_raw KeyRole.RootControl;
                      import_key "device" device_raw KeyRole.DeviceSigning] |}.

(** The import returns; reading the record it wrote is an error. *)
Definition web_import_program : M (DidResult IdentityRecord) :=
  let! imported := @import_identity toy_env sample_store web_import in
  attempt (@read_identity toy_env (identity_id (di_record imported.1.2))).

Theorem web_import_unreadable : (web_import_program initial_world).1 = Ok (Err InvalidIdentity).
Proof. vm_compute. reflexivity. Qed.

(** ** An identity that holds the keys of two devices cannot be read after an adoption *)

Definition device_key_entry (fragment raw : string) (tag : nat) : string * string :=
  (sample_kid fragment, (bytes [122; tag; 1] +:+ raw)%string).
Definition two_device_keys : list (string * string) :=
  [device_key_entry "phone-sign" (pad 32 "phone-sign") 237;
   device_key_entry "phone-e2ee" (pad 32 "phone-e2ee") 236;
   device_key_entry "laptop-sign" (pad 32 "laptop-sign") 237;
   device_key_entry "laptop-e2ee" (pad 32 "laptop-e2ee") 236].
Definition manifest_entry (name : string) : DeviceManifestEntry :=
  {| dme_device_id := name; dme_signing_key_id := sample_kid (name +:+ "-sign");
     dme_e2ee_key_id := sample_kid (name +:+ "-e2ee"); dme_profiles := ["anp.core.binding.v1"] |}.
Definition two_device_document (manifest : list DeviceManifestEntry) : Value :=
  sample_document two_device_keys [sample_kid "phone-sign"; sample_kid "laptop-sign"]
    [sample_kid "phone-e2ee"; sample_kid "laptop-e2ee"] manifest.
Definition two_device_import : IdentityImportSpec := {|
  ii_verified_document := two_device_document [];
  ii_evidence := evidence_for (two_device_document []) 1;
  ii_capabilities := {| did_wba := true |};
  ii_private_keys :=
    [import_key "root" root_raw KeyRole.RootControl;
     import_key "phone-sign" (pad 32 "phone-sign") KeyRole.DeviceSigning;
     import_key "phone-e2ee" (pad 32 "phone-e2ee") KeyRole.E2eeAgreement;
     import_key "laptop-sign" (pad 32 "laptop-sign") KeyRole.DeviceSigning;
     import_key "laptop-e2ee" (pad 32 "laptop-e2ee") KeyRole.E2eeAgreement] |}.

(** The keys are imported with a document that lists no devices; the next version lists both
    devices and is adopted. *)
Definition two_device_program : M (AdoptDocumentOutcome.t * DidResult IdentityRecord) :=
  let! imported := @import_identity toy_env sample_store two_device_import in
  let document := two_device_document [manifest_entry "phone"; manifest_entry "laptop"] in
  let! adopted := @adopt_verified_document toy_env imported.1.2 (observation document 2) in
  let! r := attempt (@read_identity toy_env (identity_id (di_record adopted.1))) in
  ret (adopted.2, r).

Theorem two_device_adoption_unreadable :
  (two_device_program initial_world).1 = Ok (AdoptDocumentOutcome.Updated, Err InvalidExtension).
Proof. vm_compute. reflexivity. Qed.

(** ** A deletion that discards a pending revision leaves its staged key *)

(** A rotation is prepared and the identity is deleted: the record of the identity and the
    sealed keys it lists are gone, and the sealed new key of the rotation is still there. *)
Definition staged_key_program : M (bool * bool * bool) :=
  let! created := @create_identity toy_env sample_store sample_spec in
  let! prepared := @prepare_update toy_env created.2 rotation_spec in
  let r := di_record prepared.1 in
  let! s := @delete_identity_namespace_inner toy_env created.1 (did r)
              (registry_generation created.1) true None in
  let present x := reads (λ d, Ok (bool_decide (is_Some (d_records d !! @record_storage_key toy_env x)))) in
  let! listed := map_st present (live_refs r) in
  let! staged := map_st present (staged_refs r) in
  let! record := attempt (@read_identity toy_env (identity_id r)) in
  ret (is_ok record, existsb id listed, negb (bool_decide (staged = [])) && forallb id staged).

Theorem discarded_revision_leaves_key :
  (staged_key_program initial_world).1 = Ok (false, false, true).
Proof. vm_compute. reflexivity. Qed.
