(* ===== verification/LifecycleFacts.v ===== *)
(** * Correctness of document updates (lifecycle.rs)

    The publication state machine as a step relation and the refinement of it by
    every operation, the compare-and-swap of each operation, and the crash safety
    of preparing and aborting an update. *)

From stdpp Require Import base strings list gmap sorting.
From S2P Require Import Prelude Json Errors Records Env Toy Input World Document Keystore Registry.
From S2P Require Import Recovery Identity RecordFacts Adoption Lifecycle IdentityFacts Namespace.
From S2P Require Import Scenario.

(** ** The operations on one identity *)

Inductive lifecycle_op :=
  | Prepare (spec : DocumentUpdateSpec)
  | Begin (rid : string)
  | Uncertain (rid : string)
  | Published (rid : string)
  | Rejected (rid : string)
  | RemoteOld (rid : string)
  | Commit (rid : string) (from_reconcile : bool) (evidence : option VerifiedDocumentEvidence)
  | Abort (rid : string) (rejection : option AdoptVerifiedDocumentSpec)
  | ReconcileUpdate (rid : string) (observed : Value)
  | EndRetirement (k : string)
  | DeleteRevoked (k : string).

Definition run_op `{Env} (i : DidIdentity) (op : lifecycle_op) : M DidIdentity :=
  match op with
  | Prepare spec => let! x := prepare_update i spec in ret x.1
  | Begin rid => begin_publication i rid
  | Uncertain rid => mark_publication_uncertain i rid
  | Published rid => mark_published i rid
  | Rejected rid => reject_publication_before_acceptance i rid
  (* the end of a reconciliation that saw the old document *)
  | RemoteOld rid => transition_publication i rid PublicationState.PublicationUncertain
                       PublicationState.Prepared
  | Commit rid from_reconcile evidence => commit_pending i rid from_reconcile evidence
  | Abort rid rejection => abort_update_inner i rid None rejection
  | ReconcileUpdate rid observed => let! x := reconcile_update i rid observed in ret x.1
  | EndRetirement k => end_retirement i k
  | DeleteRevoked k => delete_revoked_key i k
  end.

Definition reconciles (op : lifecycle_op) : bool :=
  match op with ReconcileUpdate _ _ => true | _ => false end.

(** An operation that ends the publication of a revision with a verdict on it. *)
Definition decides (rid : string) (op : lifecycle_op) : Prop :=
  match op with
  | Commit r _ _ | ReconcileUpdate r _ => r = rid
  | _ => False
  end.

(** The reconciliation of a Web identity that sees the old document: an old HTTPS document
    does not prove that the publication was rejected, so nothing is decided. *)
Definition old_web `{Env} (i : DidIdentity) (op : lifecycle_op) : Prop :=
  ∃ rid observed p dg, op = ReconcileUpdate rid observed ∧
    for_did (did (di_record i)) = Ok DidProfile.Web ∧ pending_revision (di_record i) = Some p ∧
    revision_id p = rid ∧ pr_state p = PublicationState.PublicationUncertain ∧
    canonical_digest observed = Ok dg ∧ canonical_digest (document (di_record i)) = Ok dg ∧
    dg ≠ candidate_digest p.

(** ** The abstract state machine *)

(** What the machine sees of a record: the pending revision and its state. *)
Definition publication (r : IdentityRecord) : option (string * PublicationState.t) :=
  (λ p, (revision_id p, pr_state p)) <$> pending_revision r.

Inductive pub_step : lifecycle_op → option (string * PublicationState.t) →
    option (string * PublicationState.t) → Prop :=
  | step_prepare spec rid : pub_step (Prepare spec) None (Some (rid, PublicationState.Prepared))
  | step_begin rid :
      pub_step (Begin rid) (Some (rid, PublicationState.Prepared))
        (Some (rid, PublicationState.PublicationInFlight))
  | step_uncertain rid :
      pub_step (Uncertain rid) (Some (rid, PublicationState.PublicationInFlight))
        (Some (rid, PublicationState.PublicationUncertain))
  | step_published rid :
      pub_step (Published rid) (Some (rid, PublicationState.PublicationInFlight))
        (Some (rid, PublicationState.Published))
  | step_rejected rid :
      pub_step (Rejected rid) (Some (rid, PublicationState.PublicationInFlight))
        (Some (rid, PublicationState.Prepared))
  | step_remote_old rid :
      pub_step (RemoteOld rid) (Some (rid, PublicationState.PublicationUncertain))
        (Some (rid, PublicationState.Prepared))
  | step_commit_published rid b e :
      pub_step (Commit rid b e) (Some (rid, PublicationState.Published)) None
  | step_commit_in_flight rid e :
      pub_step (Commit rid false (Some e)) (Some (rid, PublicationState.PublicationInFlight)) None
  | step_commit_reconciled rid e :
      pub_step (Commit rid true e) (Some (rid, PublicationState.PublicationUncertain)) None
  | step_abort rid :
      pub_step (Abort rid None) (Some (rid, PublicationState.Prepared)) None
  | step_abort_rejected rid o :
      pub_step (Abort rid (Some o)) (Some (rid, PublicationState.PublicationUncertain)) None
  | step_reconcile_committed rid o e p :
      pub_step (Commit rid true e) p None → pub_step (ReconcileUpdate rid o) p None
  | step_reconcile_old rid o :
      pub_step (ReconcileUpdate rid o) (Some (rid, PublicationState.PublicationUncertain))
        (Some (rid, PublicationState.Prepared))
  | step_end_retirement k p :
      (∀ rid, p ≠ Some (rid, PublicationState.PublicationUncertain)) →
      pub_step (EndRetirement k) p p
  | step_delete_revoked k p :
      (∀ rid, p ≠ Some (rid, PublicationState.PublicationUncertain)) →
      pub_step (DeleteRevoked k) p p.

Section LifecycleFacts.
Context `{Env}.

(** ** Guards *)

Lemma current_record_Ok i w r w' :
  current_record_for_mutation i w = (Ok r, w') →
  w' = w ∧ read_identity_at (identity_id (di_record i)) (disk w) = Ok r ∧
  generation r = generation (di_record i) ∧ state r = IdentityState.Active.
Proof.
  unfold current_record_for_mutation. intros Hc. inv_run Hc. injection Hstep as Hr <-.
  inv_run Hc. apply lift_Ok in Hstep as [Hg ->]. apply ret_Ok in Hc as [-> ->].
  apply rguard_Ok, orb_false_iff in Hg as [H1 H2].
  apply negb_false_iff, bool_decide_eq_true in H1, H2. done.
Qed.

Lemma required_pending_Ok r rid p :
  required_pending r rid = Ok p → pending_revision r = Some p ∧ revision_id p = rid.
Proof.
  unfold required_pending. destruct (pending_revision r) as [q|]; [|done].
  case_bool_decide; [|done]. by intros [= <-].
Qed.

Lemma publication_pending r p :
  pending_revision r = Some p → publication r = Some (revision_id p, pr_state p).
Proof. unfold publication. by intros ->. Qed.

Lemma reject_uncertain_Ok r u :
  reject_uncertain_mutation r = Ok u →
  ∀ rid, publication r ≠ Some (rid, PublicationState.PublicationUncertain).
Proof.
  unfold reject_uncertain_mutation, publication. intros Hr%rguard_Ok rid.
  destruct (pending_revision r) as [p|]; [|done]. simpl in *.
  apply bool_decide_eq_false in Hr. intros [= _ Hs]. done.
Qed.

(** ** The effect of a successful operation *)

(** The record [r] of the handle was current, and [r'] replaces it: the same
    identity, one generation later, and no other identity file changed. *)
Definition replaces (i : DidIdentity) (d : Disk) (r : IdentityRecord) (i' : DidIdentity)
    (d' : Disk) : Prop :=
  read_identity_at (identity_id (di_record i)) d = Ok r ∧
  generation r = generation (di_record i) ∧ state r = IdentityState.Active ∧
  di_runtime i' = di_runtime i ∧
  identity_id (di_record i') = identity_id r ∧ did (di_record i') = did r ∧
  state (di_record i') = IdentityState.Active ∧
  generation (di_record i') = (generation r + 1)%N ∧
  d_identities d' = <[storage_key (identity_id r) := Parsed (di_record i')]> (d_identities d).

(** A changed record [x] that [persist_record] writes. *)
Lemma replaces_persist i w r x rt g r' w1 w2 d :
  read_identity_at (identity_id (di_record i)) d = Ok r →
  generation r = generation (di_record i) → state r = IdentityState.Active →
  identity_id x = identity_id r → did x = did r → state x = state r →
  generation x = generation r → d_identities (disk w1) = d_identities d →
  persist_record rt g x w1 = (Ok r', w2) → d_identities (disk w) = d_identities (disk w2) →
  replaces i d r (with_record i r') (disk w).
Proof.
  intros Hr Hg Hs Hid Hd Hst Hgen Hsame Hp Hw.
  apply persist_record_Ok in Hp as (-> & _ & Hdisk).
  split_and!; simpl; try congruence. by rewrite Hw, Hdisk; simpl; rewrite Hid, Hsame.
Qed.

Lemma transition_effect i rid expected next w i' w' :
  transition_publication i rid expected next w = (Ok i', w') →
  ∃ r, replaces i (disk w) r i' (disk w') ∧ publication r = Some (rid, expected) ∧
    publication (di_record i') = Some (rid, next) ∧
    ∃ q, di_record i' = set_generation (generation r + 1) (set_pending_revision (Some q) r).
Proof.
  unfold transition_publication. intros Ht. inv_run Ht. apply acquire_write_Ok in Hstep as [-> <-]. clear w. rename w0 into w.
  inv_run Ht. apply current_record_Ok in Hstep as (-> & Hr & Hg & Hs).
  inv_run Ht. apply lift_Ok in Hstep as [Hp%required_pending_Ok ->]. destruct Hp as [Hp Hrid].
  inv_run Ht. apply lift_Ok in Hstep as [He%rguard_Ok ->].
  apply negb_false_iff, bool_decide_eq_true in He.
  inv_run Ht. apply lift_Ok in Hstep as [_ ->]. inv_run Ht. apply ret_Ok in Ht as [-> ->].
  exists a. split_and!.
  - by eapply replaces_persist; [..|exact Hstep|].
  - rewrite (publication_pending _ _ Hp). congruence.
  - apply persist_record_Ok in Hstep as (-> & _). simpl. unfold publication. simpl. congruence.
  - apply persist_record_Ok in Hstep as (-> & _). by eexists.
Qed.

Lemma committed_record_Ok r p e r' :
  committed_record r p e = Ok r' →
  identity_id r' = identity_id r ∧ did r' = did r ∧ state r' = state r ∧
  generation r' = generation r ∧ pending_revision r' = None.
Proof.
  unfold committed_record. intros Hr. inv_run Hr.
  apply observe_devices_Ok in Hstep as (_ & l & -> & _).
  do 3 inv_run Hr. injection Hr as <-. simpl. unfold refresh_compatible_local_profiles.
  repeat case_match; done.
Qed.

Lemma commit_allowed_step p rid b e :
  revision_id p = rid → commit_allowed p b e = true →
  pub_step (Commit rid b e) (Some (revision_id p, pr_state p)) None.
Proof.
  intros -> Ha. unfold commit_allowed in Ha.
  apply orb_true_iff in Ha as [Ha|Ha]; [apply orb_true_iff in Ha as [Ha|Ha]|].
  - apply bool_decide_eq_true in Ha as ->. constructor.
  - apply andb_true_iff in Ha as [[He Hb]%andb_true_iff Hs].
    apply bool_decide_eq_true in He as [x ->]. apply bool_decide_eq_true in Hs as ->.
    destruct b; [done|]. constructor.
  - apply andb_true_iff in Ha as [-> Hs]. apply bool_decide_eq_true in Hs as ->. constructor.
Qed.

Lemma commit_run i rid b e w i' w' :
  commit_pending i rid b e w = (Ok i', w') →
  ∃ r p x, replaces i (disk w) r i' (disk w') ∧ pending_revision r = Some p ∧
    revision_id p = rid ∧ commit_allowed p b e = true ∧ parent_revision p = revision r ∧
    validate_commit_evidence r p e = Ok tt ∧ committed_record r p e = Ok x ∧
    di_record i' = set_generation (generation r + 1) x.
Proof.
  unfold commit_pending. intros Hc. inv_run Hc. apply acquire_write_Ok in Hstep as [-> <-]. clear w. rename w0 into w.
  inv_run Hc. apply current_record_Ok in Hstep as (-> & Hr & Hg & Hs).
  inv_run Hc. apply lift_Ok in Hstep as [Hp%required_pending_Ok ->]. destruct Hp as [Hp Hrid].
  inv_run Hc. apply lift_Ok in Hstep as [Ha%rguard_Ok ->].
  apply orb_false_iff in Ha as [Ha Hpar].
  apply negb_false_iff in Ha, Hpar. apply bool_decide_eq_true in Hpar.
  inv_run Hc. apply lift_Ok in Hstep as [Hv ->]. inv_run Hc. apply lift_Ok in Hstep as [Hx ->].
  inv_run Hc. apply ret_Ok in Hc as [-> ->]. destruct a2.
  destruct (committed_record_Ok _ _ _ _ Hx) as (Hid & Hd & Hst & Hgen & Hpend).
  exists a, a0, a3. split_and!; try done.
  - by eapply replaces_persist; [..|exact Hstep|].
  - apply persist_record_Ok in Hstep as (-> & _). simpl. by rewrite Hgen.
Qed.

Lemma commit_effect i rid b e w i' w' :
  commit_pending i rid b e w = (Ok i', w') →
  ∃ r, replaces i (disk w) r i' (disk w') ∧
    pub_step (Commit rid b e) (publication r) (publication (di_record i')).
Proof.
  intros Hc. apply commit_run in Hc as (r & p & x & Hrep & Hp & Hrid & Ha & _ & _ & Hx & Hi).
  exists r. split; [done|]. rewrite (publication_pending _ _ Hp).
  destruct (committed_record_Ok _ _ _ _ Hx) as (_ & _ & _ & _ & Hpend).
  rewrite Hi. unfold publication at 1. simpl. rewrite Hpend. by apply commit_allowed_step.
Qed.

Lemma keeps_build_candidate i r rotation spec : keeps (build_candidate_document i r rotation spec).
Proof. unfold build_candidate_document, load_managed_secret. keeps_tac. Qed.

Lemma keeps_prepare_rotation r x : keeps (prepare_rotation r x).
Proof. unfold prepare_rotation. keeps_tac. Qed.

Lemma prepare_transaction_Ok rt g failure r changes rotation metadata refs rid at_ w r' u w' :
  prepare_transaction rt g failure r changes rotation metadata refs rid at_ w = (Ok (r', u), w') →
  ∃ dg w1 w2, canonical_digest (cc_document changes) = Ok dg ∧
    persist_record rt g (set_pending_revision
      (Some (pending_of r changes rotation metadata refs rid dg at_)) r) w1 = (Ok r', w2) ∧
    d_identities (disk w1) = d_identities (disk w) ∧
    d_identities (disk w') = d_identities (disk w2) ∧
    u = {| pu_revision_id := rid; pu_candidate_document := cc_document changes;
           pu_candidate_digest := dg |}.
Proof.
  unfold prepare_transaction. intros Hp. do 5 inv_run Hp. inv_run Hp. inv_run Hp. inv_run Hp.
  apply ret_Ok in Hp as [[= -> ->] ->]. apply lift_Ok in Hstep3 as [Hdg ->].
  apply identities_update_journal in Hstep. apply identities_remove_update_journal in Hstep6.
  apply (preserves_keeps d_identities _ (keeps_maybe_fail _ _ _)) in Hstep0, Hstep2, Hstep5.
  assert (d_identities (disk w2) = d_identities (disk w1)) as Hseal.
  { destruct rotation as [rotation|]; [destruct refs as [|x l]|].
    - by apply ret_Ok in Hstep1 as [_ ->].
    - by apply identities_seal_or_verify in Hstep1.
    - by apply ret_Ok in Hstep1 as [_ ->]. }
  eexists _, _, _. split_and!; [exact Hdg|exact Hstep4|congruence|congruence|done].
Qed.

Lemma prepare_run i spec failure w i' u w' :
  prepare_update_inner i spec failure w = (Ok (i', u), w') →
  ∃ r rotation changes metadata refs rid dg at_,
    replaces i (disk w) r i' (disk w') ∧ pending_revision r = None ∧
    di_record i' = set_generation (generation r + 1) (set_pending_revision
      (Some (pending_of r changes rotation metadata refs rid dg at_)) r).
Proof.
  unfold prepare_update_inner. intros Hp. inv_run Hp. apply lift_Ok in Hstep as [_ ->].
  inv_run Hp. apply lift_Ok in Hstep as [_ ->]. inv_run Hp. apply acquire_write_Ok in Hstep as [-> <-]. clear w. rename w0 into w.
  inv_run Hp. apply current_record_Ok in Hstep as (-> & Hr & Hg & Hs).
  inv_run Hp. destruct (pending_revision a1) as [q|] eqn:Hpend; [done|].
  apply ret_Ok in Hstep as [_ ->]. inv_run Hp.
  assert (disk w0 = disk w) as E0.
  { revert Hstep. case_match; intros Hrot; [|by apply ret_Ok in Hrot as [_ ->]].
    inv_run Hrot. apply ret_Ok in Hrot as [_ ->]. by apply keeps_prepare_rotation in Hstep as [? _]. }
  inv_run Hp. apply keeps_build_candidate in Hstep0 as [E1 _].
  inv_run Hp. apply keeps_now in Hstep0 as [E2 _].
  inv_run Hp. apply lift_Ok in Hstep0 as [_ ->]. destruct a6 as [metadata refs].
  inv_run Hp. apply keeps_random_id in Hstep0 as [E3 _].
  inv_run Hp. apply ret_Ok in Hp as [[= -> ->] ->]. destruct a7 as [r' u'].
  apply prepare_transaction_Ok in Hstep0 as (dg & w6 & w7 & _ & Hpers & Ha & Hb & _).
  exists a1, a3, a4, metadata, refs, a6, dg, a5. split_and!; [|done|].
  - simpl. eapply replaces_persist; [exact Hr|done|done|..|exact Hpers|done]; try done. congruence.
  - apply persist_record_Ok in Hpers as (-> & _). done.
Qed.

Lemma abort_run i rid failure rejection w i' w' :
  abort_update_inner i rid failure rejection w = (Ok i', w') →
  ∃ r p, replaces i (disk w) r i' (disk w') ∧ pending_revision r = Some p ∧
    revision_id p = rid ∧
    di_record i' = set_generation (generation r + 1) (set_pending_revision None r) ∧
    match rejection with
    | Some o => validate_rejection i r p o = Ok tt
    | None => pr_state p = PublicationState.Prepared
    end.
Proof.
  unfold abort_update_inner. intros Hp. inv_run Hp. apply acquire_write_Ok in Hstep as [-> <-]. clear w. rename w0 into w.
  inv_run Hp. apply current_record_Ok in Hstep as (-> & Hr & Hg & Hs).
  inv_run Hp. apply lift_Ok in Hstep as [Hq%required_pending_Ok ->]. destruct Hq as [Hq Hrid].
  inv_run Hp. assert (w0 = w ∧ match rejection with
    | Some o => validate_rejection i a a0 o = Ok tt
    | None => pr_state a0 = PublicationState.Prepared end) as [-> Hrej].
  { destruct rejection as [o|]; [apply lift_Ok in Hstep as [Ho ->]; by destruct a1|].
    apply lift_Ok in Hstep as [Ho%rguard_Ok ->].
    by apply negb_false_iff, bool_decide_eq_true in Ho. }
  inv_run Hp. apply ret_Ok in Hp as [-> ->]. unfold abort_transaction in Hstep0.
  do 8 inv_run Hstep0. apply ret_Ok in Hstep0 as [-> ->].
  apply keeps_now in Hstep1 as [E0 _]. apply identities_update_journal in Hstep2.
  apply (preserves_keeps d_identities _ (keeps_maybe_fail _ _ _)) in Hstep3, Hstep5, Hstep7.
  apply (preserves_for_each d_identities _ _ (identities_delete_secret _ _)) in Hstep6.
  apply identities_remove_update_journal in Hstep8.
  exists a, a0. split_and!; try done.
  - eapply replaces_persist; [exact Hr|done|done|..|exact Hstep4|]; try done; congruence.
  - by apply persist_record_Ok in Hstep4 as (-> & _).
Qed.

Lemma abort_effect i rid failure rejection w i' w' :
  abort_update_inner i rid failure rejection w = (Ok i', w') →
  ∃ r, replaces i (disk w) r i' (disk w') ∧
    pub_step (Abort rid rejection) (publication r) (publication (di_record i')).
Proof.
  intros Ha. apply abort_run in Ha as (r & p & Hrep & Hp & <- & Hi & Hrej).
  exists r. split; [done|]. rewrite (publication_pending _ _ Hp), Hi. unfold publication; simpl.
  destruct rejection as [o|]; [|rewrite Hrej; constructor].
  unfold validate_rejection in Hrej. inv_run Hrej.
  apply rguard_Ok, negb_false_iff, bool_decide_eq_true in Hstep as ->. constructor.
Qed.

Lemma end_retirement_effect i k w i' w' :
  end_retirement i k w = (Ok i', w') →
  ∃ r, replaces i (disk w) r i' (disk w') ∧
    pub_step (EndRetirement k) (publication r) (publication (di_record i')) ∧
    document (di_record i') = document r ∧ revision (di_record i') = revision r.
Proof.
  unfold end_retirement. intros He. inv_run He. apply lift_Ok in Hstep as [_ ->].
  inv_run He. apply acquire_write_Ok in Hstep as [-> <-]. clear w. rename w0 into w.
  inv_run He. apply current_record_Ok in Hstep as (-> & Hr & Hg & Hs).
  inv_run He. apply lift_Ok in Hstep as [Hu ->]. do 3 (inv_run He; apply lift_Ok in Hstep as [_ ->]).
  inv_run He. apply ret_Ok in He as [-> ->]. exists a0. split.
  - by eapply replaces_persist; [..|exact Hstep|].
  - apply persist_record_Ok in Hstep as (-> & _). split; [|done].
    constructor. by eapply reject_uncertain_Ok.
Qed.

Lemma delete_revoked_effect i k w i' w' :
  delete_revoked_key i k w = (Ok i', w') →
  ∃ r, replaces i (disk w) r i' (disk w') ∧
    pub_step (DeleteRevoked k) (publication r) (publication (di_record i')) ∧
    document (di_record i') = document r ∧ revision (di_record i') = revision r.
Proof.
  unfold delete_revoked_key. intros He. inv_run He. apply lift_Ok in Hstep as [_ ->].
  inv_run He. apply acquire_write_Ok in Hstep as [-> <-]. clear w. rename w0 into w.
  inv_run He. apply current_record_Ok in Hstep as (-> & Hr & Hg & Hs).
  inv_run He. apply lift_Ok in Hstep as [Hu ->]. do 5 (inv_run He; apply lift_Ok in Hstep as [_ ->]).
  inv_run He. apply identities_delete_secret in Hstep.
  inv_run He. apply ret_Ok in He as [-> ->]. exists a0. split.
  - by eapply replaces_persist; [..|exact Hstep0|].
  - apply persist_record_Ok in Hstep0 as (-> & _). split; [|done].
    constructor. by eapply reject_uncertain_Ok.
Qed.

(** Every operation but a reconciliation is a step of the abstract machine when it returns. *)
Lemma run_op_step i op w i' w' :
  reconciles op = false → run_op i op w = (Ok i', w') →
  ∃ r, replaces i (disk w) r i' (disk w') ∧
    pub_step op (publication r) (publication (di_record i')).
Proof.
  destruct op; simpl; intros Hd Hrun; try discriminate Hd; clear Hd.
  - inv_run Hrun. apply ret_Ok in Hrun as [-> ->]. destruct a as [j u].
    apply prepare_run in Hstep as (r & ? & ? & ? & ? & rid & ? & ? & Hrep & Hp & Hi).
    exists r. split; [done|]. simpl. rewrite Hi. unfold publication; simpl. rewrite Hp. constructor.
  - apply transition_effect in Hrun as (r & Hrep & E1 & E2 & _).
    exists r. rewrite E1, E2. split; [done|constructor].
  - apply transition_effect in Hrun as (r & Hrep & E1 & E2 & _).
    exists r. rewrite E1, E2. split; [done|constructor].
  - apply transition_effect in Hrun as (r & Hrep & E1 & E2 & _).
    exists r. rewrite E1, E2. split; [done|constructor].
  - apply transition_effect in Hrun as (r & Hrep & E1 & E2 & _).
    exists r. rewrite E1, E2. split; [done|constructor].
  - apply transition_effect in Hrun as (r & Hrep & E1 & E2 & _).
    exists r. rewrite E1, E2. split; [done|constructor].
  - by apply commit_effect in Hrun.
  - by apply abort_effect in Hrun.
  - apply end_retirement_effect in Hrun as (r & ? & ? & _). eauto.
  - apply delete_revoked_effect in Hrun as (r & ? & ? & _). eauto.
Qed.

(** A reconciliation commits when the candidate was seen, and returns to Prepared when the
    old document was seen, except for a Web identity. *)
Lemma reconcile_run i rid observed w i' o w' :
  reconcile_update i rid observed w = (Ok (i', o), w') →
  ∃ p dg, pending_revision (di_record i) = Some p ∧ revision_id p = rid ∧
    pr_state p = PublicationState.PublicationUncertain ∧ canonical_digest observed = Ok dg ∧
    match o with
    | ReconcileOutcome.Committed =>
        dg = candidate_digest p ∧ commit_pending i rid true None w = (Ok i', w')
    | ReconcileOutcome.RemoteOld =>
        dg ≠ candidate_digest p ∧ canonical_digest (document (di_record i)) = Ok dg ∧
        ((for_did (did (di_record i)) = Ok DidProfile.Web ∧ i' = i ∧ w' = w) ∨
         run_op i (RemoteOld rid) w = (Ok i', w'))
    end.
Proof.
  unfold reconcile_update. intros Hr. inv_run Hr.
  apply lift_Ok in Hstep as [Hp%required_pending_Ok ->]. destruct Hp as [Hp Hrid].
  inv_run Hr. apply lift_Ok in Hstep as [Hs%rguard_Ok%negb_false_iff%bool_decide_eq_true ->].
  inv_run Hr. apply lift_Ok in Hstep as [_ ->]. inv_run Hr. apply lift_Ok in Hstep as [Hdg ->].
  exists a, a2. split_and!; [done..|]. case_bool_decide as Hc.
  { inv_run Hr. by apply ret_Ok in Hr as [[= -> ->] ->]. }
  inv_run Hr. apply lift_Ok in Hstep as [Hold ->]. case_bool_decide as Ho; [subst a3|done].
  inv_run Hr. apply lift_Ok in Hstep as [Hf ->]. case_bool_decide as Hw.
  - apply ret_Ok in Hr as [[= -> ->] ->]. split_and!; [done|done|]. left. split_and!; congruence.
  - inv_run Hr. apply ret_Ok in Hr as [[= -> ->] ->]. split_and!; [done|done|by right].
Qed.

(** Every operation that returns is a step of the abstract machine, or decided nothing. *)
Lemma run_op_effect i op w i' w' :
  run_op i op w = (Ok i', w') →
  (∃ r, replaces i (disk w) r i' (disk w') ∧
     pub_step op (publication r) (publication (di_record i'))) ∨
  (old_web i op ∧ i' = i ∧ w' = w).
Proof.
  intros Hrun. destruct (reconciles op) eqn:Hd; [|left; by apply run_op_step].
  destruct op as [| | | | | | | |rid observed| |]; try discriminate Hd. simpl in Hrun. inv_run Hrun.
  apply ret_Ok in Hrun as [-> ->]. destruct a as [j o].
  apply reconcile_run in Hstep as (p & dg & Hp & Hrid & Hs & Hdg & Ho). destruct o.
  - destruct Ho as (Hne & Hold & [(Hw & -> & ->)|Hrun]);
      [right; split; [|done]; by exists rid, observed, p, dg|left].
    apply transition_effect in Hrun as (r & Hrep & E1 & E2 & _).
    exists r. simpl. rewrite E1, E2. split; [done|constructor].
  - left. destruct Ho as [_ Hrun]. apply commit_effect in Hrun as (r & Hrep & Hstep).
    exists r. split; [done|]. simpl. assert (publication (di_record j) = None) as Hn by by inversion Hstep.
    rewrite Hn in *. by eapply step_reconcile_committed.
Qed.

(** C10.  Refinement of the publication state machine: an operation of
    lifecycle.rs that returns, the reconciliation with an observed document
    included, took the record the handle was current with, made exactly one step
    of [pub_step] on its pending revision, advanced the generation by one, and
    wrote the record it returns and no other identity.  The one exception is the
    reconciliation of a Web identity that sees the old document: it decides
    nothing and changes neither the handle nor the store. *)
Theorem lifecycle_refines_machine i op w i' w' :
  run_op i op w = (Ok i', w') →
  (∃ r, replaces i (disk w) r i' (disk w') ∧
     pub_step op (publication r) (publication (di_record i'))) ∨
  (old_web i op ∧ i' = i ∧ w' = w).
Proof. apply run_op_effect. Qed.

Lemma current_record_stale i w r :
  read_identity_at (identity_id (di_record i)) (disk w) = Ok r →
  generation r ≠ generation (di_record i) ∨ state r ≠ IdentityState.Active →
  current_record_for_mutation i w = (Err Conflict, w).
Proof.
  intros Hr Hs. unfold current_record_for_mutation, read_identity, reads, bind, sguard, lift, rguard.
  rewrite Hr. destruct Hs as [Hs|Hs]; [|rewrite orb_comm]; by rewrite bool_decide_false.
Qed.

(** A run that fails and leaves the disk alone. *)
Definition refused {A} (m : M A) (w : World) : Prop := ∃ e w', m w = (Err e, w') ∧ disk w' = disk w.

Lemma refused_lift {A B} (x : DidResult A) (k : A → M B) w :
  (∀ a, x = Ok a → refused (k a) w) → refused (bind (lift x) k) w.
Proof. intros Hk. unfold refused, bind, lift. destruct x as [a|e]; [by apply Hk|by eexists _, _]. Qed.
Lemma refused_bind {A B} (m : M A) (k : A → M B) w : refused m w → refused (bind m k) w.
Proof. intros (e & w' & Hm & Hd). exists e, w'. unfold bind. by rewrite Hm. Qed.

(** The lock, and then the check of the record. *)
Lemma refused_stale {B} rt i w r (k : StoreWriteGuard → IdentityRecord → M B) :
  read_identity_at (identity_id (di_record i)) (disk w) = Ok r →
  generation r ≠ generation (di_record i) ∨ state r ≠ IdentityState.Active →
  refused (let! g := acquire_write rt in let! r := current_record_for_mutation i in k g r) w.
Proof.
  intros Hr Hs. unfold refused, bind. destruct (acquire_write rt w) as [[g|e] w1] eqn:Hg;
    destruct (keeps_acquire_write _ _ _ _ Hg) as [Hd _]; [|by exists e, w1].
  rewrite (current_record_stale i w1 r); [by eexists _, _|by rewrite Hd|done].
Qed.

(** Every operation but a reconciliation is refused through a stale handle. *)
Lemma run_op_stale i op w r :
  reconciles op = false →
  read_identity_at (identity_id (di_record i)) (disk w) = Ok r →
  generation r ≠ generation (di_record i) ∨ state r ≠ IdentityState.Active →
  refused (run_op i op) w.
Proof.
  intros Hd Hr Hs. destruct op; simpl; try discriminate Hd; try by eapply refused_stale.
  - apply refused_bind, refused_lift. intros _ _. apply refused_lift. intros _ _. by eapply refused_stale.
  - apply refused_lift. intros k' _. by eapply refused_stale.
  - apply refused_lift. intros k' _. by eapply refused_stale.
Qed.

Lemma reconcile_stale i rid observed w r :
  read_identity_at (identity_id (di_record i)) (disk w) = Ok r →
  generation r ≠ generation (di_record i) ∨ state r ≠ IdentityState.Active →
  refused (reconcile_update i rid observed) w ∨
  reconcile_update i rid observed w = (Ok (i, ReconcileOutcome.RemoteOld), w).
Proof.
  intros Hr Hs. unfold refused, reconcile_update, bind, lift, sguard.
  destruct (required_pending _ _) as [p|]; [|left; by eexists _, _].
  destruct (rguard _ _) as [[]|]; [|left; by eexists _, _].
  destruct (rguard _ _) as [[]|]; [|left; by eexists _, _].
  destruct (canonical_digest observed) as [dg|]; [|left; by eexists _, _]. case_bool_decide.
  { left. apply refused_bind. by apply (run_op_stale i (Commit rid true None) w r). }
  destruct (canonical_digest _) as [old|]; [|left; by eexists _, _].
  case_bool_decide; [|left; by eexists _, _].
  destruct (for_did _) as [pf|]; [|left; by eexists _, _]. case_bool_decide; [by right|].
  left. apply refused_bind. by apply (run_op_stale i (RemoteOld rid) w r).
Qed.

(** C12.  Lost-update protection: when the stored record is at another generation
    than the handle, or is not active, every operation of lifecycle.rs fails and
    changes nothing on disk, whatever fault it meets.  Only the reconciliation of
    a Web identity that sees the old document, which looks at the handle alone,
    may return: it decides nothing and changes neither handle nor store. *)
Theorem lifecycle_stale_rejected i op w r :
  read_identity_at (identity_id (di_record i)) (disk w) = Ok r →
  generation r ≠ generation (di_record i) ∨ state r ≠ IdentityState.Active →
  (∃ e w', run_op i op w = (Err e, w') ∧ disk w' = disk w) ∨
  (old_web i op ∧ run_op i op w = (Ok i, w)).
Proof.
  intros Hr Hs. destruct (reconciles op) eqn:Hd; [|left; by eapply run_op_stale].
  destruct op as [| | | | | | | |rid observed| |]; try discriminate Hd. simpl.
  destruct (reconcile_stale i rid observed w r Hr Hs) as [Hf|Hok];
    [left; by apply (refused_bind _ (λ x, ret x.1))|right].
  assert (run_op i (ReconcileUpdate rid observed) w = (Ok i, w)) as Hrun
    by (simpl; unfold bind; by rewrite Hok).
  split; [|exact Hrun]. destruct (run_op_effect _ _ _ _ _ Hrun) as [(r' & Hrep & _)|[Hw _]]; [|done].
  destruct Hrep as (Hr' & Hg & Hst & _). rewrite Hr in Hr'. injection Hr' as <-. naive_solver.
Qed.

(** ** Histories *)

(** A history of one identity: the operations that returned, each on the handle
    the previous one left; in between, the rest of the store may change. *)
Inductive history : DidIdentity → World → list lifecycle_op → DidIdentity → World → Prop :=
  | history_nil i w : history i w [] i w
  | history_step i w ops i1 w1 op i2 w2 :
      history i w ops i1 w1 → run_op i1 op w1 = (Ok i2, w2) → history i w (ops ++ [op]) i2 w2
  | history_other i w ops i1 w1 w2 :
      history i w ops i1 w1 →
      d_identities (disk w2) !! storage_key (identity_id (di_record i1)) =
        d_identities (disk w1) !! storage_key (identity_id (di_record i1)) →
      history i w ops i1 w2.

(** The stored record has the pending revision and the document of the handle. *)
Definition in_sync (i : DidIdentity) (d : Disk) : Prop :=
  ∃ x, d_identities d !! storage_key (identity_id (di_record i)) = Some (Parsed x) ∧
    pending_revision x = pending_revision (di_record i) ∧
    document x = document (di_record i) ∧ revision x = revision (di_record i).

Lemma read_identity_fields iid d x r :
  d_identities d !! storage_key iid = Some (Parsed x) → read_identity_at iid d = Ok r →
  pending_revision r = pending_revision x ∧ document r = document x ∧ revision r = revision x.
Proof.
  unfold read_identity_at. intros -> Hr. inv_run Hr. injection Hstep as <-. inv_run Hr.
  unfold normalize_record in Hr. inv_run Hr. inv_run Hr. inv_run Hr.
  unfold normalize_fingerprint, normalize_checkpoint, normalize_authorization in *.
  repeat case_match; repeat match goal with
    | Hs : rbind _ _ = Ok _ |- _ => inv_run Hs
    | Hs : Ok _ = Ok _ |- _ => injection Hs as <-
    end; done.
Qed.

Lemma replaces_in_sync i d r i' d' : replaces i d r i' d' → in_sync i' d'.
Proof.
  intros (_ & _ & _ & _ & Hid & _ & _ & _ & Hd). exists (di_record i').
  split_and!; [|done..]. by rewrite Hd, Hid, lookup_insert_eq.
Qed.

Lemma replaces_synced i d r i' d' :
  replaces i d r i' d' → in_sync i d →
  pending_revision r = pending_revision (di_record i) ∧ document r = document (di_record i) ∧
  revision r = revision (di_record i).
Proof.
  intros (Hr & _) (x & Hx & Hp & Hdoc & Hrev).
  destruct (read_identity_fields _ _ _ _ Hx Hr) as (E1 & E2 & E3). split_and!; congruence.
Qed.

(** The revision of an abstract state, when its publication has begun. *)
Definition begun (p : option (string * PublicationState.t)) (rid : string) : Prop :=
  ∃ s, p = Some (rid, s) ∧ s ≠ PublicationState.Prepared.

Lemma pub_step_begun op p p' rid :
  pub_step op p p' → begun p' rid → op = Begin rid ∨ begun p rid.
Proof.
  intros Hs (s & -> & Hne). inversion Hs; subst; try done; [by left|..]; right.
  all: by eexists.
Qed.

Lemma pub_step_decides rid op p p' : pub_step op p p' → decides rid op → begun p rid.
Proof.
  destruct 1 as [| | | | | | | | | | |? ? ? ? Hc|? ?| |]; intros Hd; try done; simpl in Hd; subst;
    try (by eexists). inversion Hc; subst; by eexists.
Qed.
Lemma old_web_begun i rid op : old_web i op → decides rid op → begun (publication (di_record i)) rid.
Proof.
  intros (r & o & p & dg & -> & _ & Hp & Hr & Hs & _) Hd. simpl in Hd. subst.
  exists PublicationState.PublicationUncertain. by rewrite (publication_pending _ _ Hp), Hs.
Qed.

Lemma history_begun i w ops i' w' :
  history i w ops i' w' → in_sync i (disk w) → publication (di_record i) = None →
  in_sync i' (disk w') ∧ ∀ rid, begun (publication (di_record i')) rid → Begin rid ∈ ops.
Proof.
  induction 1 as [i w|i w ops i1 w1 op i2 w2 Hh IH Hrun|i w ops i1 w1 w2 Hh IH Hsame];
    intros Hsync Hnone.
  - split; [done|]. intros rid (s & Hs & _). congruence.
  - destruct (IH Hsync Hnone) as [Hs1 Hb].
    apply run_op_effect in Hrun as [(r & Hrep & Hstep)|(_ & -> & ->)];
      [|split; [done|]; intros rid Hbegun; apply elem_of_app; left; by apply Hb].
    split; [by eapply replaces_in_sync|]. intros rid Hbegun.
    destruct (replaces_synced _ _ _ _ _ Hrep Hs1) as (Hp & _).
    apply elem_of_app. destruct (pub_step_begun _ _ _ _ Hstep Hbegun) as [->|Hold];
      [right; set_solver|left]. apply Hb. unfold publication in *. by rewrite <-Hp.
  - destruct (IH Hsync Hnone) as [(x & Hx & Hrest) Hb]. split; [|done].
    exists x. split; [|done]. congruence.
Qed.

(** C11.  No commit without publication: in every history that starts without a
    pending revision, a revision that is committed, or reconciled with an observed
    document, was begun before, whatever other operations, failed calls and
    changes of other identities lie between. *)
Theorem committed_was_begun i w ops i1 w1 op rid i2 w2 :
  in_sync i (disk w) → pending_revision (di_record i) = None →
  history i w ops i1 w1 → decides rid op → run_op i1 op w1 = (Ok i2, w2) →
  Begin rid ∈ ops.
Proof.
  intros Hsync Hnone Hh Hop Hrun. assert (publication (di_record i) = None) as Hpub
    by (unfold publication; by rewrite Hnone).
  destruct (history_begun _ _ _ _ _ Hh Hsync Hpub) as [Hs1 Hb].
  apply Hb. apply run_op_effect in Hrun as [(r & Hrep & Hstep)|[Hw _]]; [|by eapply old_web_begun].
  destruct (replaces_synced _ _ _ _ _ Hrep Hs1) as (Hp & _).
  unfold publication in *. rewrite <-Hp. by eapply pub_step_decides.
Qed.

(** Operations other than a commit or a reconciliation keep the document and the revision. *)
Lemma run_op_document i op w i' w' :
  run_op i op w = (Ok i', w') → (∀ rid, ¬ decides rid op) →
  ∃ r, replaces i (disk w) r i' (disk w') ∧ document (di_record i') = document r ∧
    revision (di_record i') = revision r.
Proof.
  intros Hrun Hne. destruct op; simpl in Hrun.
  1: { inv_run Hrun. apply ret_Ok in Hrun as [-> ->]. destruct a as [j u].
    apply prepare_run in Hstep as (r & ? & ? & ? & ? & rid & ? & ? & Hrep & Hp & Hi).
    exists r. simpl. by rewrite Hi. }
  1-5: apply transition_effect in Hrun as (r & Hrep & _ & _ & q & Hi); exists r; by rewrite Hi.
  1: by destruct (Hne rid).
  1: { apply abort_run in Hrun as (r & p & Hrep & _ & _ & Hi & _). exists r. by rewrite Hi. }
  1: by destruct (Hne rid).
  1: apply end_retirement_effect in Hrun as (r & ? & _ & ?); eauto.
  1: apply delete_revoked_effect in Hrun as (r & ? & _ & ?); eauto.
Qed.

(** The published document is stable: a history without a commit or a
    reconciliation leaves the document and the revision of the record as they were. *)
Theorem document_changes_only_by_commit i w ops i' w' :
  in_sync i (disk w) → history i w ops i' w' →
  Forall (λ op, ∀ rid, ¬ decides rid op) ops →
  document (di_record i') = document (di_record i) ∧
  revision (di_record i') = revision (di_record i).
Proof.
  intros Hsync Hh. enough (in_sync i' (disk w') ∧
    (Forall (λ op, ∀ rid, ¬ decides rid op) ops →
     document (di_record i') = document (di_record i) ∧
     revision (di_record i') = revision (di_record i))) as [_ ?] by done.
  induction Hh as [i w|i w ops i1 w1 op i2 w2 Hh IH Hrun|i w ops i1 w1 w2 Hh IH Hsame].
  - done.
  - destruct (IH Hsync) as [Hs1 Hd]. split.
    + apply run_op_effect in Hrun as [(r & Hrep & _)|(_ & -> & ->)]; [|done]. by eapply replaces_in_sync.
    + intros [Hops Hop]%Forall_app. rewrite Forall_singleton in Hop.
      destruct (run_op_document _ _ _ _ _ Hrun Hop) as (r & Hrep & -> & ->).
      destruct (replaces_synced _ _ _ _ _ Hrep Hs1) as (_ & -> & ->). by apply Hd.
  - destruct (IH Hsync) as [(x & Hx & Hrest) Hd]. split; [|done].
    exists x. split; [|done]. congruence.
Qed.

Lemma read_in_sync i d :
  read_identity_at (identity_id (di_record i)) d = Ok (di_record i) → in_sync i d.
Proof.
  intros Hr. assert (∃ x, d_identities d !! storage_key (identity_id (di_record i))
    = Some (Parsed x)) as [x Hx].
  { unfold read_identity_at in Hr.
    destruct (d_identities d !! storage_key (identity_id (di_record i))) as [[x| |]|]; eauto; done. }
  exists x. split; [done|]. destruct (read_identity_fields _ _ _ _ Hx Hr) as (-> & -> & ->). done.
Qed.
End LifecycleFacts.

(** ** Witnesses *)

Lemma lifecycle_refines_machine_witness :
  ∃ i rid w i' w', @run_op toy_env i (Commit rid false None) w = (Ok i', w') ∧
    publication (di_record i') = None.
Proof.
  destruct rotation_scenario as (s & i & w0 & i1 & u & w1 & i2 & w2 & i3 & w3 & i4 & w4 & _ & _ &
    _ & _ & _ & _ & _ & _ & Hrun & _).
  exists i3, (pu_revision_id u), w3, i4, w4. split; [exact Hrun|].
  destruct (@lifecycle_refines_machine toy_env i3 (Commit (pu_revision_id u) false None) w3 i4 w4
    Hrun) as [(r & _ & Hstep)|[Hw _]].
  - inversion Hstep; reflexivity.
  - destruct Hw as (? & ? & ? & ? & Hop & _). discriminate Hop.
Defined.

Lemma lifecycle_stale_rejected_witness :
  ∃ i rid w e w', @run_op toy_env i (Begin rid) w = (Err e, w') ∧ disk w' = disk w.
Proof.
  destruct rotation_scenario as (s & i & w0 & i1 & u & w1 & i2 & w2 & _ & _ & _ & _ & _ & _ & _ &
    _ & _ & Hp & Hb & _).
  apply transition_effect in Hb as (r & (Hr & Hg & _ & _ & Hid & _ & _ & Hg2 & _) & _).
  exists i2, (pu_revision_id u), w1.
  destruct (@lifecycle_stale_rejected toy_env i2 (Begin (pu_revision_id u)) w1 r) as [Hf|[Hw _]].
  - rewrite Hid, (read_identity_id _ _ _ Hr). exact Hr.
  - left. rewrite Hg2. lia.
  - exact Hf.
  - destruct Hw as (? & ? & ? & ? & Hop & _). discriminate Hop.
Defined.

(** The handle of a creation is in step with the store. *)
Lemma created_in_sync s i w :
  @create_identity toy_env sample_store sample_spec initial_world = (Ok (s, i), w) →
  @in_sync toy_env i (disk w).
Proof.
  intros Hc. apply (@read_in_sync toy_env).
  destruct (@create_identity_safe toy_env toy_did_document_laws sample_store sample_spec None initial_world _ w
    quiescent_empty (fresh_empty _) Hc) as (registry & _ & Ha).
  exact (ai_record _ _ _ _ _ _ Ha).
Qed.

Lemma committed_was_begun_witness :
  ∃ rid, Begin rid ∈ [Prepare rotation_spec; Begin rid; Published rid].
Proof.
  destruct rotation_scenario as (s & i & w0 & i1 & u & w1 & i2 & w2 & i3 & w3 & i4 & w4 & _ & _ &
    _ & _ & Hc & Hp & Hb & Hm & Hrun & _).
  exists (pu_revision_id u). pose proof (created_in_sync _ _ _ Hc) as Hsync.
  refine (@committed_was_begun toy_env i w0 _ i3 w3
    (Commit (pu_revision_id u) false None) (pu_revision_id u) i4 w4 Hsync _ _ eq_refl Hrun).
  - pose proof (prepare_run _ _ _ _ _ _ _ Hp) as (r & _ & _ & _ & _ & _ & _ & _ & Hrep & Hnone & _).
    destruct (replaces_synced _ _ _ _ _ Hrep Hsync) as (Hpend & _). congruence.
  - apply (history_step i w0 [Prepare rotation_spec; Begin (pu_revision_id u)] i2 w2); [|exact Hm].
    apply (history_step i w0 [Prepare rotation_spec] i1 w1); [|exact Hb].
    apply (history_step i w0 [] i w0); [constructor|]. simpl. unfold bind. rewrite Hp. reflexivity.
Defined.

Lemma document_changes_only_by_commit_witness :
  ∃ i w i' w', @history toy_env i w [Prepare rotation_spec] i' w' ∧
    document (di_record i') = document (di_record i).
Proof.
  destruct rotation_scenario as (s & i & w0 & i1 & u & w1 & _ & _ & _ & _ & _ & _ & _ & _ & _ &
    _ & Hc & Hp & _).
  pose proof (created_in_sync _ _ _ Hc) as Hsync.
  assert (@history toy_env i w0 [Prepare rotation_spec] i1 w1) as Hh.
  { apply (history_step i w0 [] i w0); [constructor|]. simpl. unfold bind. rewrite Hp. reflexivity. }
  exists i, w0, i1, w1. split; [exact Hh|].
  apply (@document_changes_only_by_commit toy_env i w0 _ i1 w1 Hsync Hh).
  constructor; [by intros ? []|constructor].
Defined.
