(* ===== verification/CryptoFacts.v ===== *)
(** * Correctness of signing and key agreement (crypto_ops.rs)

    Which key each operation may use, that a signature verifies and that two
    identities agree on a secret, and that nothing is signed for an identity that
    is not active or through a handle that is behind the store. *)

From stdpp Require Import base strings list gmap.
From S2P Require Import Prelude Json Errors Records Env Toy Input World Document Keystore Registry.
From S2P Require Import Recovery Identity RecordFacts Adoption Lifecycle CryptoOps.
From S2P Require Import IdentityFacts Namespace Scenario AdoptionFacts EnrollmentFacts LifecycleFacts.

(** ** The operations *)

(** The operations of crypto_ops.rs ([http_signature_headers], which only the tests of the
    crate have, is [HttpHeaders] with the default options). *)
Inductive crypto_op :=
  | Sign (k message : string)
  | DeviceAssertion (k message : string)
  | Ecdh (k peer : string)
  | ObjectProof (k : string) (value : Value) (issuer : string) (created : option string)
  | DocumentProof (k : string) (value : Value) (options : ProofGenerationOptions)
  | OriginProof (k method : string) (meta body : Value) (options : Rfc9421OriginProofGenerationOptions)
  | LegacyHeader (k service_domain version : string)
  | HttpHeaders (k url method : string) (headers : option (list (string * string)))
      (body : option string) (options : HttpSignatureOptions)
  | PendingRootProof (k : string) (value : Value) (issuer : string) (created : option string)
  | EnrollmentSign (eid k message : string)
  | EnrollmentEcdh (eid k peer : string)
  | Verify (k message signature : string).

Inductive crypto_out :=
  | Bytes (s : string)
  | Json (v : Value)
  | Origin (p : Rfc9421OriginProof)
  | Headers (l : list (string * string))
  | Verified.

Section Crypto.
Context `{Env}.

Definition run_crypto (i : DidIdentity) (op : crypto_op) : M crypto_out :=
  match op with
  | Sign k message => let! s := sign i k message in ret (Bytes s)
  | DeviceAssertion k message => let! s := sign_device_assertion i k message in ret (Bytes s)
  | Ecdh k peer => let! s := ecdh i k peer in ret (Bytes s)
  | ObjectProof k value issuer created =>
      let! v := sign_object_proof i k value issuer created in ret (Json v)
  | DocumentProof k value options =>
      let! v := sign_document_proof i value k options in ret (Json v)
  | OriginProof k method meta body options =>
      let! p := sign_origin_proof i method meta body k options in ret (Origin p)
  | LegacyHeader k service_domain version =>
      let! s := legacy_did_wba_header i k service_domain version in ret (Bytes s)
  | HttpHeaders k url method headers body options =>
      let! l := http_signature_headers_with_options i k url method headers body options in
      ret (Headers l)
  | PendingRootProof k value issuer created =>
      let! v := sign_pending_root_object_proof i k value issuer created in ret (Json v)
  | EnrollmentSign eid k message => let! s := sign_pending_enrollment i eid k message in ret (Bytes s)
  | EnrollmentEcdh eid k peer => let! s := ecdh_pending_enrollment i eid k peer in ret (Bytes s)
  | Verify k message signature => do! lift (verify i k message signature); ret Verified
  end.

(** The roles whose keys an operation may use; [Verify] uses no private key. *)
Definition allowed_roles (op : crypto_op) : list KeyRole.t :=
  match op with
  | Sign _ _ => [KeyRole.DeviceSigning; KeyRole.RequestSigning; KeyRole.E2eeSigning]
  | DeviceAssertion _ _ | ObjectProof _ _ _ _ | EnrollmentSign _ _ _ => [KeyRole.DeviceSigning]
  | Ecdh _ _ | EnrollmentEcdh _ _ _ => [KeyRole.E2eeAgreement]
  | DocumentProof _ _ _ | PendingRootProof _ _ _ _ => [KeyRole.RootControl]
  | OriginProof _ _ _ _ _ | LegacyHeader _ _ _ | HttpHeaders _ _ _ _ _ _ =>
      [KeyRole.DeviceSigning; KeyRole.RequestSigning]
  | Verify _ _ _ => []
  end.

(** The state in which the stored record has to be. *)
Definition required_state (op : crypto_op) : option IdentityState.t :=
  match op with
  | EnrollmentSign _ _ _ | EnrollmentEcdh _ _ _ => Some IdentityState.Enrolling
  | Verify _ _ _ => None
  | _ => Some IdentityState.Active
  end.

(** The key [m] of the record [r] is the one requested as [k], and is active or waits for its
    activation. *)
Definition active_key (r : IdentityRecord) (k : string) (m : KeyMetadata) : Prop :=
  canonicalize_kid (did r) k = Ok (kid m) ∧ find_key (kid m) (keys r) = Some m ∧
  key_state m = KeyState.Active.
Definition pending_key (r : IdentityRecord) (k : string) (m : KeyMetadata) : Prop :=
  canonicalize_kid (did r) k = Ok (kid m) ∧ find_key (kid m) (keys r) = Some m ∧
  key_state m = KeyState.Pending ∧ material_erased m = false.
(** The enrollment [eid] is waiting, and [m] is the key it selects. *)
Definition enrollment_key_of (r : IdentityRecord) (eid : string)
    (select : LocalAuthorizationRecord → string) (m : KeyMetadata) : Prop :=
  (∃ p, pending_enrollment r = Some p ∧ pe_enrollment_id p = eid) ∧
  ∃ l, local_authorization r = Some l ∧ kid m = select l.

(** The operation may use the key [m]: the stored record is at the generation of the handle
    and in the required state, and [m] is a managed key of a role the operation may use and
    the one that was requested.  An active key is one of the handle; a root key signs
    documents while the root capability is active; the keys of an enrollment or of a root
    transfer that is waiting are used by the operations for them only. *)
Definition entitled (i : DidIdentity) (d : Disk) (op : crypto_op) (m : KeyMetadata) : Prop :=
  ∃ r, read_identity_at (identity_id (di_record i)) d = Ok r ∧
    generation r = generation (di_record i) ∧ required_state op = Some (state r) ∧
    origin m = KeyOrigin.Managed ∧ role m ∈ allowed_roles op ∧
    match op with
    | Sign k _ | DeviceAssertion k _ | Ecdh k _ | ObjectProof k _ _ _ | OriginProof k _ _ _ _
    | HttpHeaders k _ _ _ _ _ => active_key (di_record i) k m
    | LegacyHeader k _ _ =>
        active_key (di_record i) k m ∧ for_did (did (di_record i)) = Ok DidProfile.E1
    | DocumentProof k _ _ =>
        active_key (di_record i) k m ∧ root_capability (di_record i) = RootCapabilityState.Active
    | PendingRootProof k _ _ _ =>
        pending_key r k m ∧ root_capability r = RootCapabilityState.Pending ∧
        is_Some (pending_root_transfer r)
    | EnrollmentSign eid k _ => pending_key r k m ∧ enrollment_key_of r eid signing_kid m
    | EnrollmentEcdh eid k _ => pending_key r k m ∧ enrollment_key_of r eid e2ee_kid m
    | Verify _ _ _ => False
    end.

(** What an operation computes from the secret of the key [m]. *)
Definition computes (i : DidIdentity) (op : crypto_op) (m : KeyMetadata) (secret : string)
    (out : crypto_out) : Prop :=
  let doc := document (di_record i) in
  let public p := document_public_key doc (kid m) = Ok p in
  match op with
  | Sign _ message | DeviceAssertion _ message | EnrollmentSign _ _ message =>
      out = Bytes (ed25519_sign secret message)
  | Ecdh _ peer | EnrollmentEcdh _ _ peer =>
      out = Bytes (x25519_dh secret peer) ∧ all_zero (x25519_dh secret peer) = false
  | ObjectProof _ value issuer created | PendingRootProof _ value issuer created => ∃ pk p v,
      public pk ∧ prepare_object_proof value pk (kid m) issuer created = Some p ∧
      complete_object_proof p (ed25519_sign secret (signing_input p)) = Some v ∧ out = Json v
  | DocumentProof _ value options => ∃ pk p v,
      public pk ∧ prepare_w3c_proof value pk (kid m) options = Some p ∧
      complete_w3c_proof p (ed25519_sign secret (signing_input p)) = Some v ∧ out = Json v
  | OriginProof _ method meta body options => ∃ pk p v,
      public pk ∧ prepare_rfc9421_origin_proof method meta body pk (kid m) options = Some p ∧
      complete_rfc9421_origin_proof p (ed25519_sign secret (origin_signing_input p)) = Some v ∧
      out = Origin v
  | LegacyHeader _ domain version => ∃ p v,
      prepare_legacy_did_wba_auth_header doc domain version (kid m) = Some p ∧
      complete_legacy_did_wba_auth_header p (ed25519_sign secret (header_signing_input p)) = Some v ∧
      out = Bytes v
  | HttpHeaders _ url method headers body options => ∃ p v,
      prepare_http_signature_headers doc url method headers body
        (with_keyid (kid m) options) = Some p ∧
      complete_http_signature_headers p (ed25519_sign secret (header_signing_input p)) = Some v ∧
      out = Headers v
  | Verify _ _ _ => False
  end.

(** The operation used the private key of an entitled key, or the public key that the document
    of the handle shows for a key that is not revoked. *)
Definition key_used (i : DidIdentity) (d : Disk) (op : crypto_op) (out : crypto_out) : Prop :=
  match op with
  | Verify k message signature =>
      out = Verified ∧ ∃ m public, identity_key_metadata i k = Ok m ∧
        key_state m ≠ KeyState.Revoked ∧ role m ≠ KeyRole.E2eeAgreement ∧
        document_public_key (document (di_record i)) (kid m) = Ok public ∧
        verify_message public message signature = true
  | _ =>
      ∃ m secret, entitled i d op m ∧
        open_secret_at (di_runtime i) (ref_of_key (identity_id (di_record i)) m) d = Ok secret ∧
        String.length secret = 32 ∧ computes i op m secret out
  end.

(** The stored record is the handle's, and active. *)
Definition operational (i : DidIdentity) (d : Disk) : Prop :=
  ∃ r, read_identity_at (identity_id (di_record i)) d = Ok r ∧
    generation r = generation (di_record i) ∧ state r = IdentityState.Active.

(** ** Lemmas *)

Lemma find_key_kid k l m : find_key k l = Some m → kid m = k ∧ m ∈ l.
Proof.
  unfold find_key. intros Hf. apply find_some in Hf as [Hin Hk].
  apply bool_decide_eq_true in Hk. split; [done|by apply list_elem_of_In].
Qed.

Lemma current_record_read i w r w' :
  current_record i w = (Ok r, w') →
  w' = w ∧ read_identity_at (identity_id (di_record i)) (disk w) = Ok r ∧
  generation r = generation (di_record i).
Proof.
  unfold current_record. intros Hc. inv_run Hc. injection Hstep as Hr <-.
  inv_run Hc. apply lift_Ok in Hstep as [Hg ->]. apply ret_Ok in Hc as [-> ->].
  by apply rguard_Ok, negb_false_iff, bool_decide_eq_true in Hg.
Qed.

Lemma require_operational_Ok i w u w' :
  require_operational i w = (Ok u, w') → w' = w ∧ operational i (disk w).
Proof.
  unfold require_operational. intros Hr. inv_run Hr.
  apply current_record_read in Hstep as (-> & Hread & Hg). apply lift_Ok in Hr as [Hs ->].
  apply rguard_Ok, negb_false_iff, bool_decide_eq_true in Hs. split; [done|]. by exists a.
Qed.

Lemma managed_key_Ok i k m :
  managed_key_metadata i k = Ok m →
  find_key (kid m) (keys (di_record i)) = Some m ∧ origin m = KeyOrigin.Managed ∧
  canonicalize_kid (did (di_record i)) k = Ok (kid m).
Proof.
  unfold managed_key_metadata, identity_key_metadata. intros Hm. inv_run Hm. inv_run Hm.
  injection Hm as <-. inv_run Hstep. apply ok_or_Ok in Hstep.
  apply rguard_Ok, bool_decide_eq_false in Hstep0.
  pose proof (find_key_kid _ _ _ Hstep) as [Hk _]. subst.
  split_and!; [done| |done]. by destruct (origin a).
Qed.

Lemma managed_identity_key i k m :
  managed_key_metadata i k = Ok m → identity_key_metadata i k = Ok m.
Proof.
  unfold managed_key_metadata. intros Hm. inv_run Hm. inv_run Hm. by injection Hm as ->.
Qed.

Lemma existsb_role r l : existsb (is_role r) l = true ↔ r ∈ l.
Proof.
  rewrite existsb_exists. unfold is_role. split.
  - intros (x & Hx & Hr). apply bool_decide_eq_true in Hr as ->. by apply list_elem_of_In.
  - intros Hr. exists r. split; [by apply list_elem_of_In|by apply bool_decide_eq_true].
Qed.

Lemma usable_key_Ok i k roles w m w' :
  usable_key i k roles w = (Ok m, w') →
  w' = w ∧ operational i (disk w) ∧ canonicalize_kid (did (di_record i)) k = Ok (kid m) ∧
  find_key (kid m) (keys (di_record i)) = Some m ∧ origin m = KeyOrigin.Managed ∧
  key_state m = KeyState.Active ∧ role m ∈ roles.
Proof.
  unfold usable_key. intros Hu. inv_run Hu. apply require_operational_Ok in Hstep as [-> Hop].
  inv_run Hu. apply lift_Ok in Hstep as [Hm ->]. apply managed_key_Ok in Hm as (Hf & Ho & Hc).
  inv_run Hu. apply lift_Ok in Hstep as [Ha ->]. unfold require_active in Ha.
  apply rguard_Ok, negb_false_iff, bool_decide_eq_true in Ha.
  inv_run Hu. apply lift_Ok in Hstep as [Hr ->]. apply ret_Ok in Hu as [-> ->].
  apply rguard_Ok, negb_false_iff, existsb_role in Hr. done.
Qed.

Lemma load_secret_Ok i m w s w' :
  load_managed_secret i m w = (Ok s, w') →
  w' = w ∧ open_secret_at (di_runtime i) (ref_of_key (identity_id (di_record i)) m) (disk w) = Ok s.
Proof. unfold load_managed_secret, open_secret. intros [= Hs <-]. done. Qed.

Lemma sign_prepared_Ok i m message w s w' :
  sign_prepared i m message w = (Ok s, w') →
  w' = w ∧ ∃ secret,
    open_secret_at (di_runtime i) (ref_of_key (identity_id (di_record i)) m) (disk w) = Ok secret ∧
    String.length secret = 32 ∧ s = ed25519_sign secret message.
Proof.
  unfold sign_prepared. intros Hs. inv_run Hs. apply load_secret_Ok in Hstep as [-> Ho].
  apply lift_Ok in Hs as [Hs ->]. unfold ed25519_signature in Hs. inv_run Hs. injection Hs as <-.
  apply rguard_Ok, negb_false_iff, bool_decide_eq_true in Hstep. eauto.
Qed.

Lemma agree_Ok i m peer w s w' :
  agree i m peer w = (Ok s, w') →
  w' = w ∧ String.length peer = 32 ∧ ∃ secret,
    open_secret_at (di_runtime i) (ref_of_key (identity_id (di_record i)) m) (disk w) = Ok secret ∧
    String.length secret = 32 ∧ s = x25519_dh secret peer ∧ all_zero s = false.
Proof.
  unfold agree. intros Hs. inv_run Hs. apply lift_Ok in Hstep as [Hp ->].
  apply rguard_Ok, negb_false_iff, bool_decide_eq_true in Hp.
  inv_run Hs. apply load_secret_Ok in Hstep as [-> Ho]. apply lift_Ok in Hs as [Hs ->].
  unfold shared_secret in Hs. inv_run Hs. inv_run Hs. injection Hs as <-.
  apply rguard_Ok, negb_false_iff, bool_decide_eq_true in Hstep. apply rguard_Ok in Hstep0.
  split_and!; [done..|]. eauto 6.
Qed.

(** The end of an operation that signs: a prepared input, the signature, and the
    completed result. *)
Lemma signed_Ok {P R} i m (prepared : option P) (input : P → string)
    (complete : P → string → option R) e w x w' :
  (let! p := lift (ok_or prepared e) in
   let! signature := sign_prepared i m (input p) in
   lift (ok_or (complete p signature) Crypto)) w = (Ok x, w') →
  w' = w ∧ ∃ p secret, prepared = Some p ∧
    open_secret_at (di_runtime i) (ref_of_key (identity_id (di_record i)) m) (disk w) = Ok secret ∧
    String.length secret = 32 ∧ complete p (ed25519_sign secret (input p)) = Some x.
Proof.
  intros Hx. inv_run Hx. apply lift_Ok in Hstep as [Hp%ok_or_Ok ->].
  inv_run Hx. apply sign_prepared_Ok in Hstep as (-> & secret & Ho & Hl & ->).
  apply lift_Ok in Hx as [Hx%ok_or_Ok ->]. eauto 8.
Qed.

Lemma document_proof_key i k value options w v w' :
  sign_document_proof i value k options w = (Ok v, w') →
  ∃ m, usable_key i k [KeyRole.RootControl] w = (Ok m, w) ∧
    root_capability (di_record i) = RootCapabilityState.Active ∧
    (let! public := lift (document_public_key (document (di_record i)) (kid m)) in
     let! prepared := lift (ok_or (prepare_w3c_proof value public (kid m) options) Crypto) in
     let! signature := sign_prepared i m (signing_input prepared) in
     lift (ok_or (complete_w3c_proof prepared signature) Crypto)) w = (Ok v, w').
Proof.
  unfold sign_document_proof. intros Hv. inv_run Hv.
  pose proof (require_operational_Ok _ _ _ _ Hstep) as [-> _].
  inv_run Hv. apply lift_Ok in Hstep0 as [Hc%rguard_Ok ->].
  apply negb_false_iff, bool_decide_eq_true in Hc.
  inv_run Hv. apply lift_Ok in Hstep0 as [Hm ->]. inv_run Hv. apply lift_Ok in Hstep0 as [Ha ->].
  inv_run Hv. apply lift_Ok in Hstep0 as [Hr%rguard_Ok ->]. exists a1. split_and!; [|done|done].
  unfold usable_key, bind, lift, sguard, ret. rewrite Hstep, Hm, Ha. simpl.
  by rewrite orb_false_r, Hr.
Qed.

Lemma pending_managed_true m r :
  pending_managed m r = true →
  role m = r ∧ origin m = KeyOrigin.Managed ∧ key_state m = KeyState.Pending ∧ material_erased m = false.
Proof.
  unfold pending_managed, is_role. rewrite !andb_true_iff, !bool_decide_eq_true, negb_true_iff. tauto.
Qed.

Lemma enrollment_key_Ok i eid k select rl w m w' :
  enrollment_key i eid k select rl w = (Ok m, w') →
  w' = w ∧ ∃ r, read_identity_at (identity_id (di_record i)) (disk w) = Ok r ∧
    generation r = generation (di_record i) ∧ state r = IdentityState.Enrolling ∧
    origin m = KeyOrigin.Managed ∧ role m = rl ∧ pending_key r k m ∧ enrollment_key_of r eid select m.
Proof.
  unfold enrollment_key, current_pending_enrollment. intros He. inv_run He. inv_run Hstep.
  apply current_record_read in Hstep0 as (-> & Hr & Hg). inv_run Hstep.
  apply lift_Ok in Hstep0 as [Hb%rguard_Ok ->]. apply ret_Ok in Hstep as [-> ->].
  apply orb_false_iff in Hb as [Hs%negb_false_iff%bool_decide_eq_true Hp%negb_false_iff].
  apply option_test_true in Hp as (p & Hp & Heid%bool_decide_eq_true).
  inv_run He. apply lift_Ok in Hstep as [Hl%ok_or_Ok ->].
  inv_run He. apply lift_Ok in Hstep as [Hk ->].
  inv_run He. apply lift_Ok in Hstep as [Hsel%rguard_Ok%negb_false_iff%bool_decide_eq_true ->].
  inv_run He. apply lift_Ok in Hstep as [Hf%ok_or_Ok ->].
  inv_run He. apply lift_Ok in Hstep as [Hpm%rguard_Ok%negb_false_iff ->].
  apply ret_Ok in He as [-> ->]. apply pending_managed_true in Hpm as (Hrole & Ho & Hst & Her).
  pose proof (find_key_kid _ _ _ Hf) as [Hkid _]. rewrite <-Hkid in Hk, Hf, Hsel.
  split; [done|]. eexists. split; [exact Hr|]. do 4 (split; [done|]). split; [by split_and!|].
  split; eauto.
Qed.

(** An active key of the handle is one the operation may use. *)
Lemma entitled_active i d k m op :
  operational i d → required_state op = Some IdentityState.Active →
  canonicalize_kid (did (di_record i)) k = Ok (kid m) →
  find_key (kid m) (keys (di_record i)) = Some m → origin m = KeyOrigin.Managed →
  key_state m = KeyState.Active → role m ∈ allowed_roles op →
  (active_key (di_record i) k m →
   match op with
   | Sign k _ | DeviceAssertion k _ | Ecdh k _ | ObjectProof k _ _ _ | OriginProof k _ _ _ _
   | HttpHeaders k _ _ _ _ _ => active_key (di_record i) k m
   | LegacyHeader k _ _ =>
       active_key (di_record i) k m ∧ for_did (did (di_record i)) = Ok DidProfile.E1
   | DocumentProof k _ _ =>
       active_key (di_record i) k m ∧ root_capability (di_record i) = RootCapabilityState.Active
   | _ => False
   end) →
  entitled i d op m.
Proof.
  intros (r & Hr & Hg & Hs) Hreq Hk Hf Ho Ha Hrole Hop. exists r. rewrite Hs.
  do 5 (split; [done|]). specialize (Hop ltac:(by split_and!)). by destruct op.
Qed.

(** The operations with an active key that sign a message, or agree. *)
Lemma message_key_used i op w out w' :
  match op with Sign _ _ | DeviceAssertion _ _ | Ecdh _ _ => True | _ => False end →
  run_crypto i op w = (Ok out, w') → w' = w ∧ key_used i (disk w) op out.
Proof.
  intros Hop Hrun. destruct op; try done; simpl in Hrun; inv_run Hrun; apply ret_Ok in Hrun as [-> ->].
  1,2: unfold sign, sign_device_assertion in Hstep; inv_run Hstep;
    apply usable_key_Ok in Hstep0 as (-> & Hact & Hk & Hf & Ho & Hs & Hr);
    apply sign_prepared_Ok in Hstep as (-> & secret & Hopen & Hl & ->);
    split; [done|]; exists a0, secret; split_and!; try done; by eapply entitled_active.
  unfold ecdh in Hstep; inv_run Hstep;
    apply usable_key_Ok in Hstep0 as (-> & Hact & Hk & Hf & Ho & Hs & Hr);
    apply agree_Ok in Hstep as (-> & _ & secret & Hopen & Hl & -> & Hz);
    split; [done|]; exists a0, secret; split_and!; try done; by eapply entitled_active.
Qed.

(** The operations with an active key that make a proof over a prepared input. *)
Lemma proof_key_used i op w out w' :
  match op with
  | ObjectProof _ _ _ _ | DocumentProof _ _ _ | OriginProof _ _ _ _ _ => True
  | _ => False
  end →
  run_crypto i op w = (Ok out, w') → w' = w ∧ key_used i (disk w) op out.
Proof.
  intros Hop Hrun. destruct op; try done; simpl in Hrun; inv_run Hrun; apply ret_Ok in Hrun as [-> ->].
  2: apply document_proof_key in Hstep as (a0 & Hu & Hcap & Hstep);
    apply usable_key_Ok in Hu as (_ & Hact & Hk & Hf & Ho & Hs & Hr).
  1,3: unfold sign_object_proof, sign_origin_proof, object_proof in Hstep; inv_run Hstep;
    apply usable_key_Ok in Hstep0 as (-> & Hact & Hk & Hf & Ho & Hs & Hr).
  all: inv_run Hstep; apply lift_Ok in Hstep0 as [Hpk ->];
    apply signed_Ok in Hstep as (-> & p & secret & Hp & Hopen & Hl & Hc); split; [done|];
    exists a0, secret; split_and!; [by eapply entitled_active|done|done|by eexists _, p, _].
Qed.

Lemma header_key_used i op w out w' :
  match op with LegacyHeader _ _ _ | HttpHeaders _ _ _ _ _ _ => True | _ => False end →
  run_crypto i op w = (Ok out, w') → w' = w ∧ key_used i (disk w) op out.
Proof.
  intros Hop Hrun. destruct op; try done; simpl in Hrun; inv_run Hrun; apply ret_Ok in Hrun as [-> ->].
  1: unfold legacy_did_wba_header in Hstep; inv_run Hstep; apply lift_Ok in Hstep0 as [Hprof ->];
    inv_run Hstep; apply lift_Ok in Hstep0 as [He1 ->];
    apply rguard_Ok, negb_false_iff, bool_decide_eq_true in He1 as ->.
  all: unfold http_signature_headers_with_options in *; inv_run Hstep;
    apply usable_key_Ok in Hstep0 as (-> & Hact & Hk & Hf & Ho & Hs & Hr);
    apply signed_Ok in Hstep as (-> & p & secret & Hp & Hopen & Hl & Hc); split; [done|];
    eexists _, secret; split_and!; [by eapply entitled_active|done|done|by eexists p, _].
Qed.

(** The operations with a key that waits for its activation. *)
Lemma pending_key_used i op w out w' :
  match op with
  | PendingRootProof _ _ _ _ | EnrollmentSign _ _ _ | EnrollmentEcdh _ _ _ => True
  | _ => False
  end →
  run_crypto i op w = (Ok out, w') → w' = w ∧ key_used i (disk w) op out.
Proof.
  intros Hop Hrun. destruct op; try done; simpl in Hrun; inv_run Hrun; apply ret_Ok in Hrun as [-> ->].
  - unfold sign_pending_root_object_proof, object_proof in Hstep. inv_run Hstep.
    apply current_record_read in Hstep0 as (-> & Hr & Hg). inv_run Hstep.
    apply lift_Ok in Hstep0 as [Hb%rguard_Ok ->].
    apply orb_false_iff in Hb as [[Hs%negb_false_iff%bool_decide_eq_true
      Hcap%negb_false_iff%bool_decide_eq_true]%orb_false_iff Hp%negb_false_iff%bool_decide_eq_true].
    inv_run Hstep. apply lift_Ok in Hstep0 as [Hk ->].
    inv_run Hstep. apply lift_Ok in Hstep0 as [Hf%ok_or_Ok ->].
    inv_run Hstep. apply lift_Ok in Hstep0 as [Hm%rguard_Ok%negb_false_iff ->].
    apply pending_managed_true in Hm as (Hrole & Ho & Hst & Her).
    inv_run Hstep. apply lift_Ok in Hstep0 as [Hpk ->].
    apply signed_Ok in Hstep as (-> & p & secret & Hpp & Hopen & Hl & Hc). split; [done|].
    pose proof (find_key_kid _ _ _ Hf) as [Hkid _]. rewrite <-Hkid in Hk, Hf.
    eexists _, secret. split_and!; [|done|done|by eexists _, p, _].
    eexists. split; [exact Hr|]. simpl. rewrite Hs, Hrole.
    split_and!; try done; by apply list_elem_of_singleton.
  - unfold sign_pending_enrollment in Hstep. inv_run Hstep.
    apply enrollment_key_Ok in Hstep0 as (-> & r & Hr & Hg & Hs & Ho & Hrole & Hk & He).
    apply sign_prepared_Ok in Hstep as (-> & secret & Hopen & Hl & ->). split; [done|].
    exists a0, secret. split_and!; try done. exists r. simpl. rewrite Hs, Hrole.
    split_and!; try done. by apply list_elem_of_singleton.
  - unfold ecdh_pending_enrollment in Hstep. inv_run Hstep.
    apply enrollment_key_Ok in Hstep0 as (-> & r & Hr & Hg & Hs & Ho & Hrole & Hk & He).
    apply agree_Ok in Hstep as (-> & _ & secret & Hopen & Hl & -> & Hz). split; [done|].
    exists a0, secret. split_and!; try done. exists r. simpl. rewrite Hs, Hrole.
    split_and!; try done. by apply list_elem_of_singleton.
Qed.

Lemma verify_key_used i k message signature w out w' :
  run_crypto i (Verify k message signature) w = (Ok out, w') →
  w' = w ∧ key_used i (disk w) (Verify k message signature) out.
Proof.
  intros Hrun. simpl in Hrun. inv_run Hrun. apply lift_Ok in Hstep as [Hv ->].
  apply ret_Ok in Hrun as [-> ->]. split; [done|]. split; [done|]. unfold verify in Hv.
  inv_run Hv. rename Hstep into Hm. inv_run Hv. apply rguard_Ok, bool_decide_eq_false in Hstep.
  inv_run Hv. apply rguard_Ok, bool_decide_eq_false in Hstep0. inv_run Hv.
  apply rguard_Ok, negb_false_iff in Hv. by eexists _, _.
Qed.

(** Every operation of crypto_ops.rs that returns used a key it may use. *)
Lemma run_crypto_Ok i op w out w' :
  run_crypto i op w = (Ok out, w') → w' = w ∧ key_used i (disk w) op out.
Proof.
  destruct op;
    first [by apply message_key_used|by apply proof_key_used|by apply header_key_used|
      by apply pending_key_used|by apply verify_key_used].
Qed.

(** C21.  Key separation: an operation of crypto_ops.rs that returns changed nothing, and
    computed its result with the secret of a key it is entitled to ([entitled]): the stored
    record was at the generation of the handle and in the state the operation needs; the key
    is the requested one, managed, and of a role the operation may use; it is an active key
    of the handle, or, for the operations made for that, a key that waits for the activation
    of its enrollment or of its root transfer.  So no root key signs a message, no agreement
    key signs, no signing key is used for agreement, and no waiting key is used for anything
    else.  Verification uses no secret: it used the public key that the document shows for a
    key that is neither revoked nor an agreement key. *)
Theorem crypto_key_separation i op w out w' :
  run_crypto i op w = (Ok out, w') → w' = w ∧ key_used i (disk w) op out.
Proof. apply run_crypto_Ok. Qed.

(** ** Operations that only read *)

Definition readonly {A} (m : M A) : Prop := ∀ w, (m w).2 = w.

Lemma readonly_bind {A B} (m : M A) (k : A → M B) :
  readonly m → (∀ a, readonly (k a)) → readonly (bind m k).
Proof.
  intros Hm Hk w. unfold bind. specialize (Hm w). destruct (m w) as [[a|e] w1]; simpl in *; subst;
    [apply Hk|done].
Qed.
Lemma readonly_lift {A} (x : DidResult A) : readonly (lift x).
Proof. done. Qed.
Lemma readonly_ret {A} (a : A) : readonly (ret a).
Proof. done. Qed.
Lemma readonly_reads {A} (f : Disk → DidResult A) : readonly (reads f).
Proof. done. Qed.

Lemma run_crypto_readonly i op : readonly (run_crypto i op).
Proof.
  destruct op; simpl; unfold sign, sign_device_assertion, ecdh, sign_object_proof,
    sign_document_proof, sign_origin_proof, legacy_did_wba_header,
    http_signature_headers_with_options, request_signing_metadata, device_signing_metadata,
    sign_pending_root_object_proof, sign_pending_enrollment, ecdh_pending_enrollment,
    enrollment_key, current_pending_enrollment, object_proof, usable_key, require_operational,
    current_record, sign_prepared, agree, load_managed_secret, open_secret, read_identity, sguard;
    repeat first [apply readonly_bind; [|intros] | apply readonly_lift | apply readonly_ret
                 | apply readonly_reads].
Qed.

(** No use after revocation or through a stale handle: when the stored record is not in the
    state an operation needs, or is at another generation than the handle, the operation
    fails and changes nothing. *)
Theorem crypto_refused i op st w r :
  required_state op = Some st → read_identity_at (identity_id (di_record i)) (disk w) = Ok r →
  generation r ≠ generation (di_record i) ∨ state r ≠ st →
  ∃ e, run_crypto i op w = (Err e, w).
Proof.
  intros Hreq Hr Hbad. pose proof (run_crypto_readonly i op w) as Hw.
  destruct (run_crypto i op w) as [[out|e] w'] eqn:Hrun; simpl in Hw; subst; [|by exists e].
  apply run_crypto_Ok in Hrun as [_ Hu].
  assert (∃ m, entitled i (disk w) op m) as (m & r' & Hr' & Hg & Hs & _)
    by (destruct op; try done; destruct Hu as (m & ? & ? & _); eauto).
  rewrite Hr in Hr'. injection Hr' as <-. destruct Hbad; congruence.
Qed.

(** ** Round trips *)

(** The document of the handle publishes the key whose secret the store holds. *)
Definition publishes (i : DidIdentity) (d : Disk) (m : KeyMetadata) : Prop :=
  ∃ secret, open_secret_at (di_runtime i) (ref_of_key (identity_id (di_record i)) m) d = Ok secret ∧
    String.length secret = 32 ∧
    document_public_key (document (di_record i)) (kid m)
      = Ok (public_key_from_raw (role m) secret).

Lemma usable_key_runs i d k roles m w :
  disk w = d → operational i d → managed_key_metadata i k = Ok m →
  key_state m = KeyState.Active → role m ∈ roles →
  usable_key i k roles w = (Ok m, w).
Proof.
  intros <- (r & Hr & Hg & Hs) Hm Ha Hrole.
  unfold usable_key, require_operational, current_record, read_identity, reads, require_active,
    sguard, lift, bind, rguard, ret.
  rewrite Hr, bool_decide_true by done. simpl. rewrite bool_decide_true, Hm by done. simpl.
  rewrite bool_decide_true by done. simpl.
  assert (existsb (is_role (role m)) roles = true) as -> by by apply existsb_role. done.
Qed.

Lemma published_sign_verify `{!SignatureLaws} i w k m message roles :
  publishes i (disk w) m → managed_key_metadata i k = Ok m → key_state m = KeyState.Active →
  role m ≠ KeyRole.E2eeAgreement → operational i (disk w) → role m ∈ roles →
  ∃ signature,
    (let! m := usable_key i k roles in sign_prepared i m message) w = (Ok signature, w) ∧
    verify i k message signature = Ok tt.
Proof.
  intros (secret & Ho & Hl & Hpk) Hm Ha Hne Hop Hr.
  exists (ed25519_sign secret message). split.
  - unfold bind. rewrite (usable_key_runs i (disk w) k roles m w eq_refl Hop Hm Ha Hr).
    unfold sign_prepared, load_managed_secret, open_secret, reads, bind, lift. rewrite Ho.
    unfold ed25519_signature, rguard. by rewrite bool_decide_true.
  - unfold verify. rewrite (managed_identity_key _ _ _ Hm). simpl. unfold rguard.
    rewrite bool_decide_false by congruence. simpl. unfold is_role.
    rewrite bool_decide_false by done. simpl. rewrite Hpk. simpl.
    assert (public_key_from_raw (role m) secret = Ed25519 (ed25519_public secret)) as ->
      by (unfold public_key_from_raw; by destruct (role m)).
    by rewrite verify_signed.
Qed.

(** Agreement: two identities that use each other's published agreement keys
    compute the same shared secret. *)
Theorem ecdh_agreement `{!AgreementLaws} i1 w1 k1 m1 i2 w2 k2 m2 p1 p2 s1 s2 :
  managed_key_metadata i1 k1 = Ok m1 → publishes i1 (disk w1) m1 →
  managed_key_metadata i2 k2 = Ok m2 → publishes i2 (disk w2) m2 →
  public_key_bytes i1 k1 = Ok p1 → public_key_bytes i2 k2 = Ok p2 →
  ecdh i1 k1 p2 w1 = (Ok s1, w1) → ecdh i2 k2 p1 w2 = (Ok s2, w2) →
  s1 = s2.
Proof.
  assert (∀ i w k m p q s, managed_key_metadata i k = Ok m → publishes i (disk w) m →
    public_key_bytes i k = Ok p → ecdh i k q w = (Ok s, w) →
    ∃ secret, p = x25519_public secret ∧ s = x25519_dh secret q) as Hside.
  { intros i w k m p q s Hm (secret & Ho & _ & Hpk) Hp Hs. unfold ecdh in Hs. inv_run Hs.
    pose proof Hstep as Hstep'. unfold usable_key in Hstep'. inv_run Hstep'.
    apply require_operational_Ok in Hstep0 as [-> _]. inv_run Hstep'.
    apply lift_Ok in Hstep0 as [Hm' ->]. rewrite Hm in Hm'. injection Hm' as <-.
    apply usable_key_Ok in Hstep as (-> & _ & _ & _ & _ & _ & Hr).
    inv_run Hstep'. inv_run Hstep'. apply ret_Ok in Hstep' as [-> _].
    apply list_elem_of_singleton in Hr.
    apply agree_Ok in Hs as (_ & _ & secret' & Ho' & _ & -> & _).
    rewrite Ho in Ho'. injection Ho' as <-. exists secret. split; [|done].
    unfold public_key_bytes in Hp. rewrite (managed_identity_key _ _ _ Hm) in Hp. simpl in Hp. rewrite Hpk in Hp. simpl in Hp.
    unfold public_key_from_raw in Hp. rewrite Hr in Hp. by injection Hp. }
  intros M1 P1 M2 P2 B1 B2 R1 R2.
  destruct (Hside _ _ _ _ _ _ _ M1 P1 B1 R1) as (a & -> & ->).
  destruct (Hside _ _ _ _ _ _ _ M2 P2 B2 R2) as (b & -> & ->). apply x25519_agree.
Qed.

(** ** From enrollment to the first signature *)

Lemma multibase_inj `{!Base58Laws} p q s :
  public_key_multibase_of p = Ok s → public_key_multibase_of q = Ok s → p = q.
Proof.
  destruct p as [a|a|? ?], q as [b|b|? ?]; simpl; try done; intros <- Hq; injection Hq as Hq;
    apply bs58_inj in Hq; try (apply string_app_inj_l in Hq; congruence); discriminate Hq.
Qed.

Lemma records_persist_transition rt g r : preserves d_records (persist_state_transition rt g r).
Proof.
  unfold persist_state_transition, write_journal, write_identity, write_registry, remove_journal,
    read_registry, require_store.
  repeat first [ apply preserves_bind; [|intros] | by apply preserves_durable
               | apply preserves_keeps; solve [keeps_tac] ].
Qed.

Lemma records_adopt i spec sibling : preserves d_records (adopt_verified_document_inner i spec sibling).
Proof.
  unfold adopt_verified_document_inner.
  repeat first [ progress simpl | apply preserves_bind; [|intros] | apply records_persist_transition
    | apply preserves_keeps; solve [keeps_tac]
    | match goal with |- preserves _ (match ?x with _ => _ end) => destruct x end ].
  all: unfold persist_record, write_identity, require_store;
    repeat first [ apply preserves_bind; [|intros] | by apply preserves_durable
                 | apply preserves_keeps; solve [keeps_tac] ].
Qed.

Lemma find_key_map k f l :
  (∀ m, kid (f m) = kid m) → find_key k (map f l) = f <$> find_key k l.
Proof.
  intros Hf. unfold find_key. induction l as [|m l IH]; [done|]. simpl. rewrite Hf.
  by case_bool_decide.
Qed.

Lemma adopt_runtime i spec sibling w i' o w' :
  adopt_verified_document_inner i spec sibling w = (Ok (i', o), w') →
  di_runtime i' = di_runtime i.
Proof.
  intros Hrun. apply adopt_run in Hrun as [r Ha].
  by destruct (ad_result _ _ _ _ _ _ _ _ Ha) as [(_ & -> & _)|(x & y & _ & _ & -> & _)].
Qed.

(** The record of an activated identity. *)
Lemma activated_record i spec w i' w' :
  adopt_verified_document i spec w = (Ok (i', AdoptDocumentOutcome.Activated), w') →
  is_Some (local_authorization (di_record i)) →
  read_identity_at (identity_id (di_record i)) (disk w) = Ok (di_record i) →
  read_identity_at (identity_id (di_record i')) (disk w') = Ok (di_record i') ∧
  state (di_record i') = IdentityState.Active ∧
  identity_id (di_record i') = identity_id (di_record i) ∧
  did (di_record i') = did (di_record i) ∧
  document (di_record i') = avd_document spec ∧
  keys (di_record i') = keys (activate_pending_keys (di_record i)) ∧
  local_authorized (di_record i) (avd_document spec) = true.
Proof.
  intros Hrun Hla Hread. apply adopt_run in Hrun as [r Ha].
  pose proof (ad_read _ _ _ _ _ _ _ _ Ha) as Hr. rewrite Hread in Hr. injection Hr as <-.
  destruct (ad_result _ _ _ _ _ _ _ _ Ha) as [(? & _)|(x & y & Hout & Hy & _ & Hi & Hd)]; [done|].
  pose proof Hout as Hout'. unfold adoption_outcome in Hout'.
  destruct (state (di_record i)); [done| | |done].
  2: { destruct (negb _); [done|]. by destruct (option_test _ _). }
  inv_run Hout'. apply rguard_Ok, orb_false_iff in Hstep as [Hl%negb_false_iff _].
  injection Hout' as <-.
  destruct (read_identity_is_canonical _ _ _ Hread) as [Hcan _].
  pose proof (accepted_canonical _ _ _ _ _ _ (generation (di_record i) + 1)%N Hcan Hout Hy
    (or_introl Hla)) as Hcan'. rewrite <-Hi in Hcan'.
  destruct (accept_document_shape _ _ _ _ Hy) as (la & l & Hshape & _). rewrite Hshape in Hi.
  assert (identity_id (di_record i') = identity_id (di_record i)) as Hid by by rewrite Hi.
  split_and!; [|by rewrite Hi..|done].
  apply read_identity_canonical; [done|]. rewrite Hd, Hid. apply lookup_insert_eq.
Qed.

(** A key of the enrollment that the adopted document shows is published. *)
Lemma activated_key_published `{!Base58Laws} i spec w i' w' fragment ro k m :
  adopt_verified_document i spec w = (Ok (i', AdoptDocumentOutcome.Activated), w') →
  is_Some (local_authorization (di_record i)) →
  read_identity_at (identity_id (di_record i)) (disk w) = Ok (di_record i) →
  secrets_hold shows_public (di_runtime i) (di_record i) (disk w) →
  enrolled_key (di_record i) fragment ro k m →
  key_matches_document (avd_document spec) m = Ok tt →
  let m' := set_key_state KeyState.Active m in
  managed_key_metadata i' fragment = Ok m' ∧ publishes i' (disk w') m' ∧
  operational i' (disk w').
Proof.
  intros Hrun Hla Hread Hsec (Hc & Hf & Hk & Hr & Ho & Hs) Hdoc m'.
  destruct (activated_record _ _ _ _ _ Hrun Hla Hread) as (Hread' & Hst & Hid & Hdid & Hd & Hks & _).
  pose proof (adopt_runtime i spec false _ _ _ _ Hrun) as Hrt.
  pose proof (records_adopt i spec false _ _ _ Hrun) as Hrecs.
  assert (find_key k (keys (di_record i')) = Some m') as Hf'.
  { rewrite Hks. unfold activate_pending_keys. simpl.
    rewrite find_key_map by (intros x; by case_bool_decide). rewrite Hf. simpl.
    by rewrite bool_decide_true. }
  split_and!.
  - unfold managed_key_metadata, identity_key_metadata. rewrite Hdid, Hc. simpl. rewrite Hf'. simpl.
    by rewrite Ho.
  - unfold secrets_hold in Hsec. rewrite Forall_forall in Hsec.
    destruct (Hsec m) as (secret & Hopen & Hlen & Hmb); [by eapply find_key_kid|done|].
    exists secret. rewrite Hrt, Hid. split_and!; [|done|].
    + rewrite <-Hopen. apply open_secret_at_lookup. by rewrite Hrecs.
    + rewrite Hd. unfold key_matches_document in Hdoc. inv_run Hdoc. apply ok_or_Ok in Hstep.
      inv_run Hdoc. apply ok_or_Ok in Hstep0. inv_run Hdoc. apply rguard_Ok in Hdoc.
      apply negb_false_iff, bool_decide_eq_true in Hdoc. subst.
      unfold document_public_key. simpl. rewrite Hstep. simpl. rewrite Hstep0. simpl.
      f_equal. by eapply multibase_inj.
  - by exists (di_record i').
Qed.

(** Both keys of an activated device are published. *)
Lemma enrolled_device_published `{!Base64Laws, !AeadLaws, !RandomLaws, !DigestLaws, !Base58Laws}
    s spec w s1 i p w1 obs i' w2 :
  quiescent (disk w) → fresh_draws (disk w) (draws w) →
  prepare_enrollment s spec w = (Ok (s1, i, p), w1) →
  adopt_verified_document i obs w1 = (Ok (i', AdoptDocumentOutcome.Activated), w2) →
  ∃ sm em,
    managed_key_metadata i' (device_signing_fragment spec) = Ok sm ∧
    role sm = KeyRole.DeviceSigning ∧ key_state sm = KeyState.Active ∧ publishes i' (disk w2) sm ∧
    managed_key_metadata i' (device_e2ee_fragment spec) = Ok em ∧
    role em = KeyRole.E2eeAgreement ∧ key_state em = KeyState.Active ∧ publishes i' (disk w2) em ∧
    operational i' (disk w2).
Proof.
  intros Hq Hf Hen Had.
  destruct (prepare_enrollment_safe _ _ _ _ _ Hq Hf Hen) as (registry & _ & _ & Hsec & Ha).
  destruct (prepare_enrollment_keys _ _ _ _ _ _ _ Hen) as (local & sm & em & Hrt & Hl & Hs & He).
  pose proof (ai_record _ _ _ _ _ _ Ha) as Hread. rewrite <-Hrt in Hsec.
  assert (is_Some (local_authorization (di_record i))) as Hla by by rewrite Hl.
  destruct (activated_record _ _ _ _ _ Had Hla Hread) as (_ & _ & _ & _ & _ & _ & Hauth).
  unfold local_authorized in Hauth. rewrite Hl in Hauth.
  apply is_ok_Ok in Hauth as [u Hm]. unfold local_authorization_matches in Hm.
  inv_run Hm. apply ok_or_Ok in Hstep. inv_run Hm. apply ok_or_Ok in Hstep0.
  rewrite (proj1 (proj2 Hs)) in Hstep. injection Hstep as <-.
  rewrite (proj1 (proj2 He)) in Hstep0. injection Hstep0 as <-.
  inv_run Hm. inv_run Hm. destruct a, a0. clear Hm.
  destruct (activated_key_published _ _ _ _ _ _ _ _ _ Had Hla Hread Hsec Hs Hstep) as (M1 & P1 & Hop).
  destruct (activated_key_published _ _ _ _ _ _ _ _ _ Had Hla Hread Hsec He Hstep0) as (M2 & P2 & _).
  destruct Hs as (_ & _ & _ & R1 & _), He as (_ & _ & _ & R2 & _).
  eexists _, _. by split_and!.
Qed.

(** A device that enrolls and is activated can sign: after
    [prepare_enrollment] and an adoption that activates it, signing any message
    with its device key returns, and the signature verifies against the document
    that was adopted. *)
Theorem enrolled_device_signs
    `{!Base64Laws, !AeadLaws, !RandomLaws, !DigestLaws, !Base58Laws, !SignatureLaws}
    s spec w s1 i p w1 obs i' w2 message :
  quiescent (disk w) → fresh_draws (disk w) (draws w) →
  prepare_enrollment s spec w = (Ok (s1, i, p), w1) →
  adopt_verified_document i obs w1 = (Ok (i', AdoptDocumentOutcome.Activated), w2) →
  ∃ signature, sign i' (device_signing_fragment spec) message w2 = (Ok signature, w2) ∧
    verify i' (device_signing_fragment spec) message signature = Ok tt.
Proof.
  intros Hq Hf Hen Had.
  destruct (enrolled_device_published _ _ _ _ _ _ _ _ _ _ Hq Hf Hen Had)
    as (sm & em & M1 & R1 & A1 & P1 & _ & _ & _ & _ & Hop).
  apply (published_sign_verify i' w2 _ sm); try done; [by rewrite R1|]. rewrite R1. set_solver.
Qed.
End Crypto.

(** ** Witnesses *)

Lemma enrolled_device_signs_witness :
  ∃ i w signature, @sign toy_env i "phone-sign" "hello" w = (Ok signature, w) ∧
    @verify toy_env i "phone-sign" "hello" signature = Ok tt.
Proof.
  destruct enrollment_scenario as (s & i & p & w1 & a & w2 & b & w3 & c & w4 & Hen & Had & _).
  destruct (@enrolled_device_signs toy_env toy_base64_laws toy_aead_laws toy_random_laws
    toy_digest_laws toy_base58_laws toy_signature_laws sample_store sample_enrollment initial_world
    s i p w1 _ a w2 "hello" quiescent_empty (fresh_empty _) Hen Had) as (signature & Hs & Hv).
  exists a, w2, signature. split; [exact Hs|exact Hv].
Defined.

Lemma crypto_key_separation_witness :
  ∃ i w m secret sig, @entitled toy_env i (disk w) (Sign "phone-sign" "hello") m ∧
    @computes toy_env i (Sign "phone-sign" "hello") m secret (Bytes sig).
Proof.
  destruct enrollment_scenario as (s & i & p & w1 & a & w2 & b & w3 & c & w4 & Hen & Had & _).
  destruct (@enrolled_device_published toy_env toy_base64_laws toy_aead_laws toy_random_laws
    toy_digest_laws toy_base58_laws sample_store sample_enrollment initial_world
    s i p w1 _ a w2 quiescent_empty (fresh_empty _) Hen Had)
    as (sm & em & M1 & R1 & A1 & P1 & _ & _ & _ & _ & Hop).
  destruct (@published_sign_verify toy_env toy_signature_laws a w2 "phone-sign" sm "hello"
    [KeyRole.DeviceSigning; KeyRole.RequestSigning; KeyRole.E2eeSigning] P1 M1 A1
    ltac:(rewrite R1; discriminate) Hop ltac:(rewrite R1; constructor)) as (sig & Hs & _).
  assert (@run_crypto toy_env a (Sign "phone-sign" "hello") w2 = (Ok (Bytes sig), w2)) as Hrun.
  { unfold run_crypto, sign. unfold bind at 1. rewrite Hs. reflexivity. }
  destruct (@crypto_key_separation toy_env a (Sign "phone-sign" "hello") w2 _ w2 Hrun)
    as [_ (m & secret & Hm & _ & _ & Hc)].
  exists a, w2, m, secret, sig. split; [exact Hm|exact Hc].
Defined.

Lemma crypto_refused_witness :
  ∃ i w e, @run_crypto toy_env i (Sign "phone-sign" "hello") w = (Err e, w).
Proof.
  destruct enrollment_scenario as (s & i & p & w1 & a & w2 & b & w3 & c & w4 & Hen & _).
  destruct (@prepare_enrollment_safe toy_env toy_base64_laws toy_aead_laws toy_random_laws
    toy_digest_laws sample_store sample_enrollment initial_world _ w1 quiescent_empty
    (fresh_empty _) Hen) as (registry & _ & _ & _ & Ha).
  exists i, w1.
  apply (@crypto_refused toy_env i (Sign "phone-sign" "hello") IdentityState.Active w1 (di_record i)).
  - reflexivity.
  - exact (ai_record _ _ _ _ _ _ Ha).
  - right. rewrite (ai_state _ _ _ _ _ _ Ha). discriminate.
Defined.

(** An activated device, and the exchange of two of them. *)
Definition activated_device (w0 : World) : option (DidIdentity * World) :=
  match @prepare_enrollment toy_env sample_store sample_enrollment w0 with
  | (Ok (s, i, p), w1) =>
      match @adopt_verified_document toy_env i (observation (authorizing_document p) 2) w1 with
      | (Ok (a, AdoptDocumentOutcome.Activated), w2) => Some (a, w2)
      | _ => None
      end
  | _ => None
  end.

Definition exchange_succeeds : bool :=
  match activated_device initial_world, activated_device other_world with
  | Some (i1, w1), Some (i2, w2) =>
      match @public_key_bytes toy_env i1 "phone-e2ee", @public_key_bytes toy_env i2 "phone-e2ee" with
      | Ok p1, Ok p2 => negb (bool_decide (p1 = p2))
                        && is_ok (@ecdh toy_env i1 "phone-e2ee" p2 w1).1
                        && is_ok (@ecdh toy_env i2 "phone-e2ee" p1 w2).1
      | _, _ => false
      end
  | _, _ => false
  end.

Lemma exchange_runs : exchange_succeeds = true.
Proof. vm_compute. reflexivity. Qed.

Lemma activated_device_published w0 i w :
  disk w0 = empty_disk → activated_device w0 = Some (i, w) →
  ∃ m, managed_key_metadata i "phone-e2ee" = Ok m ∧ @publishes toy_env i (disk w) m.
Proof.
  intros Hd Hdev. unfold activated_device in Hdev.
  destruct (@prepare_enrollment toy_env _ _ w0) as [[[[s j] p]|e] w1] eqn:Hen; [|discriminate Hdev].
  destruct (@adopt_verified_document toy_env _ _ w1) as [[[a []]|e] w2] eqn:Had; try discriminate Hdev.
  injection Hdev as <- <-.
  destruct (@enrolled_device_published toy_env toy_base64_laws toy_aead_laws toy_random_laws
    toy_digest_laws toy_base58_laws sample_store sample_enrollment w0 s j p w1
    (observation (authorizing_document p) 2) a w2)
    as (sm & em & _ & _ & _ & _ & M2 & _ & _ & P2 & _).
  - rewrite Hd. apply quiescent_empty.
  - rewrite Hd. apply fresh_empty.
  - exact Hen.
  - exact Had.
  - exists em. split; [exact M2|exact P2].
Qed.

Lemma ecdh_agreement_witness :
  ∃ i1 w1 i2 w2 p1 p2 s, p1 ≠ p2 ∧ @ecdh toy_env i1 "phone-e2ee" p2 w1 = (Ok s, w1) ∧
    @ecdh toy_env i2 "phone-e2ee" p1 w2 = (Ok s, w2).
Proof.
  pose proof exchange_runs as Hx. unfold exchange_succeeds in Hx.
  destruct (activated_device initial_world) as [[i1 w1]|] eqn:D1; [|discriminate Hx].
  destruct (activated_device other_world) as [[i2 w2]|] eqn:D2; [|discriminate Hx].
  destruct (@public_key_bytes toy_env i1 "phone-e2ee") as [p1|] eqn:B1; [|discriminate Hx].
  destruct (@public_key_bytes toy_env i2 "phone-e2ee") as [p2|] eqn:B2; [|discriminate Hx].
  apply andb_true_iff in Hx as [Hx X2]. apply andb_true_iff in Hx as [Hne X1].
  apply negb_true_iff, bool_decide_eq_false in Hne.
  destruct (activated_device_published initial_world _ _ eq_refl D1) as (m1 & M1 & P1).
  destruct (activated_device_published other_world _ _ eq_refl D2) as (m2 & M2 & P2).
  destruct (@ecdh toy_env i1 "phone-e2ee" p2 w1) as [[s1|] w1'] eqn:R1; [|discriminate X1].
  destruct (@ecdh toy_env i2 "phone-e2ee" p1 w2) as [[s2|] w2'] eqn:R2; [|discriminate X2].
  assert (w1' = w1) as -> by (pose proof (@run_crypto_readonly toy_env i1 (Ecdh "phone-e2ee" p2) w1)
    as Hw; unfold run_crypto, bind, ret in Hw; rewrite R1 in Hw; exact Hw).
  assert (w2' = w2) as -> by (pose proof (@run_crypto_readonly toy_env i2 (Ecdh "phone-e2ee" p1) w2)
    as Hw; unfold run_crypto, bind, ret in Hw; rewrite R2 in Hw; exact Hw).
  exists i1, w1, i2, w2, p1, p2, s1. split; [exact Hne|]. split; [exact R1|]. rewrite R2.
  rewrite (@ecdh_agreement toy_env toy_agreement_laws i1 w1 "phone-e2ee" m1 i2 w2 "phone-e2ee" m2
    p1 p2 s1 s2 M1 P1 M2 P2 B1 B2 R1 R2). reflexivity.
Defined.
