(* ===== verification/KeyImportFacts.v ===== *)
(** * Correctness of import (key_import.rs)

    Every key that is imported was checked against the verified document, and the
    import is crash safe: the imported identity is active, its keys open, and its
    document publishes them. *)

From stdpp Require Import base strings list gmap.
From S2P Require Import Prelude Json Errors Records Env Toy Input World Document Keystore Registry.
From S2P Require Import Recovery Identity RecordFacts Adoption CryptoOps KeyImport.
From S2P Require Import IdentityFacts Scenario AdoptionFacts EnrollmentFacts CryptoFacts.

(** ** The three imports *)

Inductive import_op :=
  | ImportIdentity (spec : IdentityImportSpec)
  | ImportDevice (spec : DeviceIdentityImportSpec)
  | ImportRequestSigner (spec : RequestSigningIdentityImportSpec).

Definition run_import `{Env} (s : DidStore) (op : import_op) : M (DidStore * DidIdentity * unit) :=
  match op with
  | ImportIdentity spec => import_identity s spec
  | ImportDevice spec => import_device_identity s spec
  | ImportRequestSigner spec => import_request_signing_identity s spec
  end.

Definition import_document (op : import_op) : Value :=
  match op with
  | ImportIdentity spec => ii_verified_document spec
  | ImportDevice spec => dii_verified_document spec
  | ImportRequestSigner spec => rsi_verified_document spec
  end.

Section Custody.
Context `{Env, !Base64Laws, !AeadLaws, !RandomLaws, !DigestLaws, !Pkcs8Laws}.

(** ** Prepared keys *)

(** A key that was checked: its raw bytes are those of its public key, which the
    document shows under its identifier. *)
Record checked_key (d : string) (document : Value) (k : PreparedImportedKey) : Prop := {
  ck_kid : ∃ x, canonicalize_kid d x = Ok (pik_kid k);
  ck_length : String.length (pik_raw k) = 32;
  ck_public : pik_public k = public_key_from_raw (pik_role k) (pik_raw k);
  ck_document : document_public_key document (pik_kid k) = Ok (pik_public k) }.

Lemma parse_private_key_Ok r encoding secret m :
  parse_private_key r encoding secret = Ok m →
  ∃ raw, raw_private_key m r = Ok raw ∧ String.length raw = 32 ∧
    material_public m = public_key_from_raw r raw ∧
    (encoding = PrivateKeyEncoding.Raw32 → raw = secret).
Proof.
  unfold parse_private_key. intros Hp. inv_run Hp. destruct encoding.
  - inv_run Hstep. apply rguard_Ok, negb_false_iff, bool_decide_eq_true in Hstep0.
    injection Hstep as <-. destruct r; injection Hp as <-; by exists secret.
  - apply ok_or_Ok in Hstep. destruct a as [raw|raw|kind], r; simplify_eq; exists raw; split_and!;
      try done; eauto using pkcs8_ed25519_length, pkcs8_x25519_length.
Qed.

Lemma prepare_imported_key_Ok d document out key out' :
  prepare_imported_key d document out key = Ok out' →
  ∃ k, out' = out ++ [k] ∧ checked_key d document k ∧ pik_role k = ipk_role key ∧
    pik_kid k ∉ map pik_kid out.
Proof.
  unfold prepare_imported_key. intros Hk. inv_run Hk. inv_run Hk. inv_run Hk. inv_run Hk.
  apply ok_or_Ok in Hstep2. inv_run Hk. apply ok_or_Ok in Hstep3. inv_run Hk. inv_run Hk.
  injection Hk as <-. apply parse_private_key_Ok in Hstep1 as (raw & Hraw & Hl & Hpub & _).
  rewrite Hraw in Hstep5. injection Hstep5 as <-.
  apply rguard_Ok, negb_false_iff, public_keys_equal_eq in Hstep4.
  apply rguard_Ok in Hstep0. eexists. split_and!; [done| |done|]; simpl.
  - constructor; simpl; [eauto|done|done|]. unfold document_public_key.
    rewrite Hstep2. simpl. rewrite Hstep3. simpl. by rewrite Hstep4.
  - intros Hin. apply list_elem_of_In, in_map_iff in Hin as (x & Hx & Hin).
    assert (existsb (λ e, bool_decide (pik_kid e = a)) out = true) as Hex
      by (apply existsb_exists; exists x; split; [done|by apply bool_decide_eq_true]).
    congruence.
Qed.

Lemma prepare_imported_keys_Ok d document l out :
  prepare_imported_keys d document l = Ok out →
  Forall (checked_key d document) out ∧ NoDup (map pik_kid out) ∧
  map pik_role out = map ipk_role l.
Proof.
  unfold prepare_imported_keys. intros Ho. inv_run Ho. clear Hstep.
  assert (∀ acc, fold_result (prepare_imported_key d document) l acc = Ok out →
    Forall (checked_key d document) acc → NoDup (map pik_kid acc) →
    Forall (checked_key d document) out ∧ NoDup (map pik_kid out) ∧
    map pik_role out = map pik_role acc ++ map ipk_role l) as Hgen.
  { clear Ho. induction l as [|key l IH]; intros acc Ho Hc Hn; simpl in Ho.
    - injection Ho as <-. by rewrite app_nil_r.
    - inv_run Ho. apply prepare_imported_key_Ok in Hstep as (k & -> & Hk & Hr & Hnew).
      destruct (IH _ Ho) as (? & ? & Hroles).
      + apply Forall_app. split; [done|by constructor].
      + rewrite map_app. apply NoDup_app. split_and!; [done| |apply NoDup_singleton].
        intros x Hx Hx'. apply list_elem_of_singleton in Hx' as ->. done.
      + split_and!; [done..|]. rewrite Hroles, map_app. simpl. rewrite Hr.
        by rewrite <-app_assoc. }
  by apply (Hgen []); [done|constructor|constructor].
Qed.

(** ** Records *)

(** A record of the e1 profile with a root fingerprint is canonical. *)
Lemma e1_record_canonical r f :
  schema_version r = IDENTITY_SCHEMA_VERSION → for_did (did r) = Ok DidProfile.E1 →
  root_key_fingerprint r = Some f → f ≠ EmptyString → is_Some (checkpoint r) →
  is_Some (local_authorization r) ∨ infer_local_authorization (document r) (keys r) = Ok None →
  canonical_record r.
Proof.
  intros Hs Hp Hf Hne Hc Hl. apply normal_canonical. split_and!; [done|done| |].
  - exists DidProfile.E1. split; [done|]. unfold normalize_fingerprint. simpl. rewrite Hf.
    unfold is_empty. by rewrite bool_decide_false.
  - unfold normalize_authorization. destruct (local_authorization r) as [a|] eqn:Hla; [done|].
    destruct Hl as [[? ?]|Hl]; [done|]. rewrite Hl. simpl. f_equal. rewrite <-Hla. by destruct r.
Qed.

(** The metadata of imported keys, with what the document says of each. *)
Lemma import_metadata_Ok document t l ms :
  import_metadata document t l = Ok ms →
  Forall2 (λ k m, kid m = pik_kid k ∧ role m = pik_role k ∧ origin m = KeyOrigin.Managed ∧
                  version m = 1%N) l ms.
Proof.
  intros Hm%map_result_Forall2. eapply Forall2_impl; [exact Hm|]. simpl. intros k m Hk.
  by apply key_metadata_Ok in Hk as (? & ? & ? & ? & _).
Qed.

(** The document of a record publishes a key. *)
Definition in_document (document : Value) (m : KeyMetadata) (secret : string) : Prop :=
  document_public_key document (kid m) = Ok (public_key_from_raw (role m) secret).

Lemma import_secrets_hold document rt r x d root l ms :
  keys r = root ++ ms → Forall (λ k, origin k = KeyOrigin.External) root →
  Forall2 (λ k m, kid m = pik_kid k ∧ role m = pik_role k ∧ origin m = KeyOrigin.Managed ∧
                  version m = 1%N) l ms →
  Forall (checked_key d document) l →
  (∀ e, e ∈ import_refs (identity_id r) l → open_secret_at rt e.2 x = Ok (mpk_bytes e.1)) →
  secrets_hold (in_document document) rt r x.
Proof.
  intros Hk Hroot Hms Hl Hopen.
  apply (secrets_hold_new _ rt r x root (zip (map as_managed l) ms)); [|done|].
  - rewrite Hk. f_equal. clear -Hms. induction Hms; simpl; [done|]. by f_equal.
  - intros k m Hin. rewrite Forall_forall in Hl.
    assert (∃ p, p ∈ l ∧ k = as_managed p ∧ kid m = pik_kid p ∧ role m = pik_role p ∧
      version m = 1%N) as (p & Hp & -> & Hkid & Hrole & Hv).
    { clear -Hms Hin. induction Hms as [|p m' l ms (? & ? & ? & ?) Hms IH]; simpl in Hin.
      - by apply not_elem_of_nil in Hin.
      - apply elem_of_cons in Hin as [[= -> ->]|Hin].
        + exists p. split; [by left|done].
        + destruct (IH Hin) as (q & ? & ?). exists q. split; [by right|done]. }
    destruct (Hl p Hp) as [_ Hlen Hpub Hdoc]. split_and!; [|done|].
    + unfold ref_of_key. rewrite Hkid, Hrole, Hv.
      apply (Hopen (as_managed p, new_ref (identity_id r) (pik_kid p) (pik_role p))).
      apply list_elem_of_In, in_map_iff. exists p. split; [done|by apply list_elem_of_In].
    + unfold in_document. rewrite Hkid, Hrole, Hdoc. by rewrite Hpub.
Qed.

(** What every import establishes before its transaction. *)
Lemma imported_enrollable rt d iid document l r root ms f :
  identity_id r = iid → did r = d → state r = IdentityState.Active →
  for_did d = Ok DidProfile.E1 → schema_version r = IDENTITY_SCHEMA_VERSION →
  root_key_fingerprint r = Some f → f ≠ EmptyString → is_Some (checkpoint r) →
  is_Some (local_authorization r) ∨ infer_local_authorization (Records.document r) (keys r) = Ok None →
  keys r = root ++ ms → Forall (λ k, origin k = KeyOrigin.External) root →
  Forall2 (λ k m, kid m = pik_kid k ∧ role m = pik_role k ∧ origin m = KeyOrigin.Managed ∧
                  version m = 1%N) l ms →
  Forall (checked_key d document) l →
  enrollable IdentityState.Active (in_document document) rt iid d (import_refs iid l) r tt.
Proof.
  intros <- <- Hst Hp Hsc Hf Hne Hc Hl Hk Hroot Hms Hck. constructor; try done.
  - by eapply e1_record_canonical.
  - intros x Hx. by eapply import_secrets_hold.
Qed.

Lemma identity_import_enrollable rt spec d iid t l r u :
  for_did d = Ok DidProfile.E1 → Forall (checked_key d (ii_verified_document spec)) l →
  identity_import_record spec d iid t l = Ok (r, u) →
  enrollable IdentityState.Active (in_document (ii_verified_document spec)) rt iid d
    (import_refs iid l) r u.
Proof.
  intros Hp Hl Hr. unfold identity_import_record in Hr. do 3 inv_run Hr. injection Hr as <- <-.
  unfold root_key_fingerprint_from_import in Hstep1. inv_run Hstep1. inv_run Hstep1.
  eapply (imported_enrollable rt d iid _ l _ [] a); try done;
    [by eapply fingerprint_nonempty| |by eapply import_metadata_Ok].
  simpl. destruct a0 as [x|]; [left; by eexists|by right].
Qed.

Lemma device_import_enrollable rt spec d iid root t l r u :
  for_did d = Ok DidProfile.E1 → Forall (checked_key d (dii_verified_document spec)) l →
  device_import_record spec d iid root t l = Ok (r, u) →
  enrollable IdentityState.Active (in_document (dii_verified_document spec)) rt iid d
    (import_refs iid l) r u.
Proof.
  intros Hp Hl Hr. unfold device_import_record in Hr. do 5 inv_run Hr. injection Hr as <- <-.
  apply key_metadata_Ok in Hstep as (_ & _ & Ho & _).
  eapply (imported_enrollable rt d iid _ l _ [a] a0); try done;
    [by eapply fingerprint_nonempty|left; by eexists|by constructor|by eapply import_metadata_Ok].
Qed.

Lemma request_import_enrollable rt spec d iid root t k r u :
  for_did d = Ok DidProfile.E1 → checked_key d (rsi_verified_document spec) k →
  pik_role k = KeyRole.RequestSigning →
  is_Some (validate_device_manifest (rsi_verified_document spec)) →
  request_import_record spec d iid root t k = Ok (r, u) →
  enrollable IdentityState.Active (in_document (rsi_verified_document spec)) rt iid d
    (import_refs iid [k]) r u.
Proof.
  intros Hp Hk Hrole Hmf Hr. unfold request_import_record in Hr. do 3 inv_run Hr.
  injection Hr as <- <-. apply key_metadata_Ok in Hstep as (_ & _ & Ho & _).
  apply key_metadata_Ok in Hstep0 as (K & R & O & V & _).
  eapply (imported_enrollable rt d iid _ [k] _ [a] [a0]); try done;
    [by eapply fingerprint_nonempty| |by constructor| |by constructor].
  - right. apply infer_no_device; [done|]. simpl. apply Forall_cons. split; [by left|].
    apply Forall_singleton. right. by rewrite R.
  - repeat constructor; congruence.
Qed.

Lemma import_refs_fresh d n0 n l :
  fresh_draws d n0 → n0 ≤ n → NoDup (map pik_kid l) →
  let iid := b64url_encode (random_bytes n 16) in
  fresh_for iid (map snd (import_refs iid l)) d ∧ NoDup (map snd (import_refs iid l)) ∧
  Forall (λ x, sr_identity_id x = iid) (map snd (import_refs iid l)).
Proof.
  intros Hf Hn Hnd iid.
  assert (Forall (λ x, sr_identity_id x = iid) (map snd (import_refs iid l))) as Hrefs.
  { apply Forall_forall. intros x Hx. unfold import_refs in Hx. rewrite map_map in Hx.
    by apply list_elem_of_In, in_map_iff in Hx as (k & <- & _). }
  split_and!; [by eapply fresh_draws_for| |done]. clear -Hnd. unfold import_refs. rewrite map_map.
  simpl. induction l as [|k l IH]; simpl in *; [constructor|].
  apply NoDup_cons in Hnd as [Hk Hnd]. apply NoDup_cons. split; [|by apply IH].
  intros Hin. apply Hk. apply list_elem_of_In, in_map_iff in Hin as (x & Heq & Hx).
  injection Heq as Heq _. apply list_elem_of_In, in_map_iff. by exists x.
Qed.

Lemma open_import_Ok s d w x w' :
  open_import s d w = (Ok x, w') →
  disk w' = disk w ∧ read_registry_at (disk w) = Ok x.2 ∧ identities x.2 !! d = None.
Proof.
  unfold open_import. intros Ho. inv_run Ho. apply acquire_write_Ok in Hstep as [-> <-].
  inv_run Ho. injection Hstep as Hr <-. inv_run Ho. apply lift_Ok in Hstep as [_ ->].
  inv_run Ho. apply guard_absent in Hstep as Hn. apply lift_Ok in Hstep as [_ ->].
  apply ret_Ok in Ho as [-> ->]. by apply not_found_None in Hn.
Qed.

Lemma keeps_open_import s d : keeps (open_import s d).
Proof. unfold open_import, read_registry. keeps_tac. Qed.
#[local] Hint Resolve keeps_open_import : anp.

(** The transaction of an import. *)
Lemma import_transaction_safe {A} rt g d0 registry tid n n0 d at_ l
    (record : DidResult (IdentityRecord * A)) φ pending w res w' :
  let iid := b64url_encode (random_bytes n 16) in
  enroll_transaction rt g registry tid iid d at_ (import_refs iid l) record w = (res, w') →
  disk w = d0 → quiescent d0 → read_registry_at d0 = Ok registry →
  identities registry !! d = None → fresh_draws d0 n0 → n0 ≤ n → NoDup (map pik_kid l) →
  (∀ r p, record = Ok (r, p) →
     enrollable IdentityState.Active φ rt iid d (import_refs iid l) r p ∧ pending r = Some p) →
  enrolled IdentityState.Active φ pending rt d0 res (disk w').
Proof.
  intros iid Hrun Hd Hq Hreg Hnew Hf Hn Hnd Hrec.
  destruct (import_refs_fresh _ _ _ l Hf Hn Hnd) as (Hfresh & Hnd' & Hrefs).
  by eapply enroll_transaction_enrolled.
Qed.

Lemma run_import_safe s op w res w' d :
  quiescent (disk w) → fresh_draws (disk w) (draws w) →
  get_str (import_document op) "id" = Some d → for_did d = Ok DidProfile.E1 →
  run_import s op w = (res, w') →
  enrolled IdentityState.Active (in_document (import_document op)) (λ _, Some tt)
    (ds_runtime s) (disk w) res (disk w').
Proof.
  intros Hq Hf Hid Hp Hrun.
  assert (creation_interrupted IdentityState.Active (ds_runtime s) (disk w) (disk w)) as HX
    by (left; by apply recovers_to_quiescent).
  destruct op as [spec|spec|spec]; simpl in *;
    unfold import_identity, import_identity_with_id, import_device_identity,
      import_request_signing_identity in Hrun;
    repeat (split_run Hrun; [simpl; replace (disk w') with (disk w) by congruence; exact HX|]).
  - apply random_id_Ok in Hs as ->. apply lift_Ok in Hs1 as [Hid'%ok_or_Ok ->].
    rewrite Hid in Hid'. injection Hid' as <-.
    apply lift_Ok in Hs2 as [Hkeys ->]. apply prepare_imported_keys_Ok in Hkeys as (Hck & Hnd & _).
    apply open_import_Ok in Hs4 as (Ew & Hreg & Hnew).
    eapply import_transaction_safe; [exact Hrun|congruence|done| |done|done|lia|done|].
    + rewrite <-Hreg. f_equal. congruence.
    + intros r [] Hr. split; [by eapply identity_import_enrollable|done].
  - apply lift_Ok in Hs0 as [Hid'%ok_or_Ok ->]. rewrite Hid in Hid'. injection Hid' as <-.
    apply lift_Ok in Hs1 as [Hkeys ->]. apply prepare_imported_keys_Ok in Hkeys as (Hck & Hnd & _).
    apply open_import_Ok in Hs6 as (Ew & Hreg & Hnew). apply random_id_Ok in Hs7 as ->.
    eapply import_transaction_safe; [exact Hrun|congruence|done| |done|done|lia|done|].
    + rewrite <-Hreg. f_equal. congruence.
    + intros r [] Hr. split; [by eapply device_import_enrollable|done].
  - apply lift_Ok in Hs0 as [Hid'%ok_or_Ok ->]. rewrite Hid in Hid'. injection Hid' as <-.
    apply lift_Ok in Hs1 as [Hkeys ->]. apply prepare_imported_keys_Ok in Hkeys as (Hck & Hnd & _).
    apply lift_Ok in Hs2 as [Hlast%ok_or_Ok ->]. apply guard_absent in Hs3.
    apply orb_false_iff in Hs3 as [[Hrole _]%orb_false_iff _].
    apply negb_false_iff, bool_decide_eq_true in Hrole.
    apply open_import_Ok in Hs5 as (Ew & Hreg & Hnew). apply random_id_Ok in Hs6 as ->.
    assert (a2 ∈ a1) as Hin.
    { apply last_Some in Hlast as [l' ->]. apply elem_of_app. right. by left. }
    rewrite Forall_forall in Hck. specialize (Hck a2 Hin).
    apply lift_Ok in Hs as [Hv _]. unfold validate_verified_document in Hv.
    do 4 inv_run Hv. apply ok_or_Ok in Hstep2.
    eapply (import_transaction_safe _ _ _ _ _ (draws w6) _ d _ [a2]);
      [exact Hrun|congruence|done| |done|done|lia
      |apply NoDup_singleton|].
    + rewrite <-Hreg. f_equal. congruence.
    + intros r [] Hr. split; [eapply request_import_enrollable; eauto|done].
Qed.

(** C5.  Crash safety of import: importing an identity, a device or a request
    signer of the e1 profile either adds exactly one active identity, each of whose
    managed keys opens to the private key of the public key the verified document
    shows for it, or stops in a store that recovery brings back to the store before
    the call or forward to the completed import.  Only DIDs with root control
    (did:wba) are covered: an import records the fingerprint of the root key, which
    a record of a did:web identity must not have. *)
Theorem import_crash_safe s op w res w' d :
  quiescent (disk w) → fresh_draws (disk w) (draws w) →
  get_str (import_document op) "id" = Some d → for_did d = Ok DidProfile.E1 →
  run_import s op w = (res, w') →
  enrolled IdentityState.Active (in_document (import_document op)) (λ _, Some tt)
    (ds_runtime s) (disk w) res (disk w').
Proof. apply run_import_safe. Qed.

(** Only keys of the document are imported: the accepted private keys are those
    that were given, in their order, with pairwise different canonical identifiers,
    and each key is one whose public key the document shows under its identifier. *)
Theorem imported_keys_checked d document l out :
  prepare_imported_keys d document l = Ok out →
  Forall (checked_key d document) out ∧ NoDup (map pik_kid out) ∧
  map pik_role out = map ipk_role l.
Proof. apply prepare_imported_keys_Ok. Qed.
End Custody.

(** ** Witnesses *)

Lemma import_crash_safe_witness :
  ∃ s i w, @run_import toy_env sample_store (ImportIdentity sample_import) initial_world
             = (Ok (s, i, tt), w) ∧
    @enrolled toy_env unit IdentityState.Active (@in_document toy_env imported_document)
      (λ _, Some tt) sample_runtime empty_disk (Ok (s, i, tt)) (disk w).
Proof.
  destruct import_runs as (s & i & w & Hr). exists s, i, w. split; [exact Hr|].
  refine (@import_crash_safe toy_env toy_base64_laws toy_aead_laws toy_random_laws toy_digest_laws
    toy_pkcs8_laws sample_store (ImportIdentity sample_import) initial_world _ w sample_did
    quiescent_empty (fresh_empty _) _ _ Hr).
  - vm_compute. reflexivity.
  - vm_compute. reflexivity.
Defined.

Lemma imported_keys_checked_witness :
  ∃ out, @prepare_imported_keys toy_env sample_did imported_document (ii_private_keys sample_import)
           = Ok out ∧ NoDup (map pik_kid out).
Proof.
  destruct (is_ok_Ok (@prepare_imported_keys toy_env sample_did imported_document
    (ii_private_keys sample_import))) as [out Ho]; [vm_compute; reflexivity|].
  exists out. split; [exact Ho|].
  exact (proj1 (proj2 (@imported_keys_checked toy_env toy_pkcs8_laws _ _ _ _ Ho))).
Defined.
