(* ===== verification/RootTransferFacts.v ===== *)
(** * Correctness of root transfer (root_transfer.rs)

    The replay list is bounded, the root capability moves only from absent to
    pending to active, an import survives crashes, a replay changes nothing, and
    what one device wraps the other device ends up holding. *)

From stdpp Require Import base strings list gmap sorting.
From S2P Require Import Prelude Json Errors Records Env Toy Input World Document Keystore Registry.
From S2P Require Import Recovery Identity RecordFacts Adoption CryptoOps KeyImport RootTransfer.
From S2P Require Import IdentityFacts Namespace Scenario AdoptionFacts EnrollmentFacts.

(** ** Positions *)

Lemma position_Some p l n :
  position p l = Some n → ∃ k, l !! n = Some k ∧ p k = true ∧ k ∈ l.
Proof.
  revert n. induction l as [|x l IH]; intros n; simpl; [done|]. destruct (p x) eqn:Hp.
  - intros [= <-]. exists x. split_and!; [done..|set_solver].
  - destruct (position p l) as [m|]; [|done]. intros [= <-].
    destruct (IH m eq_refl) as (k & ? & ? & ?). exists k. split_and!; [done..|set_solver].
Qed.

Lemma position_defined p l k : k ∈ l → p k = true → is_Some (position p l).
Proof.
  intros Hin Hp. induction l as [|x l IH]; [by apply not_elem_of_nil in Hin|]. simpl.
  destruct (p x) eqn:Hx; [by eexists|]. apply elem_of_cons in Hin as [->|Hin]; [congruence|].
  destruct (IH Hin) as [n ->]. by eexists.
Qed.

(** ** The replay list *)

Lemma push_replay_length n d e r :
  length (root_transfer_replays (push_replay n d e r)) ≤ MAX_REPLAY_RECORDS.
Proof.
  unfold push_replay. simpl. case_match eqn:Hl; [rewrite length_drop; lia|].
  apply Nat.ltb_ge in Hl. done.
Qed.

(** The newest record is the last one, and the others are the newest of before. *)
Lemma push_replay_shape n d e r :
  ∃ old, root_transfer_replays (push_replay n d e r)
           = old ++ [{| replay_nonce := n; transfer_digest := d; expires_at := e |}] ∧
    old = drop (length (root_transfer_replays r) - length old) (root_transfer_replays r) ∧
    (length (root_transfer_replays r) < MAX_REPLAY_RECORDS → old = root_transfer_replays r).
Proof.
  unfold push_replay. simpl. set (l := root_transfer_replays r). set (x := Build_RootTransferReplayRecord n d e).
  rewrite length_app. simpl. case_match eqn:Hl.
  - apply Nat.ltb_lt in Hl. unfold MAX_REPLAY_RECORDS in *.
    exists (drop (length l + 1 - 256) l). split_and!.
    + rewrite drop_app_le by lia. done.
    + rewrite length_drop. f_equal. lia.
    + lia.
  - exists l. split_and!; [done| |done]. by rewrite Nat.sub_diag.
Qed.

Definition has_nonce (n : string) (x : RootTransferReplayRecord) : bool :=
  bool_decide (replay_nonce x = n).

(** A nonce that was not known is found afterwards, with its digest. *)
Lemma push_replay_found n dg e r :
  List.find (has_nonce n) (root_transfer_replays r) = None →
  List.find (has_nonce n) (root_transfer_replays (push_replay n dg e r)) =
    Some {| replay_nonce := n; transfer_digest := dg; expires_at := e |}.
Proof.
  intros Hn. destruct (push_replay_shape n dg e r) as (old & -> & Hold & _).
  assert (Forall (λ x, has_nonce n x = false) old) as Ho.
  { rewrite Hold. apply Forall_drop, Forall_forall. intros x Hx%list_elem_of_In.
    by apply (List.find_none _ _ Hn). }
  clear Hold. induction Ho as [|x old Hx _ IH]; simpl; [|by rewrite Hx].
  unfold has_nonce. simpl. by rewrite bool_decide_true.
Qed.

(** ** Canonical records *)

Section Canonical.
Context `{Env}.

(** With a root fingerprint, a record stays canonical whatever happens to its keys
    and its root capability. *)
Lemma canonical_with_root r r' :
  canonical_record r → is_Some (root_key_fingerprint r) →
  schema_version r' = schema_version r → did r' = did r →
  root_key_fingerprint r' = root_key_fingerprint r → is_Some (checkpoint r') →
  is_Some (local_authorization r') → canonical_record r'.
Proof.
  intros Hr [f Hf] Es Ed Ef Ec [l Hl]. apply normal_canonical.
  pose proof (canonical_fingerprint _ Hr) as Hfp. rewrite Hf in Hfp.
  apply canonical_normal in Hr as (Hs & _ & (p & Hp & Hn) & _).
  split_and!; [congruence|done| |unfold normalize_authorization; by rewrite Hl].
  exists p. split; [congruence|]. unfold normalize_fingerprint in *. rewrite Ef, Hf in *.
  destruct (DidProfile.supports_root_control p); [by rewrite Hfp|].
  by rewrite bool_decide_true in Hn by eauto.
Qed.

Lemma verify_root_public_Ok r k public :
  verify_root_public r k public = Ok tt →
  is_Some (root_key_fingerprint r) ∧
  ∃ method, find_verification_method (document r) k = Some method ∧
    extract_public_key method = Some public ∧
    fingerprint_of_document (document r) = ok_or (root_key_fingerprint r) InvalidIdentity.
Proof.
  unfold verify_root_public. intros Hv. inv_run Hv. apply ok_or_Ok in Hstep.
  inv_run Hv. apply ok_or_Ok in Hstep0.
  destruct (public_keys_equal public a0) eqn:Heq; [|done]. apply public_keys_equal_eq in Heq as ->.
  simpl in Hv. inv_run Hv. apply rguard_Ok, negb_false_iff, bool_decide_eq_true in Hv.
  rewrite <-Hv. split; [eauto|]. by exists a.
Qed.

Lemma verify_root_public_intro r k key f :
  document_public_key (document r) k = Ok (Ed25519 key) → fingerprint_of_document (document r) = Ok f →
  root_key_fingerprint r = Some f → verify_root_public r k (Ed25519 key) = Ok tt.
Proof.
  intros Hp Hf Hfi. unfold document_public_key in Hp. inv_run Hp. apply ok_or_Ok in Hstep, Hp.
  unfold verify_root_public. rewrite Hstep. simpl. rewrite Hp. simpl.
  rewrite bool_decide_true by done. simpl. rewrite Hf, Hfi. simpl. by rewrite bool_decide_true.
Qed.
End Canonical.

(** ** What a successful import did *)

(** The reference under which a transferred root key is sealed. *)
Definition root_ref (r : IdentityRecord) (root : KeyMetadata) (k : string) : SecretRef :=
  {| sr_identity_id := identity_id r; sr_key_id := k; sr_role := KeyRole.RootControl;
     sr_version := version root |}.

(** The next generation of a record. *)
Definition next (r : IdentityRecord) : IdentityRecord := set_generation (generation r + 1) r.

Inductive commit_outcome `{Env} (r : IdentityRecord) (k : string) (public : PublicKeyMaterial)
    (n dg e : string) : option IdentityRecord → RootTransferImportOutcome.t → Prop :=
  | commit_known replay o :
      List.find (has_nonce n) (root_transfer_replays r) = Some replay →
      transfer_digest replay = dg → replayed_outcome (root_capability r) = Ok o →
      commit_outcome r k public n dg e None o
  | commit_again :
      List.find (has_nonce n) (root_transfer_replays r) = None →
      root_capability r = RootCapabilityState.Active → verify_root_public r k public = Ok tt →
      commit_outcome r k public n dg e (Some (next (push_replay n dg e r)))
        RootTransferImportOutcome.Active
  | commit_waiting pending :
      List.find (has_nonce n) (root_transfer_replays r) = None →
      root_capability r ≠ RootCapabilityState.Active → pending_root_transfer r = Some pending →
      prt_transfer_digest pending = dg →
      commit_outcome r k public n dg e None RootTransferImportOutcome.Pending
  | commit_new index root at_ :
      List.find (has_nonce n) (root_transfer_replays r) = None →
      root_capability r = RootCapabilityState.Absent → verify_root_public r k public = Ok tt →
      keys r !! index = Some root → role root = KeyRole.RootControl → kid root = k →
      commit_outcome r k public n dg e
        (Some (next (imported_root_record r index k n dg e at_))) RootTransferImportOutcome.Pending.

(** [i] was current and the record on disk becomes [r'], if there is one. *)
Record commits `{Env} (i : DidIdentity) (d : Disk) (r : IdentityRecord)
    (change : option IdentityRecord) (i' : DidIdentity) (d' : Disk) : Prop := {
  cm_read : read_identity_at (identity_id (di_record i)) d = Ok r;
  cm_generation : generation r = generation (di_record i);
  cm_state : state r = IdentityState.Active;
  cm_idle : pending_revision r = None;
  cm_runtime : di_runtime i' = di_runtime i;
  cm_change : match change with
              | None => i' = i ∧ d' = d
              | Some r' => di_record i' = r' ∧
                  d_identities d' = <[storage_key (identity_id r') := Parsed r']> (d_identities d)
              end }.

Section Outcomes.
Context `{Env}.

Lemma preserves_seal_if_absent g rt x raw : preserves d_identities (seal_if_absent g rt x raw).
Proof.
  intros w res w' Hs. apply seal_if_absent_run in Hs. destruct res as [[]|err].
  - by destruct Hs as (record & _ & _ & _ & _ & -> & _).
  - by destruct Hs as [-> _].
  - by destruct Hs as [->|(_ & record & ->)].
Qed.

Lemma publish_identities rt g tid r w r' w' :
  publish_record rt g tid r w = (Ok r', w') →
  r' = next r ∧
  d_identities (disk w') = <[storage_key (identity_id r') := Parsed r']> (d_identities (disk w)).
Proof. intros Hp. apply publish_record_Ok in Hp as (-> & ? & ? & _ & _ & _ & ->). done. Qed.

Lemma root_import_transaction_Ok rt g r index root k raw public n dg e w r' w' :
  root_import_transaction rt g r index root k raw public n dg e w = (Ok r', w') →
  ∃ at_, r' = next (imported_root_record r index k n dg e at_) ∧
    d_identities (disk w') = <[storage_key (identity_id r') := Parsed r']> (d_identities (disk w)).
Proof.
  unfold root_import_transaction. intros Hp. inv_run Hp. apply keeps_random_id in Hstep as [E0 _].
  inv_run Hp. apply keeps_utc_now in Hstep as [E1 _].
  inv_run Hp. apply guarded_durable_Ok in Hstep.
  inv_run Hp. apply preserves_seal_if_absent in Hstep0.
  inv_run Hp. assert (disk w4 = disk w3) as E2.
  { destruct (bool_decide _); [|by apply ret_Ok in Hstep1 as [_ ->]].
    assert (keeps (verify_persisted_key rt (root_ref r root k) public)) as Hkeep
      by (unfold verify_persisted_key; keeps_tac). by apply Hkeep in Hstep1 as [-> _]. }
  apply publish_identities in Hp as [-> Hd]. eexists. split; [done|].
  by rewrite Hd, E2, Hstep0, Hstep, E1, E0.
Qed.

Lemma commit_pending_root_Ok i k raw public n dg e w i' o w' :
  commit_pending_root i k raw public n dg e w = (Ok (i', o), w') →
  ∃ r change, commits i (disk w) r change i' (disk w') ∧ commit_outcome r k public n dg e change o.
Proof.
  unfold commit_pending_root. intros Hp. inv_run Hp. apply acquire_write_Ok in Hstep as [-> <-].
  inv_run Hp. injection Hstep as Hr <-. rename a into r.
  inv_run Hp. apply lift_Ok in Hstep as [Hg%rguard_Ok ->].
  apply orb_false_iff in Hg as [Hg%negb_false_iff%bool_decide_eq_true Hs%negb_false_iff%bool_decide_eq_true].
  inv_run Hp. apply lift_Ok in Hstep as [Hpend%rguard_Ok%not_found_None ->].
  fold (has_nonce n) in Hp. exists r.
  destruct (List.find _ _) as [replay|] eqn:Hfind.
  { inv_run Hp. apply lift_Ok in Hstep as [Hd%rguard_Ok%negb_false_iff%bool_decide_eq_true ->].
    inv_run Hp. apply lift_Ok in Hstep as [Ho ->]. apply ret_Ok in Hp as [[= -> ->] ->].
    exists None. split; [by constructor|by eapply commit_known]. }
  case_bool_decide as Hact.
  { inv_run Hp. apply lift_Ok in Hstep as [Hv ->]. destruct_units. inv_run Hp.
    apply ret_Ok in Hp as [[= -> ->] ->]. unfold persist_state_transition in Hstep.
    inv_run Hstep. apply keeps_random_id in Hstep0 as [E0 _].
    inv_run Hstep. apply keeps_now in Hstep0 as [E1 _].
    inv_run Hstep. apply guarded_durable_Ok in Hstep0.
    apply publish_identities in Hstep as [-> Hd]. eexists. split; [|by apply commit_again].
    constructor; try done. split; [done|]. by rewrite Hd, Hstep0, E1, E0. }
  destruct (pending_root_transfer r) as [pending|] eqn:Hpr.
  { inv_run Hp. apply lift_Ok in Hstep as [Hd%rguard_Ok%negb_false_iff%bool_decide_eq_true ->].
    apply ret_Ok in Hp as [[= -> ->] ->]. exists None. split; [by constructor|by eapply commit_waiting]. }
  inv_run Hp. apply lift_Ok in Hstep as [Habs%rguard_Ok%negb_false_iff%bool_decide_eq_true ->].
  inv_run Hp. apply lift_Ok in Hstep as [Hv ->]. destruct_units.
  inv_run Hp. apply lift_Ok in Hstep as [Hpos%ok_or_Ok ->].
  inv_run Hp. apply lift_Ok in Hstep as [Hk%ok_or_Ok ->].
  inv_run Hp. apply ret_Ok in Hp as [[= -> ->] ->].
  apply position_Some in Hpos as (root & Hk' & Hp' & _). rewrite Hk in Hk'. injection Hk' as <-.
  apply andb_true_iff in Hp' as [Hrole%bool_decide_eq_true Hkid%bool_decide_eq_true].
  apply root_import_transaction_Ok in Hstep as (at_ & -> & Hd).
  eexists. split; [|by eapply commit_new]. by constructor.
Qed.
End Outcomes.

(** ** Crash safety of the import *)

(** [df] is [d0] with the record [r'], its summary and the sealed root key. *)
Record root_imported `{Env} (rt : StoreRuntime) (d0 : Disk) (r' : IdentityRecord) (x : SecretRef)
    (raw : string) (df : Disk) : Prop := {
  ri_quiescent : quiescent df;
  ri_record : read_identity_at (identity_id r') df = Ok r';
  ri_registry : ∃ registry0 registry, read_registry_at d0 = Ok registry0 ∧
    read_registry_at df = Ok registry ∧
    identities registry = <[did r' := summary r']> (identities registry0);
  ri_secret : open_secret_at rt x df = Ok raw;
  ri_others : same_but (identity_id r') [x] d0 df }.

Definition root_import_interrupted `{Env} (rt : StoreRuntime) (d0 : Disk) (r' : IdentityRecord)
    (x : SecretRef) (raw : string) (d : Disk) : Prop :=
  recovers_to rt d d0 ∨ ∃ df, root_imported rt d0 r' x raw df ∧ recovers_to rt d df.

Section RootImport.
Context `{Env, !Base64Laws, !AeadLaws, !RandomLaws}.
Context (rt : StoreRuntime) (d0 : Disk) (r : IdentityRecord) (x : SecretRef) (tid at_ : string).
Context (Hquiet : quiescent d0) (Hreg : registered_as d0 r).
Context (Hfresh : d_records d0 !! record_storage_key x = None).
Context (Habsent : root_import_committed r = false).

Abbreviation j := (new_creation_journal CreationJournalKind.RootImport tid (identity_id r) (did r)
                     [x] at_).
Abbreviation opened := (upd_journals (<[storage_key tid := Parsed j]>)).
Abbreviation closed := (upd_journals (delete (storage_key tid))).

(** The journal is there and the sealed record may be. *)
Definition importing (d : Disk) : Prop :=
  d_journals d = journal_dir j ∧ d_registry d = d_registry d0 ∧
  d_identities d = d_identities d0 ∧ same_but (identity_id r) [x] d0 d.

Lemma importing_opened : importing (opened d0).
Proof using Hquiet.
  destruct Hquiet as (Hj & _). split_and!; [|done..| by split_and!].
  simpl. by rewrite Hj.
Qed.

Lemma importing_records d f :
  importing d → (∀ m p, p ≠ record_storage_key x → f m !! p = m !! p) →
  importing (upd_records f d).
Proof using Type.
  intros (? & ? & ? & Hs) Hf. split_and!; [done..|].
  eapply same_but_records; [done|by apply list_elem_of_singleton|done].
Qed.

Lemma importing_closed d :
  importing d → d_records d !! record_storage_key x = None → closed d = d0.
Proof using Hquiet Hfresh.
  clear Hreg. intros (Hj & Hr & Hi & (Hm & Hu & Ht & _ & Hrec)) Hx. destruct Hquiet as (Hj0 & _).
  assert (d_records d = d_records d0) as Er.
  { apply map_eq. intros p. destruct (decide (p = record_storage_key x)) as [->|Hne];
      [congruence|]. apply Hrec. simpl. by rewrite list_elem_of_singleton. }
  destruct d, d0; unfold upd_journals; simpl in *. subst. f_equal. apply delete_singleton_eq.
Qed.

(** The import is undone as long as the record is not written. *)
Lemma importing_recovers d : importing d → recovers_to rt d d0.
Proof using Hquiet Hreg Hfresh Habsent.
  intros Hd. destruct Hreg as (Hread & registry & Hregistry & _).
  apply (recovers_to_intro rt importing); [done..|].
  apply (recover_single rt j registry); [done|done|by right| |by left|].
  { intros y (Hj & Hr & _). split; [done|]. rewrite <-Hregistry. by apply read_registry_same. }
  intros g Hg. unfold recover_journal. simpl.
  apply (ctriple_bind _ _ _ _ (λ a y, a = r ∧ importing y)).
  { apply ctriple_reads. intros y Hy. exists r. split; [|done]. rewrite <-Hread.
    unfold read_identity_at. by destruct Hy as (_ & _ & -> & _). }
  intros a. apply (ctriple_bind _ _ _ _ (λ _ y, a = r ∧ importing y)).
  { intros w res w' [-> Hw]. rewrite bool_decide_true by done. intros [= <- <-]. done. }
  intros []. apply (ctriple_bind _ _ _ _ (λ _ y, importing y ∧ d_records y !! record_storage_key x = None)).
  { intros w res w' [-> Hw]. rewrite Habsent. revert w res w' Hw.
    change (ctriple importing (do! for_each (delete_secret g rt) [x]; ret registry)
      (λ _ y, importing y ∧ d_records y !! record_storage_key x = None)
      (λ y, importing y ∨ y = d0)).
    eapply ctriple_bind; [eapply ctriple_conseq;
      [apply (ctriple_delete_refs rt g [x] importing Hg)|done|done|by left]|].
    - intros y z Hy ->%list_elem_of_singleton. apply importing_records; [done|].
      intros. by apply lookup_delete_ne.
    - intros []. apply ctriple_ret. intros y [Hy Hn]. split; [done|]. apply Hn. simpl.
      by apply list_elem_of_singleton. }
  intros b. apply (ctriple_bind _ _ _ _ (λ _ y, y = d0)); [apply (ctriple_guarded rt g)|]; [done|..].
  - intros y [Hy Hn]. by apply importing_closed.
  - intros y [Hy _]. by left.
  - intros y [Hy Hn]. right. by apply importing_closed.
  - intros []. by apply ctriple_ret.
Qed.

(** Sealing the transferred key. *)
Lemma seal_root g raw (public : PublicKeyMaterial) :
  dtriple (λ d, d = opened d0)
    (let! sealed := seal_if_absent g rt x raw in
     if bool_decide (sealed = SealIfAbsent.AlreadyExists)
     then verify_persisted_key rt x public else ret tt)
    (λ _ d, importing d ∧ open_secret_at rt x d = Ok raw) importing.
Proof using All.
  intros w res w' Hw. unfold bind.
  assert (importing (disk w)) as Hi by (rewrite Hw; apply importing_opened).
  assert (d_records (disk w) !! record_storage_key x = None) as Hn by by rewrite Hw.
  destruct (seal_if_absent g rt x raw w) as [[[]|e] w1] eqn:Hs;
    pose proof (seal_if_absent_run _ _ _ _ _ _ _ Hs) as Hr.
  - rewrite bool_decide_false by done. intros [= <- <-].
    destruct (seal_opens _ _ _ _ _ _ Hs) as [Hopen _]. split; [|done].
    destruct Hr as (record & _ & _ & _ & _ & -> & _). apply importing_records; [done|].
    intros. by apply lookup_insert_ne.
  - destruct Hr as [_ [y Hy]]. congruence.
  - intros [= <- <-]. destruct Hr as [->|(_ & record & ->)]; [done|].
    apply importing_records; [done|]. intros. by apply lookup_insert_ne.
Qed.

(** A change published over the sealed key. *)
Lemma importing_base d :
  importing d → quiescent (closed d) ∧ registered_as (closed d) r ∧ opened (closed d) = d ∧
  same_but (identity_id r) [x] d0 (closed d).
Proof using Hquiet Hreg.
  intros (Hj & Hr & Hi & (Hm & Hu & Ht & Hid & Hrec)).
  destruct Hquiet as (Hj0 & Hu0 & reg0 & Hreg0). destruct Hreg as (Hread & registry & Hregistry & Hlt & Hentry).
  assert (∀ y, read_registry_at d0 = Ok y → read_registry_at (closed d) = Ok y) as Hsame
    by (intros y <-; by apply read_registry_same).
  split; [split_and!; simpl; [rewrite Hj; apply delete_singleton_eq|congruence|eauto]|].
  split; [|split; [|by split_and!]].
  - split; [rewrite <-Hread; unfold read_identity_at; simpl; by rewrite Hi|].
    exists registry. split_and!; auto.
  - destruct d; unfold upd_journals; simpl in *. subst. unfold journal_dir. simpl. f_equal.
    rewrite delete_singleton_eq. done.
Qed.

Lemma transitioned_imported base r' raw df :
  identity_id r' = identity_id r → same_but (identity_id r) [x] d0 base →
  d_registry base = d_registry d0 → open_secret_at rt x base = Ok raw →
  transitioned base r' df → root_imported rt d0 r' x raw df.
Proof using Type.
  intros Hid (Hm & Hu & Ht & Hi & Hr) Hreg0 Hopen [Hq Hread (reg0 & reg & Hr0 & Hr1 & Hr2) Ho].
  destruct Ho as (Hm' & Hu' & Ht' & Hi' & Hr'). rewrite Hid in *.
  constructor; [done| |exists reg0, reg; split_and!; [|done..]| |].
  - by rewrite Hid.
  - rewrite <-Hr0. by apply read_registry_same.
  - rewrite <-Hopen. apply open_secret_at_lookup, Hr'. simpl. by apply not_elem_of_nil.
  - rewrite Hid. split_and!; [congruence..| |].
    + intros p Hp. by rewrite Hi', Hi.
    + intros p Hp. rewrite Hr', Hr; [done..|]. by apply not_elem_of_nil.
Qed.
End RootImport.

Section CommitRoot.
Context `{Env, !Base64Laws, !AeadLaws, !RandomLaws}.

(** The effect of an import on the store: an identity that has the root key already
    records the transfer, and any other one holds the sealed key, pending. *)
Definition root_committed (rt : StoreRuntime) (d0 : Disk) (r : IdentityRecord) (k raw : string)
    (r' : IdentityRecord) (d : Disk) : Prop :=
  (root_capability r = RootCapabilityState.Active ∧ root_capability r' = RootCapabilityState.Active ∧
   keys r' = keys r ∧ transitioned d0 r' d) ∨
  (root_capability r = RootCapabilityState.Absent ∧
   root_capability r' = RootCapabilityState.Pending ∧
   ∃ root, root ∈ keys r ∧ role root = KeyRole.RootControl ∧ kid root = k ∧
     root_imported rt d0 r' (root_ref r root k) raw d).

Definition root_commit_interrupted (rt : StoreRuntime) (d0 : Disk) (r : IdentityRecord)
    (k raw : string) (d : Disk) : Prop :=
  recovers_to rt d d0 ∨ ∃ r' df, root_committed rt d0 r k raw r' df ∧ recovers_to rt d df.

(** The record of a transferred root key counts as committed. *)
Lemma imported_root_committed r index root k n d e t g :
  keys r !! index = Some root → is_role (role root) KeyRole.RootControl = true →
  material_erased root = false →
  root_import_committed (set_generation g (imported_root_record r index k n d e t)) = true.
Proof.
  intros Hk Hr He. unfold root_import_committed. simpl. apply existsb_exists.
  set (f := λ m, set_key_state KeyState.Pending (set_origin KeyOrigin.Managed m)).
  exists (f root). split.
  - apply list_elem_of_In, (list_elem_of_lookup_2 _ index). by rewrite list_lookup_alter_eq, Hk.
  - simpl. by rewrite Hr, He.
Qed.

Lemma absent_uncommitted r :
  root_capability r = RootCapabilityState.Absent → root_import_committed r = false.
Proof. intros Hr. unfold root_import_committed. by rewrite Hr. Qed.

Lemma root_import_transaction_safe rt g d0 r index root k raw public n dg e :
  held rt g → quiescent d0 → registered_as d0 r → is_Some (local_authorization r) →
  is_Some (root_key_fingerprint r) → root_capability r = RootCapabilityState.Absent →
  keys r !! index = Some root → is_role (role root) KeyRole.RootControl = true →
  material_erased root = false → d_records d0 !! record_storage_key (root_ref r root k) = None →
  dtriple (λ d, d = d0) (root_import_transaction rt g r index root k raw public n dg e)
    (λ y d, root_capability y = RootCapabilityState.Pending ∧
            root_imported rt d0 y (root_ref r root k) raw d)
    (λ d, recovers_to rt d d0 ∨ ∃ r' df, root_capability r' = RootCapabilityState.Pending ∧
            root_imported rt d0 r' (root_ref r root k) raw df ∧ recovers_to rt d df).
Proof.
  intros Hg Hq Hr Hla Hfp Habs Hk Hrole He Hfresh. set (x := root_ref r root k) in *.
  set (X := λ d, recovers_to rt d d0 ∨ _).
  assert (∀ d, d = d0 → X d) as Hstart by (intros d ->; left; by apply recovers_to_quiescent).
  pose proof (absent_uncommitted r Habs) as Hunc.
  unfold root_import_transaction. fold x.
  apply dtriple_kept_bind; [apply keeps_random_id|done|intros tid].
  apply dtriple_kept_bind; [apply keeps_utc_now|done|intros t].
  set (j := new_creation_journal _ _ _ _ _ _).
  assert (∀ d, importing d0 r x tid (rfc3339_secs t) d → X d) as Himp
    by (intros d Hd; left; by eapply importing_recovers).
  set (d1 := upd_journals (<[storage_key tid := Parsed j]>) d0).
  assert (importing d0 r x tid (rfc3339_secs t) d1) as Hopened by by apply importing_opened.
  eapply dtriple_bind; [apply (dtriple_guarded_durable _ _ _ _ _ (λ d, d = d1))|intros []];
    [by intros d ->|done|intros d ->; by apply Himp|].
  apply dtriple_group. eapply dtriple_bind; [eapply dtriple_conseq;
    [by apply (seal_root rt d0 r x tid (rfc3339_secs t))|done|done|exact Himp]|intros []].
  set (r' := imported_root_record r index k n dg e (rfc3339_secs t)).
  assert (canonical_record (set_generation (generation r' + 1) r')) as Hcan.
  { destruct Hr as [Hr _]. apply read_identity_is_canonical in Hr as [Hr _].
    apply (canonical_with_root r); try done. by apply (canonical_checkpoint r). }
  assert (syncs j (set_generation (generation r' + 1) r')) as Hsync
    by (right; split; [done|by eapply imported_root_committed]).
  intros w res w' [Hi Hopen] Hrun.
  destruct (importing_base d0 r x tid (rfc3339_secs t) Hq Hr _ Hi) as (Hbq & Hbr & Hbo & Hbs).
  set (base := upd_journals (delete (storage_key tid)) (disk w)) in *.
  assert (open_secret_at rt x base = Ok raw) as Hbopen by done.
  assert (∀ df, transitioned base (set_generation (generation r' + 1) r') df →
    root_imported rt d0 (set_generation (generation r' + 1) r') x raw df) as Hti.
  { intros df. eapply transitioned_imported; [done..|apply Hi|done]. }
  pose proof (publish_record_safe rt g base r r' CreationJournalKind.RootImport tid (rfc3339_secs t)
    [x] Hg Hbq Hbr eq_refl eq_refl Hcan Hsync w res w' (eq_sym Hbo) Hrun) as Hres.
  destruct res as [y|err].
  - destruct Hres as [-> Ht]. split; [done|by apply Hti].
  - destruct Hres as [->|(df & Ht & Hrec)]; [apply Himp; rewrite <-Hbo in Hi; exact Hi|].
    right. exists (set_generation (generation r' + 1) r'), df. split_and!; [done|by apply Hti|done].
Qed.

(** The root keys of a record still have room for their secret. *)
Definition root_importable (d : Disk) (r : IdentityRecord) (k : string) : Prop :=
  root_capability r = RootCapabilityState.Absent →
  ∀ m, m ∈ keys r → role m = KeyRole.RootControl →
    material_erased m = false ∧ d_records d !! record_storage_key (root_ref r m k) = None.

Lemma push_replay_canonical r n dg e :
  canonical_record r →
  canonical_record (set_generation (generation (push_replay n dg e r) + 1) (push_replay n dg e r)).
Proof.
  intros Hr. apply (canonical_same r); [done|]. split_and!; try done. by apply (canonical_checkpoint r).
Qed.

Lemma commit_pending_root_safe i k raw public n dg e d0 r :
  quiescent d0 → registered_as d0 r → identity_id (di_record i) = identity_id r →
  is_Some (local_authorization r) → root_importable d0 r k →
  dtriple (λ d, d = d0) (commit_pending_root i k raw public n dg e)
    (λ x d, x.1 = i ∧ d = d0 ∨
            root_committed (di_runtime i) d0 r k raw (di_record x.1) d)
    (root_commit_interrupted (di_runtime i) d0 r k raw).
Proof.
  intros Hq Hr Hi Hla Himp. set (rt := di_runtime i).
  assert (∀ d, d = d0 → root_commit_interrupted rt d0 r k raw d) as Hstart
    by (intros d ->; left; by apply recovers_to_quiescent).
  unfold commit_pending_root. fold rt.
  apply dtriple_acquire_bind; [done|intros g Hg]. rewrite Hi.
  apply dtriple_reads_bind; [done|intros r1 Hr1].
  assert (r1 = r) as -> by (destruct Hr as [Hr _]; congruence).
  apply dtriple_guard_bind; [done|intros _]. apply dtriple_guard_bind; [done|intros _].
  destruct (List.find _ _) as [replay|].
  { apply dtriple_guard_bind; [done|intros _]. apply dtriple_lift_bind; [done|intros o _].
    apply dtriple_ret. by left. }
  case_bool_decide as Hact.
  { apply dtriple_lift_bind; [done|intros [] Hv].
    assert (canonical_record r) as Hcan
      by (destruct Hr as [Hr _]; by apply read_identity_is_canonical in Hr as [? _]).
    eapply dtriple_bind; [eapply dtriple_conseq; [apply (persist_state_transition_safe rt g d0 r);
      try done; by apply push_replay_canonical|done|done|]|].
    - intros d [Hd|(df & Ht & Hd)]; [by left|right]. eexists _, df. split; [|exact Hd].
      left. split; [done|]. split; [|split; [|exact Ht]]; done.
    - intros y. apply dtriple_ret. intros d [-> Ht]. right. left. by split_and!. }
  destruct (pending_root_transfer r) as [pending|].
  { apply dtriple_guard_bind; [done|intros _]. apply dtriple_ret. by left. }
  apply dtriple_guard_bind; [done|]. intros Habs%negb_false_iff%bool_decide_eq_true.
  apply dtriple_lift_bind; [done|intros [] Hv]. apply verify_root_public_Ok in Hv as [Hfp _].
  apply dtriple_lift_bind; [done|intros index Hindex%ok_or_Ok].
  apply position_Some in Hindex as (root & Hk & Hp & Hin).
  apply andb_true_iff in Hp as [Hrole Hkid%bool_decide_eq_true].
  rewrite Hk. apply dtriple_lift_bind; [done|]. intros ? [= <-].
  assert (role root = KeyRole.RootControl) as Hroot by by apply bool_decide_eq_true in Hrole.
  destruct (Himp Habs root Hin Hroot) as [He Hfresh].
  eapply dtriple_bind; [eapply dtriple_conseq; [by eapply root_import_transaction_safe|done|done|]|].
  - intros d [Hd|(r' & df & Hc & Ht & Hd)]; [by left|right]. exists r', df. split; [|done].
    right. split_and!; [done..|]. by exists root.
  - intros y. apply dtriple_ret. intros d [Hc Ht]. right. right. split_and!; [done..|]. by exists root.
Qed.

(** C18.  Crash safety of root import: whatever durable operation fails, the store
    recovers to the state before the call, or to the one after it, in which the
    record, its summary and the sealed root key are all there; a successful call
    leaves the store in that state, or untouched where the transfer was known. *)
Theorem root_import_crash_safe i k raw public n dg e w res w' r :
  quiescent (disk w) → registered_as (disk w) r → identity_id (di_record i) = identity_id r →
  is_Some (local_authorization r) → root_importable (disk w) r k →
  commit_pending_root i k raw public n dg e w = (res, w') →
  match res with
  | Ok (i', _) => i' = i ∧ disk w' = disk w ∨
                  root_committed (di_runtime i) (disk w) r k raw (di_record i') (disk w')
  | Err _ => root_commit_interrupted (di_runtime i) (disk w) r k raw (disk w')
  end.
Proof.
  intros Hq Hr Hi Hla Himp Hrun.
  pose proof (commit_pending_root_safe i k raw public n dg e _ r Hq Hr Hi Hla Himp w res w' eq_refl Hrun)
    as Hres.
  by destruct res as [[]|].
Qed.
End CommitRoot.

(** ** The capability machine *)

Section Capability.
Context `{Env}.

(** The root capability of an identity moves along [Absent], [Pending], [Active]. *)
Inductive capability_step : RootCapabilityState.t → RootTransferImportOutcome.t →
    RootCapabilityState.t → Prop :=
  | capability_received :
      capability_step RootCapabilityState.Absent RootTransferImportOutcome.Pending
        RootCapabilityState.Pending
  | capability_waiting :
      capability_step RootCapabilityState.Pending RootTransferImportOutcome.Pending
        RootCapabilityState.Pending
  | capability_kept :
      capability_step RootCapabilityState.Active RootTransferImportOutcome.Active
        RootCapabilityState.Active.

(** A record waits for a root key exactly while its capability is pending. *)
Definition capability_sound (r : IdentityRecord) : Prop :=
  (root_capability r = RootCapabilityState.Pending ↔ is_Some (pending_root_transfer r)) ∧
  length (root_transfer_replays r) ≤ MAX_REPLAY_RECORDS.

Lemma commit_outcome_sound r k public n dg e change o r' :
  commit_outcome r k public n dg e change o → capability_sound r → r' = default r change →
  capability_sound r' ∧ capability_step (root_capability r) o (root_capability r') ∧
  (is_Some change → last (root_transfer_replays r')
     = Some {| replay_nonce := n; transfer_digest := dg; expires_at := e |}).
Proof.
  intros Hc [Hs Hl] ->. destruct Hc as [replay o _ _ Ho|Hn Ha Hv|p Hn Ha Hp Hd|index root at_ Hn Ha Hv Hk Hr Hkid].
  - split_and!; [done..| |by intros [? ?]]. simpl.
    destruct (root_capability r); simpl in Ho; [done|injection Ho as <-..]; constructor.
  - split_and!; [split; [done|apply push_replay_length]|simpl; rewrite Ha; constructor|intros _].
    simpl. destruct (push_replay_shape n dg e r) as (old & Heq & _). simpl in Heq.
    by rewrite Heq, last_snoc.
  - split_and!; [done..| |by intros [? ?]]. simpl.
    assert (root_capability r = RootCapabilityState.Pending) as -> by (apply Hs; eauto). constructor.
  - unfold imported_root_record. split_and!; [split; [|apply push_replay_length]| |intros _].
    + simpl. split; eauto.
    + simpl. rewrite Ha. constructor.
    + set (x := set_pending_root_transfer _ _).
      destruct (push_replay_shape n dg e x) as (old & Heq & _). simpl in Heq |- *.
      by rewrite Heq, last_snoc.
Qed.

(** C19.  Bounds and states of root import: a successful import moves the capability
    only from absent to pending and otherwise leaves it, and reports the state it
    ends in; the replay list never exceeds 256 records and ends with the transfer
    that was just recorded. *)
Theorem root_import_machine i k raw public n dg e w i' o w' r :
  read_identity_at (identity_id (di_record i)) (disk w) = Ok r → capability_sound r →
  commit_pending_root i k raw public n dg e w = (Ok (i', o), w') →
  (i' = i ∧ disk w' = disk w ∧ capability_step (root_capability r) o (root_capability r)) ∨
  (capability_sound (di_record i') ∧
   capability_step (root_capability r) o (root_capability (di_record i')) ∧
   last (root_transfer_replays (di_record i'))
     = Some {| replay_nonce := n; transfer_digest := dg; expires_at := e |}).
Proof.
  intros Hr Hs Hrun. apply commit_pending_root_Ok in Hrun as (r1 & change & Hc & Ho).
  pose proof (cm_read _ _ _ _ _ _ Hc) as Hr1. rewrite Hr in Hr1. injection Hr1 as <-.
  destruct (commit_outcome_sound _ _ _ _ _ _ _ _ _ Ho Hs eq_refl) as (Hs' & Hstep & Hlast).
  pose proof (cm_change _ _ _ _ _ _ Hc) as Hch. destruct change as [r'|]; simpl in *.
  - destruct Hch as [-> _]. right. split_and!; eauto.
  - destruct Hch as [-> ->]. by left.
Qed.

(** Replays are harmless: repeating an import that changed the record returns
    the same outcome and changes nothing, and another transfer under the same nonce
    is refused. *)
Theorem root_import_replay i k raw public n dg e w i' o w' :
  (∀ r, read_identity_at (identity_id (di_record i)) (disk w) = Ok r →
        is_Some (local_authorization r)) →
  commit_pending_root i k raw public n dg e w = (Ok (i', o), w') → i' ≠ i →
  ∀ w2 k' raw' public' dg' e', disk w2 = disk w' → io w2 = NoFault →
    commit_pending_root i' k' raw' public' n dg' e' w2 =
      (if bool_decide (dg' = dg) then Ok (i', o) else Err InvalidRootTransfer, w2).
Proof.
  intros Hla Hrun Hne w2 k' raw' public' dg' e' Hw2 Hio.
  apply commit_pending_root_Ok in Hrun as (r & change & Hc & Ho).
  destruct change as [r'|]; [|by destruct (cm_change _ _ _ _ _ _ Hc)].
  destruct (cm_change _ _ _ _ _ _ Hc) as [Hi' Hd].
  pose proof (cm_read _ _ _ _ _ _ Hc) as Hr. specialize (Hla r Hr).
  apply read_identity_is_canonical in Hr as [Hcan Hid].
  assert (canonical_record r' ∧ identity_id r' = identity_id r ∧ state r' = state r ∧
    pending_revision r' = pending_revision r ∧ replayed_outcome (root_capability r') = Ok o ∧
    List.find (has_nonce n) (root_transfer_replays r') =
      Some {| replay_nonce := n; transfer_digest := dg; expires_at := e |})
    as (Hcan' & Hid' & Hst & Hpr & Hout & Hfind).
  { clear Hd. pose proof (push_replay_found n dg e) as Hpush.
    inversion Ho as [|Hn Ha Hv|p Hn|index root at_ Hn Ha Hv Hk Hro Hkid]; subst.
    - split_and!; try done; [by apply push_replay_canonical|simpl; by rewrite Ha|by apply Hpush].
    - split_and!; try done; [|by apply Hpush].
      apply (canonical_with_root r); try done; [by apply verify_root_public_Ok in Hv as [? _]|].
      by apply (canonical_checkpoint r). }
  unfold commit_pending_root, bind. rewrite acquire_write_runs by done.
  unfold ret, read_identity, reads. rewrite Hi', Hw2.
  assert (read_identity_at (identity_id r') (disk w') = Ok r') as ->
    by (apply read_identity_canonical; [done|]; by rewrite Hd, lookup_insert_eq).
  rewrite Hpr, (cm_idle _ _ _ _ _ _ Hc), Hst, (cm_state _ _ _ _ _ _ Hc).
  rewrite !bool_decide_true by done. fold (has_nonce n). simpl. rewrite Hfind. simpl.
  unfold sguard, rguard, lift. destruct (decide (dg' = dg)) as [->|Hnd].
  - rewrite !bool_decide_true by done. simpl. by rewrite Hout.
  - rewrite !bool_decide_false by congruence. done.
Qed.
End Capability.

(** ** Promotion *)

Section Promotion.
Context `{Env}.

Lemma root_progression_Ok current e :
  root_checkpoint_progression current e = Ok tt →
  ∃ c, current = Some c ∧ checkpoint_le c (checkpoint_of e) ∧
    (document_version c = ev_document_version e → document_digest c = ev_document_digest e).
Proof.
  unfold root_checkpoint_progression. intros Hp. inv_run Hp. apply ok_or_Ok in Hstep.
  exists a. split; [done|]. by apply checkpoint_progression_Ok.
Qed.

(** The root keys of a record whose private part this store holds. *)
Definition is_managed_root (m : KeyMetadata) : bool :=
  is_role (role m) KeyRole.RootControl && bool_decide (origin m = KeyOrigin.Managed).

(** Without the root capability no root key is held, and while a transfer waits for
    its confirmation the only one held is the one it brought. *)
Definition transfer_sound (r : IdentityRecord) : bool :=
  match root_capability r with
  | RootCapabilityState.Absent => negb (existsb is_managed_root (keys r))
  | RootCapabilityState.Pending =>
      match pending_root_transfer r with
      | Some p => forallb (λ m, negb (is_managed_root m) || bool_decide (kid m = prt_root_kid p)) (keys r)
      | None => false
      end
  | RootCapabilityState.Active => true
  end.

Lemma transfer_sound_pending r p m :
  transfer_sound r = true → root_capability r = RootCapabilityState.Pending →
  pending_root_transfer r = Some p → m ∈ keys r → is_managed_root m = true → kid m = prt_root_kid p.
Proof.
  unfold transfer_sound. intros Hs Hc Hp Hin Hm. rewrite Hc, Hp, forallb_forall in Hs.
  specialize (Hs m ltac:(by apply list_elem_of_In)). rewrite Hm in Hs.
  by apply bool_decide_eq_true in Hs.
Qed.

(** Importing a root key keeps it so: the key the import marks is the one it names. *)
Lemma commit_outcome_transfer_sound r k public n dg e change o :
  commit_outcome r k public n dg e change o → transfer_sound r = true →
  transfer_sound (default r change) = true.
Proof.
  intros Hc Hs. destruct Hc as [| |p Hn Ha Hp Hd|index root at_ Hn Ha Hv Hk Hr Hkid]; [done..|].
  unfold transfer_sound in Hs. rewrite Ha in Hs. apply negb_true_iff in Hs.
  unfold transfer_sound. simpl. apply forallb_forall. intros m [j Hj]%list_elem_of_In%list_elem_of_lookup.
  simpl in Hj. destruct (decide (j = index)) as [->|Hne].
  - rewrite list_lookup_alter_eq, Hk in Hj. injection Hj as <-. simpl.
    rewrite bool_decide_true by done. apply orb_true_r.
  - rewrite list_lookup_alter_ne in Hj by done. apply orb_true_iff. left. apply negb_true_iff.
    apply not_true_is_false. intros Hm. apply not_true_iff_false in Hs. apply Hs, existsb_exists.
    exists m. split; [|done]. apply list_elem_of_In. by eapply list_elem_of_lookup_2.
Qed.

Lemma root_import_transfer_sound i k raw public n dg e w i' o w' r :
  read_identity_at (identity_id (di_record i)) (disk w) = Ok r → transfer_sound r = true →
  commit_pending_root i k raw public n dg e w = (Ok (i', o), w') →
  i' = i ∨ transfer_sound (di_record i') = true.
Proof.
  intros Hr Hs Hrun. apply commit_pending_root_Ok in Hrun as (r1 & change & Hc & Ho).
  pose proof (cm_read _ _ _ _ _ _ Hc) as Hr1. rewrite Hr in Hr1. injection Hr1 as <-.
  apply commit_outcome_transfer_sound in Ho; [|done].
  pose proof (cm_change _ _ _ _ _ _ Hc) as Hch. destruct change as [r'|]; simpl in *.
  - destruct Hch as [-> _]. by right.
  - by left; destruct Hch.
Qed.

(** A document the caller verified, with evidence that is about this document. *)
Record verified_document (doc : Value) (e : VerifiedDocumentEvidence) : Prop := {
  vd_versions : ev_document_version e ≠ 0%N ∧ ev_registry_version e ≠ 0%N;
  vd_digest : digest_document doc = Ok (ev_document_digest e);
  vd_manifest : is_Some (validate_device_manifest doc);
  vd_method : ∃ p, validate_method_document doc = Ok p }.

Lemma validate_verified_document_Ok doc e :
  validate_verified_document doc e = Ok tt → verified_document doc e.
Proof.
  unfold validate_verified_document. intros Hp.
  inv_run Hp. apply rguard_Ok, orb_false_iff in Hstep as [H1%N.eqb_neq H2%N.eqb_neq].
  inv_run Hp. rename Hstep into Hd. inv_run Hp.
  apply rguard_Ok, negb_false_iff, bool_decide_eq_true in Hstep as ->.
  inv_run Hp. apply ok_or_Ok in Hstep. inv_run Hp. constructor; eauto.
Qed.

(** What a promotion that changes the record establishes. *)
Record promoted (i : DidIdentity) (spec : RootPromotionSpec) (r : IdentityRecord)
    (r' : IdentityRecord) : Prop := {
  pm_before : root_capability r = RootCapabilityState.Pending ∧ is_Some (pending_root_transfer r);
  pm_after : root_capability r' = RootCapabilityState.Active ∧ pending_root_transfer r' = None;
  pm_checkpoint : ∃ c, checkpoint r = Some c ∧ checkpoint_le c (checkpoint_of (rps_evidence spec)) ∧
    (document_version c = ev_document_version (rps_evidence spec) →
     document_digest c = ev_document_digest (rps_evidence spec));
  pm_verified : verified_document (rps_document spec) (rps_evidence spec);
  pm_root : fingerprint_of_document (rps_document spec)
              = ok_or (root_key_fingerprint (di_record i)) InvalidIdentity;
  pm_document : document r' = rps_document spec ∧
    checkpoint r' = Some (checkpoint_of (rps_evidence spec)) ∧
    get_str (rps_document spec) "id" = Some (did (di_record i));
  pm_key : ∃ index root p, keys r !! index = Some root ∧ role root = KeyRole.RootControl ∧
    origin root = KeyOrigin.Managed ∧ pending_root_transfer r = Some p ∧ kid root = prt_root_kid p ∧
    keys r' = <[index := set_key_state KeyState.Active root]> (keys r);
  pm_generation : generation r' = (generation r + 1)%N }.

(** C20.  Promotion: a call that succeeds either finds the root capability already
    active and changes nothing, or it found a transferred root key waiting.  Then the
    document it was given carries evidence that is about that document (its digest,
    nonzero versions) and passes the method and device-manifest validations, is of the
    same DID and root key, and is not older than the checkpoint; the document and its
    checkpoint are installed and exactly one key changes its state, the root key that
    the waiting transfer brought.  The record read is assumed to hold no other root key
    ([transfer_sound]), which imports keep ([root_import_transfer_sound]). *)
Theorem root_promotion i spec w i' w' r :
  read_identity_at (identity_id (di_record i)) (disk w) = Ok r → transfer_sound r = true →
  confirm_root_promotion i spec w = (Ok i', w') →
  (i' = i ∧ disk w' = disk w ∧ root_capability r = RootCapabilityState.Active ∧
   pending_root_transfer r = None) ∨ promoted i spec r (di_record i').
Proof.
  intros Hread Hsound. unfold confirm_root_promotion. intros Hp. inv_run Hp.
  apply lift_Ok in Hstep as [Hver ->]. destruct_units. apply validate_verified_document_Ok in Hver.
  inv_run Hp. case_bool_decide as Hid; simpl in Hstep; [|done].
  inv_run Hstep. apply lift_Ok in Hstep0 as [Hfp ->].
  apply lift_Ok in Hstep as [Hf%rguard_Ok%negb_false_iff%bool_decide_eq_true ->].
  inv_run Hp. apply acquire_write_Ok in Hstep as [-> Hdisk]. inv_run Hp. injection Hstep as Hr <-.
  rewrite Hdisk, Hread in Hr. injection Hr as <-.
  inv_run Hp. apply lift_Ok in Hstep as [Hg%rguard_Ok%negb_false_iff%bool_decide_eq_true ->].
  destruct (_ && _) eqn:Hdone.
  { apply andb_true_iff in Hdone as [Ha%bool_decide_eq_true Hn%negb_true_iff].
    apply ret_Ok in Hp as [-> ->]. left. split_and!; [done..|]. by destruct (pending_root_transfer r). }
  right. inv_run Hp. apply lift_Ok in Hstep as [Hb%rguard_Ok ->].
  apply orb_false_iff in Hb as [Hb%negb_false_iff%bool_decide_eq_true Hb2%negb_false_iff].
  inv_run Hp. apply lift_Ok in Hstep as [Hc ->]. destruct_units. apply root_progression_Ok in Hc.
  inv_run Hp. apply lift_Ok in Hstep as [Hpos%ok_or_Ok ->].
  inv_run Hp. apply ret_Ok in Hp as [-> ->]. apply persist_state_transition_Ok in Hstep as (-> & _).
  apply position_Some in Hpos as (root & Hk & Hroot & Hin).
  apply is_some_Some in Hb2 as [p Hpt].
  pose proof (transfer_sound_pending _ _ _ Hsound Hb Hpt Hin Hroot) as Hkid.
  apply andb_true_iff in Hroot as [Hro%bool_decide_eq_true Hor%bool_decide_eq_true].
  constructor; simpl; try done.
  - by rewrite Hfp, <-Hf.
  - eexists _, root, p. split_and!; try done.
    rewrite list_insert_alter. apply list_alter_ext; [|done]. intros x Hx. congruence.
Qed.
End Promotion.
