(* ===== verification/RootTransferRoundTrip.v ===== *)
(** * Root transfer end to end (root_transfer.rs)

    What one device wraps for another device of the same identity, the other device
    unwraps: without a fault the import succeeds and the recipient holds the same
    root key. *)

From stdpp Require Import base strings list gmap sorting.
From S2P Require Import Prelude Json Errors Records Env Toy Input World Document Keystore Registry.
From S2P Require Import Recovery Identity RecordFacts Adoption CryptoOps KeyImport RootTransfer.
From S2P Require Import IdentityFacts Namespace Scenario AdoptionFacts EnrollmentFacts.
From S2P Require Import RootTransferFacts.

(** ** Runs without a fault *)

Section Progress.
Context `{Env}.

(** [m] returns a value without a fault, satisfying [Q]. *)
Definition runs {A} (m : M A) (w : World) (Q : A → World → Prop) : Prop :=
  ∃ a w', m w = (Ok a, w') ∧ io w' = NoFault ∧ Q a w'.

Lemma runs_bind {A B} (m : M A) (k : A → M B) w Q :
  runs m w (λ a w', runs (k a) w' Q) → runs (bind m k) w Q.
Proof.
  intros (a & w1 & Hm & _ & b & w2 & Hk & Hio & HQ). exists b, w2. unfold bind. by rewrite Hm.
Qed.

Lemma runs_ret {A} (a : A) w (Q : A → World → Prop) : io w = NoFault → Q a w → runs (ret a) w Q.
Proof. intros. exists a, w. done. Qed.

Lemma runs_lift {A} (x : DidResult A) a w (Q : A → World → Prop) :
  x = Ok a → io w = NoFault → Q a w → runs (lift x) w Q.
Proof. intros -> ? ?. exists a, w. done. Qed.

Lemma runs_sguard bad e w (Q : unit → World → Prop) :
  bad = false → io w = NoFault → Q tt w → runs (sguard bad e) w Q.
Proof. intros -> ? ?. exists tt, w. done. Qed.

Lemma runs_reads {A} (f : Disk → DidResult A) a w (Q : A → World → Prop) :
  f (disk w) = Ok a → io w = NoFault → Q a w → runs (reads f) w Q.
Proof. intros Hf ? ?. exists a, w. unfold reads. by rewrite Hf. Qed.

Lemma runs_acquire rt w (Q : StoreWriteGuard → World → Prop) :
  io w = NoFault → Q {| guard_root := rt_root rt |} w → runs (acquire_write rt) w Q.
Proof. intros Hio HQ. eexists _, w. rewrite acquire_write_runs by done. done. Qed.

Lemma runs_guarded rt g f w (Q : unit → World → Prop) :
  held rt g → io w = NoFault → Q tt (set_disk (f (disk w)) w) →
  runs (do! require_store g (rt_root rt); durable f) w Q.
Proof.
  intros Hg Hio HQ. exists tt, (set_disk (f (disk w)) w). unfold bind.
  rewrite require_store_held by done. unfold durable. by rewrite Hio.
Qed.

(** Draws and readings of the clock. *)
Lemma runs_random_id w (Q : string → World → Prop) :
  io w = NoFault → (∀ x w', disk w' = disk w → io w' = NoFault → Q x w') → runs random_id w Q.
Proof. intros Hio HQ. eexists _, _. split; [reflexivity|]. split; [done|]. by apply HQ. Qed.

Lemma runs_utc_now w (Q : Z → World → Prop) :
  io w = NoFault → (∀ x w', disk w' = disk w → io w' = NoFault → Q x w') → runs utc_now w Q.
Proof. intros Hio HQ. eexists _, _. split; [reflexivity|]. split; [done|]. by apply HQ. Qed.

Lemma runs_seal `{!SealLaws, !RandomLaws} g rt x raw w (Q : SealIfAbsent.t → World → Prop) :
  held rt g → io w = NoFault → validate_secret_ref x = Ok tt →
  d_records (disk w) !! record_storage_key x = None →
  (∀ w' record, disk w' = upd_records (<[record_storage_key x := Parsed record]>) (disk w) →
     io w' = NoFault → Q SealIfAbsent.Sealed w') →
  runs (seal_if_absent g rt x raw) w Q.
Proof.
  intros Hg Hio Hv Hn HQ. unfold seal_if_absent.
  apply runs_bind. eexists tt, w. rewrite require_store_held by done. split_and!; [done..|].
  apply runs_bind, (runs_lift _ tt); [done..|].
  apply runs_bind, (runs_reads _ false); [by rewrite Hn|done|].
  unfold seal_record. set (aad := aad_for_ref _ _).
  destruct (hkdf_defined RECORD_HKDF_SALT (rt_root_key rt) aad) as (key & Hkey & Hlen).
  apply runs_bind, runs_bind, (runs_lift _ key); [unfold derive_record_key; by rewrite Hkey|done|].
  apply runs_bind. eexists _, _. split; [reflexivity|]. split; [done|].
  destruct (aead_defined key (random_bytes (draws w) RECORD_NONCE_LEN) aad raw Hlen) as [ct Hct];
    [apply random_bytes_length|].
  apply runs_bind, (runs_lift _ ct); [by rewrite Hct|done|].
  apply runs_bind. eexists _, _. split; [reflexivity|]. split; [done|].
  apply runs_ret; [done|]. apply runs_bind. eexists tt, _.
  split; [unfold durable; simpl; rewrite Hio; reflexivity|]. split; [done|].
  apply runs_ret; [done|]. by eapply HQ.
Qed.

Lemma runs_publish rt g tid x w registry (Q : IdentityRecord → World → Prop) :
  held rt g → io w = NoFault → read_registry_at (disk w) = Ok registry →
  registered registry (did x) (identity_id x) = true →
  (generation x < u64_max)%N → (reg_generation registry < u64_max)%N →
  (∀ w', io w' = NoFault → Q (next x) w') → runs (publish_record rt g tid x) w Q.
Proof.
  intros Hg Hio Hreg Hm Hgen Hrgen HQ. unfold publish_record.
  apply runs_bind, (runs_lift _ (generation x + 1)%N); [by apply bump_Ok|done|].
  apply runs_bind, runs_guarded; [done..|].
  apply runs_bind, (runs_reads _ registry);
    [rewrite <-Hreg; by apply read_registry_same|done|].
  apply runs_bind, runs_sguard; [simpl; by rewrite Hm|done|].
  destruct (register_defined registry (did x) (summary (next x)) Hrgen) as [registry' Hregister].
  apply runs_bind, (runs_lift _ registry'); [exact Hregister|done|].
  apply runs_bind, runs_guarded; [done..|]. apply runs_bind, runs_guarded; [done..|].
  apply runs_ret; [done|]. by apply HQ.
Qed.
End Progress.

(** ** The wrapped envelope *)

Section Wrapping.
Context `{Env}.

Definition exported_context (i : DidIdentity) (spec : RootTransferExportSpec) (root : KeyMetadata)
    (cp : DocumentCheckpoint) (created : Z) : RootTransferContext :=
  {| rtc_source_did := did (di_record i); rtc_target_did := rte_target_did spec;
     rtc_sender_device_id := rte_sender_device_id spec;
     rtc_recipient_device_id := rte_recipient_device_id spec;
     rtc_recipient_agreement_kid := rte_recipient_agreement_kid spec;
     rtc_root_kid := kid root; rtc_checkpoint := cp; rtc_created_at := rfc3339_secs created;
     rtc_expires_at := rfc3339_secs (created + Z.of_N (rte_ttl_seconds spec) * NANOS) |}.

Definition exported_envelope (c : RootTransferContext) (ephemeral nonce ct signature : string)
    : WrappedRootEnvelope :=
  {| envelope_type := WRAPPED_ROOT_ENVELOPE_TYPE; envelope_version := WRAPPED_ROOT_ENVELOPE_VERSION;
     context := c; ephemeral_public_b64u := b64url_encode (x25519_public ephemeral);
     nonce_b64u := b64url_encode nonce; ciphertext_b64u := b64url_encode ct;
     signature_b64u := signature |}.

(** Everything a successful export established. *)
Record exported (i : DidIdentity) (spec : RootTransferExportSpec) (created : Z)
    (ephemeral nonce : string) (d : Disk) (root : KeyMetadata) (secret : string)
    (e : WrappedRootEnvelope) : Prop := {
  ex_ttl : (0 < Z.of_N (rte_ttl_seconds spec) <= MAX_TTL_SECONDS)%Z;
  ex_target : rte_target_did spec = did (di_record i);
  ex_devices : is_empty (trim (rte_sender_device_id spec)) = false ∧
               is_empty (trim (rte_recipient_device_id spec)) = false;
  ex_root : managed_key_metadata i (rte_root_kid spec) = Ok root;
  ex_secret : open_secret_at (di_runtime i) (ref_of_key (identity_id (di_record i)) root) d = Ok secret;
  ex_length : String.length secret = 32;
  ex_shared : all_zero (x25519_dh ephemeral (rte_recipient_agreement_public spec)) = false;
  ex_envelope : ∃ cp aad key ct input,
    let c := exported_context i spec root cp created in
    checkpoint (di_record i) = Some cp ∧
    envelope_aad c (x25519_public ephemeral) nonce = Ok aad ∧
    derive_transfer_key (x25519_dh ephemeral (rte_recipient_agreement_public spec)) aad = Ok key ∧
    aead_encrypt key nonce aad secret = Some ct ∧
    envelope_signature_input (exported_envelope c ephemeral nonce ct "") = Ok input ∧
    e = exported_envelope c ephemeral nonce ct (b64url_encode (ed25519_sign secret input)) }.

Lemma export_wrapped_root_Ok i spec created ephemeral nonce w e w' :
  export_wrapped_root_inner i spec created ephemeral nonce w = (Ok e, w') →
  ∃ root secret, exported i spec created ephemeral nonce (disk w) root secret e.
Proof.
  unfold export_wrapped_root_inner. intros Hp.
  inv_run Hp. apply lift_Ok in Hstep as [Hg%rguard_Ok ->].
  rewrite !orb_false_iff in Hg. destruct Hg as [[[[[[_ _] Ht0] Ht1] Htd] Hd1] Hd2].
  apply negb_false_iff, bool_decide_eq_true in Htd.
  apply N.eqb_neq in Ht0. apply Z.ltb_ge in Ht1.
  inv_run Hp. apply lift_Ok in Hstep as [Hroot ->]. rename a0 into root.
  inv_run Hp. apply lift_Ok in Hstep as [_ ->].
  inv_run Hp. apply lift_Ok in Hstep as [Hcp%ok_or_Ok ->]. rename a1 into cp.
  inv_run Hp. apply lift_Ok in Hstep as [Hz%rguard_Ok ->].
  inv_run Hp. apply lift_Ok in Hstep as [_ ->].
  inv_run Hp. apply lift_Ok in Hstep as [Haad ->].
  inv_run Hp. apply lift_Ok in Hstep as [Hkey ->].
  inv_run Hp. injection Hstep as Hsecret <-. rename a5 into secret.
  inv_run Hp. apply lift_Ok in Hstep as [Hct%ok_or_Ok ->].
  inv_run Hp. apply lift_Ok in Hstep as [Hinput ->].
  inv_run Hp. apply lift_Ok in Hstep as [Hsig ->]. apply ret_Ok in Hp as [-> ->].
  unfold ed25519_signature in Hsig. inv_run Hsig. injection Hsig as <-.
  apply rguard_Ok, negb_false_iff, bool_decide_eq_true in Hstep.
  exists root, secret. constructor; try done; [lia|]. eexists _, _, _, _, _. by split_and!.
Qed.
End Wrapping.

(** ** The time window *)

Section Window.
Context `{Env, !TimeLaws}.

Lemma trunc_sum a n : ((a + n * 1000000000) / 1000000000 = a / 1000000000 + n)%Z.
Proof. by rewrite Z.div_add by lia. Qed.

(** A fresh envelope is inside its own time window from its creation to its end. *)
Lemma exported_in_window i spec root cp created now :
  (0 < Z.of_N (rte_ttl_seconds spec) <= MAX_TTL_SECONDS)%Z →
  (0 ≤ created)%Z → (created + Z.of_N (rte_ttl_seconds spec) * NANOS < 253402300800 * NANOS)%Z →
  (created ≤ now ≤ created + Z.of_N (rte_ttl_seconds spec) * NANOS)%Z →
  validate_time_window (exported_context i spec root cp created) now = Ok tt.
Proof.
  intros Ht Hc Hmax Hnow. unfold validate_time_window, parse_timestamp, exported_context. simpl.
  unfold NANOS, MAX_TTL_SECONDS, CLOCK_SKEW_SECONDS in *.
  set (ttl := Z.of_N (rte_ttl_seconds spec)) in *.
  rewrite !rfc3339_roundtrip by lia. simpl. rewrite trunc_sum.
  replace ((created / 1000000000 + ttl) * 1000000000 - created / 1000000000 * 1000000000)%Z
    with (ttl * 1000000000)%Z by ring.
  rewrite Z.quot_mul by lia.
  pose proof (Z.mul_div_le created 1000000000 ltac:(lia)).
  pose proof (Z.mul_succ_div_gt created 1000000000 ltac:(lia)).
  apply rguard_Ok. rewrite !orb_false_iff, Z.leb_gt, !Z.ltb_ge. lia.
Qed.

Lemma quot_bounds d :
  (0 < d ÷ 1000000000 <= 600)%Z ↔ (1000000000 ≤ d < 601 * 1000000000)%Z.
Proof. Z.quot_rem_to_equations. lia. Qed.

(** Bounds of the window: an accepted transfer lives at least one second and at
    most 600, and is accepted at most 120 seconds before its creation and 120
    seconds after its end. *)
Theorem time_window_bounds c now :
  validate_time_window c now = Ok tt ↔
  ∃ created expires, parse_rfc3339 (rtc_created_at c) = Some created ∧
    parse_rfc3339 (rtc_expires_at c) = Some expires ∧
    (1000000000 ≤ expires - created < 601 * 1000000000)%Z ∧
    (created - 120 * 1000000000 ≤ now ≤ expires + 120 * 1000000000)%Z.
Proof.
  unfold validate_time_window, parse_timestamp. split.
  - intros Hw. inv_run Hw. apply ok_or_Ok in Hstep. inv_run Hw. apply ok_or_Ok in Hstep0.
    apply rguard_Ok in Hw. rewrite !orb_false_iff, Z.leb_gt, !Z.ltb_ge in Hw.
    exists a, a0. unfold NANOS, MAX_TTL_SECONDS, CLOCK_SKEW_SECONDS in *.
    pose proof (quot_bounds (a0 - a)). split_and!; try done; lia.
  - intros (created & expires & -> & -> & Hd & Hn). simpl. apply rguard_Ok.
    rewrite !orb_false_iff, Z.leb_gt, !Z.ltb_ge.
    unfold NANOS, MAX_TTL_SECONDS, CLOCK_SKEW_SECONDS in *.
    pose proof (quot_bounds (expires - created)). lia.
Qed.
End Window.

(** ** Unwrapping *)

(** The recipient [i]: a device of the same identity that waits for the root key, with
    an idle store and the agreement key [b] the envelope was wrapped for. *)
Record recipient `{Env} (sender i : DidIdentity) (spec : RootTransferExportSpec) (root : KeyMetadata)
    (b : string) (w : World) : Prop := {
  rc_did : did (di_record i) = did (di_record sender);
  rc_document : document (di_record i) = document (di_record sender);
  rc_checkpoint : checkpoint (di_record i) = checkpoint (di_record sender);
  rc_local : ∃ l, local_authorization (di_record i) = Some l ∧
    device_id l = rte_recipient_device_id spec ∧ e2ee_kid l = rte_recipient_agreement_kid spec;
  rc_agreement : ∃ m, managed_key_metadata i (rte_recipient_agreement_kid spec) = Ok m ∧
    role m = KeyRole.E2eeAgreement ∧ key_state m = KeyState.Active ∧
    open_secret_at (di_runtime i) (ref_of_key (identity_id (di_record i)) m) (disk w) = Ok b;
  rc_public : String.length b = 32 ∧ x25519_public b = rte_recipient_agreement_public spec;
  rc_root : ∃ m, identity_key_metadata i (kid root) = Ok m ∧ role m = KeyRole.RootControl ∧
    kid m = kid root;
  rc_state : state (di_record i) = IdentityState.Active ∧
    root_capability (di_record i) = RootCapabilityState.Absent ∧
    pending_root_transfer (di_record i) = None ∧ pending_revision (di_record i) = None;
  rc_store : quiescent (disk w) ∧ registered_as (disk w) (di_record i) ∧ io w = NoFault;
  rc_generation : (generation (di_record i) < u64_max)%N;
  rc_room : root_importable (disk w) (di_record i) (kid root) ∧
    ∀ m, m ∈ keys (di_record i) → role m = KeyRole.RootControl →
      validate_secret_ref (root_ref (di_record i) m (kid root)) = Ok tt }.

Section RoundTrip.
Context `{Env, !Base64Laws, !AeadLaws, !RandomLaws, !SealLaws}.

(** Without a fault a new root key is committed. *)
Lemma commit_pending_root_runs sender i spec root b w raw public n dg e :
  recipient sender i spec root b w →
  verify_root_public (di_record i) (kid root) public = Ok tt →
  List.find (has_nonce n) (root_transfer_replays (di_record i)) = None →
  runs (commit_pending_root i (kid root) raw public n dg e) w (λ x _,
    x.2 = RootTransferImportOutcome.Pending ∧
    root_capability (di_record x.1) = RootCapabilityState.Pending).
Proof.
  intros Hr Hv Hn. destruct (rc_store _ _ _ _ _ _ Hr) as (Hq & (Hread & registry & Hreg & Hlt & Hentry) & Hio).
  destruct (rc_state _ _ _ _ _ _ Hr) as (Hst & Habs & Hpt & Hpr).
  set (r := di_record i) in *. set (rt := di_runtime i).
  unfold commit_pending_root. fold rt.
  apply runs_bind, runs_acquire; [done|]. apply runs_bind, (runs_reads _ r); [done..|].
  apply runs_bind, runs_sguard; [by rewrite !bool_decide_true by done|done|].
  apply runs_bind, runs_sguard; [by rewrite Hpr|done|].
  fold (has_nonce n). rewrite Hn, Hpt. rewrite bool_decide_false by by rewrite Habs.
  apply runs_bind, runs_sguard; [by rewrite Habs|done|].
  apply runs_bind, (runs_lift _ tt); [done..|].
  destruct (rc_root _ _ _ _ _ _ Hr) as (m & Hm & Hmr & Hmk).
  unfold identity_key_metadata in Hm. inv_run Hm. apply ok_or_Ok in Hm.
  apply List.find_some in Hm as [Hin0%list_elem_of_In _].
  destruct (position_defined (λ m, is_role (role m) KeyRole.RootControl && bool_decide (kid m = kid root))
    (keys r) m Hin0) as [index Hpos]; [apply andb_true_iff; split; by apply bool_decide_eq_true|].
  destruct (position_Some _ _ _ Hpos) as (root' & Hk & Hp & Hin).
  apply andb_true_iff in Hp as [Hrole%bool_decide_eq_true _].
  destruct (rc_room _ _ _ _ _ _ Hr) as [Hroom Hvalid]. destruct (Hroom Habs root' Hin Hrole) as [_ Hfree].
  apply runs_bind, (runs_lift _ index); [by rewrite Hpos|done|].
  apply runs_bind, (runs_lift _ root'); [by rewrite Hk|done|].
  apply runs_bind. unfold root_import_transaction. fold (root_ref r root' (kid root)).
  set (x := root_ref r root' (kid root)) in *.
  apply runs_bind, runs_random_id; [done|intros tid w1 E1 Hio1].
  apply runs_bind, runs_utc_now; [done|intros t w2 E2 Hio2].
  apply runs_bind, runs_guarded; [done..|].
  apply runs_bind, runs_seal; [done..|by apply Hvalid|simpl; by rewrite E2, E1|].
  intros w3 record E3 Hio3. apply runs_bind, runs_ret; [done|].
  apply (runs_publish _ _ _ _ _ registry); try done.
  - rewrite E3. simpl. rewrite <-Hreg. apply read_registry_same. simpl. by rewrite E2, E1.
  - unfold registered. simpl. rewrite Hentry. simpl. by rewrite bool_decide_true.
  - apply (rc_generation _ _ _ _ _ _ Hr).
  - intros w4 Hio4. by apply runs_ret.
Qed.

(** The envelope passes the checks of the recipient. *)
Lemma exported_valid `{!SignatureLaws, !TimeLaws} sender i spec created ephemeral nonce d root secret
    e b w now :
  exported sender spec created ephemeral nonce d root secret e →
  recipient sender i spec root b w →
  document_public_key (document (di_record sender)) (kid root) = Ok (Ed25519 (ed25519_public secret)) →
  (0 ≤ created)%Z → (created + Z.of_N (rte_ttl_seconds spec) * NANOS < 253402300800 * NANOS)%Z →
  (created ≤ now ≤ created + Z.of_N (rte_ttl_seconds spec) * NANOS)%Z →
  validate_wrapped_envelope i e now false = Ok tt.
Proof.
  intros He Hr Hpub Hc Hmax Hnow.
  destruct (ex_envelope _ _ _ _ _ _ _ _ _ He) as (cp & aad & key & ct & input & Hcp & _ & _ & _ & Hin & ->).
  destruct (rc_local _ _ _ _ _ _ Hr) as (l & Hl & Hl1 & Hl2).
  destruct (rc_root _ _ _ _ _ _ Hr) as (m & Hm & Hmr & Hmk).
  destruct (ex_devices _ _ _ _ _ _ _ _ _ He) as [Hd1 Hd2].
  unfold validate_wrapped_envelope. simpl.
  rewrite (rc_did _ _ _ _ _ _ Hr), (ex_target _ _ _ _ _ _ _ _ _ He), Hd1, Hd2.
  rewrite !bool_decide_true by done. simpl. rewrite Hl. simpl.
  rewrite Hl1, Hl2, (rc_checkpoint _ _ _ _ _ _ Hr), Hcp, !bool_decide_true by done. simpl.
  rewrite (exported_in_window sender spec root cp created now); try done;
    [|apply (ex_ttl _ _ _ _ _ _ _ _ _ He)].
  simpl. rewrite Hm. simpl. unfold is_role. rewrite bool_decide_true by done. simpl.
  rewrite (rc_document _ _ _ _ _ _ Hr), Hmk, Hpub. simpl. rewrite b64url_roundtrip. simpl.
  change (envelope_signature_input (exported_envelope _ _ _ _ _)) with
    (envelope_signature_input (exported_envelope
      (exported_context sender spec root cp created) ephemeral nonce ct "")).
  rewrite Hin. simpl. by rewrite verify_signed.
Qed.

Lemma unknown_nonce (n dg : string) l :
  List.find (has_nonce n) l = None →
  existsb (λ x, bool_decide (replay_nonce x = n) && bool_decide (transfer_digest x = dg)) l = false.
Proof.
  intros Hn. apply not_true_iff_false. intros (x & Hin & Hx)%existsb_exists.
  apply andb_true_iff in Hx as [Hx _]. pose proof (List.find_none _ _ Hn x Hin) as Hf.
  unfold has_nonce in Hf. congruence.
Qed.

(** The shared secret is the same on both sides. *)
Lemma recipient_shared `{!AgreementLaws} sender i spec root b w ephemeral :
  recipient sender i spec root b w →
  all_zero (x25519_dh ephemeral (rte_recipient_agreement_public spec)) = false →
  shared_secret b (x25519_public ephemeral)
    = Ok (x25519_dh ephemeral (rte_recipient_agreement_public spec)).
Proof.
  intros Hr Hz. destruct (rc_public _ _ _ _ _ _ Hr) as [Hb Hp]. unfold shared_secret.
  rewrite bool_decide_true by done. simpl. rewrite x25519_agree, Hp, Hz. done.
Qed.

Lemma import_wrapped_runs `{!SignatureLaws, !TimeLaws, !AgreementLaws}
    sender i spec created ephemeral nonce d root secret e b w now fingerprint :
  exported sender spec created ephemeral nonce d root secret e →
  recipient sender i spec root b w → String.length nonce = NONCE_LEN →
  document_public_key (document (di_record sender)) (kid root) = Ok (Ed25519 (ed25519_public secret)) →
  fingerprint_of_document (document (di_record sender)) = Ok fingerprint →
  root_key_fingerprint (di_record i) = Some fingerprint →
  is_Some (canonical_json (envelope_value e)) →
  List.find (has_nonce (nonce_b64u e)) (root_transfer_replays (di_record i)) = None →
  (0 ≤ created)%Z → (created + Z.of_N (rte_ttl_seconds spec) * NANOS < 253402300800 * NANOS)%Z →
  (created ≤ now ≤ created + Z.of_N (rte_ttl_seconds spec) * NANOS)%Z →
  ∃ digest, import_wrapped_root_at i e now w =
      commit_pending_root i (kid root) secret (Ed25519 (ed25519_public secret)) (nonce_b64u e) digest
        (rtc_expires_at (context e)) w ∧
    verify_root_public (di_record i) (kid root) (Ed25519 (ed25519_public secret)) = Ok tt.
Proof.
  intros He Hr Hlen Hpub Hf Hfi [text Htext] Hn Hc Hmax Hnow.
  pose proof (exported_valid _ _ _ _ _ _ _ _ _ _ _ _ _ He Hr Hpub Hc Hmax Hnow) as Hvalid.
  destruct (ex_envelope _ _ _ _ _ _ _ _ _ He) as (cp & aad & key & ct & input & Hcp & Haad & Hkey & Hct & Hin & Heq).
  destruct (rc_agreement _ _ _ _ _ _ Hr) as (m & Hm & Hmr & Hms & Hopen).
  eexists. split.
  - unfold import_wrapped_root_at, digest_serialized, canonical, lift, sguard, rguard,
      load_managed_secret, open_secret, reads, bind. rewrite Htext. simpl.
    rewrite unknown_nonce by done. rewrite Hvalid. rewrite Heq in *. simpl.
    unfold decode_fixed. rewrite !b64url_roundtrip. simpl.
    rewrite !bool_decide_true by (done || apply x25519_public_length). simpl.
    rewrite Hm. simpl. unfold is_role. rewrite Hmr, Hms. simpl. rewrite Hopen. simpl.
    rewrite (recipient_shared sender i spec root b w) by (done || apply He). simpl.
    unfold exported_context in *. rewrite Haad, Hkey. simpl.
    rewrite (aead_roundtrip _ _ _ _ _ Hct). simpl.
    rewrite bool_decide_true by apply He. simpl. done.
  - apply (verify_root_public_intro _ _ _ fingerprint); [..|done];
      by rewrite (rc_document _ _ _ _ _ _ Hr).
Qed.

(** C17.  Round trip of root transfer: an envelope that one device exports for the
    agreement key of another device of the same identity is accepted there while it
    is valid; without a fault the import succeeds, the recipient's root capability
    is pending, and the secret it sealed is the root key of the sender. *)
Theorem root_transfer_roundtrip `{!SignatureLaws, !TimeLaws, !AgreementLaws}
    sender i spec created ephemeral nonce ws e ws' b w now fingerprint :
  export_wrapped_root_inner sender spec created ephemeral nonce ws = (Ok e, ws') →
  String.length nonce = NONCE_LEN → is_Some (canonical_json (envelope_value e)) →
  (0 ≤ created)%Z → (created + Z.of_N (rte_ttl_seconds spec) * NANOS < 253402300800 * NANOS)%Z →
  (created ≤ now ≤ created + Z.of_N (rte_ttl_seconds spec) * NANOS)%Z →
  fingerprint_of_document (document (di_record sender)) = Ok fingerprint →
  root_key_fingerprint (di_record i) = Some fingerprint →
  List.find (has_nonce (nonce_b64u e)) (root_transfer_replays (di_record i)) = None →
  (∀ root secret, managed_key_metadata sender (rte_root_kid spec) = Ok root →
     load_managed_secret sender root ws = (Ok secret, ws) →
     document_public_key (document (di_record sender)) (kid root)
       = Ok (Ed25519 (ed25519_public secret)) ∧
     recipient sender i spec root b w) →
  ∃ root secret i' w', managed_key_metadata sender (rte_root_kid spec) = Ok root ∧
    load_managed_secret sender root ws = (Ok secret, ws) ∧
    import_wrapped_root_at i e now w = (Ok (i', RootTransferImportOutcome.Pending), w') ∧
    root_capability (di_record i') = RootCapabilityState.Pending ∧
    ∃ m, m ∈ keys (di_record i) ∧ role m = KeyRole.RootControl ∧ kid m = kid root ∧
      root_imported (di_runtime i) (disk w) (di_record i')
        (root_ref (di_record i) m (kid root)) secret (disk w').
Proof.
  intros Hexp Hlen Htext Hc Hmax Hnow Hf Hfi Hn Hboth.
  apply export_wrapped_root_Ok in Hexp as (root & secret & He).
  assert (load_managed_secret sender root ws = (Ok secret, ws)) as Hload.
  { unfold load_managed_secret, open_secret, reads. by rewrite (ex_secret _ _ _ _ _ _ _ _ _ He). }
  destruct (Hboth root secret (ex_root _ _ _ _ _ _ _ _ _ He) Hload) as [Hpub Hr].
  destruct (import_wrapped_runs _ _ _ _ _ _ _ _ _ _ _ _ _ _ He Hr Hlen Hpub Hf Hfi Htext Hn Hc Hmax Hnow)
    as (dg & Hrun & Hv).
  destruct (commit_pending_root_runs _ _ _ _ _ _ secret _ _ dg (rtc_expires_at (context e)) Hr Hv Hn)
    as ([i' o] & w' & Hcommit & _ & Ho & Hcap). simpl in Ho, Hcap. subst o.
  destruct (rc_store _ _ _ _ _ _ Hr) as (Hq & Hreg & _).
  destruct (rc_state _ _ _ _ _ _ Hr) as (_ & Habs & _).
  destruct (rc_local _ _ _ _ _ _ Hr) as (l & Hl & _).
  destruct (rc_room _ _ _ _ _ _ Hr) as [Hroom _].
  exists root, secret, i', w'. split_and!; [apply He|done|by rewrite Hrun|done|].
  destruct (commit_pending_root_safe i (kid root) secret _ _ dg _ _ _ Hq Hreg eq_refl
    ltac:(by rewrite Hl) Hroom w _ _ eq_refl Hcommit) as [[Heq _]|[(Ha & _)|(_ & _ & m & ? & ? & ? & ?)]].
  - simpl in Heq. subst i'. congruence.
  - congruence.
  - eauto 10.
Qed.
End RoundTrip.
