(* ===== verification/TransferScenario.v ===== *)
(** * Concrete root transfers

    One device imports an identity with its root key, another one enrolls; the root
    key is wrapped, unwrapped and promoted.  The witnesses of the root-transfer
    theorems are evaluated on this run. *)

From stdpp Require Import base strings list gmap sorting.
From S2P Require Import Prelude Json Errors Records Env Toy Input World Document Keystore Registry.
From S2P Require Import Recovery Identity RecordFacts Adoption CryptoOps KeyImport RootTransfer.
From S2P Require Import IdentityFacts Namespace Scenario AdoptionFacts EnrollmentFacts.
From S2P Require Import RootTransferFacts RootTransferRoundTrip.

(** Run [m] on another device, whose world is [w0]. *)
Definition elsewhere {A} (w0 : World) (m : M A) : M (A * World) :=
  λ w, match m w0 with
       | (Ok a, w1) => (Ok (a, w1), w)
       | (Err e, _) => (Err e, w)
       end.
Lemma elsewhere_Ok {A} w0 (m : M A) w x w' :
  elsewhere w0 m w = (Ok x, w') → m w0 = (Ok x.1, x.2) ∧ w' = w.
Proof. unfold elsewhere. destruct (m w0) as [[a|e] w1]; [by intros [= <- <-]|done]. Qed.

(** A decidable fact of the disk, in a world without a fault. *)
Definition no_fault (w : World) : bool := match io w with NoFault => true | _ => false end.
Definition on_disk (f : Disk → bool) : M unit := λ w,
  if no_fault w && f (disk w) then (Ok tt, w) else (Err Conflict, w).
Lemma on_disk_Ok f w u w' :
  on_disk f w = (Ok u, w') → io w = NoFault ∧ f (disk w) = true ∧ w' = w.
Proof.
  unfold on_disk, no_fault. destruct (io w); [|done]. destruct (f (disk w)); [by intros [= <- <-]|done].
Qed.

(** The decidable parts of [quiescent] and [registered_as]. *)
Definition quiescent_test (d : Disk) : bool :=
  bool_decide (size (d_journals d) = 0) && bool_decide (size (d_updates d) = 0)
  && is_ok (@read_registry_at toy_env d).
Lemma quiescent_tested d : quiescent_test d = true → @quiescent toy_env d.
Proof.
  unfold quiescent_test. rewrite !andb_true_iff, !bool_decide_eq_true.
  intros [[Hj Hu] Hr]. split_and!; [by apply map_size_empty_inv..|].
  destruct (@read_registry_at toy_env d) as [x|]; [by exists x|done].
Qed.

Definition entry_test (r : IdentityRecord) (d : Disk) : bool :=
  match @read_registry_at toy_env d with
  | Ok registry => bool_decide (reg_generation registry < u64_max)%N
                   && bool_decide (identities registry !! did r = Some (summary r))
  | Err _ => false
  end.
Lemma registered_tested r d :
  @read_identity_at toy_env (identity_id r) d = Ok r → entry_test r d = true →
  @registered_as toy_env d r.
Proof.
  intros Hr. unfold entry_test. destruct (@read_registry_at toy_env d) as [registry|] eqn:Hreg; [|done].
  rewrite andb_true_iff, !bool_decide_eq_true. intros [Hlt He]. split; [done|]. eauto.
Qed.

(** The sender's identity, imported with its root key. *)
Definition root_import_spec (document : Value) : IdentityImportSpec := {|
  ii_verified_document := document; ii_evidence := evidence_for document 2;
  ii_capabilities := {| did_wba := false |};
  ii_private_keys := [import_key "root" root_raw KeyRole.RootControl] |}.

Definition transfer_spec (p : PreparedEnrollment) (public : string) : RootTransferExportSpec := {|
  rte_target_did := ple_did p; rte_sender_device_id := "laptop";
  rte_recipient_device_id := ple_device_id p;
  rte_recipient_agreement_kid := epk_kid (device_e2ee_key p);
  rte_recipient_agreement_public := public; rte_root_kid := "root"; rte_ttl_seconds := 60 |}.

Definition transfer_created : Z := 5000000000.
Definition transfer_now : Z := 10000000000.
Definition transfer_ephemeral : string := pad 32 "ephemeral".
Definition transfer_nonce : string := pad 12 "nonce".

(** The facts that the round trip relies on, as a test. *)
Definition recipient_test (sender i : IdentityRecord) (spec : RootTransferExportSpec)
    (root : KeyMetadata) (secret b : string) : bool :=
  bool_decide (did i = did sender) && bool_decide (document i = document sender)
  && bool_decide (checkpoint i = checkpoint sender)
  && option_test (λ l, bool_decide (device_id l = rte_recipient_device_id spec)
                       && bool_decide (e2ee_kid l = rte_recipient_agreement_kid spec))
       (local_authorization i)
  && bool_decide (String.length b = 32)
  && bool_decide (@x25519_public toy_env b = rte_recipient_agreement_public spec)
  && bool_decide (state i = IdentityState.Active)
  && bool_decide (root_capability i = RootCapabilityState.Absent)
  && negb (is_some (pending_root_transfer i)) && negb (is_some (pending_revision i))
  && bool_decide (generation i < u64_max)%N
  && bool_decide (length (root_transfer_replays i) = 0)
  && option_test (λ f, bool_decide (@fingerprint_of_document toy_env (document sender) = Ok f))
       (root_key_fingerprint i)
  && bool_decide (@document_public_key toy_env (document sender) (kid root)
                    = Ok (Ed25519 (@ed25519_public toy_env secret))).

(** No root key of the record is erased or sealed yet, and its reference is valid. *)
Definition room_test (i : IdentityRecord) (k : string) (d : Disk) : bool :=
  forallb (λ m, negb (is_role (role m) KeyRole.RootControl)
    || (negb (material_erased m)
        && negb (is_some (d_records d !! @record_storage_key toy_env (root_ref i m k)))
        && bool_decide (validate_secret_ref (root_ref i m k) = Ok tt))) (keys i).
Lemma room_tested i k d :
  room_test i k d = true →
  @root_importable toy_env d i k ∧
  ∀ m, m ∈ keys i → role m = KeyRole.RootControl → validate_secret_ref (root_ref i m k) = Ok tt.
Proof.
  unfold room_test. rewrite forallb_forall. intros Hall.
  assert (∀ m, m ∈ keys i → role m = KeyRole.RootControl →
    (material_erased m = false ∧ d_records d !! @record_storage_key toy_env (root_ref i m k) = None) ∧
    validate_secret_ref (root_ref i m k) = Ok tt) as Hm.
  { intros m Hin%list_elem_of_In Hr. specialize (Hall m Hin).
    unfold is_role in Hall. rewrite bool_decide_true in Hall by done. simpl in Hall.
    rewrite !andb_true_iff, !negb_true_iff, bool_decide_eq_true in Hall.
    destruct Hall as [[He Hn] Hv]. split; [split; [done|]|done].
    by destruct (d_records d !! _). }
  split; [intros _ m Hin Hr|intros m Hin Hr]; by apply Hm.
Qed.

(** The whole transfer, seen by the recipient. *)
Definition transfer_program : M unit :=
  let! enrolled := @prepare_enrollment toy_env sample_store sample_enrollment in
  let p := enrolled.2 in
  let document := authorizing_document p in
  let! active := @adopt_verified_document_inner toy_env enrolled.1.2 (observation document 2) false in
  let! i := @reload_identity toy_env active.1 in
  let! agreement := lift (managed_key_metadata i (epk_kid (device_e2ee_key p))) in
  let! b := @load_managed_secret toy_env i agreement in
  let spec := transfer_spec p (@x25519_public toy_env b) in
  let! sender := elsewhere other_world
                   (@import_identity toy_env sample_store (root_import_spec document)) in
  let s := sender.1.1.2 in
  let! root := lift (managed_key_metadata s "root") in
  let! secret := elsewhere sender.2 (@load_managed_secret toy_env s root) in
  let! e := elsewhere sender.2 (@export_wrapped_root_inner toy_env s spec transfer_created
                                  transfer_ephemeral transfer_nonce) in
  let! target := lift (identity_key_metadata i (kid root)) in
  do! sguard (negb (bool_decide (secret.1 = root_raw))) Conflict;
  do! sguard (negb (recipient_test (di_record s) (di_record i) spec root secret.1 b)) Conflict;
  do! sguard (negb (is_role (role agreement) KeyRole.E2eeAgreement
                    && bool_decide (key_state agreement = KeyState.Active)
                    && is_role (role target) KeyRole.RootControl
                    && bool_decide (kid target = kid root))) Conflict;
  do! on_disk (λ d, quiescent_test d && entry_test (di_record i) d
                    && room_test (di_record i) (kid root) d);
  let! imported := @import_wrapped_root_at toy_env i e.1 transfer_now in
  let! waiting := @read_identity toy_env (identity_id (di_record imported.1)) in
  do! sguard (negb (transfer_sound waiting
                    && bool_decide (root_capability waiting = RootCapabilityState.Pending))) Conflict;
  let! confirmed := @confirm_root_promotion toy_env imported.1
                      {| rps_document := document; rps_evidence := evidence_for document 2 |} in
  let! der := @export_root_private_key toy_env confirmed "root" in
  sguard (negb (bool_decide (der = (ED25519_PKCS8_PREFIX +:+ root_raw)%string))) Conflict.

Lemma transfer_runs : ∃ w, transfer_program initial_world = (Ok tt, w).
Proof.
  destruct (is_ok_Ok (transfer_program initial_world).1) as [[] Hr]; [vm_compute; reflexivity|].
  exists (transfer_program initial_world).2. rewrite <-Hr. apply surjective_pairing.
Defined.

(** A step of [reload_identity] that succeeded read the record it returns. *)
Lemma reload_identity_Ok i w i' w' :
  @reload_identity toy_env i w = (Ok i', w') →
  di_runtime i' = di_runtime i ∧
  ∃ w1, @read_identity_at toy_env (identity_id (di_record i')) (disk w1) = Ok (di_record i') ∧
        w' = w1.
Proof.
  unfold reload_identity. intros Hp. inv_run Hp. inv_run Hp. apply lift_Ok in Hstep0 as [_ ->].
  inv_run Hp. injection Hstep0 as Hr <-. inv_run Hp. apply lift_Ok in Hstep0 as [_ ->].
  inv_run Hp. apply lift_Ok in Hstep0 as [_ ->]. apply ret_Ok in Hp as [-> ->]. split; [done|].
  eexists. split; [|done]. simpl. pose proof (read_identity_id _ _ _ Hr) as ->. done.
Qed.

(** The steps of the transfer. *)
Record transfer_facts (spec : RootTransferExportSpec) (s : DidIdentity) (ws : World)
    (e : WrappedRootEnvelope) (ws' : World) (i : DidIdentity) (w : World) (root : KeyMetadata)
    (secret b : string) : Prop := {
  tf_export : @export_wrapped_root_inner toy_env s spec transfer_created transfer_ephemeral
                transfer_nonce ws = (Ok e, ws');
  tf_ttl : rte_ttl_seconds spec = 60%N;
  tf_kid : rte_root_kid spec = "root";
  tf_root : managed_key_metadata s "root" = Ok root;
  tf_secret : ∃ w1, @load_managed_secret toy_env s root ws = (Ok secret, w1);
  tf_raw : secret = root_raw;
  tf_test : recipient_test (di_record s) (di_record i) spec root secret b = true;
  tf_recipient : @recipient toy_env s i spec root b w }.

Lemma recipient_tested s i spec root secret b w m target :
  recipient_test (di_record s) (di_record i) spec root secret b = true →
  managed_key_metadata i (rte_recipient_agreement_kid spec) = Ok m →
  @load_managed_secret toy_env i m w = (Ok b, w) → io w = NoFault →
  identity_key_metadata i (kid root) = Ok target →
  is_role (role m) KeyRole.E2eeAgreement && bool_decide (key_state m = KeyState.Active)
    && is_role (role target) KeyRole.RootControl && bool_decide (kid target = kid root) = true →
  @read_identity_at toy_env (identity_id (di_record i)) (disk w) = Ok (di_record i) →
  quiescent_test (disk w) && entry_test (di_record i) (disk w)
    && room_test (di_record i) (kid root) (disk w) = true →
  @recipient toy_env s i spec root b w.
Proof.
  intros Ht Hm Hb Hio Htarget Hroles Hread Hdisk.
  unfold recipient_test in Ht. rewrite !andb_true_iff, !bool_decide_eq_true, !negb_true_iff in Ht.
  destruct Ht as (((((((((((((T1 & T2) & T3) & T4) & T5) & T6) & T7) & T8) & T9) & T10) & T11) & _) & _) & _).
  rewrite !andb_true_iff, !bool_decide_eq_true in Hroles. destruct Hroles as (((R1 & R2) & R3) & R4).
  apply bool_decide_eq_true in R1, R3.
  rewrite !andb_true_iff in Hdisk. destruct Hdisk as [[D1 D2] D3].
  constructor; try done.
  - destruct (local_authorization (di_record i)) as [l|]; [|done]. exists l. split; [done|].
    simpl in T4. rewrite andb_true_iff, !bool_decide_eq_true in T4. done.
  - exists m. split_and!; try done. by injection Hb.
  - by exists target.
  - split_and!; try done; [by destruct (pending_root_transfer _)|by destruct (pending_revision _)].
  - split_and!; [by apply quiescent_tested|by apply registered_tested|done].
  - by apply room_tested.
Qed.

Lemma transfer_scenario : ∃ spec s ws e ws' i w root secret b i1 w1 i2 w2 der w3 document,
  transfer_facts spec s ws e ws' i w root secret b ∧
  @import_wrapped_root_at toy_env i e transfer_now w = (Ok i1, w1) ∧
  (∃ r, @read_identity_at toy_env (identity_id (di_record i1.1)) (disk w1) = Ok r ∧
     transfer_sound r = true ∧ root_capability r = RootCapabilityState.Pending) ∧
  @confirm_root_promotion toy_env i1.1
    {| rps_document := document; rps_evidence := evidence_for document 2 |} w1 = (Ok i2, w2) ∧
  @export_root_private_key toy_env i2 "root" w2 = (Ok der, w3) ∧
  der = (ED25519_PKCS8_PREFIX +:+ root_raw)%string.
Proof.
  destruct transfer_runs as [w Hp]. unfold transfer_program in Hp.
  inv_run Hp. clear Hstep. inv_run Hp. clear Hstep.
  inv_run Hp. apply reload_identity_Ok in Hstep as (_ & wr & Hread & ->).
  inv_run Hp. apply lift_Ok in Hstep as [Hm ->]. inv_run Hp. pose proof Hstep as Hb.
  injection Hstep as _ <-. inv_run Hp. apply elsewhere_Ok in Hstep as [_ ->].
  inv_run Hp. apply lift_Ok in Hstep as [Hroot ->].
  inv_run Hp. apply elsewhere_Ok in Hstep as [Hsecret ->].
  inv_run Hp. apply elsewhere_Ok in Hstep as [Hexp ->].
  inv_run Hp. apply lift_Ok in Hstep as [Htarget ->].
  inv_run Hp. apply lift_Ok in Hstep as [Hraw%rguard_Ok%negb_false_iff%bool_decide_eq_true ->].
  inv_run Hp. apply lift_Ok in Hstep as [Ht%rguard_Ok%negb_false_iff ->].
  inv_run Hp. apply lift_Ok in Hstep as [Hroles%rguard_Ok%negb_false_iff ->].
  inv_run Hp. apply on_disk_Ok in Hstep as (Hio & Hdisk & ->).
  inv_run Hp. rename Hstep into H1. inv_run Hp. injection Hstep as Hwaiting <-.
  inv_run Hp. apply lift_Ok in Hstep as [Hw%rguard_Ok%negb_false_iff ->].
  apply andb_true_iff in Hw as [Hsound Hcap%bool_decide_eq_true].
  inv_run Hp. rename Hstep into H2. inv_run Hp. rename Hstep into H3.
  apply lift_Ok in Hp as [Hder%rguard_Ok%negb_false_iff%bool_decide_eq_true _].
  eexists _, _, _, _, _, _, _, _, _, _, _, _, _, _, _, _, _.
  split; [|split; [exact H1|split; [by eexists|split_and!; [exact H2|exact H3|exact Hder]]]].
  constructor; [exact Hexp|done|done|exact Hroot|by eexists|exact Hraw|exact Ht|].
  by eapply recipient_tested.
Qed.

(** The facts of the test that are not part of [recipient]. *)
Lemma recipient_test_rest s i spec root secret b :
  recipient_test s i spec root secret b = true →
  root_transfer_replays i = [] ∧
  (∃ f, @fingerprint_of_document toy_env (document s) = Ok f ∧ root_key_fingerprint i = Some f) ∧
  @document_public_key toy_env (document s) (kid root) = Ok (Ed25519 (@ed25519_public toy_env secret)).
Proof.
  intros Ht. unfold recipient_test in Ht.
  rewrite !andb_true_iff, !bool_decide_eq_true in Ht. destruct Ht as [[[_ Hl] Hf] Hp].
  split_and!; [by apply length_zero_iff_nil| |done].
  destruct (root_key_fingerprint i) as [f|]; [|done]. exists f. by apply bool_decide_eq_true in Hf.
Qed.

(** The import of the scenario is a commit of the sender's root key, which succeeds. *)
Lemma transfer_commits : ∃ i w k raw public n dg e i' w',
  @commit_pending_root toy_env i k raw public n dg e w
    = (Ok (i', RootTransferImportOutcome.Pending), w') ∧
  root_capability (di_record i') = RootCapabilityState.Pending ∧
  root_capability (di_record i) = RootCapabilityState.Absent ∧
  capability_sound (di_record i) ∧ is_Some (local_authorization (di_record i)) ∧
  @quiescent toy_env (disk w) ∧ @registered_as toy_env (disk w) (di_record i) ∧
  @root_importable toy_env (disk w) (di_record i) k.
Proof.
  destruct transfer_scenario as (spec & s & ws & e & ws' & i & w & root & secret & b & i1 & w1 & _ & _ &
    _ & _ & _ & Hf & _).
  destruct (recipient_test_rest _ _ _ _ _ _ (tf_test _ _ _ _ _ _ _ _ _ _ Hf))
    as (Hl & (f & Hfp & Hfi) & Hpub).
  pose proof (tf_recipient _ _ _ _ _ _ _ _ _ _ Hf) as Hr.
  assert (@verify_root_public toy_env (di_record i) (kid root) (Ed25519 (@ed25519_public toy_env secret))
    = Ok tt) as Hv.
  { apply (@verify_root_public_intro toy_env _ _ _ f); [..|done];
      by rewrite (rc_document _ _ _ _ _ _ Hr). }
  destruct (@commit_pending_root_runs toy_env toy_random_laws toy_seal_laws _ _ _ _ _ _ secret _
    "nonce" "digest" "expires" Hr Hv) as ([i' o] & w' & Hrun & _ & Ho & Hcap); [by rewrite Hl|].
  simpl in Ho, Hcap. subst o.
  destruct (rc_state _ _ _ _ _ _ Hr) as (_ & Habs & Hp & _).
  destruct (rc_local _ _ _ _ _ _ Hr) as (l & Hla & _).
  destruct (rc_store _ _ _ _ _ _ Hr) as (Hq & Hreg & _).
  eexists _, _, _, _, _, _, _, _, _, _. split; [exact Hrun|]. do 2 (split; [done|]).
  split; [|split; [by rewrite Hla|split; [done|split; [done|by destruct (rc_room _ _ _ _ _ _ Hr)]]]].
  split; [|rewrite Hl; unfold MAX_REPLAY_RECORDS; simpl; lia].
  rewrite Habs, Hp. split; [done|by intros [? ?]].
Qed.

(** ** Witnesses *)

Lemma root_import_crash_safe_witness : ∃ i w k raw i' w',
  @root_committed toy_env (di_runtime i) (disk w) (di_record i) k raw (di_record i') (disk w').
Proof.
  destruct transfer_commits as (i & w & k & raw & public & n & dg & e & i' & w' & Hrun & Hc & Ha & _ &
    Hla & Hq & Hreg & Himp).
  pose proof (@root_import_crash_safe toy_env toy_base64_laws toy_aead_laws toy_random_laws
    _ _ _ _ _ _ _ _ _ _ _ Hq Hreg eq_refl Hla Himp Hrun) as Hres. simpl in Hres.
  exists i, w, k, raw, i', w'. destruct Hres as [[-> _]|Hres]; [congruence|exact Hres].
Defined.

Lemma root_import_machine_witness : ∃ i i' : DidIdentity,
  capability_step (root_capability (di_record i)) RootTransferImportOutcome.Pending
    (root_capability (di_record i')) ∧
  length (root_transfer_replays (di_record i')) ≤ MAX_REPLAY_RECORDS.
Proof.
  destruct transfer_commits as (i & w & k & raw & public & n & dg & e & i' & w' & Hrun & Hc & Ha & Hs &
    Hla & Hq & Hreg & Himp).
  exists i, i'. destruct (@root_import_machine toy_env _ _ _ _ _ _ _ _ _ _ _ _ (proj1 Hreg) Hs Hrun)
    as [(-> & _)|(Hs' & Hstep & _)]; [congruence|]. split; [exact Hstep|exact (proj2 Hs')].
Defined.

Lemma root_promotion_witness : ∃ i spec w i' w' r,
  @read_identity_at toy_env (identity_id (di_record i)) (disk w) = Ok r ∧
  transfer_sound r = true ∧ root_capability r = RootCapabilityState.Pending ∧
  @confirm_root_promotion toy_env i spec w = (Ok i', w') ∧
  @promoted toy_env i spec r (di_record i').
Proof.
  destruct transfer_scenario as (spec & s & ws & e & ws' & i & w & root & secret & b & i1 & w1 & i2 & w2 &
    der & w3 & document & _ & _ & (r & Hread & Hsound & Hcap) & Hrun & _).
  eexists _, _, _, _, _, r. split; [exact Hread|]. split; [exact Hsound|]. split; [exact Hcap|].
  split; [exact Hrun|].
  destruct (@root_promotion toy_env _ _ _ _ _ _ Hread Hsound Hrun) as [(_ & _ & Ha & _)|Hp];
    [congruence|exact Hp].
Defined.

Lemma root_transfer_roundtrip_witness : ∃ i e w i' w' m k,
  @import_wrapped_root_at toy_env i e transfer_now w
    = (Ok (i', RootTransferImportOutcome.Pending), w') ∧
  m ∈ keys (di_record i) ∧
  @open_secret_at toy_env (di_runtime i) (root_ref (di_record i) m k) (disk w') = Ok root_raw.
Proof.
  destruct transfer_scenario as (spec & s & ws & e & ws' & i & w & root & secret & b & i1 & w1 & i2 & w2 &
    der & w3 & document & Hf & _).
  destruct (recipient_test_rest _ _ _ _ _ _ (tf_test _ _ _ _ _ _ _ _ _ _ Hf))
    as (Hl & (f & Hfp & Hfi) & Hpub).
  pose proof (tf_ttl _ _ _ _ _ _ _ _ _ _ Hf) as Httl.
  destruct (@root_transfer_roundtrip toy_env toy_base64_laws toy_aead_laws toy_random_laws toy_seal_laws
    toy_signature_laws toy_time_laws toy_agreement_laws s i spec transfer_created transfer_ephemeral
    transfer_nonce ws e ws' b w transfer_now f (tf_export _ _ _ _ _ _ _ _ _ _ Hf))
    as (root' & secret' & i' & w' & Hroot & Hload & Hrun & _ & m & Hin & _ & _ & Him).
  - apply pad_length.
  - eexists. reflexivity.
  - unfold transfer_created. lia.
  - rewrite Httl. unfold transfer_created, NANOS. lia.
  - rewrite Httl. unfold transfer_created, transfer_now, NANOS. lia.
  - exact Hfp.
  - exact Hfi.
  - rewrite Hl. reflexivity.
  - intros root' secret' Hroot Hload. rewrite (tf_kid _ _ _ _ _ _ _ _ _ _ Hf) in Hroot.
    rewrite (tf_root _ _ _ _ _ _ _ _ _ _ Hf) in Hroot. injection Hroot as <-.
    destruct (tf_secret _ _ _ _ _ _ _ _ _ _ Hf) as [w4 Hs]. rewrite Hload in Hs. injection Hs as -> _.
    split; [exact Hpub|exact (tf_recipient _ _ _ _ _ _ _ _ _ _ Hf)].
  - exists i, e, w, i', w', m, (kid root'). split; [exact Hrun|]. split; [exact Hin|].
    rewrite (tf_kid _ _ _ _ _ _ _ _ _ _ Hf), (tf_root _ _ _ _ _ _ _ _ _ _ Hf) in Hroot.
    injection Hroot as <-. destruct (tf_secret _ _ _ _ _ _ _ _ _ _ Hf) as [w4 Hs].
    rewrite Hload in Hs. injection Hs as -> _. rewrite <-(tf_raw _ _ _ _ _ _ _ _ _ _ Hf).
    destruct Him as [_ _ _ Hopen _]. exact Hopen.
Defined.

(** ** Promotion and retired devices *)

(** The document of an enrolled device, with a second device. *)
Definition two_device_document (p : PreparedEnrollment) : Value :=
  let s := device_signing_key p in
  let e := device_e2ee_key p in
  let entry id := {| dme_device_id := id; dme_signing_key_id := epk_kid s;
                     dme_e2ee_key_id := epk_kid e; dme_profiles := ple_profiles p |} in
  sample_document
    [(epk_kid s, epk_public_key_multibase s); (epk_kid e, epk_public_key_multibase e)]
    [epk_kid s] [epk_kid e] [entry (ple_device_id p); entry "tablet"].

Definition legacy_spec (i : DidIdentity) (p : PreparedEnrollment) (c : DocumentCheckpoint)
    : LegacyRootTransferImportSpec := {|
  lri_evidence := {| lrt_transfer_id := "t-1"; lrt_source_did := did (di_record i);
                     lrt_target_did := did (di_record i); lrt_sender_device_id := "laptop";
                     lrt_recipient_device_id := ple_device_id p;
                     lrt_recipient_agreement_kid := epk_kid (device_e2ee_key p);
                     lrt_root_kid := sample_kid "root"; lrt_checkpoint := c;
                     lrt_accepted_at := "Z1" |};
  lri_encoding := PrivateKeyEncoding.Raw32; lri_root_key := root_raw |}.

(** The second device is listed, retired, and listed again by the document that
    confirms the promotion; the last step tells what the record then says of it. *)
Definition revival_program : M (DidIdentity * DidIdentity) :=
  let! enrolled := @prepare_enrollment toy_env sample_store sample_enrollment in
  let p := enrolled.2 in
  let two := two_device_document p in
  let one := authorizing_document p in
  let! a := @adopt_verified_document_inner toy_env enrolled.1.2 (observation two 2) false in
  let! a := @adopt_verified_document_inner toy_env a.1 (observation one 3) false in
  let! c := lift (ok_or (checkpoint (di_record a.1)) InvalidIdentity) in
  let! i := @import_legacy_root_transfer toy_env a.1 (legacy_spec a.1 p c) in
  let! i' := @confirm_root_promotion toy_env i.1
               {| rps_document := two; rps_evidence := evidence_for two 4 |} in
  ret (i.1, i').

(** The devices of a document, as a test. *)
Definition retired_listed (i : DidIdentity) : bool :=
  existsb (λ id, bool_decide (id ∈ device_ids (document (di_record i))))
    (retired_device_ids (di_record i)).
Definition revival_test : bool :=
  match revival_program initial_world with
  | (Ok (i, i'), _) => negb (retired_listed i) && retired_listed i'
  | _ => false
  end.

Lemma retired_listed_sound i : retired_listed i = false ↔ devices_sound (di_record i).
Proof.
  unfold retired_listed, devices_sound. rewrite <-not_true_iff_false, existsb_exists.
  setoid_rewrite bool_decide_eq_true. split.
  - intros Hn id Hid Hd. apply Hn. exists id. split; [by apply list_elem_of_In|done].
  - intros Hs (id & Hin & Hd). apply list_elem_of_In in Hin. by apply (Hs id).
Qed.

(** Adoption refuses a document that lists a retired device; the confirmation of a
    promotion accepts one, and the record then lists a device it has retired. *)
Theorem promotion_revives_device : ∃ i i' spec w w',
  @confirm_root_promotion toy_env i spec w = (Ok i', w') ∧
  devices_sound (di_record i) ∧ ¬ devices_sound (di_record i').
Proof.
  assert (revival_test = true) as Ht by (vm_compute; reflexivity).
  unfold revival_test in Ht. destruct (revival_program initial_world) as [[[i i']|e] w] eqn:Hp; [|done].
  apply andb_true_iff in Ht as [Hs%negb_true_iff Hn].
  unfold revival_program in Hp. do 6 (inv_run Hp). apply ret_Ok in Hp as [[= -> ->] ->].
  eexists _, _, _, _, _. split; [exact Hstep4|].
  split; [by apply retired_listed_sound|]. rewrite <-retired_listed_sound. by rewrite Hn.
Qed.
