(* ===== verification/Managed.v ===== *)
(** * The application interface (facade/types.rs, identity.rs, signing.rs, manager.rs)

    A [ManagedIdentity] is a locked engine handle.  The handle is part of the state of
    a facade computation, next to the world: an engine call that fails leaves the
    handle as it was, one that succeeds replaces it, and a later failure of the same
    facade call keeps the replacement. *)

From stdpp Require Import base strings list gmap sorting.
From S2P Require Import Prelude Json Errors Records Env Input World Document Keystore Registry.
From S2P Require Import Recovery Identity Adoption Lifecycle CryptoOps Namespace.
From Stdlib Require Import Ascii.

(** ** Computations over a handle *)

Definition HM (S A : Type) : Type := ST (S * World) Facade.IdentityError A.

(** The handle itself. *)
Definition this {S} : HM S S := λ sw, (Ok sw.1, sw).

(** An engine call through [&mut self], and one through [&self]. *)
Definition calls {S A} (f : S → M (S * A)) : HM S A := λ sw,
  match f sw.1 sw.2 with
  | (Ok (s, a), w) => (Ok a, (s, w))
  | (Err e, w) => (Err (Facade.from_did_error e), (sw.1, w))
  end.
Definition calls_unit {S} (f : S → M S) : HM S unit := λ sw,
  match f sw.1 sw.2 with
  | (Ok s, w) => (Ok tt, (s, w))
  | (Err e, w) => (Err (Facade.from_did_error e), (sw.1, w))
  end.
Definition asks {S A} (f : S → M A) : HM S A := λ sw,
  match f sw.1 sw.2 with
  | (Ok a, w) => (Ok a, (sw.1, w))
  | (Err e, w) => (Err (Facade.from_did_error e), (sw.1, w))
  end.

(** [?] on an engine result. *)
Definition from_engine {A} (r : DidResult A) : IdentityResult A := map_err Facade.from_did_error r.

(** ** Types *)

Module CreateIdentityProfile.
Inductive t := E1 | Web.
End CreateIdentityProfile.

Module ManagedKeyRole.
Inductive t := RootControl | DeviceSigning | RequestSigning | E2eeSigning | E2eeAgreement.
End ManagedKeyRole.

Record ManagedKeyInput := { mki_fragment : string; mki_role : ManagedKeyRole.t }.
Record OkpPublicJwk := { okp_kty : string; okp_crv : string; okp_x : string }.
Inductive ExternalPublicKeyInputMaterial :=
  | MultibaseInput (value : string)
  | JwkInput (public_key_jwk : OkpPublicJwk).
Record ExternalPublicKeyInput := {
  eki_kid : string;
  eki_role : ManagedKeyRole.t;
  eki_material : ExternalPublicKeyInputMaterial }.
Record DeviceManifestEntryInput := {
  dmi_device_id : string;
  dmi_signing_key_id : string;
  dmi_e2ee_key_id : string;
  dmi_profiles : list string }.
Inductive CreateIdentityExtension := DeviceManifestInput (devices : list DeviceManifestEntryInput).

Record IdentityService := {
  ids_id : string;
  ids_service_type : string;
  ids_service_endpoint : string;
  ids_service_did : option string;
  ids_profiles : list string;
  ids_security_profiles : list string }.

Record CreateIdentityRequest := {
  cir_profile : CreateIdentityProfile.t;
  cir_domain : string;
  cir_port : option N;
  cir_path_segments : list string;
  cir_did_wba : bool;
  cir_managed_keys : list ManagedKeyInput;
  cir_external_keys : list ExternalPublicKeyInput;
  cir_services : list IdentityService;
  cir_agent_description_url : option string;
  cir_extensions : list CreateIdentityExtension }.

Record IdentityRef := { ref_store_id : string; ref_identity_id : string; ref_did : string }.
#[export] Instance identity_ref_eq_dec : EqDecision IdentityRef.
Proof. solve_decision. Defined.

Module PublicIdentityState.
Inductive t := Enrolling | Active | Revoked.
#[global] Instance eq_dec : EqDecision t.
Proof. solve_decision. Defined.
End PublicIdentityState.

Record IdentityDescriptor := {
  idd_reference : IdentityRef;
  idd_state : PublicIdentityState.t }.

Module KeyAlgorithm.
Inductive t := Ed25519 | X25519.
End KeyAlgorithm.

Module KeyPurpose.
Inductive t := RootControl | Authentication | DeviceAssertion | ApplicationAssertion | KeyAgreement.
#[global] Instance eq_dec : EqDecision t.
Proof. solve_decision. Defined.
End KeyPurpose.

Record PublicKeyDescriptor := {
  pkd_kid : string;
  pkd_algorithm : KeyAlgorithm.t;
  pkd_purposes : list KeyPurpose.t }.

Record PublicIdentity := {
  pid_reference : IdentityRef;
  pid_state : PublicIdentityState.t;
  pid_revision : N;
  pid_document : Value;
  pid_active_keys : list PublicKeyDescriptor;
  pid_capabilities : Capabilities }.

Inductive StoreHealth := Ready.
Record StoreInfo := {
  si_store_id : string;
  si_schema_compatible : bool;
  si_identity_count : nat;
  si_health : StoreHealth }.
Record RecoveryReport := { rr_identity_count : nat }.
Record DeleteIdentityRequest := { discard_pending_changes : bool }.

(** [impl From<ManagedKeyRole> for KeyRole]. *)
Definition role_of_managed (r : ManagedKeyRole.t) : KeyRole.t :=
  match r with
  | ManagedKeyRole.RootControl => KeyRole.RootControl
  | ManagedKeyRole.DeviceSigning => KeyRole.DeviceSigning
  | ManagedKeyRole.RequestSigning => KeyRole.RequestSigning
  | ManagedKeyRole.E2eeSigning => KeyRole.E2eeSigning
  | ManagedKeyRole.E2eeAgreement => KeyRole.E2eeAgreement
  end.

(** [impl From<IdentityService> for ServiceSpec]. *)
Definition service_of_identity (s : IdentityService) : ServiceSpec :=
  {| service_id := ids_id s; service_type := ids_service_type s;
     service_endpoint := ids_service_endpoint s; service_did := ids_service_did s;
     service_profiles := ids_profiles s; security_profiles := ids_security_profiles s |}.

(** [impl From<CreateIdentityRequest> for DidCreateSpec]. *)
Definition create_spec_of (v : CreateIdentityRequest) : DidCreateSpec :=
  {| profile := match cir_profile v with
                | CreateIdentityProfile.E1 => DidProfile.E1
                | CreateIdentityProfile.Web => DidProfile.Web
                end;
     domain := cir_domain v; port := cir_port v; path_segments := cir_path_segments v;
     spec_capabilities := {| did_wba := cir_did_wba v |};
     managed_keys := map (λ k, {| mk_fragment := mki_fragment k;
                                  mk_role := role_of_managed (mki_role k) |}) (cir_managed_keys v);
     external_keys := map (λ k,
       {| ek_kid := eki_kid k; ek_role := role_of_managed (eki_role k);
          ek_material := match eki_material k with
                         | MultibaseInput value => Multibase value
                         | JwkInput jwk => Jwk {| kty := okp_kty jwk; crv := okp_crv jwk;
                                                  jwk_x := okp_x jwk |}
                         end |}) (cir_external_keys v);
     services := map service_of_identity (cir_services v);
     agent_description_url := cir_agent_description_url v;
     extensions := map (λ '(DeviceManifestInput l), DeviceManifestSpec (map (λ d,
       {| ds_device_id := dmi_device_id d; ds_signing_key_id := dmi_signing_key_id d;
          ds_e2ee_key_id := dmi_e2ee_key_id d; ds_profiles := dmi_profiles d |}) l))
       (cir_extensions v) |}.

(** [impl TryFrom<IdentityState> for PublicIdentityState]. *)
Definition public_state (s : IdentityState.t) : IdentityResult PublicIdentityState.t :=
  match s with
  | IdentityState.Enrolling => Ok PublicIdentityState.Enrolling
  | IdentityState.Active => Ok PublicIdentityState.Active
  | IdentityState.Revoked => Ok PublicIdentityState.Revoked
  | IdentityState.Creating => Err Facade.CorruptState
  end.

(** [PublicKeyDescriptor::from_metadata]. *)
Definition descriptor_of (m : KeyMetadata) : option PublicKeyDescriptor :=
  if negb (bool_decide (key_state m = KeyState.Active)) || material_erased m then None
  else
    let '(algorithm, purposes) :=
      match role m with
      | KeyRole.RootControl => (KeyAlgorithm.Ed25519, [KeyPurpose.RootControl])
      | KeyRole.DeviceSigning =>
          (KeyAlgorithm.Ed25519, [KeyPurpose.Authentication; KeyPurpose.DeviceAssertion])
      | KeyRole.RequestSigning =>
          (KeyAlgorithm.Ed25519, [KeyPurpose.Authentication; KeyPurpose.ApplicationAssertion])
      | KeyRole.E2eeSigning => (KeyAlgorithm.Ed25519, [KeyPurpose.ApplicationAssertion])
      | KeyRole.E2eeAgreement => (KeyAlgorithm.X25519, [KeyPurpose.KeyAgreement])
      end in
    Some {| pkd_kid := kid m; pkd_algorithm := algorithm; pkd_purposes := purposes |}.

(** [project_public_identity]. *)
Definition project_public_identity (sid : string) (i : DidIdentity) : IdentityResult PublicIdentity :=
  let r := di_record i in
  let? st := public_state (state r) in
  Ok {| pid_reference := {| ref_store_id := sid; ref_identity_id := identity_id r;
                            ref_did := did r |};
        pid_state := st; pid_revision := revision r; pid_document := document r;
        pid_active_keys := omap descriptor_of (keys r); pid_capabilities := capabilities r |}.

(** ** Managed identities

    [ManagedIdentity] without its engine, which is the state of the computations. *)

Record ManagedIdentity := { mi_store_id : string; mi_reference : IdentityRef }.

Definition public_identity (m : ManagedIdentity) : HM DidIdentity PublicIdentity :=
  let! i := this in lift (project_public_identity (mi_store_id m) i).

(** ** Signing *)

Module KeySelector.
Inductive t := Default | Kid (kid : string).
End KeySelector.

Module SigningPurpose.
Inductive t := Authentication | DeviceAssertion | ApplicationAssertion (domain : string).
#[global] Instance eq_dec : EqDecision t.
Proof. solve_decision. Defined.
End SigningPurpose.

Record SignRequest := {
  sq_purpose : SigningPurpose.t;
  sq_key : KeySelector.t;
  sq_payload : string }.
Record Signature := {
  sig_kid : string;
  sig_algorithm : KeyAlgorithm.t;
  sig_bytes : string }.
Record VerifyRequest := {
  vq_purpose : SigningPurpose.t;
  vq_kid : string;
  vq_payload : string;
  vq_signature : string }.
Module VerificationOutcome.
Inductive t := Valid | Invalid.
End VerificationOutcome.
Record OriginProofOptions := {
  opo_created : option Z;
  opo_expires : option Z;
  opo_nonce : option string }.
Record OriginProofRequest := {
  opr_method : string;
  opr_meta : Value;
  opr_body : Value;
  opr_key : KeySelector.t;
  opr_options : OriginProofOptions }.
Record SignedOriginProof := {
  sop_content_digest : string;
  sop_signature_input : string;
  sop_signature : string }.

Definition APPLICATION_ASSERTION_PREFIX : string :=
  ("anp.identity.application-assertion.v1" +:+ bytes [0])%string.
Definition MAX_DOMAIN_BYTES : nat := 256.

Definition validate_domain (d : string) : IdentityResult unit :=
  rguard (is_empty d || negb (bool_decide (trim d = d)) || (MAX_DOMAIN_BYTES <? String.length d)
          || contains_char "000"%char d) Facade.InvalidRequest.

(** [(n as u16).to_be_bytes()]. *)
Definition u16_be_bytes (n : nat) : string :=
  let n := n mod (256 * 256) in bytes [n / 256; n mod 256].

Definition payload_for_purpose (purpose : SigningPurpose.t) (payload : string)
    : IdentityResult string :=
  match purpose with
  | SigningPurpose.ApplicationAssertion d =>
      do? validate_domain d;
      Ok (APPLICATION_ASSERTION_PREFIX +:+ u16_be_bytes (String.length d) +:+ d +:+ payload)%string
  | _ => Ok payload
  end.

Definition purpose_role (purpose : SigningPurpose.t) : IdentityResult KeyRole.t :=
  match purpose with
  | SigningPurpose.Authentication => Ok KeyRole.RequestSigning
  | SigningPurpose.DeviceAssertion => Ok KeyRole.DeviceSigning
  | SigningPurpose.ApplicationAssertion d => do? validate_domain d; Ok KeyRole.E2eeSigning
  end.

Definition require_role (m : KeyMetadata) (r : KeyRole.t) : IdentityResult unit :=
  rguard (negb (is_role (role m) r)) Facade.KeyPurposeViolation.

(** A managed key in use whose secret is present. *)
Definition signable (m : KeyMetadata) : bool :=
  bool_decide (origin m = KeyOrigin.Managed) && bool_decide (key_state m = KeyState.Active)
  && negb (material_erased m).

(** [candidates.next()] followed by the check that there is no second one. *)
Definition unique_candidate (l : list KeyMetadata) : IdentityResult KeyMetadata :=
  match l with
  | [] => Err Facade.KeyUnavailable
  | [m] => Ok m
  | _ => Err Facade.AmbiguousKey
  end.

Section Managed.
Context `{Env}.

Definition relationship_authorizes (i : DidIdentity) (m : KeyMetadata) (r : KeyRole.t) : bool :=
  match r with
  | KeyRole.RequestSigning => is_authentication_authorized (document (di_record i)) (kid m)
  | KeyRole.DeviceSigning | KeyRole.E2eeSigning =>
      is_assertion_method_authorized (document (di_record i)) (kid m)
  | KeyRole.RootControl | KeyRole.E2eeAgreement => false
  end.

Definition require_relationship (i : DidIdentity) (m : KeyMetadata) (r : KeyRole.t)
    : IdentityResult unit :=
  rguard (negb (relationship_authorizes i m r)) Facade.KeyPurposeViolation.

Definition select_key (i : DidIdentity) (selector : KeySelector.t) (r : KeyRole.t)
    : IdentityResult KeyMetadata :=
  match selector with
  | KeySelector.Kid k =>
      let? m := from_engine (identity_key_metadata i k) in
      do? require_role m r;
      do? require_relationship i m r;
      do? rguard (negb (signable m)) Facade.KeyUnavailable;
      Ok m
  | KeySelector.Default =>
      unique_candidate (List.filter (λ m, is_role (role m) r && signable m
                                          && relationship_authorizes i m r) (keys (di_record i)))
  end.

Definition require_origin_proof_key (i : DidIdentity) (m : KeyMetadata) : IdentityResult unit :=
  do? rguard (negb (is_role (role m) KeyRole.DeviceSigning
                    || is_role (role m) KeyRole.RequestSigning)) Facade.KeyPurposeViolation;
  do? require_relationship i m (role m);
  rguard (negb (signable m)) Facade.KeyUnavailable.

Definition select_origin_proof_key (i : DidIdentity) (selector : KeySelector.t)
    : IdentityResult KeyMetadata :=
  match selector with
  | KeySelector.Kid k =>
      let? m := from_engine (identity_key_metadata i k) in
      do? require_origin_proof_key i m;
      Ok m
  | KeySelector.Default =>
      unique_candidate (List.filter (λ m, is_ok (require_origin_proof_key i m))
                          (keys (di_record i)))
  end.

(** [ManagedIdentity::sign]. *)
Definition managed_sign (q : SignRequest) : HM DidIdentity Signature :=
  let! r := lift (purpose_role (sq_purpose q)) in
  let! payload := lift (payload_for_purpose (sq_purpose q) (sq_payload q)) in
  let! i := this in
  let! m := lift (select_key i (sq_key q) r) in
  let! b := asks (λ i, sign i (kid m) payload) in
  ret {| sig_kid := kid m; sig_algorithm := KeyAlgorithm.Ed25519; sig_bytes := b |}.

(** [ManagedIdentity::sign_origin_proof]. *)
Definition managed_sign_origin_proof (q : OriginProofRequest) : HM DidIdentity SignedOriginProof :=
  let! i := this in
  let! m := lift (select_origin_proof_key i (opr_key q)) in
  let! proof := asks (λ i, sign_origin_proof i (opr_method q) (opr_meta q) (opr_body q) (kid m)
    {| origin_created := opo_created (opr_options q); origin_expires := opo_expires (opr_options q);
       origin_nonce := opo_nonce (opr_options q); origin_label := None |}) in
  ret {| sop_content_digest := origin_content_digest proof;
         sop_signature_input := origin_signature_input proof;
         sop_signature := origin_signature proof |}.

(** [ManagedIdentity::verify]. *)
Definition managed_verify (q : VerifyRequest) : HM DidIdentity VerificationOutcome.t :=
  let! r := lift (purpose_role (vq_purpose q)) in
  let! i := this in
  let! m := lift (from_engine (identity_key_metadata i (vq_kid q))) in
  do! lift (require_role m r);
  do! lift (require_relationship i m r);
  do! sguard (bool_decide (key_state m = KeyState.Revoked) || material_erased m)
             Facade.KeyUnavailable;
  let! payload := lift (payload_for_purpose (vq_purpose q) (vq_payload q)) in
  match verify i (kid m) payload (vq_signature q) with
  | Ok _ => ret VerificationOutcome.Valid
  | Err VerificationFailed => ret VerificationOutcome.Invalid
  | Err e => fail (Facade.from_did_error e)
  end.

(** ** The manager

    [IdentityManager] is its engine, the state of the computations. *)

Definition manager_store_id (s : DidStore) : string := store_id (rt_manifest (ds_runtime s)).

(** [IdentityManager::wrap]: the managed identity and its engine. *)
Definition wrap (s : DidStore) (i : DidIdentity) : ManagedIdentity * DidIdentity :=
  ({| mi_store_id := manager_store_id s;
      mi_reference := {| ref_store_id := manager_store_id s;
                         ref_identity_id := identity_id (di_record i);
                         ref_did := did (di_record i) |} |}, i).

Definition validate_store (s : DidStore) (reference : IdentityRef) : IdentityResult unit :=
  rguard (negb (bool_decide (ref_store_id reference = manager_store_id s)))
         Facade.IdentityNotFound.

Definition manager_info : HM DidStore StoreInfo :=
  let! s := this in
  let! l := asks list_identities in
  ret {| si_store_id := manager_store_id s; si_schema_compatible := true;
         si_identity_count := length l; si_health := Ready |}.

Definition manager_list : HM DidStore (list IdentityDescriptor) :=
  let! s := this in
  let! l := asks list_identities in
  lift (map_result (λ sm,
    let? st := public_state (is_state sm) in
    Ok {| idd_reference := {| ref_store_id := manager_store_id s;
                              ref_identity_id := is_identity_id sm; ref_did := is_did sm |};
          idd_state := st |}) l).

Definition manager_create (q : CreateIdentityRequest)
    : HM DidStore (ManagedIdentity * DidIdentity) :=
  let! i := calls (λ s, create_identity s (create_spec_of q)) in
  let! s := this in
  ret (wrap s i).

(** The open and check of [get] and [delete]. *)
Definition open_reference (reference : IdentityRef) : HM DidStore DidIdentity :=
  let! i := asks (λ s, open_identity s (ref_did reference)) in
  do! sguard (negb (bool_decide (identity_id (di_record i) = ref_identity_id reference)))
             Facade.IdentityNotFound;
  ret i.

Definition manager_get (reference : IdentityRef) : HM DidStore (ManagedIdentity * DidIdentity) :=
  let! s := this in
  do! lift (validate_store s reference);
  let! i := open_reference reference in
  ret (wrap s i).

Definition manager_delete (reference : IdentityRef) (q : DeleteIdentityRequest)
    : HM DidStore unit :=
  let! s := this in
  do! lift (validate_store s reference);
  do! calls_unit reload;
  let! i := open_reference reference in
  calls_unit (λ s,
    if discard_pending_changes q
    then delete_identity_namespace_discarding_pending s (ref_did reference) (registry_generation s)
    else delete_identity_namespace s (ref_did reference) (registry_generation s)).

Definition manager_recover : HM DidStore RecoveryReport :=
  do! calls_unit reload;
  let! l := asks list_identities in
  ret {| rr_identity_count := length l |}.
End Managed.
