(* ===== verification/DocumentChange.v ===== *)
(** * Document change sessions (facade/document_change.rs)

    A session holds the prepared change and shares the engine with the managed identity
    that made it: the engine is the state of the session's computations, so a change made
    through either of them is seen by the other. *)

From stdpp Require Import base strings list gmap.
From S2P Require Import Prelude Json Errors Records Env Input World Document Keystore Registry.
From S2P Require Import Recovery Identity Adoption Lifecycle CryptoOps Namespace Managed.

(** ** Requests *)

Record PublicKeyInput := { pki_kid : string; pki_multibase : string }.
Record DeviceInput := {
  din_device_id : string;
  din_signing_key : PublicKeyInput;
  din_agreement_key : PublicKeyInput;
  din_profiles : list string }.

Module DocumentChange.
Inductive t :=
  | RotateSigningKey (old_kid new_fragment : string)
  | AddAuthenticationKey (key : PublicKeyInput)
  | RemoveAuthenticationKey (kid : string)
  | AddDevice (device : DeviceInput)
  | RemoveDevice (device_id : string)
  | AddDeviceProfiles (device_id : string) (profiles : list string)
  | ReplaceServices (services : list IdentityService).
End DocumentChange.

Record PreparedDocumentChange := {
  pdc_operation_id : string;
  pdc_candidate_document : Value;
  pdc_candidate_digest : string }.

Record VerifiedPublicationEvidence := {
  vpe_document_version : N;
  vpe_registry_version : N;
  vpe_document_digest : string }.
Record VerifiedRemoteDocument := {
  vrd_document : Value;
  vrd_evidence : VerifiedPublicationEvidence }.

Record PublicationAttempt := {
  pa_operation_id : string;
  pa_candidate_digest : string;
  pa_publication_generation : N }.

Module PublicationResult.
Inductive t :=
  | Confirmed (evidence : VerifiedPublicationEvidence)
  | RejectedBeforeAcceptance
  | Unknown.
End PublicationResult.

Module DocumentChangeOutcome.
Inductive t :=
  | ReadyForPublication
  | PublicationUncertain
  | Committed (identity : PublicIdentity)
  | Aborted.
End DocumentChangeOutcome.

(** [DocumentChangeSession] without its engine. *)
Record DocumentChangeSession := {
  dcs_store_id : string;
  dcs_reference : IdentityRef;
  candidate : PreparedDocumentChange }.

(** [RequestSigningPublicKeySpec] and [DevicePublicKeySpec] of an input key. *)
Definition public_key_spec (k : PublicKeyInput) : PublicKeySpec :=
  {| pk_kid := pki_kid k; pk_multibase := pki_multibase k |}.
Definition device_add_spec (d : DeviceInput) : DeviceAddSpec :=
  {| da_device_id := din_device_id d; da_signing_key := public_key_spec (din_signing_key d);
     da_e2ee_key := public_key_spec (din_agreement_key d); da_profiles := din_profiles d |}.

(** One iteration of the loop of [into_engine_spec]. *)
Definition add_change (spec : DocumentUpdateSpec) (change : DocumentChange.t)
    : IdentityResult DocumentUpdateSpec :=
  let mutate m := {| request_signing_rotation := request_signing_rotation spec;
                     request_signing_mutations := request_signing_mutations spec ++ [m];
                     device_mutations := device_mutations spec;
                     update_services := update_services spec |} in
  let device m := {| request_signing_rotation := request_signing_rotation spec;
                     request_signing_mutations := request_signing_mutations spec;
                     device_mutations := device_mutations spec ++ [m];
                     update_services := update_services spec |} in
  match change with
  | DocumentChange.RotateSigningKey old new =>
      do? rguard (bool_decide (is_Some (request_signing_rotation spec))) Facade.InvalidRequest;
      Ok {| request_signing_rotation := Some {| old_kid := old; new_fragment := new |};
            request_signing_mutations := request_signing_mutations spec;
            device_mutations := device_mutations spec; update_services := update_services spec |}
  | DocumentChange.AddAuthenticationKey key => Ok (mutate (AddRequestKey (public_key_spec key)))
  | DocumentChange.RemoveAuthenticationKey k => Ok (mutate (RemoveRequestKey k))
  | DocumentChange.AddDevice d => Ok (device (AddDevice (device_add_spec d)))
  | DocumentChange.RemoveDevice id => Ok (device (RemoveDevice id))
  | DocumentChange.AddDeviceProfiles id profiles => Ok (device (AddProfiles id profiles))
  | DocumentChange.ReplaceServices replacements =>
      do? rguard (bool_decide (is_Some (update_services spec))) Facade.InvalidRequest;
      Ok {| request_signing_rotation := request_signing_rotation spec;
            request_signing_mutations := request_signing_mutations spec;
            device_mutations := device_mutations spec;
            update_services := Some (map service_of_identity replacements) |}
  end.

Definition empty_spec : DocumentUpdateSpec :=
  {| request_signing_rotation := None; request_signing_mutations := []; device_mutations := [];
     update_services := None |}.

(** [DocumentChangeRequest::into_engine_spec]. *)
Definition into_engine_spec (changes : list DocumentChange.t) : IdentityResult DocumentUpdateSpec :=
  do? rguard (bool_decide (length changes = 0)) Facade.InvalidRequest;
  fold_result add_change changes empty_spec.

(** ** Evidence *)

Definition engine_evidence (e : VerifiedPublicationEvidence) : VerifiedDocumentEvidence :=
  {| ev_document_version := vpe_document_version e; ev_registry_version := vpe_registry_version e;
     ev_document_digest := if starts_with "sha256:" (vpe_document_digest e)
                           then vpe_document_digest e
                           else ("sha256:" +:+ vpe_document_digest e)%string |}.

Definition validate_evidence (e : VerifiedPublicationEvidence) (expected : string)
    : IdentityResult unit :=
  rguard ((vpe_document_version e =? 0)%N || (vpe_registry_version e =? 0)%N
          || negb (bool_decide (vpe_document_digest e = expected))) Facade.InvalidRequest.

(** ** Sessions *)

Section Session.
Context `{Env}.
Implicit Types s : DocumentChangeSession.

Definition prepare_document_change (m : ManagedIdentity) (changes : list DocumentChange.t)
    : HM DidIdentity DocumentChangeSession :=
  let! spec := lift (into_engine_spec changes) in
  let! prepared := calls (λ i, prepare_update i spec) in
  ret {| dcs_store_id := mi_store_id m; dcs_reference := mi_reference m;
         candidate := {| pdc_operation_id := pu_revision_id prepared;
                         pdc_candidate_document := pu_candidate_document prepared;
                         pdc_candidate_digest := pu_candidate_digest prepared |} |}.

Definition resume_document_change (m : ManagedIdentity)
    : HM DidIdentity (option DocumentChangeSession) :=
  let! i := this in
  ret ((λ p, {| dcs_store_id := mi_store_id m; dcs_reference := mi_reference m;
                candidate := {| pdc_operation_id := revision_id p;
                                pdc_candidate_document := candidate_document p;
                                pdc_candidate_digest := Records.candidate_digest p |} |})
       <$> pending_revision (di_record i)).

(** [DocumentChangeSession::required_pending]. *)
Definition session_pending s (i : DidIdentity) : IdentityResult PendingRevisionRecord :=
  let? p := ok_or (pending_revision (di_record i)) Facade.DocumentChangeNotFound in
  do? rguard (negb (bool_decide (revision_id p = pdc_operation_id (candidate s)))
              || negb (bool_decide (candidate_digest p = pdc_candidate_digest (candidate s)))
              || negb (bool_decide (identity_id (di_record i) = ref_identity_id (dcs_reference s)))
              || negb (bool_decide (did (di_record i) = ref_did (dcs_reference s))))
             Facade.Conflict;
  Ok p.

Definition validate_attempt s (attempt : PublicationAttempt) (p : PendingRevisionRecord)
    : IdentityResult unit :=
  rguard (negb (bool_decide (pa_operation_id attempt = pdc_operation_id (candidate s)))
          || negb (bool_decide (pa_candidate_digest attempt = pdc_candidate_digest (candidate s)))
          || negb (bool_decide (pa_publication_generation attempt = pr_generation p)))
         Facade.Conflict.

(** The pending revision of the engine as it is now. *)
Definition pending_now s : HM DidIdentity PendingRevisionRecord :=
  let! i := this in lift (session_pending s i).

Definition session_publication_state s : HM DidIdentity PublicationState.t :=
  let! p := pending_now s in ret (pr_state p).

Definition session_begin s : HM DidIdentity PublicationAttempt :=
  let! p := pending_now s in
  do! match pr_state p with
      | PublicationState.Prepared =>
          calls_unit (λ i, begin_publication i (pdc_operation_id (candidate s)))
      | PublicationState.PublicationInFlight | PublicationState.Published => ret tt
      | PublicationState.PublicationUncertain => fail Facade.InvalidDocumentChangeState
      end;
  let! p := pending_now s in
  ret {| pa_operation_id := pdc_operation_id (candidate s);
         pa_candidate_digest := pdc_candidate_digest (candidate s);
         pa_publication_generation := pr_generation p |}.

(** The outcome of a commit: the identity as it is now. *)
Definition committed_outcome s : HM DidIdentity DocumentChangeOutcome.t :=
  let! i := this in
  let! identity := lift (project_public_identity (dcs_store_id s) i) in
  ret (DocumentChangeOutcome.Committed identity).

Definition session_complete s (attempt : PublicationAttempt) (res : PublicationResult.t)
    : HM DidIdentity DocumentChangeOutcome.t :=
  let oid := pdc_operation_id (candidate s) in
  let! p := pending_now s in
  do! lift (validate_attempt s attempt p);
  match res with
  | PublicationResult.Confirmed e =>
      do! lift (validate_evidence e (pdc_candidate_digest (candidate s)));
      do! sguard (negb (bool_decide (pr_state p = PublicationState.PublicationInFlight)
                        || bool_decide (pr_state p = PublicationState.Published)))
                 Facade.InvalidDocumentChangeState;
      do! calls_unit (λ i, commit_verified_update i oid false (engine_evidence e));
      committed_outcome s
  | PublicationResult.RejectedBeforeAcceptance =>
      do! sguard (negb (bool_decide (pr_state p = PublicationState.PublicationInFlight)))
                 Facade.InvalidDocumentChangeState;
      do! calls_unit (λ i, reject_publication_before_acceptance i oid);
      do! calls_unit (λ i, abort_update i oid);
      ret DocumentChangeOutcome.Aborted
  | PublicationResult.Unknown =>
      do! sguard (negb (bool_decide (pr_state p = PublicationState.PublicationInFlight)))
                 Facade.InvalidDocumentChangeState;
      do! calls_unit (λ i, mark_publication_uncertain i oid);
      ret DocumentChangeOutcome.PublicationUncertain
  end.

(** The check of an observation against its own evidence. *)
Definition validate_observation (o : VerifiedRemoteDocument) : IdentityResult unit :=
  let? dg := from_engine (digest_document (vrd_document o)) in
  validate_evidence (vrd_evidence o) dg.

Definition session_reconcile s (o : VerifiedRemoteDocument)
    : HM DidIdentity DocumentChangeOutcome.t :=
  let oid := pdc_operation_id (candidate s) in
  do! lift (validate_observation o);
  let! p := pending_now s in
  do! sguard (negb (bool_decide (pr_state p = PublicationState.PublicationUncertain)))
             Facade.InvalidDocumentChangeState;
  let! outcome :=
    if bool_decide (vrd_document o = pdc_candidate_document (candidate s)) then
      do! calls_unit (λ i, commit_verified_update i oid true (engine_evidence (vrd_evidence o)));
      ret ReconcileOutcome.Committed
    else calls (λ i, reconcile_update i oid (vrd_document o)) in
  match outcome with
  | ReconcileOutcome.RemoteOld =>
      let! p := pending_now s in
      ret (if bool_decide (pr_state p = PublicationState.PublicationUncertain)
           then DocumentChangeOutcome.PublicationUncertain
           else DocumentChangeOutcome.ReadyForPublication)
  | ReconcileOutcome.Committed => committed_outcome s
  end.

Definition session_reconcile_rejected s (o : VerifiedRemoteDocument)
    : HM DidIdentity DocumentChangeOutcome.t :=
  do! lift (validate_observation o);
  do! pending_now s;
  do! calls_unit (λ i, reconcile_rejected_update i (pdc_operation_id (candidate s))
        {| avd_document := vrd_document o; avd_evidence := engine_evidence (vrd_evidence o) |});
  ret DocumentChangeOutcome.Aborted.
End Session.
