(* ===== verification/IdentityTransition.v ===== *)
(** * Identity transitions (facade/identity_transition.rs)

    The publication of a transition from one identity to its successor.  The journal of
    a transition is its whole state: a session reads it again at every step, under the
    store's lock, and refuses to go on when it is not the journal it last saw. *)

From stdpp Require Import base strings list gmap.
From S2P Require Import Prelude Json Errors Records Env Input World Document Keystore Registry.
From S2P Require Import Recovery Identity Adoption CryptoOps Managed.
From Stdlib Require Import Ascii.

Abbreviation TM := (ST World Facade.IdentityError).

(** [?] on an engine call. *)
Definition engine {A} (m : M A) : TM A := st_map_err Facade.from_did_error m.

Definition MAX_OPERATION_ID_BYTES : nat := 256.

Record IdentityTransitionRequest := {
  itr_expected_current_did : string;
  itr_operation_id : string;
  itr_successor : IdentityRef;
  itr_transition_document : option Value }.

Record PreparedIdentityTransition := {
  pit_operation_id : string;
  pit_expected_current_did : string;
  pit_successor_did : string;
  pit_predecessor_document : Value;
  pit_successor_document : Value;
  pit_predecessor_digest : string;
  pit_successor_digest : string;
  pit_assurance : string }.

Record IdentityTransitionPublicationAttempt := {
  ita_operation_id : string;
  ita_predecessor_digest : string;
  ita_successor_digest : string;
  ita_publication_generation : N }.

Record IdentityTransitionPublicationEvidence := {
  ite_predecessor_digest : string;
  ite_successor_digest : string }.

Module TransitionResult.
Inductive t :=
  | Confirmed (evidence : IdentityTransitionPublicationEvidence)
  | RejectedBeforeAcceptance
  | Unknown.
End TransitionResult.

Module RemoteObservation.
Inductive t :=
  | RemoteOld (current_document : Value)
  | Published (predecessor_document successor_document : Value).
End RemoteObservation.

Module TransitionOutcome.
Inductive t :=
  | ReadyForPublication
  | PublicationUncertain
  | Committed (current_did : string)
  | Aborted.
#[global] Instance eq_dec : EqDecision t.
Proof. solve_decision. Defined.
End TransitionOutcome.

Record IdentityTransitionSession := {
  its_runtime : StoreRuntime;
  its_journal : IdentityTransitionJournal;
  its_candidate : PreparedIdentityTransition }.

Definition assurance_name (a : TransitionAssurance.t) : string :=
  match a with
  | TransitionAssurance.Verified => "verified"
  | TransitionAssurance.RecoveryVerified => "recovery_verified"
  | TransitionAssurance.ProviderAsserted => "provider_asserted"
  | TransitionAssurance.Unverified => "unverified"
  end.

(** [journal.state = st; journal.generation = g]. *)
Definition advance (st : IdentityTransitionJournalState.t) (g : N) (j : IdentityTransitionJournal)
    : IdentityTransitionJournal :=
  {| itj_schema_version := itj_schema_version j; operation_id := operation_id j;
     expected_current_did := expected_current_did j;
     predecessor_identity_id := predecessor_identity_id j;
     predecessor_generation := predecessor_generation j; successor_did := successor_did j;
     successor_identity_id := successor_identity_id j;
     successor_generation := successor_generation j;
     trusted_predecessor_document := trusted_predecessor_document j;
     predecessor_document := predecessor_document j; successor_document := successor_document j;
     predecessor_digest := predecessor_digest j; successor_digest := successor_digest j;
     assurance := assurance j; itj_state := st; itj_generation := g;
     itj_created_at := itj_created_at j |}.

Definition validate_request (q : IdentityTransitionRequest) (sid : string) : IdentityResult unit :=
  rguard (is_empty (itr_expected_current_did q) || is_empty (itr_operation_id q)
          || (MAX_OPERATION_ID_BYTES <? String.length (itr_operation_id q))
          || contains_char "000"%char (itr_operation_id q)
          || negb (bool_decide (ref_store_id (itr_successor q) = sid))
          || bool_decide (ref_did (itr_successor q) = itr_expected_current_did q))
         Facade.InvalidRequest.

Definition attempt_from_journal (j : IdentityTransitionJournal)
    : IdentityTransitionPublicationAttempt :=
  {| ita_operation_id := operation_id j; ita_predecessor_digest := predecessor_digest j;
     ita_successor_digest := successor_digest j; ita_publication_generation := itj_generation j |}.

Definition validate_transition_attempt (a : IdentityTransitionPublicationAttempt)
    (j : IdentityTransitionJournal) : IdentityResult unit :=
  rguard (negb (bool_decide (ita_operation_id a = operation_id j))
          || negb (bool_decide (ita_predecessor_digest a = predecessor_digest j))
          || negb (bool_decide (ita_successor_digest a = successor_digest j))
          || negb (bool_decide (ita_publication_generation a = itj_generation j)))
         Facade.Conflict.

Definition validate_transition_evidence (e : IdentityTransitionPublicationEvidence)
    (j : IdentityTransitionJournal) : IdentityResult unit :=
  rguard (negb (bool_decide (ite_predecessor_digest e = predecessor_digest j))
          || negb (bool_decide (ite_successor_digest e = successor_digest j)))
         Facade.VerificationFailed.

(** [next_generation]. *)
Definition next_generation (g : N) : IdentityResult N := ok_or (checked_succ g) Facade.Conflict.

(** The states in which a transition is still under way. *)
Definition unfinished (st : IdentityTransitionJournalState.t) : bool :=
  match st with
  | IdentityTransitionJournalState.Prepared
  | IdentityTransitionJournalState.PublicationInFlight
  | IdentityTransitionJournalState.PublicationUncertain => true
  | IdentityTransitionJournalState.Committed | IdentityTransitionJournalState.Aborted => false
  end.

Section IdentityTransition.
Context `{Env}.

(** [canonical_document_digest] of the facade. *)
Definition document_digest_of (v : Value) : IdentityResult string := from_engine (digest_document v).

Definition journal_matches_request (j : IdentityTransitionJournal) (q : IdentityTransitionRequest)
    : bool :=
  bool_decide (operation_id j = itr_operation_id q)
  && bool_decide (expected_current_did j = itr_expected_current_did q)
  && bool_decide (successor_did j = ref_did (itr_successor q))
  && bool_decide (successor_identity_id j = ref_identity_id (itr_successor q))
  && match itr_transition_document q with
     | Some v => match document_digest_of v with
                 | Ok dg => bool_decide (dg = predecessor_digest j)
                 | Err _ => false
                 end
     | None => true
     end.

Definition candidate_from_journal (j : IdentityTransitionJournal)
    : IdentityResult PreparedIdentityTransition :=
  let? p := document_digest_of (predecessor_document j) in
  do? rguard (negb (bool_decide (p = predecessor_digest j))) Facade.CorruptState;
  let? s := document_digest_of (successor_document j) in
  do? rguard (negb (bool_decide (s = successor_digest j))) Facade.CorruptState;
  Ok {| pit_operation_id := operation_id j; pit_expected_current_did := expected_current_did j;
        pit_successor_did := successor_did j;
        pit_predecessor_document := predecessor_document j;
        pit_successor_document := successor_document j;
        pit_predecessor_digest := predecessor_digest j;
        pit_successor_digest := successor_digest j; pit_assurance := assurance j |}.

Definition from_journal (rt : StoreRuntime) (j : IdentityTransitionJournal)
    : IdentityResult IdentityTransitionSession :=
  let? c := candidate_from_journal j in
  Ok {| its_runtime := rt; its_journal := j; its_candidate := c |}.

(** An active managed root key whose secret is present. *)
Definition root_signer (l : list KeyMetadata) : option KeyMetadata :=
  List.find (λ k, is_role (role k) KeyRole.RootControl && signable k) l.

(** The document of the predecessor, deactivated and pointing to its successor. *)
Definition unsigned_transition (doc : Value) (successor : string) : IdentityResult Value :=
  let? o := ok_or (as_object doc) Facade.CorruptState in
  Ok (Object (map_insert (map_insert (map_remove o "proof") "deactivated" (Bool true))
                "successorDid" (Str successor))).

Definition create_verified_transition_document (rt : StoreRuntime) (r : IdentityRecord)
    (successor at_ : string) : TM Value :=
  let! unsigned := lift (unsigned_transition (document r) successor) in
  let! root := lift (ok_or (root_signer (keys r)) Facade.KeyUnavailable) in
  engine (sign_document_proof {| di_runtime := rt; di_record := r |} unsigned (kid root)
    {| proof_purpose := Some "assertionMethod"; proof_type := Some proof_type_data_integrity;
       cryptosuite := Some cryptosuite_eddsa_jcs_2022; proof_created := Some at_;
       proof_domain := None; proof_challenge := None |}).

(** The end of [prepare_identity_transition]: the transition document, its verification
    and the journal. *)
Definition new_transition (q : IdentityTransitionRequest) (rt : StoreRuntime)
    (predecessor successor : IdentityRecord) : TM IdentityTransitionJournal :=
  let! t := engine utc_now in
  let at_ := rfc3339_secs t in
  let! doc := match itr_transition_document q with
              | Some v => ret v
              | None => create_verified_transition_document rt predecessor (did successor) at_
              end in
  let! hop := lift (ok_or (verify_transition_hop doc (document successor)
                             (Some (document predecessor))) Facade.InvalidRequest) in
  let! pd := lift (document_digest_of doc) in
  let! sd := lift (document_digest_of (document successor)) in
  ret {| itj_schema_version := IDENTITY_TRANSITION_JOURNAL_SCHEMA_VERSION;
         operation_id := itr_operation_id q; expected_current_did := itr_expected_current_did q;
         predecessor_identity_id := identity_id predecessor;
         predecessor_generation := generation predecessor; successor_did := did successor;
         successor_identity_id := identity_id successor;
         successor_generation := generation successor;
         trusted_predecessor_document := document predecessor; predecessor_document := doc;
         successor_document := document successor; predecessor_digest := pd;
         successor_digest := sd; assurance := assurance_name hop;
         itj_state := IdentityTransitionJournalState.Prepared; itj_generation := 1;
         itj_created_at := at_ |}.

(** The part of [prepare_identity_transition] for an operation without a journal. *)
Definition open_transition (s : DidStore) (q : IdentityTransitionRequest) (guard : StoreWriteGuard)
    (registry : IdentityRegistry) : TM IdentityTransitionSession :=
  let rt := ds_runtime s in
  let! journals := engine list_identity_transition_journals in
  do! sguard (existsb (λ j, bool_decide (expected_current_did j = itr_expected_current_did q)
                 && negb (bool_decide (itj_state j = IdentityTransitionJournalState.Aborted)))
                journals) Facade.Conflict;
  let! p := lift (ok_or (identities registry !! itr_expected_current_did q)
                    Facade.IdentityNotFound) in
  let! n := lift (ok_or (identities registry !! ref_did (itr_successor q))
                    Facade.IdentityNotFound) in
  do! sguard (negb (bool_decide (is_identity_id n = ref_identity_id (itr_successor q)))
              || bool_decide (is_identity_id p = is_identity_id n)) Facade.InvalidRequest;
  let! predecessor := engine (read_identity (is_identity_id p)) in
  let! successor := engine (read_identity (is_identity_id n)) in
  do! sguard (negb (verify_active_e1_document (did predecessor) (document predecessor)))
             Facade.InvalidRequest;
  do! sguard (negb (verify_active_e1_document (did successor) (document successor)))
             Facade.InvalidRequest;
  let! j := new_transition q rt predecessor successor in
  do! engine (write_identity_transition_journal (rt_root rt) guard j);
  lift (from_journal rt j).

(** [IdentityManager::prepare_identity_transition]. *)
Definition prepare_identity_transition (s : DidStore) (q : IdentityTransitionRequest)
    : TM IdentityTransitionSession :=
  let rt := ds_runtime s in
  do! lift (validate_request q (manager_store_id s));
  let! guard := engine (acquire_write rt) in
  let! registry := engine read_registry in
  do! sguard (negb (bool_decide (reg_generation registry = registry_generation s)))
             Facade.Conflict;
  let! existing := attempt (read_identity_transition_journal (itr_operation_id q)) in
  match existing with
  | Ok j => do! sguard (negb (journal_matches_request j q)) Facade.Conflict;
            lift (from_journal rt j)
  | Err _ => open_transition s q guard registry
  end.

(** [IdentityManager::resume_identity_transition]. *)
Definition resume_identity_transition (d : string)
    : HM DidStore (option IdentityTransitionSession) :=
  do! calls_unit reload;
  let! s := this in
  let! journals := asks (λ _, list_identity_transition_journals) in
  match List.filter (λ j, bool_decide (expected_current_did j = d) && unfinished (itj_state j))
          journals with
  | [] => ret None
  | [j] => let! session := lift (from_journal (ds_runtime s) j) in ret (Some session)
  | _ => fail Facade.CorruptState
  end.

(** ** Sessions *)

Definition reload_and_validate (s : IdentityTransitionSession) : TM IdentityTransitionJournal :=
  let old := its_journal s in
  let! j := engine (read_identity_transition_journal (operation_id old)) in
  do! sguard (negb (bool_decide (itj_generation j = itj_generation old))
              || negb (bool_decide (expected_current_did j = expected_current_did old))
              || negb (bool_decide (successor_did j = successor_did old))
              || negb (bool_decide (predecessor_digest j = predecessor_digest old))
              || negb (bool_decide (successor_digest j = successor_digest old))) Facade.Conflict;
  let! predecessor := engine (read_identity (predecessor_identity_id j)) in
  let! successor := engine (read_identity (successor_identity_id j)) in
  do! sguard (negb (bool_decide (generation predecessor = predecessor_generation j))
              || negb (bool_decide (did predecessor = expected_current_did j))
              || negb (bool_decide (generation successor = successor_generation j))
              || negb (bool_decide (did successor = successor_did j))) Facade.Conflict;
  ret j.

(** [self.journal = journal]. *)
Definition with_journal (j : IdentityTransitionJournal) (s : IdentityTransitionSession)
    : IdentityTransitionSession :=
  {| its_runtime := its_runtime s; its_journal := j; its_candidate := its_candidate s |}.

(** Write the journal in its next state. *)
Definition step_journal (s : IdentityTransitionSession) (guard : StoreWriteGuard)
    (j : IdentityTransitionJournal) (st : IdentityTransitionJournalState.t)
    : TM IdentityTransitionJournal :=
  let! g := lift (next_generation (itj_generation j)) in
  let j := advance st g j in
  do! engine (write_identity_transition_journal (rt_root (its_runtime s)) guard j);
  ret j.

Definition transition_begin (s : IdentityTransitionSession)
    : TM (IdentityTransitionSession * IdentityTransitionPublicationAttempt) :=
  let! guard := engine (acquire_write (its_runtime s)) in
  let! j := reload_and_validate s in
  let! j := match itj_state j with
            | IdentityTransitionJournalState.Prepared =>
                step_journal s guard j IdentityTransitionJournalState.PublicationInFlight
            | IdentityTransitionJournalState.PublicationInFlight => ret j
            | _ => fail Facade.InvalidDocumentChangeState
            end in
  ret (with_journal j s, attempt_from_journal j).

(** The state and the outcome of a publication result. *)
Definition completion (j : IdentityTransitionJournal) (res : TransitionResult.t)
    : IdentityResult (IdentityTransitionJournalState.t * TransitionOutcome.t) :=
  match res with
  | TransitionResult.Confirmed e =>
      do? validate_transition_evidence e j;
      Ok (IdentityTransitionJournalState.Committed, TransitionOutcome.Committed (successor_did j))
  | TransitionResult.RejectedBeforeAcceptance =>
      Ok (IdentityTransitionJournalState.Aborted, TransitionOutcome.Aborted)
  | TransitionResult.Unknown =>
      Ok (IdentityTransitionJournalState.PublicationUncertain,
          TransitionOutcome.PublicationUncertain)
  end.

Definition transition_complete (s : IdentityTransitionSession)
    (a : IdentityTransitionPublicationAttempt) (res : TransitionResult.t)
    : TM (IdentityTransitionSession * TransitionOutcome.t) :=
  let! guard := engine (acquire_write (its_runtime s)) in
  let! j := reload_and_validate s in
  do! lift (validate_transition_attempt a j);
  do! sguard (negb (bool_decide (itj_state j = IdentityTransitionJournalState.PublicationInFlight)))
             Facade.InvalidDocumentChangeState;
  let! next := lift (completion j res) in
  let! j := step_journal s guard j next.1 in
  ret (with_journal j s, next.2).

(** The state and the outcome of an observation of the registry. *)
Definition reconciliation (j : IdentityTransitionJournal) (o : RemoteObservation.t)
    : IdentityResult (IdentityTransitionJournalState.t * TransitionOutcome.t) :=
  match o with
  | RemoteObservation.RemoteOld doc =>
      do? rguard (negb (verify_active_e1_document (expected_current_did j) doc))
                 Facade.VerificationFailed;
      let? dg := document_digest_of doc in
      let? trusted := document_digest_of (trusted_predecessor_document j) in
      do? rguard (negb (bool_decide (dg = trusted))) Facade.VerificationFailed;
      Ok (IdentityTransitionJournalState.Prepared, TransitionOutcome.ReadyForPublication)
  | RemoteObservation.Published predecessor successor =>
      let? pd := document_digest_of predecessor in
      do? rguard (negb (bool_decide (pd = predecessor_digest j))) Facade.VerificationFailed;
      let? sd := document_digest_of successor in
      do? rguard (negb (bool_decide (sd = successor_digest j))) Facade.VerificationFailed;
      let? hop := ok_or (verify_transition_hop predecessor successor
                           (Some (trusted_predecessor_document j))) Facade.VerificationFailed in
      do? rguard (negb (bool_decide (assurance_name hop = assurance j))) Facade.VerificationFailed;
      Ok (IdentityTransitionJournalState.Committed, TransitionOutcome.Committed (successor_did j))
  end.

Definition transition_reconcile (s : IdentityTransitionSession) (o : RemoteObservation.t)
    : TM (IdentityTransitionSession * TransitionOutcome.t) :=
  let! guard := engine (acquire_write (its_runtime s)) in
  let! j := reload_and_validate s in
  do! sguard (negb (bool_decide (itj_state j = IdentityTransitionJournalState.PublicationUncertain)))
             Facade.InvalidDocumentChangeState;
  let! next := lift (reconciliation j o) in
  let! j := step_journal s guard j next.1 in
  ret (with_journal j s, next.2).
End IdentityTransition.
