(* ===== verification/ManagedFacts.v ===== *)
(** * Correctness of the application interface (facade/signing.rs, manager.rs)

    Domain separation of signatures, the selection of keys, the round trip of signing and
    verifying, and the manager's operations over the engine's theorems. *)

From stdpp Require Import base strings list gmap sorting.
From S2P Require Import Prelude Json Errors Records Env Toy Input World Document Keystore Registry.
From S2P Require Import Recovery Identity Adoption Lifecycle CryptoOps IdentityFacts Namespace.
From S2P Require Import CryptoFacts Managed.
From Stdlib Require Import Ascii.

(** ** Computations over a handle *)

Section Handle.
Context {S : Type}.

Lemma this_Ok (x : S * World) a y : this x = (Ok a, y) ↔ a = x.1 ∧ y = x.
Proof. unfold this. naive_solver. Qed.

Lemma asks_Ok {A} (f : S → M A) s w a y :
  asks f (s, w) = (Ok a, y) ↔ ∃ w', f s w = (Ok a, w') ∧ y = (s, w').
Proof. unfold asks. simpl. destruct (f s w) as [[b|e] w']; naive_solver. Qed.

Lemma calls_Ok {A} (f : S → M (S * A)) s w a y :
  calls f (s, w) = (Ok a, y) ↔ ∃ s' w', f s w = (Ok (s', a), w') ∧ y = (s', w').
Proof. unfold calls. simpl. destruct (f s w) as [[[s' b]|e] w']; naive_solver. Qed.

Lemma calls_unit_Ok (f : S → M S) s w u y :
  calls_unit f (s, w) = (Ok u, y) ↔ ∃ s' w', f s w = (Ok s', w') ∧ y = (s', w').
Proof. unfold calls_unit. simpl. destruct u, (f s w) as [[s'|e] w']; naive_solver. Qed.

Lemma asks_Err {A} (f : S → M A) s w e w' :
  f s w = (Err e, w') → asks f (s, w) = (Err (Facade.from_did_error e), (s, w')).
Proof. unfold asks. simpl. by intros ->. Qed.
End Handle.

Lemma from_engine_Ok {A} (r : DidResult A) a : from_engine r = Ok a ↔ r = Ok a.
Proof. destruct r; simpl; naive_solver. Qed.

(** ** Domain separation *)

Lemma string_app_length_inj (s t u v : string) :
  String.length s = String.length t → (s +:+ u)%string = (t +:+ v)%string → s = t ∧ u = v.
Proof.
  revert t. induction s as [|a s IH]; intros [|b t] Hl Heq; try done.
  injection Hl as Hl. change (String a (s +:+ u) = String b (t +:+ v)) in Heq.
  injection Heq as -> Heq. by destruct (IH t Hl Heq) as [-> ->].
Qed.

Lemma ascii_of_nat_inj a b : a < 256 → b < 256 → ascii_of_nat a = ascii_of_nat b → a = b.
Proof.
  intros Ha Hb Heq. apply (f_equal nat_of_ascii) in Heq. by rewrite !nat_ascii_embedding in Heq.
Qed.

Lemma bytes_pair_inj a b c d :
  bytes [a; b] = bytes [c; d] → ascii_of_nat a = ascii_of_nat c ∧ ascii_of_nat b = ascii_of_nat d.
Proof.
  unfold bytes. simpl. generalize (ascii_of_nat a), (ascii_of_nat b), (ascii_of_nat c), (ascii_of_nat d).
  by intros ? ? ? ? [= -> ->].
Qed.

Lemma u16_be_bytes_inj m n : m < 256 * 256 → n < 256 * 256 → u16_be_bytes m = u16_be_bytes n → m = n.
Proof.
  intros Hm Hn. unfold u16_be_bytes. 
  rewrite (Nat.mod_small m), (Nat.mod_small n) by done.
  intros [Hhi Hlo]%bytes_pair_inj.
  apply ascii_of_nat_inj in Hhi;
    [|apply Nat.Div0.div_lt_upper_bound; assumption|apply Nat.Div0.div_lt_upper_bound; assumption].
  apply ascii_of_nat_inj in Hlo; [|apply Nat.mod_upper_bound; lia|apply Nat.mod_upper_bound; lia].
  rewrite (Nat.div_mod_eq m 256), (Nat.div_mod_eq n 256). congruence.
Qed.

Lemma application_domain_Ok d u :
  validate_domain d = Ok u →
  d ≠ EmptyString ∧ trim d = d ∧ String.length d ≤ MAX_DOMAIN_BYTES ∧
  contains_char "000"%char d = false.
Proof.
  unfold validate_domain. intros Hv%rguard_Ok.
  apply orb_false_iff in Hv as [[[H1 H2]%orb_false_iff H3]%orb_false_iff H4].
  apply bool_decide_eq_false in H1. apply negb_false_iff, bool_decide_eq_true in H2.
  apply Nat.ltb_ge in H3. done.
Qed.

Lemma Ok_inj {E A} (a b : A) : @Ok E A a = Ok b → a = b.
Proof. by intros [= ->]. Qed.

Lemma application_payload d x message :
  payload_for_purpose (SigningPurpose.ApplicationAssertion d) x = Ok message →
  String.length d < 256 * 256 ∧
  message = (APPLICATION_ASSERTION_PREFIX +:+ u16_be_bytes (String.length d) +:+ d +:+ x)%string.
Proof.
  unfold payload_for_purpose. intros Hp. apply rbind_Ok in Hp as (u & Hd & Hp).
  apply application_domain_Ok in Hd as (_ & _ & Hl & _). apply Ok_inj in Hp.
  split; [|by rewrite Hp]. unfold MAX_DOMAIN_BYTES in Hl. lia.
Qed.

(** Two purposes served by the same key: the message determines purpose and payload. *)
Lemma payload_binds p1 p2 r x1 x2 message :
  purpose_role p1 = Ok r → purpose_role p2 = Ok r →
  payload_for_purpose p1 x1 = Ok message → payload_for_purpose p2 x2 = Ok message →
  p1 = p2 ∧ x1 = x2.
Proof.
  intros R1 R2 M1 M2.
  assert (∀ d r', purpose_role (SigningPurpose.ApplicationAssertion d) = Ok r' →
    r' = KeyRole.E2eeSigning) as Happ.
  { intros d r' Hr. apply rbind_Ok in Hr as (u & _ & Hr). by apply Ok_inj in Hr. }
  destruct p1 as [| |d1], p2 as [| |d2];
    repeat match goal with
    | Hr : purpose_role (SigningPurpose.ApplicationAssertion _) = Ok _ |- _ => apply Happ in Hr
    end; try (simpl in R1, R2; congruence);
    [apply Ok_inj in M1, M2; by subst..|].
  apply application_payload in M1 as [L1 ->], M2 as [L2 M2]. apply string_app_inj_l in M2.
  apply string_app_length_inj in M2 as [Hl Heq]; [|done].
  apply u16_be_bytes_inj in Hl; [|done..]. by apply string_app_length_inj in Heq as [-> ->].
Qed.

(** ** Key selection *)

(** The keys of a handle have distinct identifiers, in canonical form. *)
Definition keys_wf (i : DidIdentity) : Prop :=
  NoDup (map kid (keys (di_record i))) ∧
  ∀ m, m ∈ keys (di_record i) → canonicalize_kid (did (di_record i)) (kid m) = Ok (kid m).

Lemma find_key_elem k l m : NoDup (map kid l) → m ∈ l → kid m = k → find_key k l = Some m.
Proof.
  intros Hnd Hm <-. induction l as [|x l IH]; [by apply not_elem_of_nil in Hm|].
  simpl in Hnd. apply NoDup_cons in Hnd as [Hx Hnd]. unfold find_key. simpl.
  case_bool_decide as Hk.
  - apply elem_of_cons in Hm as [->|Hm]; [done|]. exfalso. apply Hx. rewrite Hk.
    by apply list_elem_of_In, in_map, list_elem_of_In.
  - apply elem_of_cons in Hm as [->|Hm]; [done|]. by apply IH.
Qed.

Lemma identity_key_wf i m :
  keys_wf i → m ∈ keys (di_record i) → identity_key_metadata i (kid m) = Ok m.
Proof.
  intros [Hnd Hc] Hm. unfold identity_key_metadata. rewrite (Hc m Hm). simpl.
  by rewrite (find_key_elem (kid m) _ m).
Qed.

Section Selection.
Context `{Env}.

(** What both selections require of a key. *)
Definition serves (i : DidIdentity) (r : KeyRole.t) (m : KeyMetadata) : Prop :=
  m ∈ keys (di_record i) ∧ role m = r ∧ signable m = true ∧ relationship_authorizes i m r = true.

Lemma is_role_true r r' : is_role r r' = true ↔ r = r'.
Proof. unfold is_role. by rewrite bool_decide_eq_true. Qed.

Lemma select_kid_Ok i k r m :
  select_key i (KeySelector.Kid k) r = Ok m ↔ identity_key_metadata i k = Ok m ∧ serves i r m.
Proof.
  unfold select_key, require_role, require_relationship, serves. split.
  - intros Hs. inv_run Hs. apply from_engine_Ok in Hstep. do 3 inv_run Hs. injection Hs as ->.
    apply rguard_Ok, negb_false_iff in Hstep0, Hstep1, Hstep2. apply is_role_true in Hstep0.
    split_and!; try done. unfold identity_key_metadata in Hstep. inv_run Hstep.
    apply ok_or_Ok in Hstep. by apply find_key_kid in Hstep as [_ ?].
  - intros (Hk & _ & Hr & Hs & Ha). rewrite Hk. simpl.
    rewrite (proj2 (is_role_true _ _) Hr), Ha, Hs. done.
Qed.

Lemma unique_candidate_Ok l m : unique_candidate l = Ok m ↔ l = [m].
Proof. destruct l as [|x [|y l]]; simpl; naive_solver. Qed.

Lemma elem_of_candidates i r m :
  m ∈ List.filter (λ m, is_role (role m) r && signable m && relationship_authorizes i m r)
        (keys (di_record i)) ↔ serves i r m.
Proof.
  rewrite list_elem_of_In, filter_In, <-list_elem_of_In, !andb_true_iff, is_role_true.
  unfold serves. naive_solver.
Qed.

Lemma filter_NoDup_map (f : KeyMetadata → bool) l :
  NoDup (map kid l) → NoDup (List.filter f l).
Proof.
  induction l as [|x l IH]; simpl; intros Hnd; [constructor|].
  apply NoDup_cons in Hnd as [Hx Hnd]. destruct (f x); [|by apply IH].
  constructor; [|by apply IH]. intros Hin. apply Hx.
  apply list_elem_of_In, filter_In in Hin as [Hin _]. by apply list_elem_of_In, in_map.
Qed.

Lemma singleton_iff {A} (l : list A) (P : A → Prop) m :
  NoDup l → (∀ x, x ∈ l ↔ P x) → (l = [m] ↔ P m ∧ ∀ x, P x → x = m).
Proof.
  intros Hnd HP. split.
  - intros ->. split; [apply HP; constructor|]. intros x Hx%HP. set_solver.
  - intros [Hm Hu]. apply HP in Hm. destruct l as [|x [|y l]].
    + by apply not_elem_of_nil in Hm.
    + by apply list_elem_of_singleton in Hm as ->.
    + exfalso. apply NoDup_cons in Hnd as [Hx _]. apply Hx.
      rewrite (Hu x), <-(Hu y); [set_solver|apply HP; set_solver..].
Qed.

Lemma select_default_Ok i r m :
  NoDup (map kid (keys (di_record i))) →
  select_key i KeySelector.Default r = Ok m ↔ serves i r m ∧ ∀ m', serves i r m' → m' = m.
Proof.
  intros Hnd. unfold select_key. rewrite unique_candidate_Ok.
  apply singleton_iff; [by apply filter_NoDup_map|]. apply elem_of_candidates.
Qed.

Lemma select_key_serves i sel r m :
  keys_wf i → select_key i sel r = Ok m → serves i r m ∧ identity_key_metadata i (kid m) = Ok m.
Proof.
  intros Hwf Hs. assert (serves i r m) as Hm.
  { destruct sel; [by apply select_default_Ok in Hs as [? _]; [|apply Hwf]|].
    by apply select_kid_Ok in Hs as [_ ?]. }
  split; [done|]. apply identity_key_wf; [done|]. by destruct Hm.
Qed.

(** The default key of a purpose: without a key identifier, the selection returns a
    key exactly when naming that key would be accepted and naming any other key of the
    identity would be refused; two acceptable keys are reported as ambiguous, none as
    unavailable. *)
Theorem select_default_unique i r :
  keys_wf i →
  let accepted m := m ∈ keys (di_record i) ∧ select_key i (KeySelector.Kid (kid m)) r = Ok m in
  (∀ m, select_key i KeySelector.Default r = Ok m ↔ accepted m ∧ ∀ m', accepted m' → m' = m) ∧
  (select_key i KeySelector.Default r = Err Facade.KeyUnavailable ↔ ∀ m, ¬ accepted m) ∧
  (select_key i KeySelector.Default r = Err Facade.AmbiguousKey ↔
     ∃ m m', m ≠ m' ∧ accepted m ∧ accepted m').
Proof.
  intros Hwf accepted. assert (∀ m, accepted m ↔ serves i r m) as Hacc.
  { intros m. unfold accepted. rewrite select_kid_Ok. split; [naive_solver|].
    intros Hm. pose proof Hm as (Hin & _). split_and!; [done| |done]. by apply identity_key_wf. }
  pose proof (elem_of_candidates i r) as Hc. setoid_rewrite Hacc. setoid_rewrite <-Hc.
  pose proof (filter_NoDup_map (λ m, is_role (role m) r && signable m && relationship_authorizes i m r)
    _ (proj1 Hwf)) as Hnd. unfold select_key.
  destruct (List.filter _ _) as [|x [|y l]]; simpl; split_and!.
  - intros m. split; [done|]. intros [Hm _]. by apply not_elem_of_nil in Hm.
  - split; [|done]. intros _ m. apply not_elem_of_nil.
  - split; [done|]. intros (m & _ & _ & Hm & _). by apply not_elem_of_nil in Hm.
  - intros m. split; [intros [= ->]; set_solver|]. intros [Hm _]. set_solver.
  - split; [done|]. intros Hn. exfalso. apply (Hn x). set_solver.
  - split; [done|]. intros (m & m' & Hne & Hm & Hm'). set_solver.
  - intros m. split; [done|]. intros [Hm Hu]. exfalso. apply NoDup_cons in Hnd as [Hx _].
    apply Hx. rewrite (Hu x), <-(Hu y) by set_solver. set_solver.
  - split; [done|]. intros Hn. exfalso. apply (Hn x). set_solver.
  - split; [|done]. intros _. exists x, y. split; [|set_solver].
    intros ->. apply NoDup_cons in Hnd as [Hx _]. set_solver.
Qed.

(** ** Signing *)

Lemma sign_readonly i k message w : (sign i k message w).2 = w.
Proof.
  pose proof (run_crypto_readonly i (Sign k message) w) as Hr. simpl in Hr.
  unfold bind in Hr. by destruct (sign i k message w) as [[s|e] w'].
Qed.

Lemma managed_sign_Ok q i w s x :
  managed_sign q (i, w) = (Ok s, x) →
  x = (i, w) ∧ ∃ r m message, purpose_role (sq_purpose q) = Ok r ∧
    payload_for_purpose (sq_purpose q) (sq_payload q) = Ok message ∧
    select_key i (sq_key q) r = Ok m ∧ sig_kid s = kid m ∧
    sign i (kid m) message w = (Ok (sig_bytes s), w).
Proof.
  unfold managed_sign. intros Hs. inv_run Hs. apply lift_Ok in Hstep as [Hr ->].
  inv_run Hs. apply lift_Ok in Hstep as [Hp ->]. inv_run Hs. apply this_Ok in Hstep as [-> ->].
  inv_run Hs. apply lift_Ok in Hstep as [Hm ->]. inv_run Hs.
  apply asks_Ok in Hstep as (w' & Hsig & ->). apply ret_Ok in Hs as [-> ->]. simpl in *.
  pose proof (sign_readonly i (kid a1) a0 w) as Hw. rewrite Hsig in Hw. simpl in Hw. subst w'.
  split; [done|]. by exists a, a1, a0.
Qed.

(** C35.  Domain separation: two signatures that a handle makes with one key are made over
    the same message only when the purpose (the application domain included) and the payload
    of the two requests are the same; no payload of one application can be passed off as a
    payload of another one, or as a login. *)
Theorem signature_binds_purpose i w q1 s1 x1 q2 s2 x2 :
  keys_wf i →
  managed_sign q1 (i, w) = (Ok s1, x1) → managed_sign q2 (i, w) = (Ok s2, x2) →
  sig_kid s1 = sig_kid s2 →
  ∃ message1 message2,
    sign i (sig_kid s1) message1 w = (Ok (sig_bytes s1), w) ∧
    sign i (sig_kid s2) message2 w = (Ok (sig_bytes s2), w) ∧
    (message1 = message2 →
       sq_purpose q1 = sq_purpose q2 ∧ sq_payload q1 = sq_payload q2).
Proof.
  intros Hwf H1 H2 Hk.
  apply managed_sign_Ok in H1 as (_ & r1 & m1 & msg1 & R1 & P1 & S1 & K1 & G1).
  apply managed_sign_Ok in H2 as (_ & r2 & m2 & msg2 & R2 & P2 & S2 & K2 & G2).
  apply select_key_serves in S1 as [(_ & <- & _) E1], S2 as [(_ & <- & _) E2]; [|done..].
  exists msg1, msg2. rewrite K1, K2. split_and!; [done..|]. intros <-.
  assert (m1 = m2) as <- by congruence. by eapply payload_binds.
Qed.

(** C36.  Round trip of the facade: a signature that a managed identity makes verifies as
    [Valid] with the identifier it carries, when the document publishes the key whose secret
    the store holds. *)
Theorem managed_sign_verify `{!SignatureLaws} i w q s x :
  keys_wf i → managed_sign q (i, w) = (Ok s, x) →
  (∀ m, identity_key_metadata i (sig_kid s) = Ok m → publishes i (disk w) m) →
  managed_verify {| vq_purpose := sq_purpose q; vq_kid := sig_kid s; vq_payload := sq_payload q;
                    vq_signature := sig_bytes s |} (i, w) = (Ok VerificationOutcome.Valid, (i, w)).
Proof.
  intros Hwf Hs Hpub. apply managed_sign_Ok in Hs as (_ & r & m & message & Hr & Hp & Hsel & Hk & Hg).
  apply select_key_serves in Hsel as [(Hin & Hrole & Hsg & Ha) Hm]; [|done]. rewrite Hk in *.
  specialize (Hpub m Hm). unfold signable in Hsg.
  apply andb_true_iff in Hsg as [[Ho%bool_decide_eq_true Hst%bool_decide_eq_true]%andb_true_iff Her].
  apply negb_true_iff in Her.
  assert (verify i (kid m) message (sig_bytes s) = Ok tt) as Hv.
  { unfold sign in Hg. pose proof Hg as Hu. inv_run Hu.
    apply usable_key_Ok in Hstep as (_ & Hop & _ & Hf & _ & _ & Hroles).
    assert (managed_key_metadata i (kid m) = Ok m) as Hmm.
    { unfold managed_key_metadata. rewrite Hm. simpl. unfold rguard.
      by rewrite bool_decide_false by congruence. }
    assert (role m ∈ [KeyRole.DeviceSigning; KeyRole.RequestSigning; KeyRole.E2eeSigning]) as Hin'.
    { destruct (sq_purpose q); simpl in Hr; [injection Hr as <-; rewrite Hrole; set_solver..|].
      inv_run Hr. injection Hr as <-. rewrite Hrole. set_solver. }
    destruct (published_sign_verify i w (kid m) m message _ Hpub Hmm Hst
      ltac:(intros Hne; rewrite Hne in Hin'; set_solver) Hop Hin') as (sig & Hsig & Hver).
    rewrite Hg in Hsig. by injection Hsig as <-. }
  unfold managed_verify, bind, lift, this, sguard. simpl. rewrite Hr, Hm. simpl.
  unfold require_role, require_relationship, rguard.
  rewrite (proj2 (is_role_true _ _) Hrole), Ha. simpl.
  rewrite bool_decide_false by congruence. rewrite Her. simpl. by rewrite Hp, Hv.
Qed.
End Selection.

(** ** The manager *)

Section Manager.
Context `{Env}.

(** A reload of a store without open journals only refreshes the generation. *)
Lemma reload_quiescent s w s' w' registry :
  quiescent (disk w) → read_registry_at (disk w) = Ok registry →
  reload s w = (Ok s', w') →
  disk w' = disk w ∧
  s' = {| ds_runtime := ds_runtime s; registry_generation := reg_generation registry |}.
Proof.
  intros Hq Hreg Hr. unfold reload in Hr. inv_run Hr. apply ret_Ok in Hr as [-> ->].
  destruct (recover_quiescent _ _ Hq w (Ok a) w0 eq_refl Hstep) as [[Hd Ha] _].
  rewrite Hreg in Ha. by injection Ha as <-.
Qed.

Lemma open_identity_Ok s d w i w' :
  open_identity s d w = (Ok i, w') →
  w' = w ∧ di_runtime i = ds_runtime s ∧ did (di_record i) = d ∧
  ∃ registry sm, read_registry_at (disk w) = Ok registry ∧ identities registry !! d = Some sm ∧
    read_identity_at (is_identity_id sm) (disk w) = Ok (di_record i) ∧
    state (di_record i) = is_state sm ∧ state (di_record i) ≠ IdentityState.Creating.
Proof.
  unfold open_identity. intros Ho. inv_run Ho. injection Hstep as Hreg <-.
  inv_run Ho. apply lift_Ok in Hstep as [Hsm%ok_or_Ok ->]. inv_run Ho. injection Hstep as Hr <-.
  inv_run Ho. apply lift_Ok in Hstep as [Hg%rguard_Ok ->]. apply ret_Ok in Ho as [-> ->].
  apply orb_false_iff in Hg as [[Hd Hc]%orb_false_iff Hs].
  apply negb_false_iff, bool_decide_eq_true in Hd, Hs. apply bool_decide_eq_false in Hc.
  split_and!; [done..|]. by exists a, a0.
Qed.

Lemma open_identity_runs s d w registry sm r :
  read_registry_at (disk w) = Ok registry → identities registry !! d = Some sm →
  read_identity_at (is_identity_id sm) (disk w) = Ok r → did r = d →
  state r = is_state sm → state r ≠ IdentityState.Creating →
  open_identity s d w = (Ok {| di_runtime := ds_runtime s; di_record := r |}, w).
Proof.
  intros Hreg Hsm Hr Hd Hs Hc.
  unfold open_identity, read_registry, read_identity, reads, bind, sguard, rguard, lift, ret.
  rewrite Hreg. simpl. rewrite Hsm. simpl. rewrite Hr. simpl.
  rewrite bool_decide_true by done. rewrite bool_decide_false by done.
  by rewrite bool_decide_true by done.
Qed.

Lemma manager_get_Ok reference s w x y :
  manager_get reference (s, w) = (Ok x, y) →
  y = (s, w) ∧ validate_store s reference = Ok tt ∧
  ∃ i, open_identity s (ref_did reference) w = (Ok i, w) ∧
    identity_id (di_record i) = ref_identity_id reference ∧ x = wrap s i.
Proof.
  unfold manager_get, open_reference. intros Hg. inv_run Hg. apply this_Ok in Hstep as [-> ->].
  inv_run Hg. apply lift_Ok in Hstep as [Hv ->]. inv_run Hg. inv_run Hstep.
  apply asks_Ok in Hstep0 as (w' & Ho & ->). inv_run Hstep.
  apply lift_Ok in Hstep0 as [Hi%rguard_Ok ->]. apply ret_Ok in Hstep as [-> ->].
  apply ret_Ok in Hg as [-> ->]. apply negb_false_iff, bool_decide_eq_true in Hi.
  pose proof (open_identity_Ok _ _ _ _ _ Ho) as [-> _]. destruct_units.
  split_and!; [done..|]. by eexists.
Qed.

Lemma manager_get_runs reference s w i :
  validate_store s reference = Ok tt → open_identity s (ref_did reference) w = (Ok i, w) →
  identity_id (di_record i) = ref_identity_id reference →
  manager_get reference (s, w) = (Ok (wrap s i), (s, w)).
Proof.
  intros Hv Ho Hi. unfold manager_get, open_reference, bind, this, lift, asks, sguard, rguard.
  simpl. rewrite Hv, Ho. simpl. by rewrite bool_decide_true.
Qed.


(** C37.  Deletion through the manager: a deletion that returns makes the reference unknown,
    whatever generation the manager had last seen, and every other identity the manager
    could get before is still returned, unchanged. *)
Theorem manager_delete_isolated `{!Base64Laws, !DigestLaws} reference q s w s' w' registry :
  quiescent (disk w) → read_registry_at (disk w) = Ok registry →
  (reg_generation registry < u64_max)%N →
  manager_delete reference q (s, w) = (Ok tt, (s', w')) →
  manager_get reference (s', w') = (Err Facade.IdentityNotFound, (s', w')) ∧
  ∀ other x y, ref_did other ≠ ref_did reference →
    manager_get other (s, w) = (Ok x, y) → manager_get other (s', w') = (Ok x, (s', w')).
Proof.
  intros Hq Hreg Hlt Hd. unfold manager_delete, open_reference in Hd. inv_run Hd.
  apply this_Ok in Hstep as [-> ->]. inv_run Hd. apply lift_Ok in Hstep as [Hv ->].
  inv_run Hd. apply calls_unit_Ok in Hstep as (s1 & wr & Hrel & ->).
  destruct (reload_quiescent _ _ _ _ _ Hq Hreg Hrel) as [Hd1 ->].
  inv_run Hd. inv_run Hstep. apply asks_Ok in Hstep0 as (wo & Ho & ->).
  apply open_identity_Ok in Ho as (-> & _ & Hdid & registry1 & sm & Hreg1 & Hsm & Hr & _).
  inv_run Hstep. apply lift_Ok in Hstep0 as [_ ->]. apply ret_Ok in Hstep as [-> ->].
  apply calls_unit_Ok in Hd as (s2 & wd & Hdel & [= <- <-]).
  rewrite <-Hd1 in Hq. assert (registry1 = registry) as -> by (rewrite Hd1, Hreg in Hreg1; congruence).
  assert (∃ discard expected, delete_identity_namespace_inner
    {| ds_runtime := ds_runtime s; registry_generation := reg_generation registry |}
    (ref_did reference) expected discard None wr = (Ok s', w')) as (discard & expected & Hdel').
  { destruct (discard_pending_changes q); by eexists _, _. }
  pose proof (delete_namespace_safe _ _ _ _ _ _ _ _ _ Hq Hreg1 Hlt Hdel') as Hsafe.
  destruct (delete_namespace_frame _ _ _ _ _ _ _ _ _ _ Hq Hreg1 Hlt Hsm Hdel')
    as (Hgone & _ & (registry' & Hreg' & Hids) & Hother).
  assert (ds_runtime s' = ds_runtime s) as Hrt.
  { destruct Hsafe as [[_ Hn]|(? & ? & _ & _ & ->)]; [congruence|done]. }
  assert (manager_store_id s' = manager_store_id s) as Hsid by (unfold manager_store_id; by rewrite Hrt).
  assert (∀ o, validate_store s' o = validate_store s o) as Hvs.
  { intros o. unfold validate_store. by rewrite Hsid. }
  split.
  - unfold manager_get, open_reference. unfold bind at 1 2, this, lift. simpl. rewrite Hvs, Hv. simpl.
    unfold bind at 1 2. 
    by rewrite (asks_Err (λ s, open_identity s (ref_did reference)) _ _ _ _ Hgone).
  - intros other x y Hne Hget.
    apply manager_get_Ok in Hget as (-> & Hv' & j & Hj & Hid & ->).
    apply open_identity_Ok in Hj as (_ & Hjrt & Hjd & registry2 & sm' & Hreg2 & Hsm' & Hr' & Hst & Hcr).
    rewrite Hreg in Hreg2. injection Hreg2 as <-.
    assert (is_identity_id sm' ≠ is_identity_id sm) as Hii.
    { intros Heq. rewrite Heq in Hr'. rewrite Hd1, Hr' in Hr. congruence. }
    assert (wrap s j = wrap s' j) as -> by (unfold wrap; by rewrite Hsid).
    apply manager_get_runs; [by rewrite Hvs| |done].
    destruct (Hother _ Hii) as [Hread _].
    rewrite (open_identity_runs s' _ w' registry' sm' (di_record j)); [|try done..].
    + rewrite Hrt, <-Hjrt. by destruct j.
    + by rewrite Hids.
    + by rewrite Hread, Hd1.
Qed.
End Manager.

(** ** Witnesses *)

(** Requests in the concrete environment: an identity with a key for every purpose. *)
Definition managed_request (path : list string) : CreateIdentityRequest := {|
  cir_profile := CreateIdentityProfile.E1; cir_domain := "example.com"; cir_port := None;
  cir_path_segments := path; cir_did_wba := true;
  cir_managed_keys :=
    [{| mki_fragment := "root"; mki_role := ManagedKeyRole.RootControl |};
     {| mki_fragment := "device"; mki_role := ManagedKeyRole.DeviceSigning |};
     {| mki_fragment := "agreement"; mki_role := ManagedKeyRole.E2eeAgreement |};
     {| mki_fragment := "app"; mki_role := ManagedKeyRole.E2eeSigning |};
     {| mki_fragment := "request"; mki_role := ManagedKeyRole.RequestSigning |}];
  cir_external_keys := []; cir_services := []; cir_agent_description_url := None;
  cir_extensions := [] |}.

Definition chat_request (payload : string) : SignRequest := {|
  sq_purpose := SigningPurpose.ApplicationAssertion "chat"; sq_key := KeySelector.Default;
  sq_payload := payload |}.

Definition keys_wf_b (i : DidIdentity) : bool :=
  bool_decide (NoDup (map kid (keys (di_record i))))
  && forallb (λ m, bool_decide (canonicalize_kid (did (di_record i)) (kid m) = Ok (kid m)))
       (keys (di_record i)).
Definition publishes_b (i : DidIdentity) (w : World) (k : string) : bool :=
  match identity_key_metadata i k with
  | Ok m =>
      match @open_secret_at toy_env (di_runtime i) (ref_of_key (identity_id (di_record i)) m)
              (disk w) with
      | Ok secret =>
          bool_decide (String.length secret = 32)
          && bool_decide (@document_public_key toy_env (document (di_record i)) (kid m)
                          = Ok (@public_key_from_raw toy_env (role m) secret))
      | Err _ => false
      end
  | Err _ => false
  end.

Lemma keys_wf_b_true i : keys_wf_b i = true → keys_wf i.
Proof.
  unfold keys_wf_b. intros [Hnd%bool_decide_eq_true Hc]%andb_true_iff. split; [done|].
  intros m Hm. rewrite forallb_forall in Hc. apply list_elem_of_In, Hc in Hm.
  by apply bool_decide_eq_true in Hm.
Defined.

Lemma publishes_b_true i w k m :
  publishes_b i w k = true → identity_key_metadata i k = Ok m → @publishes toy_env i (disk w) m.
Proof.
  unfold publishes_b. intros Hp Hm. rewrite Hm in Hp. unfold publishes.
  destruct (open_secret_at _ _ _) as [secret|]; [|done]. exists secret.
  apply andb_true_iff in Hp as [Hl Hd]. apply bool_decide_eq_true in Hl, Hd. done.
Defined.

Definition signing_test : bool :=
  match @manager_create toy_env (managed_request ["agents"; "alice"]) (sample_store, initial_world) with
  | (Ok (mi, i), (s, w)) =>
      keys_wf_b i
      && match @managed_sign toy_env (chat_request "hello") (i, w) with
         | (Ok g, _) => publishes_b i w (sig_kid g)
         | _ => false
         end
  | _ => false
  end.

(** An identity is created and signs for an application. *)
Lemma signing_scenario : ∃ mi i s w g x,
  @manager_create toy_env (managed_request ["agents"; "alice"]) (sample_store, initial_world)
    = (Ok (mi, i), (s, w)) ∧ keys_wf i ∧
  @managed_sign toy_env (chat_request "hello") (i, w) = (Ok g, x) ∧
  publishes_b i w (sig_kid g) = true.
Proof.
  assert (signing_test = true) as Ht by (vm_compute; reflexivity). unfold signing_test in Ht.
  destruct (manager_create _ _) as [[[mi i]|e] [s w]]; [|discriminate Ht].
  apply andb_true_iff in Ht as [Hwf%keys_wf_b_true Ht].
  destruct (managed_sign _ _) as [[g|e] x] eqn:Hg; [|discriminate Ht].
  by exists mi, i, s, w, g, x.
Defined.

Lemma select_default_unique_witness : ∃ i m,
  @select_key toy_env i KeySelector.Default KeyRole.E2eeSigning = Ok m ∧
  @select_key toy_env i (KeySelector.Kid (kid m)) KeyRole.E2eeSigning = Ok m.
Proof.
  destruct signing_scenario as (mi & i & s & w & g & x & _ & Hwf & Hg & _).
  destruct (@managed_sign_Ok toy_env _ _ _ _ _ Hg) as (_ & r & m & msg & Hr & _ & Hs & _).
  apply Ok_inj in Hr as <-.
  destruct (@select_default_unique toy_env i KeyRole.E2eeSigning Hwf) as [Hd _].
  exists i, m. split; [exact Hs|]. exact (proj2 (proj1 (proj1 (Hd m) Hs))).
Defined.

Lemma signature_binds_purpose_witness : ∃ i w g message1 message2,
  @sign toy_env i (sig_kid g) message1 w = (Ok (sig_bytes g), w) ∧
  (message1 = message2 → sq_payload (chat_request "hello") = "hello"%string).
Proof.
  destruct signing_scenario as (mi & i & s & w & g & x & _ & Hwf & Hg & _).
  destruct (@signature_binds_purpose toy_env i w _ _ _ _ _ _ Hwf Hg Hg eq_refl)
    as (m1 & m2 & H1 & _ & _).
  exists i, w, g, m1, m2. split; [exact H1|reflexivity].
Defined.

Lemma managed_sign_verify_witness : ∃ i w g,
  @managed_verify toy_env
    {| vq_purpose := SigningPurpose.ApplicationAssertion "chat"; vq_kid := sig_kid g;
       vq_payload := "hello"; vq_signature := sig_bytes g |} (i, w)
  = (Ok VerificationOutcome.Valid, (i, w)).
Proof.
  destruct signing_scenario as (mi & i & s & w & g & x & _ & Hwf & Hg & Hp).
  exists i, w, g.
  exact (@managed_sign_verify toy_env toy_signature_laws i w _ g x Hwf Hg
    (λ m Hm, publishes_b_true i w _ m Hp Hm)).
Defined.


Definition registry_of (w : World) : IdentityRegistry :=
  match @read_registry_at toy_env (disk w) with Ok r => r | Err _ => default_registry end.
Definition settled_b (w : World) : bool :=
  bool_decide (size (d_journals (disk w)) = 0) && bool_decide (size (d_updates (disk w)) = 0)
  && is_ok (@read_registry_at toy_env (disk w))
  && bool_decide (reg_generation (registry_of w) < u64_max)%N.

Lemma settled_b_true w :
  settled_b w = true →
  @quiescent toy_env (disk w) ∧ @read_registry_at toy_env (disk w) = Ok (registry_of w) ∧
  (reg_generation (registry_of w) < u64_max)%N.
Proof.
  unfold settled_b. intros Hs. apply andb_true_iff in Hs as [Hs Hg%bool_decide_eq_true].
  apply andb_true_iff in Hs as [Hs Hr]. apply is_ok_Ok in Hr as [r Hr].
  apply andb_true_iff in Hs as [Hj%bool_decide_eq_true Hu%bool_decide_eq_true].
  assert (read_registry_at (disk w) = Ok (registry_of w)) as Hreg by (unfold registry_of; by rewrite Hr).
  split_and!; [|done..]. split_and!; [by apply map_size_empty_inv..|]. by exists (registry_of w).
Defined.

Definition deletion_test : bool :=
  match @manager_create toy_env (managed_request ["agents"; "alice"]) (sample_store, initial_world) with
  | (Ok (a, _), x) =>
      match @manager_create toy_env (managed_request ["agents"; "bob"]) x with
      | (Ok (b, _), (s, w)) =>
          settled_b w && negb (bool_decide (ref_did (mi_reference b) = ref_did (mi_reference a)))
          && is_ok (@manager_get toy_env (mi_reference b) (s, w)).1
          && is_ok (@manager_delete toy_env (mi_reference a)
                      {| discard_pending_changes := false |} (s, w)).1
      | _ => false
      end
  | _ => false
  end.

Lemma manager_delete_isolated_witness : ∃ a b s w x,
  @manager_get toy_env a (s, w) = (Err Facade.IdentityNotFound, (s, w)) ∧
  @manager_get toy_env b (s, w) = (Ok x, (s, w)).
Proof.
  assert (deletion_test = true) as Ht by (vm_compute; reflexivity). unfold deletion_test in Ht.
  destruct (manager_create _ _) as [[[a ai]|e] x1]; [|discriminate Ht].
  destruct (manager_create _ _) as [[[b bi]|e] [s w]]; [|discriminate Ht].
  apply andb_true_iff in Ht as [Ht Hd]. apply andb_true_iff in Ht as [Ht Hg].
  apply andb_true_iff in Ht as [Hq%settled_b_true Hne%negb_true_iff%bool_decide_eq_false].
  destruct Hq as (Hq & Hreg & Hlt).
  destruct (manager_get (mi_reference b) (s, w)) as [[x|e] y] eqn:Eg; [|discriminate Hg].
  destruct (manager_delete _ _ _) as [[[]|e] [s' w']] eqn:Ed; [|discriminate Hd].
  destruct (@manager_delete_isolated toy_env toy_base64_laws toy_digest_laws _ _ s w s' w' _
    Hq Hreg Hlt Ed) as [H1 H2].
  exists (mi_reference a), (mi_reference b), s', w', x. split; [exact H1|].
  exact (H2 _ _ _ Hne Eg).
Defined.
