(* ===== verification/DocumentChangeFacts.v ===== *)
(** * Correctness of document change sessions (facade/document_change.rs)

    The translation of a request into an engine update against a closed definition, and
    the refinement of an abstract session machine by every call of a session. *)

From stdpp Require Import base strings list gmap.
From S2P Require Import Prelude Json Errors Records Env Toy Input World Document Keystore Registry.
From S2P Require Import Recovery Identity RecordFacts Adoption Lifecycle IdentityFacts Namespace.
From S2P Require Import Scenario LifecycleFacts Managed DocumentChange ManagedFacts.

(** ** Requests *)

(** The engine update of a request, without the loop: at most one rotation and at most one
    replacement of the services; the other changes in the order given. *)
Definition rotation_of (c : DocumentChange.t) : option RequestSigningRotation :=
  match c with
  | DocumentChange.RotateSigningKey old new => Some {| old_kid := old; new_fragment := new |}
  | _ => None
  end.
Definition request_mutation_of (c : DocumentChange.t) : option RequestSigningMutationSpec :=
  match c with
  | DocumentChange.AddAuthenticationKey key => Some (AddRequestKey (public_key_spec key))
  | DocumentChange.RemoveAuthenticationKey k => Some (RemoveRequestKey k)
  | _ => None
  end.
Definition device_mutation_of (c : DocumentChange.t) : option DeviceMutationSpec :=
  match c with
  | DocumentChange.AddDevice d => Some (AddDevice (device_add_spec d))
  | DocumentChange.RemoveDevice id => Some (RemoveDevice id)
  | DocumentChange.AddDeviceProfiles id profiles => Some (AddProfiles id profiles)
  | _ => None
  end.
Definition services_of (c : DocumentChange.t) : option (list ServiceSpec) :=
  match c with
  | DocumentChange.ReplaceServices l => Some (map service_of_identity l)
  | _ => None
  end.

(** The changes [cs] on top of [spec]. *)
Definition extended_spec (spec : DocumentUpdateSpec) (cs : list DocumentChange.t)
    : IdentityResult DocumentUpdateSpec :=
  let rotations := option_list (request_signing_rotation spec) ++ omap rotation_of cs in
  let replacements := option_list (update_services spec) ++ omap services_of cs in
  if (1 <? length rotations) || (1 <? length replacements) then Err Facade.InvalidRequest
  else Ok {| request_signing_rotation := head rotations;
             request_signing_mutations :=
               request_signing_mutations spec ++ omap request_mutation_of cs;
             device_mutations := device_mutations spec ++ omap device_mutation_of cs;
             update_services := head replacements |}.

Definition reference_spec (cs : list DocumentChange.t) : IdentityResult DocumentUpdateSpec :=
  match cs with
  | [] => Err Facade.InvalidRequest
  | _ => extended_spec empty_spec cs
  end.

Lemma fold_add_change cs spec : fold_result add_change cs spec = extended_spec spec cs.
Proof.
  revert spec. induction cs as [|c cs IH]; intros spec.
  - destruct spec as [rot muts devs svc]. unfold extended_spec. simpl.
    rewrite !app_nil_r. by destruct rot, svc.
  - destruct spec as [rot muts devs svc]. simpl. destruct c; simpl; rewrite ?IH.
    1: destruct rot as [x|]; simpl; [|by rewrite IH].
    7: destruct svc as [x|]; simpl; [|by rewrite IH].
    all: unfold extended_spec; simpl; rewrite <-?app_assoc; try done.
    by rewrite orb_true_r.
Qed.

(** A request is translated as it is read: the loop of [into_engine_spec] computes the
    closed definition, so a request is refused exactly when it is empty or has two rotations
    or two replacements of the services, and changes of different kinds may be given in any
    order. *)
Theorem into_engine_spec_reference cs : into_engine_spec cs = reference_spec cs.
Proof. unfold into_engine_spec. destruct cs as [|c cs]; [done|]. apply fold_add_change. Qed.

(** ** Sessions *)

Inductive session_op :=
  | BeginPublication
  | Complete (attempt : PublicationAttempt) (res : PublicationResult.t)
  | Reconcile (o : VerifiedRemoteDocument)
  | ReconcileRejected (o : VerifiedRemoteDocument).

Inductive session_out :=
  | Attempt (a : PublicationAttempt)
  | Outcome (o : DocumentChangeOutcome.t).

(** What a session promises: the steps on the pending revision [oid] and its state. *)
Inductive session_step (oid : string) : session_op → session_out →
    option (string * PublicationState.t) → option (string * PublicationState.t) → Prop :=
  | session_begins a :
      session_step oid BeginPublication (Attempt a)
        (Some (oid, PublicationState.Prepared)) (Some (oid, PublicationState.PublicationInFlight))
  | session_begins_again a st :
      st = PublicationState.PublicationInFlight ∨ st = PublicationState.Published →
      session_step oid BeginPublication (Attempt a) (Some (oid, st)) (Some (oid, st))
  | session_confirmed a e identity st :
      st = PublicationState.PublicationInFlight ∨ st = PublicationState.Published →
      session_step oid (Complete a (PublicationResult.Confirmed e))
        (Outcome (DocumentChangeOutcome.Committed identity)) (Some (oid, st)) None
  | session_rejected a :
      session_step oid (Complete a PublicationResult.RejectedBeforeAcceptance)
        (Outcome DocumentChangeOutcome.Aborted)
        (Some (oid, PublicationState.PublicationInFlight)) None
  | session_unknown a :
      session_step oid (Complete a PublicationResult.Unknown)
        (Outcome DocumentChangeOutcome.PublicationUncertain)
        (Some (oid, PublicationState.PublicationInFlight))
        (Some (oid, PublicationState.PublicationUncertain))
  | session_reconciled o identity :
      session_step oid (Reconcile o) (Outcome (DocumentChangeOutcome.Committed identity))
        (Some (oid, PublicationState.PublicationUncertain)) None
  | session_remote_old o :
      session_step oid (Reconcile o) (Outcome DocumentChangeOutcome.ReadyForPublication)
        (Some (oid, PublicationState.PublicationUncertain))
        (Some (oid, PublicationState.Prepared))
  | session_still_uncertain o :
      session_step oid (Reconcile o) (Outcome DocumentChangeOutcome.PublicationUncertain)
        (Some (oid, PublicationState.PublicationUncertain))
        (Some (oid, PublicationState.PublicationUncertain))
  | session_reconciled_rejected o :
      session_step oid (ReconcileRejected o) (Outcome DocumentChangeOutcome.Aborted)
        (Some (oid, PublicationState.PublicationUncertain)) None.

Section Sessions.
Context `{Env}.

Definition run_session (s : DocumentChangeSession) (op : session_op) : HM DidIdentity session_out :=
  match op with
  | BeginPublication => let! a := session_begin s in ret (Attempt a)
  | Complete a res => let! o := session_complete s a res in ret (Outcome o)
  | Reconcile obs => let! o := session_reconcile s obs in ret (Outcome o)
  | ReconcileRejected obs => let! o := session_reconcile_rejected s obs in ret (Outcome o)
  end.

Lemma session_pending_Ok s i p :
  session_pending s i = Ok p →
  pending_revision (di_record i) = Some p ∧ revision_id p = pdc_operation_id (candidate s) ∧
  candidate_digest p = pdc_candidate_digest (candidate s) ∧
  publication (di_record i) = Some (pdc_operation_id (candidate s), pr_state p).
Proof.
  unfold session_pending. intros Hp. inv_run Hp. apply ok_or_Ok in Hstep. inv_run Hp.
  injection Hp as ->. apply rguard_Ok in Hstep0.
  apply orb_false_iff in Hstep0 as [[[H1 H2]%orb_false_iff _]%orb_false_iff _].
  apply negb_false_iff, bool_decide_eq_true in H1, H2. rewrite (publication_pending _ _ Hstep).
  by rewrite H1.
Qed.

Lemma pending_now_Ok s i w p x :
  pending_now s (i, w) = (Ok p, x) → x = (i, w) ∧ session_pending s i = Ok p.
Proof.
  unfold pending_now. intros Hp. inv_run Hp. apply this_Ok in Hstep as [-> ->].
  by apply lift_Ok in Hp as [Hp ->].
Qed.

Lemma committed_outcome_Ok s i w o x :
  committed_outcome s (i, w) = (Ok o, x) → x = (i, w) ∧
  ∃ identity, project_public_identity (dcs_store_id s) i = Ok identity ∧
    o = DocumentChangeOutcome.Committed identity.
Proof.
  unfold committed_outcome. intros Hp. inv_run Hp. apply this_Ok in Hstep as [-> ->].
  inv_run Hp. apply lift_Ok in Hstep as [Hi ->]. apply ret_Ok in Hp as [-> ->]. eauto.
Qed.

(** A call of the engine seen through a handle that is in step with the store. *)
Lemma engine_step i op w i' w' :
  in_sync i (disk w) → reconciles op = false → run_op i op w = (Ok i', w') →
  in_sync i' (disk w') ∧ pub_step op (publication (di_record i)) (publication (di_record i')).
Proof.
  intros Hsync Hd Hrun. apply run_op_step in Hrun as (r & Hrep & Hstep); [|done].
  destruct (replaces_synced _ _ _ _ _ Hrep Hsync) as (Hp & _). split; [by eapply replaces_in_sync|].
  unfold publication in *. by rewrite <-Hp.
Qed.

Lemma engine_keeps_document i op w i' w' :
  in_sync i (disk w) → run_op i op w = (Ok i', w') → (∀ rid, ¬ decides rid op) →
  document (di_record i') = document (di_record i) ∧ revision (di_record i') = revision (di_record i).
Proof.
  intros Hsync Hrun Hne. destruct (run_op_document _ _ _ _ _ Hrun Hne) as (r & Hrep & -> & ->).
  by destruct (replaces_synced _ _ _ _ _ Hrep Hsync) as (_ & -> & ->).
Qed.

Lemma engine_commits_candidate i rid b e w i' w' p :
  in_sync i (disk w) → commit_pending i rid b e w = (Ok i', w') →
  pending_revision (di_record i) = Some p → document (di_record i') = candidate_document p.
Proof.
  intros Hsync Hrun Hp. apply commit_run in Hrun as (r & q & x & Hrep & Hq & _ & _ & _ & _ & Hx & Hi).
  destruct (replaces_synced _ _ _ _ _ Hrep Hsync) as (Hpend & _).
  assert (q = p) as -> by congruence. rewrite Hi. simpl. unfold committed_record in Hx.
  do 4 inv_run Hx. by injection Hx as <-.
Qed.

Lemma project_document sid i p :
  project_public_identity sid i = Ok p →
  pid_document p = document (di_record i) ∧ pid_revision p = revision (di_record i).
Proof. unfold project_public_identity. intros Hp. inv_run Hp. by injection Hp as <-. Qed.

(** What a step does to the document of the handle. *)
Definition document_effect (i i' : DidIdentity) (out : session_out) : Prop :=
  match out with
  | Outcome (DocumentChangeOutcome.Committed identity) =>
      ∃ p, pending_revision (di_record i) = Some p ∧
        document (di_record i') = candidate_document p ∧
        pid_document identity = candidate_document p ∧
        pid_revision identity = revision (di_record i')
  | _ => document (di_record i') = document (di_record i) ∧
         revision (di_record i') = revision (di_record i)
  end.

Definition session_effect (s : DocumentChangeSession) (op : session_op) (out : session_out)
    (i : DidIdentity) (i' : DidIdentity) (w' : World) : Prop :=
  in_sync i' (disk w') ∧
  session_step (pdc_operation_id (candidate s)) op out (publication (di_record i))
    (publication (di_record i')) ∧
  document_effect i i' out.

Lemma begin_effect s i w a i' w' :
  in_sync i (disk w) → session_begin s (i, w) = (Ok a, (i', w')) →
  session_effect s BeginPublication (Attempt a) i i' w'.
Proof.
  intros Hsync Hb. unfold session_begin in Hb. inv_run Hb.
  apply pending_now_Ok in Hstep as [-> Hp]. apply session_pending_Ok in Hp as (_ & _ & _ & Hpub).
  inv_run Hb. inv_run Hb. apply ret_Ok in Hb as [-> <-]. unfold session_effect. rewrite Hpub.
  destruct (pr_state _) eqn:Hst.
  - apply calls_unit_Ok in Hstep as (j & wj & Hrun & ->). apply pending_now_Ok in Hstep0 as [[= -> ->] _].
    destruct (engine_step _ (Begin _) _ _ _ Hsync eq_refl Hrun) as [Hs Hstep]. rewrite Hpub in Hstep.
    split_and!; [done| |by apply (engine_keeps_document _ (Begin _) _ _ _ Hsync Hrun ltac:(by intros ? []))].
    inversion Hstep. by constructor.
  - apply ret_Ok in Hstep as [_ ->]. apply pending_now_Ok in Hstep0 as [[= -> ->] _].
    split_and!; [done|rewrite Hpub; by constructor; left|done].
  - done.
  - apply ret_Ok in Hstep as [_ ->]. apply pending_now_Ok in Hstep0 as [[= -> ->] _].
    split_and!; [done|rewrite Hpub; by constructor; right|done].
Qed.

(** The committing calls: a commit of the engine, then the projection. *)
Lemma commit_effect_session s i w oid b e o x p :
  in_sync i (disk w) → pending_revision (di_record i) = Some p →
  (do! calls_unit (λ i, commit_pending i oid b e); committed_outcome s) (i, w) = (Ok o, x) →
  ∃ i' identity, x.1 = i' ∧ o = DocumentChangeOutcome.Committed identity ∧
    in_sync i' (disk x.2) ∧
    pub_step (Commit oid b e) (publication (di_record i)) (publication (di_record i')) ∧
    document_effect i i' (Outcome o).
Proof.
  intros Hsync Hp Hc. inv_run Hc. apply calls_unit_Ok in Hstep as (j & wj & Hrun & ->).
  apply committed_outcome_Ok in Hc as (-> & identity & Hid & ->). exists j, identity. simpl.
  destruct (engine_step _ (Commit oid b e) _ _ _ Hsync eq_refl Hrun) as [Hs Hstep].
  split_and!; [done..|]. exists p. apply project_document in Hid as [-> ->].
  by rewrite (engine_commits_candidate _ _ _ _ _ _ _ _ Hsync Hrun Hp).
Qed.

Lemma pub_step_commit_None oid b e p p' : pub_step (Commit oid b e) p p' → p' = None.
Proof. by inversion 1. Qed.

(** A call of the engine that is not a commit, then a fixed outcome. *)
Lemma engine_effect i op w i' w' :
  in_sync i (disk w) → run_op i op w = (Ok i', w') → (∀ rid, ¬ decides rid op) →
  in_sync i' (disk w') ∧ pub_step op (publication (di_record i)) (publication (di_record i')) ∧
  document (di_record i') = document (di_record i) ∧ revision (di_record i') = revision (di_record i).
Proof.
  intros Hsync Hrun Hne.
  assert (reconciles op = false) as Hd by (destruct op; try done; by destruct (Hne rid)).
  destruct (engine_step _ _ _ _ _ Hsync Hd Hrun).
  split; [done|]. split; [done|]. by apply (engine_keeps_document i op w i' w').
Qed.

Lemma complete_effect s i w a res o i' w' :
  in_sync i (disk w) → session_complete s a res (i, w) = (Ok o, (i', w')) →
  session_effect s (Complete a res) (Outcome o) i i' w'.
Proof.
  intros Hsync Hc. unfold session_complete in Hc. inv_run Hc.
  apply pending_now_Ok in Hstep as [-> Hp]. apply session_pending_Ok in Hp as (Hpr & Hrid & _ & Hpub).
  inv_run Hc. apply lift_Ok in Hstep as [_ ->]. unfold session_effect. rewrite Hpub.
  destruct res as [e| |]; inv_run Hc; apply lift_Ok in Hstep as [Hg ->].
  - inv_run Hc. apply lift_Ok in Hstep as [Hst%rguard_Ok ->].
    apply negb_false_iff, orb_true_iff in Hst. rewrite !bool_decide_eq_true in Hst.
    destruct (commit_effect_session _ _ _ _ _ _ _ _ _ Hsync Hpr Hc)
      as (j & identity & Hj & -> & Hs & Hstep & Hd). simpl in *. subst j.
    apply pub_step_commit_None in Hstep as ->. split_and!; [done| |done]. by constructor.
  - apply rguard_Ok, negb_false_iff, bool_decide_eq_true in Hg.
    inv_run Hc. apply calls_unit_Ok in Hstep as (j & wj & Hrun & ->).
    inv_run Hc. apply calls_unit_Ok in Hstep as (k & wk & Hrun' & ->).
    apply ret_Ok in Hc as [-> [= -> ->]].
    destruct (engine_effect _ (Rejected _) _ _ _ Hsync Hrun ltac:(by intros ? [])) as (Hs & _ & D1 & R1).
    destruct (engine_effect _ (Abort _ None) _ _ _ Hs Hrun' ltac:(by intros ? [])) as (Hs' & Hstep & D2 & R2).
    split; [done|]. split; [|split; congruence]. rewrite Hg. inversion Hstep. constructor.
  - apply rguard_Ok, negb_false_iff, bool_decide_eq_true in Hg.
    inv_run Hc. apply calls_unit_Ok in Hstep as (j & wj & Hrun & ->).
    apply ret_Ok in Hc as [-> [= -> ->]].
    destruct (engine_effect _ (Uncertain _) _ _ _ Hsync Hrun ltac:(by intros ? [])) as (Hs & Hstep & Hd).
    split; [done|]. split; [|done]. rewrite Hg. inversion Hstep. constructor.
Qed.

Lemma reconcile_effect s i w obs o i' w' :
  in_sync i (disk w) → session_reconcile s obs (i, w) = (Ok o, (i', w')) →
  session_effect s (Reconcile obs) (Outcome o) i i' w'.
Proof.
  intros Hsync Hc. unfold session_reconcile in Hc. inv_run Hc. apply lift_Ok in Hstep as [_ ->].
  inv_run Hc. apply pending_now_Ok in Hstep as [-> Hp].
  apply session_pending_Ok in Hp as (Hpr & Hrid & _ & Hpub).
  inv_run Hc. apply lift_Ok in Hstep as [Hst%rguard_Ok ->].
  apply negb_false_iff, bool_decide_eq_true in Hst. unfold session_effect. rewrite Hpub, Hst.
  inv_run Hc. set (oid := pdc_operation_id (candidate s)) in *.
  assert (a2 = ReconcileOutcome.Committed ∧ (∃ e, (do! calls_unit (λ i, commit_pending i oid true e);
      committed_outcome s) (i, w) = (Ok o, (i', w'))) ∨
    a2 = ReconcileOutcome.RemoteOld ∧ ∃ j wj, w0 = (j, wj) ∧
      ((j = i ∧ wj = w) ∨ run_op i (RemoteOld oid) w = (Ok j, wj))) as Hcase.
  { case_bool_decide.
    - inv_run Hstep. apply ret_Ok in Hstep as [-> ->]. left. split; [done|].
      eexists. apply bind_Ok. eexists _, _. split; [exact Hstep0|exact Hc].
    - apply calls_Ok in Hstep as (j & wj & Hrun & ->). 
      apply reconcile_run in Hrun as (p & dg & _ & _ & _ & _ & Hrun).
      destruct a2; [right; naive_solver|left]. destruct Hrun as [_ Hrun]. split; [done|]. exists None. apply bind_Ok.
      exists tt, (j, wj). split; [apply calls_unit_Ok; eauto|exact Hc]. }
  destruct Hcase as [(-> & e & Hcc)|(-> & j & wj & -> & Hj)].
  - destruct (commit_effect_session _ _ _ _ _ _ _ _ _ Hsync Hpr Hcc)
      as (j & identity & Hj & -> & Hs & Hstep' & Hd). simpl in *. subst j.
    apply pub_step_commit_None in Hstep' as ->. split_and!; [done|constructor|done].
  - inv_run Hc. apply pending_now_Ok in Hstep0 as [-> Hp']. apply ret_Ok in Hc as [-> [= -> ->]].
    apply session_pending_Ok in Hp' as (_ & _ & _ & Hpub'). fold oid in Hpub'. rewrite Hpub'.
    destruct Hj as [[-> ->]|Hrun].
    + rewrite Hpub in Hpub'. injection Hpub' as <-. rewrite Hst, bool_decide_true by done.
      split_and!; [done|constructor|done].
    + destruct (engine_effect _ (RemoteOld _) _ _ _ Hsync Hrun ltac:(by intros ? [])) as (Hs & Hstep' & Hd).
      rewrite Hpub, Hst, Hpub' in Hstep'.
      assert (pr_state a2 = PublicationState.Prepared) as -> by by inversion Hstep'.
      split_and!; [done|constructor|done].
Qed.

Lemma reconcile_rejected_effect s i w obs o i' w' :
  in_sync i (disk w) → session_reconcile_rejected s obs (i, w) = (Ok o, (i', w')) →
  session_effect s (ReconcileRejected obs) (Outcome o) i i' w'.
Proof.
  intros Hsync Hc. unfold session_reconcile_rejected in Hc. inv_run Hc.
  apply lift_Ok in Hstep as [_ ->]. inv_run Hc. apply pending_now_Ok in Hstep as [-> Hp].
  apply session_pending_Ok in Hp as (Hpr & Hrid & _ & Hpub).
  inv_run Hc. apply calls_unit_Ok in Hstep as (j & wj & Hrun & ->).
  apply ret_Ok in Hc as [-> [= -> ->]]. unfold session_effect.
  destruct (engine_effect _ (Abort _ (Some _)) _ _ _ Hsync Hrun ltac:(by intros ? [])) as (Hs & Hstep & Hd).
  split_and!; [done| |done]. inversion Hstep; subst. constructor.
Qed.

(** C34.  Refinement of the session machine: a call of a session that returns, on an engine
    that is in step with the store, makes the step of [session_step] its outcome names on
    the pending revision of the session; the document changes exactly when the outcome is
    [Committed], and then it is the candidate of the pending revision, which is the document
    of the identity that is returned. *)
Theorem session_refines_machine s op i w out i' w' :
  in_sync i (disk w) → run_session s op (i, w) = (Ok out, (i', w')) →
  session_effect s op out i i' w'.
Proof.
  intros Hsync. destruct op; simpl; intros Hr; inv_run Hr; apply ret_Ok in Hr as [-> <-].
  - by eapply begin_effect.
  - by eapply complete_effect.
  - by eapply reconcile_effect.
  - by eapply reconcile_rejected_effect.
Qed.
End Sessions.

(** ** Witnesses *)

Definition rotate_request : list DocumentChange.t :=
  [DocumentChange.RotateSigningKey "request" "request-2"].
Definition confirmation (s : DocumentChangeSession) : PublicationResult.t :=
  PublicationResult.Confirmed
    {| vpe_document_version := 2; vpe_registry_version := 2;
       vpe_document_digest := pdc_candidate_digest (candidate s) |}.

Definition session_test : bool :=
  match @create_identity toy_env sample_store sample_spec initial_world with
  | (Ok (st, i), w) =>
      let mi := (wrap st i).1 in
      match @prepare_document_change toy_env mi rotate_request (i, w) with
      | (Ok s, x) =>
          match @run_session toy_env s BeginPublication x with
          | (Ok (Attempt a), y) =>
              is_ok (@run_session toy_env s (Complete a (confirmation s)) y).1
          | _ => false
          end
      | _ => false
      end
  | _ => false
  end.

Lemma session_step_confirmed oid a e out p p' :
  session_step oid (Complete a (PublicationResult.Confirmed e)) out p p' →
  p' = None ∧ ∃ identity, out = Outcome (DocumentChangeOutcome.Committed identity).
Proof. inversion 1; eauto. Defined.

Lemma session_refines_machine_witness : ∃ s a i w i' w' identity,
  @run_session toy_env s (Complete a (confirmation s)) (i, w)
    = (Ok (Outcome (DocumentChangeOutcome.Committed identity)), (i', w')) ∧
  publication (di_record i') = None ∧ pid_document identity = document (di_record i').
Proof.
  assert (session_test = true) as Ht by (vm_compute; reflexivity). unfold session_test in Ht.
  destruct (create_identity _ _ _) as [[[st i]|e] w] eqn:Hc; [|discriminate Ht].
  pose proof (created_in_sync _ _ _ Hc) as Hsync. clear Hc. cbv zeta in Ht.
  destruct (prepare_document_change _ _ _) as [[s|e] [i1 w1]] eqn:Hp; [|discriminate Ht].
  destruct (run_session s BeginPublication _) as [[[a|o]|e] [i2 w2]] eqn:Hb; try discriminate Ht.
  destruct (run_session s (Complete _ _) _) as [[out|e] [i3 w3]] eqn:Hr; [|discriminate Ht].
  assert (@in_sync toy_env i1 (disk w1)) as Hsync1.
  { unfold prepare_document_change in Hp. rewrite bind_Ok in Hp.
    destruct Hp as (spec & x & Hsp & Hp). apply lift_Ok in Hsp as [_ ->].
    rewrite bind_Ok in Hp. destruct Hp as (u & y & Hu & Hp). apply ret_Ok in Hp as [_ <-].
    apply calls_Ok in Hu as (j & wj & Hu & [= <- <-]).
    apply (engine_step i (Prepare spec) w i1 w1 Hsync eq_refl). simpl. unfold bind. by rewrite Hu. }
  destruct (@session_refines_machine toy_env _ _ _ _ _ _ _ Hsync1 Hb) as (Hsync2 & _).
  destruct (@session_refines_machine toy_env _ _ _ _ _ _ _ Hsync2 Hr) as (_ & Hs & Hd).
  apply session_step_confirmed in Hs as [Hnone [identity ->]].
  exists s, a, i2, w2, i3, w3, identity. destruct Hd as (p & _ & Hd1 & Hd2 & _).
  split; [exact Hr|]. split; [exact Hnone|]. congruence.
Defined.
