(* ===== verification/TransitionFacts.v ===== *)
(** * Correctness of identity transitions (facade/identity_transition.rs)

    The publication machine of a transition as a step relation on its journal and its
    refinement by every call of a session, the invariant of the journal directory (at most
    one transition of a DID is not aborted), and the resumption of an interrupted
    transition. *)

From stdpp Require Import base strings list gmap sorting.
From S2P Require Import Prelude Json Errors Records Env Toy Input World Document Keystore Registry.
From S2P Require Import Recovery Identity Adoption CryptoOps IdentityFacts Namespace Managed.
From S2P Require Import IdentityTransition ManagedFacts.

(** ** The machine *)

Inductive transition_op :=
  | TBegin
  | TComplete (attempt : IdentityTransitionPublicationAttempt) (res : TransitionResult.t)
  | TReconcile (o : RemoteObservation.t).

Inductive transition_out :=
  | TAttempt (a : IdentityTransitionPublicationAttempt)
  | TOutcome (o : TransitionOutcome.t).

(** The changes of state a transition can make. *)
Inductive trans_next : IdentityTransitionJournalState.t → IdentityTransitionJournalState.t → Prop :=
  | next_begun : trans_next IdentityTransitionJournalState.Prepared
                   IdentityTransitionJournalState.PublicationInFlight
  | next_confirmed : trans_next IdentityTransitionJournalState.PublicationInFlight
                       IdentityTransitionJournalState.Committed
  | next_rejected : trans_next IdentityTransitionJournalState.PublicationInFlight
                      IdentityTransitionJournalState.Aborted
  | next_unknown : trans_next IdentityTransitionJournalState.PublicationInFlight
                     IdentityTransitionJournalState.PublicationUncertain
  | next_remote_old : trans_next IdentityTransitionJournalState.PublicationUncertain
                        IdentityTransitionJournalState.Prepared
  | next_published : trans_next IdentityTransitionJournalState.PublicationUncertain
                       IdentityTransitionJournalState.Committed.

Section Transitions.
Context `{Env}.

Definition run_transition (s : IdentityTransitionSession) (op : transition_op)
    : TM (IdentityTransitionSession * transition_out) :=
  match op with
  | TBegin => let! x := transition_begin s in ret (x.1, TAttempt x.2)
  | TComplete a res => let! x := transition_complete s a res in ret (x.1, TOutcome x.2)
  | TReconcile o => let! x := transition_reconcile s o in ret (x.1, TOutcome x.2)
  end.

(** The file of a journal, and the disk with a journal written. *)
Definition stored (d : Disk) (j : IdentityTransitionJournal) : Prop :=
  d_transitions d !! storage_key (operation_id j) = Some (Parsed j).
Definition write_transition (j : IdentityTransitionJournal) (d : Disk) : Disk :=
  upd_transitions (<[storage_key (operation_id j) := Parsed j]>) d.

(** The next journal: another state, one generation later. *)
Definition successor_journal (j : IdentityTransitionJournal) (st : IdentityTransitionJournalState.t)
    : IdentityTransitionJournal := advance st (itj_generation j + 1) j.

(** What a call that returns [out] has seen of the journal [j], and the state it leads to. *)
Inductive trans_step (j : IdentityTransitionJournal) : transition_op → transition_out →
    IdentityTransitionJournalState.t → Prop :=
  | trans_begins a :
      itj_state j = IdentityTransitionJournalState.Prepared →
      trans_step j TBegin (TAttempt a) IdentityTransitionJournalState.PublicationInFlight
  | trans_confirmed a e :
      itj_state j = IdentityTransitionJournalState.PublicationInFlight →
      ita_publication_generation a = itj_generation j →
      ite_predecessor_digest e = predecessor_digest j →
      ite_successor_digest e = successor_digest j →
      trans_step j (TComplete a (TransitionResult.Confirmed e))
        (TOutcome (TransitionOutcome.Committed (successor_did j)))
        IdentityTransitionJournalState.Committed
  | trans_rejected a :
      itj_state j = IdentityTransitionJournalState.PublicationInFlight →
      ita_publication_generation a = itj_generation j →
      trans_step j (TComplete a TransitionResult.RejectedBeforeAcceptance)
        (TOutcome TransitionOutcome.Aborted) IdentityTransitionJournalState.Aborted
  | trans_unknown a :
      itj_state j = IdentityTransitionJournalState.PublicationInFlight →
      ita_publication_generation a = itj_generation j →
      trans_step j (TComplete a TransitionResult.Unknown)
        (TOutcome TransitionOutcome.PublicationUncertain)
        IdentityTransitionJournalState.PublicationUncertain
  | trans_remote_old doc dg :
      itj_state j = IdentityTransitionJournalState.PublicationUncertain →
      digest_document doc = Ok dg → digest_document (trusted_predecessor_document j) = Ok dg →
      trans_step j (TReconcile (RemoteObservation.RemoteOld doc))
        (TOutcome TransitionOutcome.ReadyForPublication) IdentityTransitionJournalState.Prepared
  | trans_published p n :
      itj_state j = IdentityTransitionJournalState.PublicationUncertain →
      digest_document p = Ok (predecessor_digest j) →
      digest_document n = Ok (successor_digest j) →
      trans_step j (TReconcile (RemoteObservation.Published p n))
        (TOutcome (TransitionOutcome.Committed (successor_did j)))
        IdentityTransitionJournalState.Committed.

Lemma trans_step_next j op out st : trans_step j op out st → trans_next (itj_state j) st.
Proof. destruct 1; simplify_eq; repeat match goal with Hs : itj_state j = _ |- _ => rewrite Hs end; constructor. Qed.

(** ** The calls of a session *)

Lemma engine_Ok {A} (m : M A) w a w' : engine m w = (Ok a, w') ↔ m w = (Ok a, w').
Proof. unfold engine, st_map_err. destruct (m w) as [[b|e] w1]; simpl; naive_solver. Qed.

Lemma read_transition_Ok oid d j :
  read_identity_transition_journal_at oid d = Ok j → stored d j ∧ operation_id j = oid.
Proof.
  unfold read_identity_transition_journal_at, stored. intros Hr. inv_run Hr. inv_run Hr.
  injection Hr as ->. apply rguard_Ok, orb_false_iff in Hstep0 as [_ Ho].
  apply negb_false_iff, bool_decide_eq_true in Ho. split; [|done]. rewrite Ho.
  by destruct (d_transitions d !! storage_key oid) as [[x| |]|]; simplify_eq.
Qed.

Lemma reload_Ok s w j w' :
  reload_and_validate s w = (Ok j, w') →
  w' = w ∧ stored (disk w) j ∧ operation_id j = operation_id (its_journal s) ∧
  itj_generation j = itj_generation (its_journal s) ∧
  ∃ p n, read_identity_at (predecessor_identity_id j) (disk w) = Ok p ∧
    read_identity_at (successor_identity_id j) (disk w) = Ok n ∧
    generation p = predecessor_generation j ∧ did p = expected_current_did j ∧
    generation n = successor_generation j ∧ did n = successor_did j.
Proof.
  unfold reload_and_validate. intros Hr. inv_run Hr. apply engine_Ok in Hstep.
  injection Hstep as Hj <-. apply read_transition_Ok in Hj as [Hst Hop].
  inv_run Hr. apply lift_Ok in Hstep as [Hg%rguard_Ok ->].
  inv_run Hr. apply engine_Ok in Hstep. injection Hstep as Hp <-.
  inv_run Hr. apply engine_Ok in Hstep. injection Hstep as Hn <-.
  inv_run Hr. apply lift_Ok in Hstep as [Hv%rguard_Ok ->]. apply ret_Ok in Hr as [-> ->].
  apply orb_false_iff in Hg as [[[[Hg _]%orb_false_iff _]%orb_false_iff _]%orb_false_iff _].
  apply orb_false_iff in Hv as [[[H1 H2]%orb_false_iff H3]%orb_false_iff H4].
  apply negb_false_iff, bool_decide_eq_true in Hg, H1, H2, H3, H4. split_and!; try done. eauto 10.
Qed.

Lemma keeps_reload s : keeps (reload_and_validate s).
Proof. unfold reload_and_validate, engine. keeps_tac. Qed.

Lemma keeps_engine {A} (m : M A) : keeps m → keeps (engine m).
Proof. apply keeps_map_err. Qed.

(** The write of the next journal: done, or interrupted before or after it. *)
Lemma step_journal_run s g j st w r w' :
  step_journal s g j st w = (r, w') →
  match r with
  | Ok j' => j' = successor_journal j st ∧ disk w' = write_transition j' (disk w)
  | Err _ => disk w' = disk w ∨ disk w' = write_transition (successor_journal j st) (disk w)
  end.
Proof.
  unfold step_journal, next_generation, write_transition, successor_journal, engine, st_map_err,
    write_identity_transition_journal, require_store, sguard, lift, bind, ret.
  destruct (checked_succ (itj_generation j)) as [g'|] eqn:Hg; simpl; [|intros [= <- <-]; by left].
  apply checked_succ_Some in Hg as [-> _].
  destruct (rguard _ _); simpl; [|intros [= <- <-]; by left].
  unfold durable. destruct (io w) as [|[|n] []]; intros [= <- <-]; simpl; auto.
Qed.

(** The stored journal and the one a session holds after the call. *)
Definition moved (s : IdentityTransitionSession) (op : transition_op) (d : Disk)
    (s' : IdentityTransitionSession) (out : transition_out) (d' : Disk) : Prop :=
  ∃ j, stored d j ∧ operation_id j = operation_id (its_journal s) ∧
    itj_generation j = itj_generation (its_journal s) ∧
    ((op = TBegin ∧ out = TAttempt (attempt_from_journal j) ∧ its_journal s' = j ∧ d' = d ∧
      itj_state j = IdentityTransitionJournalState.PublicationInFlight) ∨
     ∃ st, trans_step j op out st ∧ its_journal s' = successor_journal j st ∧
       d' = write_transition (successor_journal j st) d).

(** What a call that fails may have done: nothing, or the write of the journal it was about
    to report, the next one of the operation and the generation the session had last seen. *)
Definition interrupted (s : IdentityTransitionSession) (op : transition_op) (d d' : Disk) : Prop :=
  d' = d ∨ ∃ j out st, stored d j ∧ operation_id j = operation_id (its_journal s) ∧
    itj_generation j = itj_generation (its_journal s) ∧ trans_step j op out st ∧
    d' = write_transition (successor_journal j st) d.

(** Take the lock and read the journal: either the call stops there with nothing written, or
    it goes on with the stored journal of the session. *)
Lemma locked_run {A} s (k : StoreWriteGuard → IdentityTransitionJournal → TM A) w r w' :
  (let! guard := engine (acquire_write (its_runtime s)) in
   let! j := reload_and_validate s in k guard j) w = (r, w') →
  (∃ e, r = Err e ∧ disk w' = disk w) ∨
  ∃ guard j, stored (disk w) j ∧ operation_id j = operation_id (its_journal s) ∧
    itj_generation j = itj_generation (its_journal s) ∧
    ∃ w0, disk w0 = disk w ∧ k guard j w0 = (r, w').
Proof.
  intros Hr. apply keeps_bind_split in Hr as [(e & -> & Hd)|(g & w1 & Hg & _ & _ & Hr)];
    [left; eauto| |apply keeps_engine, keeps_acquire_write].
  apply engine_Ok, acquire_write_Ok in Hg as [-> Hw].
  apply keeps_bind_split in Hr as [(e & -> & Hd)|(j & w2 & Hj & _ & _ & Hr)];
    [left; eexists; split; [done|congruence]| |apply keeps_reload].
  apply reload_Ok in Hj as (-> & Hst & Hop & Hgen & _). rewrite Hw in Hst. right. eauto 12.
Qed.

Lemma begin_run s w r w' :
  transition_begin s w = (r, w') →
  match r with
  | Ok (s', a) => moved s TBegin (disk w) s' (TAttempt a) (disk w')
  | Err _ => interrupted s TBegin (disk w) (disk w')
  end.
Proof.
  unfold transition_begin. intros Hr.
  apply locked_run in Hr as [(e & -> & ->)|(g & j & Hst & Hop & Hgen & w0 & Hw & Hr)]; [by left|].
  rewrite <-Hw in *. clear w Hw. rename w0 into w.
  unfold bind in Hr. destruct (itj_state j) eqn:Hs; try (injection Hr as <- <-; by left).
  - destruct (step_journal s g j _ w) as [[j'|e] w1] eqn:Hj; apply step_journal_run in Hj;
      injection Hr as <- <-.
    + destruct Hj as [-> Hd]. exists j. split_and!; [done..|]. right. eexists.
      split_and!; [by constructor|done|done].
    + destruct Hj as [Hd|Hd]; [by left|]. right.
      exists j, (TAttempt (attempt_from_journal j)), IdentityTransitionJournalState.PublicationInFlight.
      split_and!; [done..|by constructor|done].
  - injection Hr as <- <-. exists j. split_and!; [done..|]. by left.
Qed.

(** The common end of [complete] and [reconcile]. *)
Lemma finish_run s op g j (next : IdentityResult (IdentityTransitionJournalState.t * TransitionOutcome.t))
    w r w' :
  stored (disk w) j → operation_id j = operation_id (its_journal s) →
  itj_generation j = itj_generation (its_journal s) →
  (∀ x, next = Ok x → trans_step j op (TOutcome x.2) x.1) →
  (let! next := lift next in
   let! j := step_journal s g j next.1 in
   ret (with_journal j s, next.2)) w = (r, w') →
  match r with
  | Ok (s', o) => moved s op (disk w) s' (TOutcome o) (disk w')
  | Err _ => interrupted s op (disk w) (disk w')
  end.
Proof.
  intros Hst Hop Hgen Hstep Hr. unfold bind, lift in Hr.
  destruct next as [[st o]|e]; [|injection Hr as <- <-; by left]. specialize (Hstep _ eq_refl).
  simpl in *. destruct (step_journal s g j st w) as [[j'|e] w1] eqn:Hj; apply step_journal_run in Hj;
    injection Hr as <- <-.
  - destruct Hj as [-> Hd]. exists j. split_and!; [done..|]. right. by exists st.
  - destruct Hj as [Hd|Hd]; [by left|]. right. by exists j, (TOutcome o), st.
Qed.

Lemma validate_attempt_Ok a j u :
  validate_transition_attempt a j = Ok u → ita_publication_generation a = itj_generation j.
Proof.
  unfold validate_transition_attempt. intros Hv%rguard_Ok. apply orb_false_iff in Hv as [_ Hv].
  by apply negb_false_iff, bool_decide_eq_true in Hv.
Qed.

Lemma completion_step a res j x :
  itj_state j = IdentityTransitionJournalState.PublicationInFlight →
  ita_publication_generation a = itj_generation j → completion j res = Ok x →
  trans_step j (TComplete a res) (TOutcome x.2) x.1.
Proof.
  intros Hs Hg Hc. destruct res as [e| |]; simpl in Hc.
  - inv_run Hc. injection Hc as <-. apply rguard_Ok, orb_false_iff in Hstep as [H1 H2].
    apply negb_false_iff, bool_decide_eq_true in H1, H2. by constructor.
  - injection Hc as <-. by constructor.
  - injection Hc as <-. by constructor.
Qed.

Lemma reconciliation_step o j x :
  itj_state j = IdentityTransitionJournalState.PublicationUncertain → reconciliation j o = Ok x →
  trans_step j (TReconcile o) (TOutcome x.2) x.1.
Proof.
  intros Hs Hc. destruct o as [doc|p n]; simpl in Hc.
  - inv_run Hc. inv_run Hc. inv_run Hc. inv_run Hc. injection Hc as <-.
    apply from_engine_Ok in Hstep0, Hstep1.
    apply rguard_Ok, negb_false_iff, bool_decide_eq_true in Hstep2 as ->.
    by apply (trans_remote_old j doc a1).
  - inv_run Hc. inv_run Hc. inv_run Hc. inv_run Hc. inv_run Hc. inv_run Hc. injection Hc as <-.
    apply from_engine_Ok in Hstep, Hstep1.
    apply rguard_Ok, negb_false_iff, bool_decide_eq_true in Hstep0 as ->, Hstep2 as ->.
    by constructor.
Qed.

Lemma complete_run s a res w r w' :
  transition_complete s a res w = (r, w') →
  match r with
  | Ok (s', o) => moved s (TComplete a res) (disk w) s' (TOutcome o) (disk w')
  | Err _ => interrupted s (TComplete a res) (disk w) (disk w')
  end.
Proof.
  unfold transition_complete. intros Hr.
  apply locked_run in Hr as [(e & -> & ->)|(g & j & Hst & Hop & Hgen & w0 & Hw & Hr)]; [by left|].
  rewrite <-Hw in *. clear w Hw. rename w0 into w.
  apply keeps_bind_split in Hr as [(e & -> & ->)|(u & w1 & Hv & _ & _ & Hr)];
    [by left| |apply keeps_lift]. apply lift_Ok in Hv as [Hv%validate_attempt_Ok ->].
  apply keeps_bind_split in Hr as [(e & -> & ->)|(u' & w1 & Hs & _ & _ & Hr)];
    [by left| |apply keeps_sguard].
  apply lift_Ok in Hs as [Hs%rguard_Ok ->]. apply negb_false_iff, bool_decide_eq_true in Hs.
  apply (finish_run s (TComplete a res)) in Hr; [exact Hr|done..|]. intros x. by apply completion_step.
Qed.

Lemma transition_reconcile_run s o w r w' :
  transition_reconcile s o w = (r, w') →
  match r with
  | Ok (s', out) => moved s (TReconcile o) (disk w) s' (TOutcome out) (disk w')
  | Err _ => interrupted s (TReconcile o) (disk w) (disk w')
  end.
Proof.
  unfold transition_reconcile. intros Hr.
  apply locked_run in Hr as [(e & -> & ->)|(g & j & Hst & Hop & Hgen & w0 & Hw & Hr)]; [by left|].
  rewrite <-Hw in *. clear w Hw. rename w0 into w.
  apply keeps_bind_split in Hr as [(e & -> & ->)|(u' & w1 & Hs & _ & _ & Hr)];
    [by left| |apply keeps_sguard].
  apply lift_Ok in Hs as [Hs%rguard_Ok ->]. apply negb_false_iff, bool_decide_eq_true in Hs.
  apply (finish_run s (TReconcile o)) in Hr; [exact Hr|done..|]. intros x. by apply reconciliation_step.
Qed.

Lemma transition_run s op w r w' :
  run_transition s op w = (r, w') →
  match r with
  | Ok (s', out) => moved s op (disk w) s' out (disk w')
  | Err _ => interrupted s op (disk w) (disk w')
  end.
Proof.
  destruct op as [|a res|o]; simpl; unfold bind at 1; intros Hr.
  - destruct (transition_begin s w) as [[[s' b]|e] w1] eqn:Hb; apply begin_run in Hb;
      by injection Hr as <- <-.
  - destruct (transition_complete s a res w) as [[[s' b]|e] w1] eqn:Hb; apply complete_run in Hb;
      by injection Hr as <- <-.
  - destruct (transition_reconcile s o w) as [[[s' b]|e] w1] eqn:Hb; apply transition_reconcile_run in Hb;
      by injection Hr as <- <-.
Qed.

(** C31.  Refinement of the transition machine: whatever durable operation fails, a call of a
    transition session changes nothing but the journal of its own operation; a call that
    returns found the journal the session had last seen and made the step its outcome names
    (a commit needs the digests of both documents of the journal, a retry the trusted
    predecessor), one generation later; a call that fails leaves the disk as it was, or has
    written the very journal that its step leads to: the next one of the session's operation,
    from the generation the session had last seen. *)
Theorem transition_refines_machine s op w r w' :
  run_transition s op w = (r, w') →
  match r with
  | Ok (s', out) => moved s op (disk w) s' out (disk w')
  | Err _ => interrupted s op (disk w) (disk w')
  end.
Proof. apply transition_run. Qed.

(** ** The journal directory *)

(** Every file is a journal under its own name whose documents have the digests it records,
    and of the transitions from one DID at most one is not aborted. *)
Definition transitions_wf (d : Disk) : Prop :=
  (∀ k f, d_transitions d !! k = Some f →
     ∃ j, f = Parsed j ∧ k = storage_key (operation_id j) ∧
       itj_schema_version j = IDENTITY_TRANSITION_JOURNAL_SCHEMA_VERSION ∧
       is_ok (candidate_from_journal j) = true) ∧
  (∀ j1 j2, stored d j1 → stored d j2 → expected_current_did j1 = expected_current_did j2 →
     itj_state j1 ≠ IdentityTransitionJournalState.Aborted →
     itj_state j2 ≠ IdentityTransitionJournalState.Aborted → j1 = j2).

Lemma stored_write `{!Base64Laws, !DigestLaws} j d j0 :
  stored (write_transition j d) j0 ↔
  j0 = j ∨ (operation_id j0 ≠ operation_id j ∧ stored d j0).
Proof.
  unfold stored, write_transition. simpl. destruct (decide (operation_id j0 = operation_id j)) as [E|E].
  - rewrite E, lookup_insert_eq. split; [intros [= ->]; by left|]. by intros [->|[? _]].
  - rewrite lookup_insert_ne; [|by intros Hk%storage_key_inj]. naive_solver.
Qed.

Lemma transitions_wf_write `{!Base64Laws, !DigestLaws} j d :
  transitions_wf d → itj_schema_version j = IDENTITY_TRANSITION_JOURNAL_SCHEMA_VERSION →
  is_ok (candidate_from_journal j) = true →
  (∀ j0, stored d j0 → expected_current_did j0 = expected_current_did j →
     itj_state j0 ≠ IdentityTransitionJournalState.Aborted →
     itj_state j ≠ IdentityTransitionJournalState.Aborted → operation_id j0 = operation_id j) →
  transitions_wf (write_transition j d).
Proof.
  intros [Hf Hu] Hs Hc Hone. split.
  - intros k f. unfold write_transition. simpl.
    destruct (decide (storage_key (operation_id j) = k)) as [<-|Hne].
    + rewrite lookup_insert_eq. intros [= <-]. by exists j.
    + rewrite lookup_insert_ne by done. apply Hf.
  - intros j1 j2. rewrite !stored_write. intros [->|[N1 S1]] [->|[N2 S2]] He A1 A2; [done|..].
    + destruct N2. by apply Hone.
    + destruct N1. by apply Hone.
    + by apply Hu.
Qed.

Lemma candidate_advance st g j :
  is_ok (candidate_from_journal (advance st g j)) = is_ok (candidate_from_journal j).
Proof.
  unfold candidate_from_journal. simpl.
  destruct (document_digest_of (predecessor_document j)) as [p|]; [simpl|done].
  case_bool_decide; [simpl|done].
  destruct (document_digest_of (successor_document j)) as [n|]; [simpl|done].
  by case_bool_decide.
Qed.

(** A step of the machine keeps the directory well formed. *)
Lemma transitions_wf_step `{!Base64Laws, !DigestLaws} j st d :
  transitions_wf d → stored d j → trans_next (itj_state j) st →
  transitions_wf (write_transition (successor_journal j st) d).
Proof.
  intros Hwf Hst Hn. destruct Hwf as [Hf Hu].
  destruct (Hf _ _ Hst) as (j1 & [= <-] & _ & Hs & Hc).
  apply transitions_wf_write; [by split|done|by unfold successor_journal; rewrite candidate_advance|].
  intros j0 S0 He A0 _. simpl in He. assert (j0 = j) as ->; [|done].
  apply Hu; try done. by destruct Hn.
Qed.

(** ** Preparing a transition *)

Lemma list_transitions_complete d l j :
  list_identity_transition_journals_at d = Ok l → stored d j → j ∈ l.
Proof.
  unfold list_identity_transition_journals_at, parse_journals. intros Hl Hst. inv_run Hl.
  injection Hl as <-. rewrite merge_sort_Permutation. apply map_result_Forall2 in Hstep.
  apply elem_of_map_to_list in Hst. apply list_elem_of_lookup in Hst as [n Hn].
  destruct (Forall2_lookup_l _ _ _ _ _ Hstep Hn) as (y & Hy & Hj). simpl in Hj.
  inv_run Hj. injection Hj as <-. by eapply list_elem_of_lookup_2.
Qed.

Lemma keeps_sign_document_proof i v k o : keeps (sign_document_proof i v k o).
Proof.
  unfold sign_document_proof, require_operational, current_record, sign_prepared,
    load_managed_secret, open_secret. keeps_tac.
Qed.

Lemma keeps_new_transition q rt p n : keeps (new_transition q rt p n).
Proof.
  unfold new_transition, create_verified_transition_document.
  repeat (apply keeps_bind; [|intros]); try (by eauto with anp).
  case_match; [apply keeps_ret|].
  repeat (apply keeps_bind; [|intros]); try (by eauto with anp).
  apply keeps_engine, keeps_sign_document_proof.
Qed.

Lemma new_transition_Ok q rt p n w j w' :
  new_transition q rt p n w = (Ok j, w') →
  itj_schema_version j = IDENTITY_TRANSITION_JOURNAL_SCHEMA_VERSION ∧
  operation_id j = itr_operation_id q ∧ expected_current_did j = itr_expected_current_did q ∧
  itj_state j = IdentityTransitionJournalState.Prepared ∧
  is_ok (candidate_from_journal j) = true.
Proof.
  unfold new_transition. intros Hn. inv_run Hn. inv_run Hn. inv_run Hn.
  inv_run Hn. apply lift_Ok in Hstep2 as [Hp ->]. inv_run Hn. apply lift_Ok in Hstep2 as [Hs ->].
  apply ret_Ok in Hn as [-> ->]. split_and!; [done..|].
  unfold candidate_from_journal. simpl. rewrite Hp, Hs. simpl. by rewrite !bool_decide_true.
Qed.

(** A new journal of the request, when the DID has no transition that is not aborted. *)
Definition opens (q : IdentityTransitionRequest) (d d' : Disk) (j : IdentityTransitionJournal) : Prop :=
  d' = write_transition j d ∧
  itj_schema_version j = IDENTITY_TRANSITION_JOURNAL_SCHEMA_VERSION ∧
  operation_id j = itr_operation_id q ∧ expected_current_did j = itr_expected_current_did q ∧
  itj_state j = IdentityTransitionJournalState.Prepared ∧
  is_ok (candidate_from_journal j) = true ∧
  ∀ j0, stored d j0 → expected_current_did j0 = itr_expected_current_did q →
    itj_state j0 = IdentityTransitionJournalState.Aborted.

Lemma open_transition_run s q g registry w r w' :
  open_transition s q g registry w = (r, w') →
  disk w' = disk w ∧ (∃ e, r = Err e) ∨
  ∃ j, opens q (disk w) (disk w') j ∧ ∀ x, r = Ok x → its_journal x = j.
Proof.
  unfold open_transition. intros Hr.
  apply keeps_bind_split in Hr as [(e & -> & ?)|(l & wl & Hl & D1 & _ & Hr)];
    [by left; eauto| |apply keeps_engine, keeps_reads].
  apply engine_Ok in Hl. injection Hl as Hl _.
  apply keeps_bind_split in Hr as [(e & -> & ?)|(u & wg & Hg & D2 & _ & Hr)];
    [left; split; [congruence|eauto]| |apply keeps_sguard].
  apply lift_Ok in Hg as [Hg%rguard_Ok ->]. clear D2.
  do 7 (apply keeps_bind_split in Hr as [(? & -> & ?)|(? & ? & _ & ?D & _ & Hr)];
    [left; split; [congruence|eauto]|
    |solve [eauto using keeps_lift, keeps_sguard, keeps_engine, keeps_reads]]).
  apply keeps_bind_split in Hr as [(e & -> & ?)|(j & wj & Hj & Dj & _ & Hr)];
    [left; split; [congruence|eauto]| |apply keeps_new_transition].
  apply new_transition_Ok in Hj as (Hs & Ho & He & Hst & Hc).
  assert (∀ j0, stored (disk w) j0 → expected_current_did j0 = itr_expected_current_did q →
    itj_state j0 = IdentityTransitionJournalState.Aborted) as Hab.
  { intros j0 S0 E0. apply (list_transitions_complete _ _ _ Hl) in S0.
    destruct (decide (itj_state j0 = IdentityTransitionJournalState.Aborted)) as [|Hne]; [done|].
    exfalso. apply not_true_iff_false in Hg. apply Hg, existsb_exists. exists j0.
    split; [by apply list_elem_of_In|]. by rewrite bool_decide_true, bool_decide_false. }
  assert (disk wj = disk w) as Hw3 by congruence. unfold bind in Hr.
  assert (opens q (disk w) (write_transition j (disk w)) j) as Hopens by (by split_and!).
  unfold engine, st_map_err, write_identity_transition_journal, require_store, sguard, lift, bind,
    durable in Hr.
  destruct (rguard _ _) as [[]|]; simpl in Hr; [|injection Hr as <- <-; left; eauto].
  rewrite <-Hw3 in *.
  destruct (io wj) as [|[|n] []]; injection Hr as <- <-; simpl; [right|right|left; eauto|right|right];
    exists j; (split; [exact Hopens|]); try done; intros y Hy; unfold from_journal in Hy;
    inv_run Hy; by injection Hy as <-.
Qed.

Lemma prepare_transition_run s q w r w' :
  prepare_identity_transition s q w = (r, w') →
  disk w' = disk w ∨ ∃ j, opens q (disk w) (disk w') j.
Proof.
  unfold prepare_identity_transition. intros Hr.
  do 4 (apply keeps_bind_split in Hr as [(? & -> & ?)|(? & ? & _ & ?D & _ & Hr)];
    [left; congruence|
    |solve [eauto using keeps_lift, keeps_sguard, keeps_engine, keeps_reads, keeps_acquire_write]]).
  apply keeps_bind_split in Hr as [(? & -> & ?)|(existing & wx & _ & Dx & _ & Hr)];
    [left; congruence| |apply keeps_attempt, keeps_reads].
  assert (disk wx = disk w) as E by congruence. rewrite <-E. destruct existing as [j|e].
  - left. assert (keeps (do! sguard (negb (journal_matches_request j q)) Facade.Conflict;
      lift (from_journal (ds_runtime s) j))) as Hk by keeps_tac.
    by destruct (Hk _ _ _ Hr) as [? _].
  - apply open_transition_run in Hr as [[? _]|(j & Hj & _)]; eauto.
Qed.

Lemma transitions_wf_prepare `{!Base64Laws, !DigestLaws} s q w r w' :
  transitions_wf (disk w) → prepare_identity_transition s q w = (r, w') → transitions_wf (disk w').
Proof.
  intros Hwf Hr.
  apply prepare_transition_run in Hr as [->|(j & -> & Hs & Ho & He & _ & Hc & Hab)]; [done|].
  apply transitions_wf_write; [done..|]. intros j0 S0 E0 A0 _. destruct A0. apply Hab; congruence.
Qed.

Lemma transitions_wf_session `{!Base64Laws, !DigestLaws} s op w r w' :
  transitions_wf (disk w) → run_transition s op w = (r, w') → transitions_wf (disk w').
Proof.
  intros Hwf Hr. apply transition_run in Hr. destruct r as [[s' out]|e].
  - destruct Hr as (j & Hst & _ & _ & [(_ & _ & _ & -> & _)|(st & Hstep & _ & ->)]); [done|].
    apply transitions_wf_step; [done..|]. by eapply trans_step_next.
  - destruct Hr as [->|(j & out & st & Hst & _ & _ & Hstep & ->)]; [done|].
    apply transitions_wf_step; [done..|]. by eapply trans_step_next.
Qed.

(** C32.  At most one live transition per DID: whatever durable operation fails, preparing a
    transition and every call of a session keep the journal directory well formed: every
    journal under its own name with the digests of its documents, and at most one journal of
    a predecessor DID that is not aborted. *)
Theorem transitions_unique `{!Base64Laws, !DigestLaws} w :
  transitions_wf (disk w) →
  (∀ s q r w', prepare_identity_transition s q w = (r, w') → transitions_wf (disk w')) ∧
  (∀ s op r w', run_transition s op w = (r, w') → transitions_wf (disk w')).
Proof.
  intros Hwf. split; intros; [by eapply transitions_wf_prepare|by eapply transitions_wf_session].
Qed.

(** ** Resuming a transition *)

Lemma map_result_defined {E A B} (f : A → result E B) l :
  (∀ x, x ∈ l → ∃ y, f x = Ok y) → ∃ ys, map_result f l = Ok ys.
Proof.
  induction l as [|x l IH]; intros Hf; simpl; [eauto|].
  destruct (Hf x) as [y ->]; [set_solver|]. simpl.
  destruct IH as [ys ->]; [set_solver|]. simpl. eauto.
Qed.

(** A well-formed directory is listed, every journal once. *)
Lemma list_transitions_wf d :
  transitions_wf d → ∃ l, list_identity_transition_journals_at d = Ok l ∧ NoDup l ∧
    ∀ j, j ∈ l ↔ stored d j.
Proof.
  intros [Hf _]. unfold list_identity_transition_journals_at, parse_journals.
  set (f := λ e : string * File IdentityTransitionJournal, _).
  assert (∀ e, e ∈ map_to_list (d_transitions d) → ∃ j, f e = Ok j ∧
    e = (storage_key (operation_id j), Parsed j)) as He.
  { intros [k x] Hk%elem_of_map_to_list. destruct (Hf _ _ Hk) as (j & -> & -> & Hs & _).
    exists j. split; [|done]. unfold f. simpl. by rewrite Hs. }
  destruct (map_result_defined f (map_to_list (d_transitions d))) as [ys Hys].
  { intros e Hin. destruct (He e Hin) as (j & Hj & _). eauto. }
  rewrite Hys. simpl. eexists. split; [done|]. apply map_result_Forall2 in Hys.
  assert (Forall2 (λ e j, e = (storage_key (operation_id j), Parsed j))
    (map_to_list (d_transitions d)) ys) as Hall.
  { clear -Hys He. induction Hys as [|e j l ys Hj Hys IH]; constructor.
    - destruct (He e) as (j' & Hj' & ->); [set_solver|]. congruence.
    - apply IH. intros e' Hin. apply He. set_solver. }
  split.
  - rewrite merge_sort_Permutation. apply (NoDup_fmap_1 (λ j, storage_key (operation_id j))).
    replace ((λ j, storage_key (operation_id j)) <$> ys) with (map_to_list (d_transitions d)).*1;
      [apply NoDup_fst_map_to_list|]. clear -Hall. induction Hall; simplify_eq/=; by f_equal.
  - intros j. rewrite merge_sort_Permutation. unfold stored. rewrite <-elem_of_map_to_list.
    clear -Hall. induction Hall as [|e j' l ys -> Hall IH]; [by rewrite !elem_of_nil|].
    rewrite !elem_of_cons, IH. naive_solver.
Qed.

(** The transition of a DID that is under way. *)
Definition under_way (w : Disk) (d : string) (j : IdentityTransitionJournal) : Prop :=
  stored w j ∧ expected_current_did j = d ∧ unfinished (itj_state j) = true.

(** C33.  An interrupted transition can be resumed: from a store without open journals whose
    transition directory is well formed, and without a fault, [resume_identity_transition]
    returns and writes nothing; the session it returns is that of the transition under way
    from the DID, and it returns none exactly when there is no such transition. *)
Theorem resume_finds_transition d s w :
  quiescent (disk w) → io w = NoFault → transitions_wf (disk w) →
  ∃ o s' w', resume_identity_transition d (s, w) = (Ok o, (s', w')) ∧ disk w' = disk w ∧
    ∀ j, under_way (disk w) d j ↔ its_journal <$> o = Some j.
Proof.
  intros Hq Hio Hwf. destruct (recover (ds_runtime s) w) as [r w1] eqn:Hrec.
  destruct (recovers_to_run _ _ _ w (recovers_to_quiescent (ds_runtime s) _ Hq) eq_refl _ _ Hrec)
    as [Hok _]. destruct (Hok Hio) as (registry & -> & Hd).
  destruct (list_transitions_wf _ Hwf) as (l & Hl & Hnd & Hin).
  unfold resume_identity_transition, bind at 1, calls_unit, reload, bind at 1. simpl. rewrite Hrec.
  simpl. unfold bind at 1, this, bind at 1, asks, list_identity_transition_journals, reads. simpl.
  rewrite Hd, Hl.
  set (p := λ j, bool_decide (expected_current_did j = d) && unfinished (itj_state j)).
  assert (∀ j, j ∈ List.filter p l ↔ under_way (disk w) d j) as Hp.
  { intros j. rewrite list_elem_of_In, filter_In, <-list_elem_of_In, Hin. unfold p, under_way.
    by rewrite andb_true_iff, bool_decide_eq_true. }
  setoid_rewrite <-Hp. assert (NoDup (List.filter p l)) as Hnd'.
  { apply NoDup_ListNoDup, List.NoDup_filter, NoDup_ListNoDup, Hnd. }
  destruct (List.filter p l) as [|j [|j' l']] eqn:Hfl.
  - eexists None, _, _. split; [done|]. split; [done|]. intros j. simpl. set_solver.
  - destruct (proj1 (Hp j)) as (Hst & _); [set_solver|].
    destruct (proj1 Hwf _ _ Hst) as (j1 & [= <-] & _ & _ & Hc). apply is_ok_Ok in Hc as [c Hc].
    unfold bind, lift, from_journal. rewrite Hc. simpl. eexists (Some _), _, _. split; [done|].
    split; [done|]. intros j0. simpl. rewrite list_elem_of_singleton. naive_solver.
  - exfalso. destruct (proj1 (Hp j)) as (S1 & E1 & U1); [set_solver|].
    destruct (proj1 (Hp j')) as (S2 & E2 & U2); [set_solver|].
    assert (j = j') as ->.
    { apply (proj2 Hwf); try done; [congruence|..]; [by destruct (itj_state j)|by destruct (itj_state j')]. }
    apply NoDup_cons in Hnd' as [Hx _]. set_solver.
Qed.
End Transitions.

(** ** Witnesses *)

Definition transition_request (a b : IdentityRef) : IdentityTransitionRequest :=
  {| itr_expected_current_did := ref_did a; itr_operation_id := "operation-1"; itr_successor := b;
     itr_transition_document := None |}.

Definition transition_test : bool :=
  match @manager_create toy_env (managed_request ["agents"; "alice"]) (sample_store, initial_world) with
  | (Ok (a, _), x) =>
      match @manager_create toy_env (managed_request ["agents"; "bob"]) x with
      | (Ok (b, _), (s, w)) =>
          bool_decide (size (d_transitions (disk w)) = 0)
          && match @prepare_identity_transition toy_env s
                     (transition_request (mi_reference a) (mi_reference b)) w with
             | (Ok t, w1) =>
                 match @run_transition toy_env t TBegin w1 with
                 | (Ok (t2, TAttempt _), w2) =>
                     settled_b w2 && match io w2 with NoFault => true | _ => false end
                     && bool_decide (expected_current_did (its_journal t2)
                                     = ref_did (mi_reference a))
                 | _ => false
                 end
             | _ => false
             end
      | _ => false
      end
  | _ => false
  end.

Lemma transitions_wf_empty d : d_transitions d = ∅ → @transitions_wf toy_env d.
Proof.
  intros Hd. split.
  - intros k f. rewrite Hd, lookup_empty. discriminate.
  - intros j1 j2 Hs. unfold stored in Hs. rewrite Hd, lookup_empty in Hs. discriminate.
Defined.

(** Two identities are created, and a transition from one to the other is begun. *)
Lemma transition_scenario : ∃ a b s w t w1 t2 att w2,
  @transitions_wf toy_env (disk w) ∧
  @prepare_identity_transition toy_env s (transition_request a b) w = (Ok t, w1) ∧
  @run_transition toy_env t TBegin w1 = (Ok (t2, TAttempt att), w2) ∧
  @quiescent toy_env (disk w2) ∧ io w2 = NoFault ∧
  expected_current_did (its_journal t2) = ref_did a.
Proof.
  assert (transition_test = true) as Ht by (vm_compute; reflexivity). unfold transition_test in Ht.
  destruct (manager_create _ _) as [[[a ai]|e] x1]; [|discriminate Ht].
  destruct (manager_create _ _) as [[[b bi]|e] [s w]]; [|discriminate Ht].
  apply andb_true_iff in Ht as [Hz%bool_decide_eq_true Ht].
  destruct (prepare_identity_transition _ _ _) as [[t|e] w1] eqn:Hp; [|discriminate Ht].
  destruct (run_transition _ _ _) as [[[t2 [att|o]]|e] w2] eqn:Hb; try discriminate Ht.
  apply andb_true_iff in Ht as [Ht Hdid%bool_decide_eq_true].
  apply andb_true_iff in Ht as [[Hq _]%settled_b_true Hio].
  exists (mi_reference a), (mi_reference b), s, w, t, w1, t2, att, w2. split_and!; try done.
  - apply transitions_wf_empty. by apply map_size_empty_inv.
  - by destruct (io w2).
Defined.

Lemma transition_refines_machine_witness : ∃ t w t' att w',
  @moved toy_env t TBegin (disk w) t' (TAttempt att) (disk w').
Proof.
  destruct transition_scenario as (a & b & s & w & t & w1 & t2 & att & w2 & _ & _ & Hb & _).
  exists t, w1, t2, att, w2. exact (@transition_refines_machine toy_env t TBegin w1 _ w2 Hb).
Defined.

Lemma transitions_unique_witness : ∃ w1, @transitions_wf toy_env (disk w1) ∧
  ∃ j, @stored toy_env (disk w1) j.
Proof.
  destruct transition_scenario as (a & b & s & w & t & w1 & t2 & att & w2 & Hwf & Hp & Hb & _).
  exists w1. split.
  - exact (proj1 (@transitions_unique toy_env toy_base64_laws toy_digest_laws w Hwf) _ _ _ _ Hp).
  - destruct (@transition_run toy_env _ _ _ _ _ Hb) as (j & Hj & _). exists j. exact Hj.
Defined.

Lemma resume_finds_transition_witness : ∃ d s w o s' w' j,
  @resume_identity_transition toy_env d (s, w) = (Ok o, (s', w')) ∧ its_journal <$> o = Some j.
Proof.
  destruct transition_scenario
    as (a & b & s & w & t & w1 & t2 & att & w2 & Hwf & Hp & Hb & Hq & Hio & Hdid).
  pose proof (@transitions_wf_prepare toy_env toy_base64_laws toy_digest_laws _ _ _ _ _ Hwf Hp) as Hwf1.
  pose proof (@transitions_wf_session toy_env toy_base64_laws toy_digest_laws _ _ _ _ _ Hwf1 Hb) as Hwf2.
  destruct (@resume_finds_transition toy_env (ref_did a) s w2 Hq Hio Hwf2)
    as (o & s' & w' & Hr & _ & Hj).
  exists (ref_did a), s, w2, o, s', w', (its_journal t2). split; [exact Hr|]. apply Hj.
  destruct (@transition_run toy_env _ _ _ _ _ Hb)
    as (j & Hst & _ & _ & [(_ & _ & Hjt & Hd & Hs)|(st & Hstep & Hjt & Hd)]).
  - rewrite Hd. split; [by rewrite Hjt|]. split; [exact Hdid|]. by rewrite Hjt, Hs.
  - split; [|split; [exact Hdid|]].
    + rewrite Hd, Hjt. apply (@stored_write toy_env toy_base64_laws toy_digest_laws). by left.
    + rewrite Hjt. by inversion Hstep.
Defined.
