(* ===== verification/RecoveryFacts.v ===== *)
(** * Recovery comes to an end (identity.rs [recover], lifecycle.rs [recover_update_journals])

    Recovery consumes journals and never writes one, so an interrupted pass leaves no more
    work than it found; a pass that returns leaves none, and running recovery again changes
    nothing. *)

From stdpp Require Import base strings list gmap sorting.
From S2P Require Import Prelude Json Errors Records Env Toy Input World Document Keystore Registry.
From S2P Require Import Recovery Identity RecordFacts Scenario.

(** Every journal file carries the name its content gives it, as the writers of registry.rs
    make sure. *)
Definition journals_named `{Env} (d : Disk) : Prop :=
  (∀ k j, d_journals d !! k = Some (Parsed j) → k = storage_key (transaction_id j)) ∧
  (∀ k j, d_updates d !! k = Some (Parsed j) → k = storage_key (uj_revision_id j)).

Section Settle.
Context `{Env}.

Definition work_left (d : Disk) : gmap string (File CreationJournal) * gmap string (File UpdateJournal) :=
  (d_journals d, d_updates d).

Ltac preserves_tac :=
  repeat first
    [ apply preserves_bind; [|intros]
    | by apply preserves_durable
    | apply preserves_keeps; solve [keeps_tac]
    | apply preserves_for_each; intros
    | progress simpl
    | match goal with
      | |- preserves _ (match ?x with _ => _ end) => destruct x
      | |- preserves _ (if ?x then _ else _) => destruct x
      end ].

Lemma work_delete_secret g rt x : preserves work_left (delete_secret g rt x).
Proof. unfold delete_secret. preserves_tac. Qed.
Lemma work_sync_summary rt g d r reg : preserves work_left (sync_summary rt g d r reg).
Proof. unfold sync_summary, write_registry. preserves_tac. Qed.
Lemma work_persist_record rt g r : preserves work_left (persist_record rt g r).
Proof. unfold persist_record, write_identity. preserves_tac. Qed.
Lemma work_write_identity root g r : preserves work_left (write_identity root g r).
Proof. unfold write_identity. preserves_tac. Qed.
Lemma work_remove_identity root g r : preserves work_left (remove_identity root g r).
Proof. unfold remove_identity. preserves_tac. Qed.
Lemma work_write_registry root g r : preserves work_left (write_registry root g r).
Proof. unfold write_registry. preserves_tac. Qed.

(** A computation that leaves the journals alone, then the removal of one. *)
Lemma dtriple_work {A} (m : M A) (X : Disk → Prop) v :
  preserves work_left m → (∀ d, work_left d = v → X d) →
  dtriple (λ d, work_left d = v) m (λ _ d, work_left d = v) X.
Proof.
  intros Hm HX w r w' Hw Hr. apply Hm in Hr. simpl. destruct r; [congruence|].
  apply HX. congruence.
Qed.

Definition less (v : gmap string (File CreationJournal) * gmap string (File UpdateJournal))
    (d : Disk) : Prop := d_journals d ⊆ v.1 ∧ d_updates d ⊆ v.2.

Lemma less_refl d v : work_left d = v → less v d.
Proof. by intros <-. Qed.

Lemma dtriple_remove_journal root g tid J U :
  dtriple (λ d, work_left d = (J, U)) (remove_journal root g tid)
    (λ _ d, work_left d = (delete (storage_key tid) J, U)) (less (J, U)).
Proof.
  eapply dtriple_bind with (R := λ _ d, work_left d = (J, U)).
  - apply dtriple_work; [apply preserves_keeps, keeps_require_store|intros ?; apply less_refl].
  - intros _. apply dtriple_durable; unfold work_left, less; intros d [= <- <-]; simpl; try done.
    split; [apply delete_subseteq|done].
Qed.

Lemma dtriple_remove_update_journal root g rid J U :
  dtriple (λ d, work_left d = (J, U)) (remove_update_journal root g rid)
    (λ _ d, work_left d = (J, delete (storage_key rid) U)) (less (J, U)).
Proof.
  eapply dtriple_bind with (R := λ _ d, work_left d = (J, U)).
  - apply dtriple_work; [apply preserves_keeps, keeps_require_store|intros ?; apply less_refl].
  - intros _. apply dtriple_durable; unfold work_left, less; intros d [= <- <-]; simpl; try done.
    split; [done|apply delete_subseteq].
Qed.

#[local] Hint Resolve work_delete_secret work_sync_summary work_persist_record
  work_write_identity work_remove_identity work_write_registry : core.

Lemma dtriple_then_remove {A} (m : M A) (B : A → IdentityRegistry) root g tid J U :
  preserves work_left m →
  dtriple (λ d, work_left d = (J, U)) (let! a := m in do! remove_journal root g tid; ret (B a))
    (λ _ d, work_left d = (delete (storage_key tid) J, U)) (less (J, U)).
Proof.
  intros Hm. eapply dtriple_bind; [by apply dtriple_work; [|intros ?; apply less_refl]|]. intros a. simpl.
  eapply dtriple_bind; [apply dtriple_remove_journal|]. intros []. by apply dtriple_ret.
Qed.

Lemma dtriple_recover_journal rt g reg j J U :
  dtriple (λ d, work_left d = (J, U)) (recover_journal rt g reg j)
    (λ _ d, work_left d = (delete (storage_key (transaction_id j)) J, U)) (less (J, U)).
Proof.
  assert (∀ iid, preserves work_left (read_identity iid)) as Hread
    by (intros; apply preserves_keeps; keeps_tac).
  assert (∀ bad e, preserves work_left (@sguard World DidError bad e)) as Hguard
    by (intros; apply preserves_keeps; keeps_tac).
  assert (∀ {A B} (m : M A) (k : A → M B) Q, preserves work_left m →
    (∀ a, dtriple (λ d, work_left d = (J, U)) (k a) Q (less (J, U))) →
    dtriple (λ d, work_left d = (J, U)) (bind m k) Q (less (J, U))) as Hstep.
  { intros A B m k Q Hm Hk. eapply dtriple_bind; [|exact Hk].
    by apply dtriple_work; [|intros ?; apply less_refl]. }
  unfold recover_journal. destruct (cj_kind j).
  - apply Hstep; [|intros []].
    + destruct (registered _ _ _); preserves_tac; auto.
    + eapply dtriple_bind; [apply dtriple_remove_journal|]. intros []. by apply dtriple_ret.
  - do 2 (apply Hstep; [by auto|intros]). apply (dtriple_then_remove _ (λ r, r)). auto.
  - do 2 (apply Hstep; [by auto|intros]). apply (dtriple_then_remove _ (λ r, r)).
    destruct (root_import_committed _); preserves_tac; auto.
  - do 2 (apply Hstep; [preserves_tac; auto|intros]). apply (dtriple_then_remove _ (λ r, r)).
    destruct (registered _ _ _); preserves_tac; auto.
Qed.

Lemma less_delete J U k d : less (delete k J, U) d → less (J, U) d.
Proof. intros [HJ HU]. split; [|done]. simpl in *. etrans; [exact HJ|apply delete_subseteq]. Qed.
Lemma less_delete_update J U k d : less (J, delete k U) d → less (J, U) d.
Proof. intros [HJ HU]. split; [done|]. simpl in *. etrans; [exact HU|apply delete_subseteq]. Qed.

(** What is left of the files of a directory when the listed ones are removed. *)
Definition remove_listed {A} (key : A → string) (l : list A) (m : gmap string (File A))
    : gmap string (File A) := fold_left (λ m j, delete (storage_key (key j)) m) l m.

Lemma dtriple_recover_journals rt g reg l J U :
  dtriple (λ d, work_left d = (J, U)) (recover_journals rt g reg l)
    (λ _ d, work_left d = (remove_listed transaction_id l J, U)) (less (J, U)).
Proof.
  revert reg J. induction l as [|j l IH]; intros reg J; simpl; [by apply dtriple_ret|].
  eapply dtriple_bind; [apply dtriple_recover_journal|]. intros reg'.
  eapply dtriple_conseq; [apply (IH reg' (delete (storage_key (transaction_id j)) J))|done|done|]. intros d. apply less_delete.
Qed.

Lemma dtriple_recover_update_journal rt g j J U :
  dtriple (λ d, work_left d = (J, U)) (recover_update_journal rt g j)
    (λ _ d, work_left d = (J, delete (storage_key (uj_revision_id j)) U)) (less (J, U)).
Proof.
  unfold recover_update_journal. eapply dtriple_bind; [apply dtriple_work|].
  - apply preserves_keeps. keeps_tac.
  - intros ?. apply less_refl.
  - intros r. simpl. eapply dtriple_bind; [apply dtriple_work|].
    + destruct (uj_kind j); [destruct (is_pending_revision _ _)|]; preserves_tac; auto.
    + intros ?. apply less_refl.
    + intros []. apply dtriple_remove_update_journal.
Qed.

Lemma dtriple_update_loop rt g l J U :
  dtriple (λ d, work_left d = (J, U)) (for_each (recover_update_journal rt g) l)
    (λ _ d, work_left d = (J, remove_listed uj_revision_id l U)) (less (J, U)).
Proof.
  revert U. induction l as [|j l IH]; intros U; simpl; [by apply dtriple_ret|].
  eapply dtriple_bind; [apply dtriple_recover_update_journal|]. intros [].
  eapply dtriple_conseq; [apply (IH (delete (storage_key (uj_revision_id j)) U))|done|done|]. intros d. apply less_delete_update.
Qed.

(** ** The listings are complete *)

Lemma lookup_remove_listed {A} (key : A → string) l m k f :
  remove_listed key l m !! k = Some f → m !! k = Some f ∧ ∀ j, j ∈ l → k ≠ storage_key (key j).
Proof.
  revert m. induction l as [|j l IH]; intros m; simpl; [by intros; split; [|set_solver]|].
  intros [[Hne Hk]%lookup_delete_Some Hl]%IH. split; [done|].
  intros j' [->|Hj']%elem_of_cons; [done|by apply Hl].
Qed.

Lemma parse_journals_complete {A} (schema : A → N) expected m l k f :
  parse_journals schema expected m = Ok l → m !! k = Some f → ∃ j, f = Parsed j ∧ j ∈ l.
Proof.
  intros Hl%map_result_Forall2 Hk. apply elem_of_map_to_list in Hk.
  apply list_elem_of_lookup in Hk as [n Hn].
  destruct (Forall2_lookup_l _ _ _ _ _ Hl Hn) as (j & Hj & Hf).
  exists j. simpl in Hf. destruct f; [|done..]. inv_run Hf. injection Hf as ->.
  split; [done|]. by apply list_elem_of_lookup_2 in Hj.
Qed.

Lemma remove_listed_all {A} (schema : A → N) expected (key : A → string) m l l' :
  (∀ k j, m !! k = Some (Parsed j) → k = storage_key (key j)) →
  parse_journals schema expected m = Ok l → l' ≡ₚ l → remove_listed key l' m = ∅.
Proof.
  intros Hnamed Hl Hp. apply map_eq. intros k. rewrite lookup_empty.
  destruct (remove_listed key l' m !! k) as [f|] eqn:Hk; [|done].
  apply lookup_remove_listed in Hk as [Hk Hne].
  destruct (parse_journals_complete _ _ _ _ _ _ Hl Hk) as (j & -> & Hj).
  exfalso. apply (Hne j); [by rewrite Hp|by apply Hnamed].
Qed.

(** One pass: what it removes when it returns, and what an interrupted one leaves. *)
Lemma recover_run rt w r w' :
  recover rt w = (r, w') →
  less (work_left (disk w)) (disk w') ∧
  ∀ reg, r = Ok reg → ∃ l u,
    list_journals_at (disk w) = Ok l ∧
    parse_journals uj_schema_version UPDATE_JOURNAL_SCHEMA_VERSION (d_updates (disk w)) = Ok u ∧
    d_journals (disk w') = remove_listed transaction_id l (d_journals (disk w)) ∧
    d_updates (disk w') =
      remove_listed uj_revision_id (merge_sort (by_key uj_revision_id) u) (d_updates (disk w)) ∧
    read_registry_at (disk w') = Ok reg.
Proof.
  unfold recover. intros Hr.
  apply keeps_bind_split in Hr as [(e & -> & Hd)|(g & w0 & _ & Hd & _ & Hr)];
    [rewrite Hd; split; [split|]; done| |apply keeps_acquire_write].
  rewrite <-Hd. clear w Hd. rename w0 into w. revert Hr.
  unfold read_registry, list_journals, recover_update_journals,
    list_update_journals, list_update_journals_at. unfold bind, reads, ret.
  destruct (read_registry_at (disk w)) as [reg0|e]; [|intros [= <- <-]; split; [done|done]].
  destruct (list_journals_at (disk w)) as [l|e]; [|intros [= <- <-]; split; [done|done]].
  destruct (recover_journals rt g reg0 l w) as [[[]|e] w1] eqn:E1;
    pose proof (dtriple_recover_journals rt g reg0 l (d_journals (disk w)) (d_updates (disk w))
      w _ _ eq_refl E1) as H1; simpl in H1; [|intros [= <- <-]; split; [exact H1|done]].
  injection H1 as HJ HU.
  assert (less (work_left (disk w)) (disk w1)) as Hless1.
  { unfold less. simpl. rewrite HJ, HU. split; [|done]. apply map_subseteq_spec.
    intros k f Hk%lookup_remove_listed. apply Hk. }
  rewrite HU. destruct (parse_journals _ _ (d_updates (disk w))) as [u|e] eqn:Eu; simpl;
    [|intros [= <- <-]; split; [done|done]].
  destruct (for_each (recover_update_journal rt g) (merge_sort (by_key uj_revision_id) u) w1)
    as [[[]|e] w2] eqn:E2;
    pose proof (dtriple_update_loop rt g _ (d_journals (disk w1)) (d_updates (disk w1))
      w1 _ _ eq_refl E2) as H2; simpl in H2.
  - injection H2 as HJ2 HU2. intros [= <- <-]. split; [|intros reg Hreg; exists l, u; naive_solver congruence].
    unfold less. simpl. rewrite HJ2, HU2, HU. split; [apply Hless1|]. apply map_subseteq_spec.
    intros k f Hk%lookup_remove_listed. apply Hk.
  - intros [= <- <-]. split; [|done]. destruct Hless1 as [Ha Hb], H2 as [Hc Hd]. simpl in *.
    split; simpl; etrans; eassumption.
Qed.

(** C6.  Termination.  Recovery writes no journal: however it ends, it leaves no journal that
    was not there before.  When it returns, no journal is left: it is at its fixed point, and
    running it again, with whatever fault, takes the store lock and does nothing else: it
    returns the same registry, or the error with which the lock was refused. *)
Theorem recovery_settles rt w r w' :
  journals_named (disk w) → recover rt w = (r, w') →
  d_journals (disk w') ⊆ d_journals (disk w) ∧ d_updates (disk w') ⊆ d_updates (disk w) ∧
  ∀ reg, r = Ok reg →
    d_journals (disk w') = ∅ ∧ d_updates (disk w') = ∅ ∧
    ∀ u, disk u = disk w' →
      match acquire_write rt u with
      | (Ok _, u') => disk u' = disk w' ∧ recover rt u = (Ok reg, u')
      | (Err e, u') => disk u' = disk w' ∧ recover rt u = (Err e, u') ∧ io u ≠ NoFault
      end.
Proof.
  intros [HnJ HnU] Hr. destruct (recover_run _ _ _ _ Hr) as [[HJ HU] Hok].
  do 2 (split; [done|]). intros reg Hreg.
  destruct (Hok _ Hreg) as (l & v & Hl & Hv & EJ & EU & Eg).
  unfold list_journals_at in Hl. inv_run Hl. injection Hl as <-.
  rewrite (remove_listed_all _ _ _ _ _ _ HnJ Hstep) in EJ by apply merge_sort_Permutation.
  rewrite (remove_listed_all _ _ _ _ _ _ HnU Hv) in EU by apply merge_sort_Permutation.
  do 2 (split; [done|]). intros u Hu.
  unfold recover, bind. destruct (acquire_write rt u) as [[g|e] u'] eqn:Ha.
  - apply keeps_acquire_write in Ha as [Hd _]. rewrite Hu in Hd. split; [done|].
    unfold read_registry, list_journals, recover_update_journals, list_update_journals, bind, reads,
      ret. rewrite Hd, Eg, list_journals_empty by done. simpl. unfold ret.
    rewrite Hd, list_update_journals_empty by done. simpl. unfold ret. by rewrite Hd, Eg.
  - split; [|split; [done|]].
    + apply keeps_acquire_write in Ha as [Hd _]. congruence.
    + intros Hio. rewrite acquire_write_runs in Ha by done. discriminate Ha.
Qed.
End Settle.

(** A creation that stopped before it registered its identity. *)
Definition stopped_creation : CreationJournal :=
  {| cj_schema_version := JOURNAL_SCHEMA_VERSION; cj_kind := CreationJournalKind.Create;
     transaction_id := "t"; cj_identity_id := "i"; cj_did := "d"; cj_secret_refs := [];
     cj_created_at := "now" |}.
Definition stopped_world : World :=
  {| disk := upd_journals (λ _, {[@storage_key toy_env "t" := Parsed stopped_creation]}) empty_disk;
     io := NoFault; draws := 0; ticks := 0 |}.

Lemma recovery_settles_witness :
  ∃ reg w', @recover toy_env sample_runtime stopped_world = (Ok reg, w') ∧
    d_journals (disk stopped_world) ≠ ∅ ∧ d_journals (disk w') = ∅ ∧
    @recover toy_env sample_runtime w' = (Ok reg, w').
Proof.
  destruct (@recover toy_env sample_runtime stopped_world) as [[reg|e] w'] eqn:E;
    [|vm_compute in E; discriminate E].
  exists reg, w'. split; [reflexivity|]. split; [apply map_non_empty_singleton|].
  assert (@journals_named toy_env (disk stopped_world)) as Hn.
  { split; intros k j Hk; simpl in Hk.
    - apply lookup_singleton_Some in Hk as [<- [= <-]]. reflexivity.
    - rewrite lookup_empty in Hk. discriminate Hk. }
  destruct (@recovery_settles toy_env sample_runtime stopped_world _ _ Hn E) as (_ & _ & Hok).
  destruct (Hok reg eq_refl) as (HJ & _ & Hagain). split; [exact HJ|].
  specialize (Hagain w' eq_refl).
  rewrite acquire_write_runs in Hagain; [exact (proj2 Hagain)|].
  injection E as _ <-. vm_compute. reflexivity.
Defined.
