(* ===== verification/Store.v ===== *)
(** * Opening a store (store.rs, platform.rs, and the constructors of [DidStore])

    A store is bound to a root key by its manifest.  The key comes from a provider: given by
    the host, from a private file, or from the keyring of the operating system.  [Platform]
    is what the providers use: the key files by their paths, the keyring and the process
    environment.  A key file may lie in the root directory of the store (the default one,
    [root-key.b64u], does): it is then a file of that directory which is kept here and not
    in [Disk], whose fields are the files that the registry, the key store and the journals
    read and write. *)

From stdpp Require Import base strings list gmap.
From S2P Require Import Prelude Json Errors Records Env World Registry Recovery Identity.
From Stdlib Require Import Ascii.

Definition STORE_MANIFEST_SCHEMA_VERSION : N := 1.
Definition ROOT_KEY_LEN : nat := 32.

(** ** The platform *)

(** A path: its parent directory, when it has one, and its file name. *)
Definition KeyPath : Type := option string * string.
(** A file that exists: its bytes and whether its mode is 0600, or one that cannot be read. *)
Inductive KeyFile :=
  | ReadableKey (bytes : string) (private : bool)
  | UnreadableKey.

Record Platform := {
  key_files : gmap KeyPath KeyFile;
  keyring_available : bool;
  keyring_writable : bool;
  keyring_entries : gmap (string * string) string;
  env_vars : gmap string string }.

Definition set_key_file (path : KeyPath) (f : KeyFile) (p : Platform) : Platform :=
  {| key_files := <[path := f]> (key_files p); keyring_available := keyring_available p;
     keyring_writable := keyring_writable p; keyring_entries := keyring_entries p;
     env_vars := env_vars p |}.
Definition set_keyring_entry (k : string * string) (v : string) (p : Platform) : Platform :=
  {| key_files := key_files p; keyring_available := keyring_available p;
     keyring_writable := keyring_writable p; keyring_entries := <[k := v]> (keyring_entries p);
     env_vars := env_vars p |}.

(** Computations over the platform and the world. *)
Abbreviation PM := (ST (Platform * World) DidError).

Definition on_world {A} (m : M A) : PM A := λ x, let (r, w) := m x.2 in (r, (x.1, w)).
Definition platform : PM Platform := λ x, (Ok x.1, x).

(** ** Key texts *)

(** [u8::is_ascii_whitespace]. *)
Definition is_ascii_whitespace (a : ascii) : bool :=
  existsb (λ n, bool_decide (nat_of_ascii a = n)) [32; 9; 10; 12; 13].
Fixpoint drop_while (f : ascii → bool) (s : string) : string :=
  match s with
  | String a t => if f a then drop_while f t else s
  | EmptyString => s
  end.
Definition trim_ascii_whitespace (s : string) : string :=
  rev_string EmptyString (drop_while is_ascii_whitespace
    (rev_string EmptyString (drop_while is_ascii_whitespace s))).

(** [keyring::Entry::new] and [get_password]: an entry, no entry, or a failure. *)
Definition get_password (k : string * string) (p : Platform) : DidResult (option string) :=
  if keyring_available p then Ok (keyring_entries p !! k) else Err ProviderUnavailable.

(** [trait RootKeyProvider]. *)
Record RootKeyProvider := {
  provider_binding : RootKeyProviderBinding;
  load_existing : PM string;
  create_if_missing : StoreWriteGuard → PM string }.

Definition default_file_root_key_path (root : string) : KeyPath := (Some root, "root-key.b64u"%string).

Section Store.
Context `{Env}.

(** A durable write outside the store: it fails like the ones inside. *)
Definition platform_durable (f : Platform → Platform) : PM unit := λ x,
  match io x.2 with
  | FaultAfter 0 true => let (r, w) := durable id x.2 in (r, (f x.1, w))
  | FaultAfter 0 false => let (r, w) := durable id x.2 in (r, (x.1, w))
  | _ => let (r, w) := durable id x.2 in (r, (f x.1, w))
  end.

Definition decode_root_key (encoded : string) : DidResult string :=
  let? b := ok_or (b64url_decode (trim_ascii_whitespace encoded)) RootKeyMismatch in
  do? rguard (negb (bool_decide (String.length b = ROOT_KEY_LEN))) RootKeyMismatch;
  Ok b.

(** [RootKey::generate]. *)
Definition generate_root_key : PM string := on_world (draw_bytes ROOT_KEY_LEN).

(** [root_key_fingerprint]. *)
Definition key_fingerprint (key : string) : string :=
  b64url_encode (sha256 ("anp-identity:root-key-verifier:v1" +:+ key)).

(** ** Providers *)

(** [InjectedRootKeyProvider::new] and [from_env]. *)
Definition injected_provider (key_id key : string) : RootKeyProvider := {|
  provider_binding := {| rkp_kind := RootKeyProviderKind.Injected; rkp_key_id := key_id;
                         rkp_account := None |};
  load_existing := ret key;
  create_if_missing _ := ret key |}.
Definition injected_from_env (key_id name : string) : PM RootKeyProvider :=
  let! p := platform in
  let! encoded := lift (ok_or (env_vars p !! name) ProviderUnavailable) in
  let! key := lift (decode_root_key encoded) in
  ret (injected_provider key_id key).

(** [FileRootKeyProvider]: [read] and [create_if_missing].  The second test of the file, in
    [write_private_if_absent], sees what the first one saw: the store is locked. *)
Definition read_key_file (path : KeyPath) : PM string :=
  let! p := platform in
  match key_files p !! path with
  | Some (ReadableKey b private) =>
      do! sguard (negb private) ProviderUnavailable;
      lift (decode_root_key b)
  | _ => fail ProviderUnavailable
  end.
Definition create_key_file (path : KeyPath) (guard : StoreWriteGuard) : PM string :=
  let! parent := lift (ok_or path.1 (Io "root-key file has no parent")) in
  do! on_world (require_store guard parent);
  let! p := platform in
  if bool_decide (is_Some (key_files p !! path)) then read_key_file path
  else
    let! key := generate_root_key in
    do! platform_durable (set_key_file path (ReadableKey (b64url_encode key) true));
    ret key.
Definition file_provider (key_id : string) (path : KeyPath) : RootKeyProvider := {|
  provider_binding := {| rkp_kind := RootKeyProviderKind.LocalPrivateFile; rkp_key_id := key_id;
                         rkp_account := None |};
  load_existing := read_key_file path;
  create_if_missing := create_key_file path |}.

(** [KeyringRootKeyProvider]. *)
Definition load_keyring (k : string * string) : PM string :=
  let! p := platform in
  let! v := lift (get_password k p) in
  let! v := lift (ok_or v ProviderUnavailable) in
  lift (decode_root_key v).
(** [entry.set_password]. *)
Definition set_password (k : string * string) (v : string) : PM unit := λ x,
  if keyring_writable x.1 then (Ok tt, (set_keyring_entry k v x.1, x.2))
  else (Err ProviderUnavailable, x).
Definition create_keyring (k : string * string) (guard : StoreWriteGuard) : PM string :=
  let! p := platform in
  let! v := lift (get_password k p) in
  match v with
  | Some v => lift (decode_root_key v)
  | None =>
      let! key := generate_root_key in
      do! set_password k (b64url_encode key);
      ret key
  end.
Definition keyring_provider (service account : string) : RootKeyProvider := {|
  provider_binding := {| rkp_kind := RootKeyProviderKind.OsKeyring; rkp_key_id := service;
                         rkp_account := Some account |};
  load_existing := load_keyring (service, account);
  create_if_missing := create_keyring (service, account) |}.

(** ** The manifest *)

Definition read_manifest_at (d : Disk) : DidResult StoreManifest :=
  let? m := match d_manifest d with
            | None => Err StoreNotFound
            | Some Unreadable => Err (Io os_error)
            | Some Garbled => Err (Serialization os_error)
            | Some (Parsed m) => Ok m
            end in
  do? rguard (negb (bool_decide (sm_schema_version m = STORE_MANIFEST_SCHEMA_VERSION)))
             (Serialization "unsupported store manifest schema");
  Ok m.

Definition write_manifest (root : string) (guard : StoreWriteGuard) (m : StoreManifest) : M unit :=
  do! require_store guard root;
  durable (upd_manifest (λ _, Some (Parsed m))).

Inductive ProviderInitialization :=
  | Required (provider : RootKeyProvider)
  | Preferred (primary fallback : RootKeyProvider).

(** The provider that is used, and its key. *)
Definition choose_provider (i : ProviderInitialization) (guard : StoreWriteGuard)
    : PM (RootKeyProvider * string) :=
  match i with
  | Required p => let! key := create_if_missing p guard in ret (p, key)
  | Preferred primary fallback =>
      let! r := attempt (create_if_missing primary guard) in
      match r with
      | Ok key => ret (primary, key)
      | Err ProviderUnavailable => let! key := create_if_missing fallback guard in ret (fallback, key)
      | Err e => fail e
      end
  end.

(** [StoreRuntime::initialize]. *)
Definition initialize (root : string) (i : ProviderInitialization) : PM StoreRuntime :=
  let! guard := on_world (acquire_exclusive root) in
  let! exists_ := on_world (reads (λ d, Ok (bool_decide (is_Some (d_manifest d))))) in
  do! sguard exists_ Conflict;
  let! chosen := choose_provider i guard in
  let! sid := on_world random_id in
  let! at_ := on_world now in
  let manifest := {| sm_schema_version := STORE_MANIFEST_SCHEMA_VERSION; store_id := sid;
                     sm_generation := 1; provider := provider_binding chosen.1;
                     sm_root_key_fingerprint := key_fingerprint chosen.2;
                     sm_created_at := at_; rekey_generation := 0 |} in
  do! on_world (write_manifest root guard manifest);
  ret {| rt_root := root; rt_root_key := chosen.2; rt_manifest := manifest |}.

(** [StoreRuntime::open]. *)
Definition open_store (root : string) (providers : list RootKeyProvider) : PM StoreRuntime :=
  let! manifest := on_world (reads read_manifest_at) in
  let! p := lift (ok_or (List.find (λ p, bool_decide (provider_binding p = provider manifest))
                           providers) ProviderUnavailable) in
  let! key := load_existing p in
  do! sguard (negb (bool_decide (key_fingerprint key = sm_root_key_fingerprint manifest)))
             RootKeyMismatch;
  ret {| rt_root := root; rt_root_key := key; rt_manifest := manifest |}.

(** ** The constructors of [DidStore] *)

Definition initialize_with (root : string) (i : ProviderInitialization) : PM DidStore :=
  let! rt := initialize root i in on_world (from_runtime rt).
Definition open_with (root : string) (providers : list RootKeyProvider) : PM DidStore :=
  let! rt := open_store root providers in on_world (from_runtime rt).

Definition local_file (root : string) : RootKeyProvider :=
  file_provider "local-private-file" (default_file_root_key_path root).

Definition initialize_injected (root key_id key : string) : PM DidStore :=
  initialize_with root (Required (injected_provider key_id key)).
Definition open_injected (root key_id key : string) : PM DidStore :=
  open_with root [injected_provider key_id key].
Definition initialize_env (root key_id name : string) : PM DidStore :=
  let! p := injected_from_env key_id name in initialize_with root (Required p).
Definition open_env (root key_id name : string) : PM DidStore :=
  let! p := injected_from_env key_id name in open_with root [p].
Definition initialize_local_file (root : string) : PM DidStore :=
  initialize_with root (Required (local_file root)).
Definition open_local_file (root : string) : PM DidStore := open_with root [local_file root].
Definition initialize_keyring (root service account : string) (fallback_to_local_file : bool)
    : PM DidStore :=
  let k := keyring_provider service account in
  initialize_with root (if fallback_to_local_file then Preferred k (local_file root) else Required k).
(** [open_keyring] (facade/manager.rs). *)
Definition open_keyring (root service account : string) (fallback_to_local_file : bool)
    : PM DidStore :=
  let k := keyring_provider service account in
  open_with root (if fallback_to_local_file then [k; local_file root] else [k]).
End Store.

(** ** The manager's constructors (facade/manager.rs) *)

Inductive RootKeySource :=
  | Keyring (service account : string) (fallback_to_local_file : bool)
  | LocalPrivateFile
  | Environment (key_id variable : string)
  | InjectedKey (key_id bytes : string).

Section Manager.
Context `{Env}.

Definition manager_initialize (root : string) (source : RootKeySource)
    : ST (Platform * World) Facade.IdentityError DidStore :=
  st_map_err Facade.from_did_error
    match source with
    | InjectedKey key_id b => initialize_injected root key_id b
    | Environment key_id variable => initialize_env root key_id variable
    | LocalPrivateFile => initialize_local_file root
    | Keyring service account fallback => initialize_keyring root service account fallback
    end.
Definition manager_open (root : string) (source : RootKeySource)
    : ST (Platform * World) Facade.IdentityError DidStore :=
  st_map_err Facade.from_did_error
    match source with
    | InjectedKey key_id b => open_injected root key_id b
    | Environment key_id variable => open_env root key_id variable
    | LocalPrivateFile => open_local_file root
    | Keyring service account fallback => open_keyring root service account fallback
    end.
End Manager.
