(* ===== verification/StoreFacts.v ===== *)
(** * Correctness of opening a store (store.rs, platform.rs)

    What a root-key provider promises, as a class that the three providers implement, and
    the theorems about stores proved against it. *)

From stdpp Require Import base strings list gmap.
From S2P Require Import Prelude Json Errors Records Env Toy Base64 World Registry Recovery Identity Store.
From Stdlib Require Import Ascii.

(** ** Key texts *)

Lemma rev_string_app acc s : rev_string acc s = (rev_string EmptyString s +:+ acc)%string.
Proof.
  revert acc. induction s as [|a s IH]; intros acc; simpl; [done|].
  rewrite IH, (IH (String a EmptyString)), string_app_assoc. done.
Qed.

Lemma rev_string_snoc s a :
  rev_string EmptyString (s +:+ String a EmptyString)%string = String a (rev_string EmptyString s).
Proof.
  induction s as [|b s IH]; [done|].
  change (rev_string (String b EmptyString) (s +:+ String a EmptyString)
    = String a (rev_string (String b EmptyString) s)).
  rewrite rev_string_app, IH, (rev_string_app (String b EmptyString) s). done.
Qed.

Lemma rev_string_involutive s : rev_string EmptyString (rev_string EmptyString s) = s.
Proof.
  induction s as [|a s IH]; [done|]. simpl.
  by rewrite (rev_string_app (String a EmptyString) s), rev_string_snoc, IH.
Qed.

Lemma all_bytes_app f s t : all_bytes f (s +:+ t)%string = all_bytes f s && all_bytes f t.
Proof. induction s as [|a s IH]; simpl; [done|]. by rewrite IH, andb_assoc. Qed.

Lemma all_bytes_rev f s : all_bytes f (rev_string EmptyString s) = all_bytes f s.
Proof.
  induction s as [|a s IH]; [done|]. simpl. rewrite (rev_string_app (String a EmptyString) s), all_bytes_app, IH. simpl.
  rewrite andb_true_r. apply andb_comm.
Qed.

Lemma drop_while_none f g s :
  all_bytes g s = true → (∀ a, g a = true → f a = false) → drop_while f s = s.
Proof.
  destruct s as [|a s]; simpl; [done|]. intros [Ha _]%andb_true_iff Hfg. by rewrite (Hfg a).
Qed.

Lemma base64url_not_whitespace a : is_base64url_byte a = true → is_ascii_whitespace a = false.
Proof. destruct a as [[] [] [] [] [] [] [] []]; vm_compute; done. Qed.

Lemma trim_base64url s : all_bytes is_base64url_byte s = true → trim_ascii_whitespace s = s.
Proof.
  intros Hs. unfold trim_ascii_whitespace.
  rewrite (drop_while_none _ _ _ Hs base64url_not_whitespace).
  rewrite (drop_while_none _ is_base64url_byte); [apply rev_string_involutive| |
    apply base64url_not_whitespace]. by rewrite all_bytes_rev.
Qed.

Section StoreFacts.
Context `{Env}.

Lemma decode_encoded `{!Base64Laws, !Base64TextLaws} key :
  String.length key = ROOT_KEY_LEN → decode_root_key (b64url_encode key) = Ok key.
Proof.
  intros Hl. unfold decode_root_key. rewrite trim_base64url by apply b64url_text.
  rewrite b64url_roundtrip. simpl. by rewrite bool_decide_true.
Qed.

(** ** Providers *)

(** The root key is where it was, or it is new: a private file directly in the store's root
    where there was none, or an entry of the keyring where there was none. *)
Inductive key_added (root key : string) (pf : Platform) : Platform → Prop :=
  | key_kept : key_added root key pf pf
  | key_file_added name :
      key_files pf !! (Some root, name) = None →
      key_added root key pf (set_key_file (Some root, name) (ReadableKey (b64url_encode key) true) pf)
  | key_entry_added entry :
      keyring_entries pf !! entry = None →
      key_added root key pf (set_keyring_entry entry (b64url_encode key) pf).

(** Creating a key adds at most that key and changes no other file of the store, a provider
    that is not available changes nothing, and the key that was created is the one that is
    loaded afterwards. *)
Class ProviderLaws (p : RootKeyProvider) : Prop := {
  create_keeps_store g pf w r pf' w' :
    create_if_missing p g (pf, w) = (r, (pf', w')) → disk w' = disk w;
  create_adds_key g pf w r pf' w' :
    create_if_missing p g (pf, w) = (r, (pf', w')) →
    match r with
    | Ok key => key_added (guard_root g) key pf pf'
    | Err ProviderUnavailable => pf' = pf
    | Err _ => ∃ key, key_added (guard_root g) key pf pf'
    end;
  created_key_loads g pf w k pf' w' w2 :
    create_if_missing p g (pf, w) = (Ok k, (pf', w')) → load_existing p (pf', w2) = (Ok k, (pf', w2)) }.

#[export] Instance injected_laws key_id key : ProviderLaws (injected_provider key_id key).
Proof. constructor; intros *; simpl; unfold ret; intros [= <- <- <-]; by try constructor. Qed.

Lemma platform_durable_run f pf w r pf' w' :
  platform_durable f (pf, w) = (r, (pf', w')) →
  disk w' = disk w ∧
  match r with
  | Ok _ => pf' = f pf
  | Err e => e ≠ ProviderUnavailable ∧ (pf' = pf ∨ pf' = f pf)
  end.
Proof.
  unfold platform_durable, durable. simpl.
  destruct (io w) as [|[|n] []]; intros [= <- <- <-]; (split; [done|]); simpl; auto.
Qed.

Lemma generate_root_key_run pf w :
  ∃ w', generate_root_key (pf, w) = (Ok (random_bytes (draws w) ROOT_KEY_LEN), (pf, w')) ∧
    disk w' = disk w.
Proof. unfold generate_root_key, on_world, draw_bytes. simpl. by eexists. Qed.

(** The runs of [create_key_file]: refused before anything is looked at, the file that is
    there, or a new one. *)
Lemma create_key_file_run path g pf w r pf' w' :
  create_key_file path g (pf, w) = (r, (pf', w')) →
  (∃ e, r = Err e ∧ pf' = pf ∧ w' = w) ∨
  read_key_file path (pf, w) = (r, (pf', w')) ∨
  path.1 = Some (guard_root g) ∧ key_files pf !! path = None ∧ disk w' = disk w ∧
  ∃ n, let key := random_bytes n ROOT_KEY_LEN in
    let new := set_key_file path (ReadableKey (b64url_encode key) true) pf in
    match r with
    | Ok k => k = key ∧ pf' = new
    | Err e => e ≠ ProviderUnavailable ∧ (pf' = pf ∨ pf' = new)
    end.
Proof.
  unfold create_key_file, bind at 1, lift. destruct path as [[parent|] name]; simpl;
    [|intros [= <- <- <-]; left; eauto].
  unfold bind at 1, on_world, require_store, sguard, lift. simpl.
  case_bool_decide as Hp; simpl; [|intros [= <- <- <-]; left; eauto].
  unfold bind at 1, platform. simpl. case_bool_decide as Hk; [by right; left|].
  apply eq_None_not_Some in Hk. unfold bind at 1.
  destruct (generate_root_key_run pf w) as (w1 & -> & Hd). unfold bind, ret.
  destruct (platform_durable _ (pf, w1)) as [[[]|e] [pf2 w2]] eqn:Hr;
    apply platform_durable_run in Hr as [Hd2 Hpf]; intros [= <- <- <-]; right; right;
    (split_and!; [by rewrite Hp|done|congruence|]); by eexists.
Qed.

Lemma read_key_file_run path pf w r pf' w' :
  read_key_file path (pf, w) = (r, (pf', w')) →
  pf' = pf ∧ w' = w ∧ ∀ w2, read_key_file path (pf, w2) = (r, (pf, w2)).
Proof.
  unfold read_key_file, bind, platform, sguard, lift, fail. simpl.
  destruct (key_files pf !! path) as [[b []|]|]; simpl; by intros [= <- <- <-].
Qed.

(** A result that comes with an unchanged platform adds no key. *)
Lemma unchanged_adds_key root (r : DidResult string) (pf : Platform) :
  match r with
  | Ok key => key_added root key pf pf
  | Err ProviderUnavailable => pf = pf
  | Err _ => ∃ key, key_added root key pf pf
  end.
Proof. destruct r as [|[]]; try exists EmptyString; try done; constructor. Qed.

#[export] Instance file_laws `{!Base64Laws, !Base64TextLaws, !RandomLaws} key_id path :
  ProviderLaws (file_provider key_id path).
Proof.
  constructor; simpl; intros g pf w.
  - intros r pf' w' [(e & _ & _ & ->)|[(_ & -> & _)%read_key_file_run|(_ & _ & ? & _)]]%create_key_file_run;
      done.
  - intros r pf' w' [(e & -> & -> & _)|[(-> & _)%read_key_file_run|(Hp & Hn & _ & n & Hr)]]%create_key_file_run;
      [apply (unchanged_adds_key (guard_root g) (Err e) pf)|apply unchanged_adds_key|].
    destruct path as [parent name]. simpl in Hp. subst parent.
    assert (key_added (guard_root g) (random_bytes n ROOT_KEY_LEN) pf (set_key_file
      (Some (guard_root g), name) (ReadableKey (b64url_encode (random_bytes n ROOT_KEY_LEN)) true) pf))
      as Hnew by by constructor.
    destruct r as [k|e]; [by destruct Hr as [-> ->]|]. destruct Hr as [He Hpf].
    assert (∃ key, key_added (guard_root g) key pf pf') as Hadd
      by (destruct Hpf as [->| ->]; eexists; [exact (key_kept _ EmptyString _)|exact Hnew]).
    by destruct e.
  - intros k pf' w' w2 [(e & ? & _)|[(-> & _ & Hr)%read_key_file_run|(_ & _ & _ & n & -> & ->)]]%create_key_file_run;
      [done|apply Hr|].
    unfold read_key_file, bind, platform, sguard, lift. simpl. rewrite lookup_insert_eq. simpl.
    by rewrite decode_encoded by apply random_bytes_length.
Qed.

(** The runs of [create_keyring]. *)
Lemma create_keyring_run k g pf w r pf' w' :
  create_keyring k g (pf, w) = (r, (pf', w')) →
  disk w' = disk w ∧
  ((pf' = pf ∧ ∀ key, r = Ok key → ∃ v, get_password k pf = Ok (Some v) ∧ decode_root_key v = Ok key) ∨
   keyring_available pf = true ∧ keyring_entries pf !! k = None ∧
   ∃ n, r = Ok (random_bytes n ROOT_KEY_LEN) ∧
     pf' = set_keyring_entry k (b64url_encode (random_bytes n ROOT_KEY_LEN)) pf).
Proof.
  unfold create_keyring, bind at 1, platform, bind at 1, lift. simpl.
  destruct (get_password k pf) as [[v|]|e] eqn:Hg;
    [intros [= <- <- <-]; split; [done|]; left; split; [done|]; intros key Hk; by exists v|
    |intros [= <- <- <-]; split; [done|]; by left].
  unfold get_password in Hg. destruct (keyring_available pf) eqn:Ha; [injection Hg as Hg|done].
  unfold bind at 1. destruct (generate_root_key_run pf w) as (w1 & -> & <-).
  unfold bind, set_password, ret. simpl. destruct (keyring_writable pf); intros [= <- <- <-].
  - split; [done|]. right. eauto.
  - split; [done|]. by left.
Qed.

#[export] Instance keyring_laws `{!Base64Laws, !Base64TextLaws, !RandomLaws} service account :
  ProviderLaws (keyring_provider service account).
Proof.
  constructor; simpl; intros g pf w.
  - by intros r pf' w' [? _]%create_keyring_run.
  - intros r pf' w' [_ [[-> _]|(_ & Hn & n & -> & ->)]]%create_keyring_run;
      [apply unchanged_adds_key|by constructor].
  - intros k pf' w' w2 [_ [[-> Hk]|(Ha & Hn & n & [= ->] & ->)]]%create_keyring_run;
      unfold load_keyring, bind, platform, lift; simpl.
    + destruct (Hk _ eq_refl) as (v & -> & Hv). simpl. by rewrite Hv.
    + unfold get_password. simpl. rewrite Ha, lookup_insert_eq. simpl.
      by rewrite decode_encoded by apply random_bytes_length.
Qed.

(** ** Initializing and opening *)

Definition providers_of (i : ProviderInitialization) : list RootKeyProvider :=
  match i with
  | Required p => [p]
  | Preferred primary fallback => [primary; fallback]
  end.
Definition initialization_laws (i : ProviderInitialization) : Prop :=
  match i with
  | Required p => ProviderLaws p
  | Preferred a b => ProviderLaws a ∧ ProviderLaws b ∧ provider_binding a ≠ provider_binding b
  end.
Definition with_manifest (m : StoreManifest) (d : Disk) : Disk :=
  upd_manifest (λ _, Some (Parsed m)) d.

Lemma choose_provider_run i g pf w r pf' w' :
  initialization_laws i → choose_provider i g (pf, w) = (r, (pf', w')) →
  disk w' = disk w ∧
  match r with
  | Err _ => ∃ key, key_added (guard_root g) key pf pf'
  | Ok x => key_added (guard_root g) x.2 pf pf' ∧
      List.find (λ p, bool_decide (provider_binding p = provider_binding x.1)) (providers_of i)
        = Some x.1 ∧
      ∀ w2, load_existing x.1 (pf', w2) = (Ok x.2, (pf', w2))
  end.
Proof.
  destruct i as [p|a b]; simpl; unfold bind, ret, attempt, fail.
  - intros Hp. destruct (create_if_missing p g (pf, w)) as [[k|e] [pf1 w1]] eqn:Hc; intros [= <- <- <-];
      pose proof (create_adds_key _ _ _ _ _ _ Hc) as Hadd;
      (split; [by eapply create_keeps_store|]).
    + simpl. rewrite bool_decide_true by done. split_and!; [done..|].
      intros w2. by eapply created_key_loads.
    + destruct e; simplify_eq; try done. exists EmptyString. constructor.
  - intros (Ha & Hb & Hne).
    destruct (create_if_missing a g (pf, w)) as [ra [pf1 w1]] eqn:Hc.
    pose proof (create_keeps_store _ _ _ _ _ _ Hc) as Hd.
    pose proof (create_adds_key _ _ _ _ _ _ Hc) as Hadd.
    destruct ra as [k|e].
    { intros [= <- <- <-]. split; [done|]. simpl.
      rewrite bool_decide_true by done. split_and!; [done..|]. intros w2. by eapply created_key_loads. }
    destruct (decide (e = ProviderUnavailable)) as [->|He].
    + subst pf1.
      destruct (create_if_missing b g (pf, w1)) as [[k|e] [pf2 w2]] eqn:Hc2; intros [= <- <- <-];
        pose proof (create_keeps_store _ _ _ _ _ _ Hc2) as Hd2;
        pose proof (create_adds_key _ _ _ _ _ _ Hc2) as Hadd2; (split; [congruence|]).
      * simpl. rewrite bool_decide_false by done. rewrite bool_decide_true by done.
        split_and!; [done..|]. intros w3. by eapply created_key_loads.
      * destruct e; simplify_eq; try done. exists EmptyString. constructor.
    + intros Hr. assert ((r, (pf', w')) = (Err e, (pf1, w1))) as [= -> -> ->]
        by (rewrite <-Hr; by destruct e). split; [done|]. by destruct e.
Qed.

Lemma open_store_runs root ps p k m pf w :
  d_manifest (disk w) = Some (Parsed m) → sm_schema_version m = STORE_MANIFEST_SCHEMA_VERSION →
  List.find (λ p, bool_decide (provider_binding p = provider m)) ps = Some p →
  load_existing p (pf, w) = (Ok k, (pf, w)) → key_fingerprint k = sm_root_key_fingerprint m →
  open_store root ps (pf, w)
  = (Ok {| rt_root := root; rt_root_key := k; rt_manifest := m |}, (pf, w)).
Proof.
  intros Hm Hs Hf Hl Hk. unfold open_store, bind at 1, on_world, reads, read_manifest_at. simpl.
  rewrite Hm. simpl. rewrite Hs. simpl. unfold bind at 1, lift. rewrite Hf. simpl.
  unfold bind, sguard, lift, ret. rewrite Hl, Hk. by rewrite bool_decide_true.
Qed.

Lemma open_store_Ok root ps pf w rt x :
  open_store root ps (pf, w) = (Ok rt, x) →
  rt_root rt = root ∧ read_manifest_at (disk w) = Ok (rt_manifest rt) ∧
  key_fingerprint (rt_root_key rt) = sm_root_key_fingerprint (rt_manifest rt) ∧
  ∃ p, p ∈ ps ∧ provider_binding p = provider (rt_manifest rt) ∧
    load_existing p (pf, w) = (Ok (rt_root_key rt), x).
Proof.
  unfold open_store. intros Ho. inv_run Ho. unfold on_world, reads in Hstep. simpl in Hstep.
  injection Hstep as Hm <-. inv_run Ho. apply lift_Ok in Hstep as [Hf%ok_or_Ok ->].
  inv_run Ho. inv_run Ho. apply lift_Ok in Hstep0 as [Hk%rguard_Ok ->].
  apply ret_Ok in Ho as [-> ->]. apply negb_false_iff, bool_decide_eq_true in Hk.
  apply find_some in Hf as [Hin Hb%bool_decide_eq_true]. simpl. split_and!; [done..|].
  eexists. split_and!; [by apply list_elem_of_In|done..].
Qed.

(** A second initialization fails and changes nothing; unless the lock is refused, it fails
    because there is a store. *)
Definition refuses_initialization (root : string) (i : ProviderInitialization) (pf : Platform)
    (w : World) : Prop :=
  ∃ e w', initialize root i (pf, w) = (Err e, (pf, w')) ∧ disk w' = disk w ∧
    (io w = NoFault → e = Conflict).

Lemma manifest_refuses root i pf w :
  is_Some (d_manifest (disk w)) → refuses_initialization root i pf w.
Proof.
  intros Hm. unfold refuses_initialization, initialize, bind at 1, on_world at 1. simpl.
  destruct (acquire_exclusive root w) as [[g|e] w1] eqn:Ha; pose proof (keeps_acquire_exclusive _ _ _ _ Ha) as [Hd _].
  - eexists _, w1. split; [|by split]. unfold bind, on_world, reads, sguard, lift. simpl.
    by rewrite Hd, bool_decide_true.
  - exists e, w1. split_and!; [done..|]. intros Hio. by rewrite acquire_exclusive_runs in Ha.
Qed.

(** An initialization, interrupted or not. *)
Lemma initialize_run root i pf w r pf' w' :
  initialization_laws i → initialize root i (pf, w) = (r, (pf', w')) →
  let opened rt := disk w' = with_manifest (rt_manifest rt) (disk w) ∧
    key_added root (rt_root_key rt) pf pf' ∧
    open_store root (providers_of i) (pf', w') = (Ok rt, (pf', w')) in
  match r with
  | Ok rt => d_manifest (disk w) = None ∧ opened rt ∧ ∀ j, refuses_initialization root j pf' w'
  | Err _ => (disk w' = disk w ∧ ∃ key, key_added root key pf pf') ∨ ∃ rt, opened rt
  end.
Proof.
  intros Hl Hi. cbv zeta. unfold initialize in Hi. unfold bind at 1, on_world at 1 in Hi.
  simpl in Hi. destruct (acquire_exclusive root w) as [[g|e] w0] eqn:Ha;
    pose proof (keeps_acquire_exclusive _ _ _ _ Ha) as [Hd0 _];
    [|injection Hi as <- <- <-; left; split; [done|]; exists EmptyString; constructor].
  apply acquire_exclusive_Ok in Ha as [-> _]. rewrite <-Hd0. clear w Hd0. rename w0 into w.
  unfold bind at 1, on_world at 1 in Hi.
  simpl in Hi. unfold bind at 1, sguard, lift in Hi. case_bool_decide as Hm; simpl in Hi.
  { injection Hi as <- <- <-. left. split; [done|]. exists EmptyString. constructor. }
  apply eq_None_not_Some in Hm. unfold bind at 1 in Hi.
  destruct (choose_provider i _ (pf, w)) as [[[p k]|e] [pf1 w1]] eqn:Hc;
    destruct (choose_provider_run _ _ _ _ _ _ _ Hl Hc) as [Hd Hx]; simpl in Hx;
    [|injection Hi as <- <- <-; by left].
  destruct Hx as (Hadd & Hf & Hload).
  unfold bind at 1, on_world at 1 in Hi. simpl in Hi. unfold bind at 1, on_world at 1 in Hi.
  simpl in Hi. set (m := Build_StoreManifest _ _ _ _ _ _ _) in Hi.
  set (rt := {| rt_root := root; rt_root_key := k; rt_manifest := m |}).
  assert (∀ v, disk v = with_manifest m (disk w) →
    open_store root (providers_of i) (pf1, v) = (Ok rt, (pf1, v))) as Hopen.
  { intros v Hv. apply (open_store_runs root _ p k m); try done. by rewrite Hv. }
  unfold bind, on_world, write_manifest, require_store, sguard, lift, ret, bind in Hi. simpl in Hi.
  rewrite bool_decide_true in Hi by done. simpl in Hi. unfold durable in Hi. simpl in Hi.
  destruct (io w1) as [|[|n] []]; injection Hi as <- <- <-; simpl.
  1,4,5: (split_and!; [done|by rewrite Hd|done|by apply Hopen; simpl; rewrite Hd|]; intros j;
    by apply manifest_refuses).
  - right. exists rt. split_and!; [simpl; by rewrite Hd|done|]. apply Hopen. simpl. by rewrite Hd.
  - left. split; [done|]. by exists k.
Qed.

(** C38.  A store is created once and opens with the key it was created with: whatever
    durable operation fails, [initialize] writes nothing but the manifest and at most one
    new root key, the key of the store: a private key file directly in the store's root
    where there was none, or a keyring entry where there was none.  When it returns, there
    was no manifest before, opening with the same providers returns the same runtime, and a
    second initialization is refused without a change; when it fails, no manifest was
    written or the store it wrote opens.  (The lock file of the store is not part of the
    disk of this model; see the files of the store and their lock.) *)
Theorem initialize_then_open root i pf w r pf' w' :
  initialization_laws i → initialize root i (pf, w) = (r, (pf', w')) →
  let opened rt := disk w' = with_manifest (rt_manifest rt) (disk w) ∧
    key_added root (rt_root_key rt) pf pf' ∧
    open_store root (providers_of i) (pf', w') = (Ok rt, (pf', w')) in
  match r with
  | Ok rt => d_manifest (disk w) = None ∧ opened rt ∧ ∀ j, refuses_initialization root j pf' w'
  | Err _ => (disk w' = disk w ∧ ∃ key, key_added root key pf pf') ∨ ∃ rt, opened rt
  end.
Proof. apply initialize_run. Qed.

(** The root key of a store is pinned by its manifest: any two openings of stores with
    the same manifest, by whatever providers and platforms, give the same root key. *)
Theorem root_key_pinned `{!Base64Laws, !DigestLaws} root1 ps1 pf1 w1 rt1 x1 root2 ps2 pf2 w2 rt2 x2 :
  open_store root1 ps1 (pf1, w1) = (Ok rt1, x1) → open_store root2 ps2 (pf2, w2) = (Ok rt2, x2) →
  d_manifest (disk w1) = d_manifest (disk w2) →
  rt_manifest rt1 = rt_manifest rt2 ∧ rt_root_key rt1 = rt_root_key rt2.
Proof.
  intros O1 O2 Hm. apply open_store_Ok in O1 as (_ & M1 & K1 & _), O2 as (_ & M2 & K2 & _).
  unfold read_manifest_at in *. rewrite Hm in M1. rewrite M1 in M2. injection M2 as E.
  split; [done|]. rewrite E, <-K2 in K1. unfold key_fingerprint in K1.
  by apply b64url_encode_inj, sha256_inj, string_app_inj_l in K1.
Qed.
End StoreFacts.

(** ** Witnesses *)

Definition empty_platform : Platform :=
  {| key_files := ∅; keyring_available := false; keyring_writable := false; keyring_entries := ∅;
     env_vars := ∅ |}.
Definition new_world : World := {| disk := empty_disk; io := NoFault; draws := 0; ticks := 0 |}.
Definition new_store : ProviderInitialization :=
  Preferred (@keyring_provider bits_env "service" "account") (@local_file bits_env "/store").

(** The keyring is not available: the store is created with a key file, and opens with it. *)
Lemma initialize_scenario : ∃ rt pf w,
  @initialize bits_env "/store" new_store (empty_platform, new_world) = (Ok rt, (pf, w)).
Proof.
  destruct (@initialize bits_env "/store" new_store (empty_platform, new_world))
    as [[rt|e] [pf w]] eqn:Hi; [by exists rt, pf, w|].
  exfalso. assert (is_ok (@initialize bits_env "/store" new_store (empty_platform, new_world)).1
    = true) as Hok by (vm_compute; reflexivity). by rewrite Hi in Hok.
Defined.

Lemma new_store_laws : @initialization_laws bits_env new_store.
Proof.
  split; [exact (@keyring_laws bits_env bits_base64_laws bits_text_laws bits_random_laws _ _)|].
  split; [exact (@file_laws bits_env bits_base64_laws bits_text_laws bits_random_laws _ _)|].
  discriminate.
Defined.

Lemma initialize_then_open_witness : ∃ rt x,
  @open_store bits_env "/store" (providers_of new_store) x = (Ok rt, x).
Proof.
  destruct initialize_scenario as (rt & pf & w & Hi). exists rt, (pf, w).
  exact (proj2 (proj2 (proj1 (proj2 (@initialize_then_open bits_env _ _ _ _ _ _ _ new_store_laws Hi))))).
Defined.

(** The same store, opened with the key file alone. *)
Definition reopen : result DidError StoreRuntime :=
  (@open_store bits_env "/store" [@local_file bits_env "/store"]
     (@initialize bits_env "/store" new_store (empty_platform, new_world)).2).1.

Lemma root_key_pinned_witness : ∃ rt1 rt2 x1 x2,
  @open_store bits_env "/store" (providers_of new_store) x1 = (Ok rt1, x1) ∧
  @open_store bits_env "/store" [@local_file bits_env "/store"] x1 = (Ok rt2, x2) ∧
  rt_root_key rt1 = rt_root_key rt2.
Proof.
  destruct (is_ok_Ok reopen) as [rt2 Hr]; [vm_compute; reflexivity|]. unfold reopen in Hr.
  destruct initialize_scenario as (rt & pf & w & Hi). rewrite Hi in Hr. simpl in Hr.
  pose proof (proj2 (proj2 (proj1 (proj2 (@initialize_run bits_env _ _ _ _ _ _ _ new_store_laws Hi))))) as Ho.
  destruct (open_store "/store" [local_file "/store"] (pf, w)) as [r x2] eqn:H2. simpl in Hr. subst r.
  exists rt, rt2, (pf, w), x2. split; [exact Ho|]. split; [exact H2|].
  exact (proj2 (@root_key_pinned bits_env bits_base64_laws bits_digest_laws _ _ _ _ _ _ _ _ _ _ _ _
    Ho H2 eq_refl)).
Defined.
