(* ===== verification/ProviderAuthorization.v ===== *)
(** * Leases and one-time authorizations (host/provider_authorization.rs)

    An authority lives in one process.  It grants leases to consumers, issues one-time
    tokens under a lease, each bound to one operation, and accepts a token once.  A token is
    the canonical JSON of its claims and an HMAC of them, both in base64url. *)

From stdpp Require Import base strings list gmap.
From S2P Require Import Prelude Json Errors Records Env World.
From Stdlib Require Import Ascii.

Definition TOKEN_VERSION : string := "anp-identity-capability/1".
Definition MAX_TOKEN_BYTES : N := 16 * 1024.
Definition MAX_LEASE_TTL_SECONDS : Z := 24 * 60 * 60.
Definition MAX_OPERATION_TTL_SECONDS : Z := 5 * 60.

(** [mod capability]. *)
Module capability.
Definition IDENTITY_READ : string := "IDENTITY_READ".
Definition IDENTITY_CREATE : string := "IDENTITY_CREATE".
Definition IDENTITY_IMPORT : string := "IDENTITY_IMPORT".
Definition IDENTITY_SIGN : string := "IDENTITY_SIGN".
Definition IDENTITY_ECDH_SEALED : string := "IDENTITY_ECDH_SEALED".
Definition IDENTITY_DOCUMENT_UPDATE : string := "IDENTITY_DOCUMENT_UPDATE".
Definition IDENTITY_KEY_LIFECYCLE : string := "IDENTITY_KEY_LIFECYCLE".
Definition IDENTITY_DELETE : string := "IDENTITY_DELETE".
Definition IDENTITY_HTTP_SIGNATURE : string := "IDENTITY_HTTP_SIGNATURE".
Definition AWIKI_LEGACY_ROOT_TRANSFER_V1 : string := "AWIKI_LEGACY_ROOT_TRANSFER_V1".
End capability.

(** ** Data *)

Record OneTimeOperationBinding := {
  ob_capability : string;
  ob_identity_id : string;
  ob_operation : string;
  ob_kid : option string;
  ob_request_id : string;
  ob_recipient_public_key : string;
  ob_operation_input_digest : string }.

(** [OneTimeCapabilityToken]: its encoded text. *)
Definition OneTimeCapabilityToken : Type := string.

Record ProviderCapabilityLease := {
  pcl_provider_instance_id : string;
  pcl_lease_id : string }.

Record IssuedAuthorizationContext := {
  iac_provider_instance_id : string;
  iac_parent_lease_id : string;
  iac_consumer : string;
  iac_capability : string;
  iac_store_id : string;
  iac_expires_at : Z }.

Record IssuedOneTimeAuthorization := {
  issued_token : OneTimeCapabilityToken;
  issued_context : IssuedAuthorizationContext }.

Module ProviderAuthorizationError.
Inductive t :=
  | LeaseInvalid
  | CapabilityDenied
  | TokenInvalid
  | TokenExpired
  | TokenConsumed
  | Internal.
#[global] Instance eq_dec : EqDecision t.
Proof. solve_decision. Defined.
End ProviderAuthorizationError.

Record LeaseState := {
  ls_consumer : string;
  ls_capabilities : gset string;
  ls_store_id : string;
  ls_expires_at : Z }.

(** [ProviderAuthorization] with the content of its mutex, [AuthorizationState]. *)
Record ProviderAuthorization := {
  provider_instance_id : string;
  hmac_key : string;
  leases : gmap string LeaseState;
  consumed_tokens : gmap string Z }.

Definition set_leases (f : gmap string LeaseState → gmap string LeaseState)
    (a : ProviderAuthorization) : ProviderAuthorization :=
  {| provider_instance_id := provider_instance_id a; hmac_key := hmac_key a;
     leases := f (leases a); consumed_tokens := consumed_tokens a |}.
Definition set_consumed (f : gmap string Z → gmap string Z)
    (a : ProviderAuthorization) : ProviderAuthorization :=
  {| provider_instance_id := provider_instance_id a; hmac_key := hmac_key a;
     leases := leases a; consumed_tokens := f (consumed_tokens a) |}.

Record TokenClaims := {
  tc_version : string;
  tc_provider_instance_id : string;
  tc_parent_lease_id : string;
  tc_consumer : string;
  tc_capability : string;
  tc_store_id : string;
  tc_identity_id : string;
  tc_operation : string;
  tc_kid : option string;
  tc_request_id : string;
  tc_recipient_public_key_digest : string;
  tc_operation_input_digest : string;
  tc_expires_at : Z }.

Record ConsumedOneTimeAuthorization := {
  co_provider_instance_id : string;
  co_parent_lease_id : string;
  co_consumer : string;
  co_capability : string;
  co_store_id : string;
  co_expires_at : Z }.

(** The JSON form of the claims ([#[derive(Serialize)]]). *)
Definition claims_value (c : TokenClaims) : Value :=
  json_object
    [("version", Str (tc_version c)); ("provider_instance_id", Str (tc_provider_instance_id c));
     ("parent_lease_id", Str (tc_parent_lease_id c)); ("consumer", Str (tc_consumer c));
     ("capability", Str (tc_capability c)); ("store_id", Str (tc_store_id c));
     ("identity_id", Str (tc_identity_id c)); ("operation", Str (tc_operation c));
     ("kid", match tc_kid c with Some k => Str k | None => Null end);
     ("request_id", Str (tc_request_id c));
     ("recipient_public_key_digest", Str (tc_recipient_public_key_digest c));
     ("operation_input_digest", Str (tc_operation_input_digest c));
     ("expires_at", Number (if (tc_expires_at c <? 0)%Z then NegInt (tc_expires_at c)
                            else PosInt (Z.to_N (tc_expires_at c))))].

(** What the authority calls outside the crate: HMAC-SHA256, [serde_json::from_slice] at
    [TokenClaims], and the digest of a recipient key of [anp::sealed_handoff]. *)
Class AuthEnv := {
  hmac_sha256 : string → string → string;
  parse_claims : string → option TokenClaims;
  sealed_recipient_public_key_digest : string → string }.

(** ** Computations over an authority *)

Abbreviation AM := (ST (ProviderAuthorization * World) ProviderAuthorizationError.t).

Definition authority : AM ProviderAuthorization := λ x, (Ok x.1, x).
Definition update_authority (f : ProviderAuthorization → ProviderAuthorization) : AM unit :=
  λ x, (Ok tt, (f x.1, x.2)).
(** Randomness and clock of the world, which do not fail. *)
Definition of_world {A} (m : M A) : AM A := λ x,
  let (r, w) := m x.2 in (map_err (λ _, ProviderAuthorizationError.Internal) r, (x.1, w)).

(** [i64] addition: it wraps around in a release build. *)
Definition i64_wrap (z : Z) : Z := ((z + 2 ^ 63) mod 2 ^ 64 - 2 ^ 63)%Z.
Definition i64_add (a b : Z) : Z := i64_wrap (a + b).

(** [(lo..=hi).contains(&z)]. *)
Definition in_range (lo hi z : Z) : bool := (lo <=? z)%Z && (z <=? hi)%Z.

(** [str::split_once]. *)
Fixpoint split_once (c : ascii) (s : string) : option (string * string) :=
  match s with
  | EmptyString => None
  | String a s =>
      if bool_decide (a = c) then Some (EmptyString, s)
      else match split_once c s with
           | Some (x, y) => Some (String a x, y)
           | None => None
           end
  end.

Definition validate_nonempty (value : string) : result ProviderAuthorizationError.t unit :=
  rguard (is_empty (trim value)) ProviderAuthorizationError.TokenInvalid.

Definition validate_binding (b : OneTimeOperationBinding)
    : result ProviderAuthorizationError.t unit :=
  do? validate_nonempty (ob_capability b);
  do? validate_nonempty (ob_identity_id b);
  do? validate_nonempty (ob_operation b);
  do? validate_nonempty (ob_request_id b);
  do? validate_nonempty (ob_operation_input_digest b);
  rguard (match ob_kid b with Some k => is_empty (trim k) | None => false end)
         ProviderAuthorizationError.TokenInvalid.

Section Authority.
Context `{Env, AuthEnv}.

Definition recipient_public_key_digest (public_key : string) : string :=
  sealed_recipient_public_key_digest public_key.

(** [unix_now]: whole seconds of the clock. *)
Definition unix_now : M Z := let! t := utc_now in ret (t / 1000000000)%Z.

(** [ProviderAuthorization::new]. *)
Definition new_authority : M ProviderAuthorization :=
  let! key := draw_bytes 32 in
  let! id := random_id in
  ret {| provider_instance_id := id; hmac_key := key; leases := ∅; consumed_tokens := ∅ |}.

Definition sign_payload (a : ProviderAuthorization) (payload : string) : string :=
  hmac_sha256 (hmac_key a) payload.
Definition verify_payload (a : ProviderAuthorization) (payload tag : string)
    : result ProviderAuthorizationError.t unit :=
  rguard (negb (bool_decide (tag = hmac_sha256 (hmac_key a) payload)))
         ProviderAuthorizationError.TokenInvalid.

(** ** Leases *)

Definition acquire_lease_at (consumer : string) (capabilities : list string) (store_id : string)
    (ttl_seconds now : Z) : AM ProviderCapabilityLease :=
  do! lift (validate_nonempty consumer);
  do! lift (validate_nonempty store_id);
  do! sguard (negb (in_range 1 MAX_LEASE_TTL_SECONDS ttl_seconds))
             ProviderAuthorizationError.LeaseInvalid;
  let capabilities : gset string := list_to_set capabilities in
  do! sguard (bool_decide (capabilities = ∅)
              || existsb (λ c, is_empty (trim c)) (elements capabilities))
             ProviderAuthorizationError.LeaseInvalid;
  let! lease_id := of_world random_id in
  do! update_authority (set_leases (insert lease_id
        {| ls_consumer := consumer; ls_capabilities := capabilities; ls_store_id := store_id;
           ls_expires_at := i64_add now ttl_seconds |}));
  let! a := authority in
  ret {| pcl_provider_instance_id := provider_instance_id a; pcl_lease_id := lease_id |}.

Definition dispose_lease (lease : ProviderCapabilityLease) : AM unit :=
  let! a := authority in
  do! sguard (negb (bool_decide (pcl_provider_instance_id lease = provider_instance_id a)))
             ProviderAuthorizationError.LeaseInvalid;
  do! update_authority (set_leases (delete (pcl_lease_id lease)));
  do! lift (ok_or (leases a !! pcl_lease_id lease) ProviderAuthorizationError.LeaseInvalid);
  ret tt.

Definition authorize (lease : ProviderCapabilityLease) (capability : string) : AM unit :=
  let! a := authority in
  do! sguard (negb (bool_decide (pcl_provider_instance_id lease = provider_instance_id a))
              || is_empty (trim capability)) ProviderAuthorizationError.LeaseInvalid;
  let! parent := lift (ok_or (leases a !! pcl_lease_id lease)
                         ProviderAuthorizationError.LeaseInvalid) in
  let! now := of_world unix_now in
  do! sguard (ls_expires_at parent <=? now)%Z ProviderAuthorizationError.LeaseInvalid;
  sguard (negb (bool_decide (capability ∈ ls_capabilities parent)))
         ProviderAuthorizationError.CapabilityDenied.

(** ** Tokens *)

(** The claims of a token for a binding under a lease. *)
Definition claims_for (a : ProviderAuthorization) (lease : ProviderCapabilityLease)
    (parent : LeaseState) (b : OneTimeOperationBinding) (expires_at : Z) : TokenClaims :=
  {| tc_version := TOKEN_VERSION; tc_provider_instance_id := provider_instance_id a;
     tc_parent_lease_id := pcl_lease_id lease; tc_consumer := ls_consumer parent;
     tc_capability := ob_capability b; tc_store_id := ls_store_id parent;
     tc_identity_id := ob_identity_id b; tc_operation := ob_operation b; tc_kid := ob_kid b;
     tc_request_id := ob_request_id b;
     tc_recipient_public_key_digest := recipient_public_key_digest (ob_recipient_public_key b);
     tc_operation_input_digest := ob_operation_input_digest b; tc_expires_at := expires_at |}.

Definition context_of (c : TokenClaims) : IssuedAuthorizationContext :=
  {| iac_provider_instance_id := tc_provider_instance_id c;
     iac_parent_lease_id := tc_parent_lease_id c; iac_consumer := tc_consumer c;
     iac_capability := tc_capability c; iac_store_id := tc_store_id c;
     iac_expires_at := tc_expires_at c |}.

(** [format!("{}.{}", ...)]. *)
Definition token_text (payload tag : string) : string :=
  (b64url_encode payload +:+ "." +:+ b64url_encode tag)%string.

Definition issue_one_time_with_context_at (lease : ProviderCapabilityLease)
    (b : OneTimeOperationBinding) (ttl_seconds now : Z) : AM IssuedOneTimeAuthorization :=
  do! lift (validate_binding b);
  let! a := authority in
  do! sguard (negb (bool_decide (pcl_provider_instance_id lease = provider_instance_id a))
              || negb (in_range 1 MAX_OPERATION_TTL_SECONDS ttl_seconds))
             ProviderAuthorizationError.LeaseInvalid;
  let! parent := lift (ok_or (leases a !! pcl_lease_id lease)
                         ProviderAuthorizationError.LeaseInvalid) in
  do! sguard (ls_expires_at parent <=? now)%Z ProviderAuthorizationError.LeaseInvalid;
  do! sguard (negb (bool_decide (ob_capability b ∈ ls_capabilities parent)))
             ProviderAuthorizationError.CapabilityDenied;
  let claims := claims_for a lease parent b
                  (Z.min (i64_add now ttl_seconds) (ls_expires_at parent)) in
  let! payload := lift (ok_or (canonical_json (claims_value claims))
                          ProviderAuthorizationError.Internal) in
  let tag := sign_payload a payload in
  ret {| issued_token := token_text payload tag; issued_context := context_of claims |}.

Definition issue_one_time_at (lease : ProviderCapabilityLease) (b : OneTimeOperationBinding)
    (ttl_seconds now : Z) : AM OneTimeCapabilityToken :=
  let! issued := issue_one_time_with_context_at lease b ttl_seconds now in
  ret (issued_token issued).

(** The payload and the tag of a token text. *)
Definition token_parts (token : OneTimeCapabilityToken)
    : result ProviderAuthorizationError.t (string * string) :=
  do? rguard (MAX_TOKEN_BYTES <? N.of_nat (String.length token))%N
             ProviderAuthorizationError.TokenInvalid;
  let? p := ok_or (match split_once "."%char token with
                   | Some (x, y) => if contains_char "."%char y then None else Some (x, y)
                   | None => None
                   end) ProviderAuthorizationError.TokenInvalid in
  let? payload := ok_or (b64url_decode p.1) ProviderAuthorizationError.TokenInvalid in
  let? tag := ok_or (b64url_decode p.2) ProviderAuthorizationError.TokenInvalid in
  Ok (payload, tag).

(** The claims name this authority and the expected operation. *)
Definition claims_match (a : ProviderAuthorization) (expected : OneTimeOperationBinding)
    (c : TokenClaims) : bool :=
  bool_decide (tc_version c = TOKEN_VERSION)
  && bool_decide (tc_provider_instance_id c = provider_instance_id a)
  && bool_decide (tc_capability c = ob_capability expected)
  && bool_decide (tc_identity_id c = ob_identity_id expected)
  && bool_decide (tc_operation c = ob_operation expected)
  && bool_decide (tc_kid c = ob_kid expected)
  && bool_decide (tc_request_id c = ob_request_id expected)
  && bool_decide (tc_recipient_public_key_digest c
                  = recipient_public_key_digest (ob_recipient_public_key expected))
  && bool_decide (tc_operation_input_digest c = ob_operation_input_digest expected).

(** The lease of the claims is there, unexpired and unchanged. *)
Definition lease_backs (parent : LeaseState) (c : TokenClaims) (now : Z) : bool :=
  negb (ls_expires_at parent <=? now)%Z
  && bool_decide (ls_consumer parent = tc_consumer c)
  && bool_decide (ls_store_id parent = tc_store_id c)
  && bool_decide (tc_capability c ∈ ls_capabilities parent).

Definition consume_for_operation_at (token : OneTimeCapabilityToken)
    (expected : OneTimeOperationBinding) (now : Z) : AM ConsumedOneTimeAuthorization :=
  do! lift (validate_binding expected);
  let! parts := lift (token_parts token) in
  let! a := authority in
  do! lift (verify_payload a parts.1 parts.2);
  let! claims := lift (ok_or (parse_claims parts.1) ProviderAuthorizationError.TokenInvalid) in
  do! sguard (negb (claims_match a expected claims)) ProviderAuthorizationError.TokenInvalid;
  do! sguard (tc_expires_at claims <=? now)%Z ProviderAuthorizationError.TokenExpired;
  let token_digest := sha256 token in
  let! parent := lift (ok_or (leases a !! tc_parent_lease_id claims)
                         ProviderAuthorizationError.LeaseInvalid) in
  do! sguard (negb (lease_backs parent claims now)) ProviderAuthorizationError.LeaseInvalid;
  do! update_authority (set_consumed (filter (λ e, (now < e.2)%Z)));
  let! a := authority in
  do! update_authority (set_consumed (insert token_digest (tc_expires_at claims)));
  do! sguard (bool_decide (is_Some (consumed_tokens a !! token_digest)))
             ProviderAuthorizationError.TokenConsumed;
  ret {| co_provider_instance_id := tc_provider_instance_id claims;
         co_parent_lease_id := tc_parent_lease_id claims; co_consumer := tc_consumer claims;
         co_capability := tc_capability claims; co_store_id := tc_store_id claims;
         co_expires_at := tc_expires_at claims |}.

(** ** The public operations read the clock

    The source reads the clock before the operation takes the mutex; here the reading and
    the operation are one step of the authority, that is, the calls of one authority do not
    overlap.  The operations with the suffix [_at] take the reading as an argument and are
    stated for any reading. *)

Definition acquire_lease (consumer : string) (capabilities : list string) (store_id : string)
    (ttl_seconds : Z) : AM ProviderCapabilityLease :=
  let! now := of_world unix_now in
  acquire_lease_at consumer capabilities store_id ttl_seconds now.
Definition issue_one_time (lease : ProviderCapabilityLease) (b : OneTimeOperationBinding)
    (ttl_seconds : Z) : AM OneTimeCapabilityToken :=
  let! now := of_world unix_now in issue_one_time_at lease b ttl_seconds now.
Definition issue_one_time_with_context (lease : ProviderCapabilityLease)
    (b : OneTimeOperationBinding) (ttl_seconds : Z) : AM IssuedOneTimeAuthorization :=
  let! now := of_world unix_now in issue_one_time_with_context_at lease b ttl_seconds now.
Definition consume_one_time (token : OneTimeCapabilityToken) (expected : OneTimeOperationBinding)
    : AM unit :=
  let! now := of_world unix_now in
  do! consume_for_operation_at token expected now; ret tt.
Definition consume_for_operation (token : OneTimeCapabilityToken)
    (expected : OneTimeOperationBinding) : AM ConsumedOneTimeAuthorization :=
  let! now := of_world unix_now in consume_for_operation_at token expected now.
End Authority.
