(* ===== verification/ProviderAuthorizationFacts.v ===== *)
(** * Correctness of leases and one-time authorizations

    A token authorizes exactly the operation it was issued for, once, and only while its
    lease is in force.  The theorems speak about every history of an authority: any order
    of its public operations, with other code of the process running in between. *)

From stdpp Require Import base strings list gmap.
From S2P Require Import Prelude Json Errors Records Env Toy Base64 World ProviderAuthorization.
From Stdlib Require Import Ascii.

(** [serde_json] reads back the claims that were written.  The canonical form writes numbers
    as IEEE doubles (RFC 8785), which are exact below 2^53. *)
Class ClaimsLaws `{Env, AuthEnv} := {
  claims_roundtrip c payload : (Z.abs (tc_expires_at c) < 2 ^ 53)%Z →
    canonical_json (claims_value c) = Some payload → parse_claims payload = Some c }.
(** The digest of a recipient key is used as a collision-free function. *)
Class RecipientLaws `{AuthEnv} := {
  recipient_digest_inj k k' :
    sealed_recipient_public_key_digest k = sealed_recipient_public_key_digest k' → k = k' }.
(** The clock of the operating system is not set back. *)
Class MonotoneClock `{Env} := {
  clock_monotone m n : m ≤ n → (clock_utc m ≤ clock_utc n)%Z }.

(** ** Arithmetic *)

(** The instants of [chrono::DateTime<Utc>] lie within the years 262143 BCE and CE. *)
Definition chrono_time (t : Z) : Prop := (Z.abs t < 2 ^ 43)%Z.

Lemma i64_add_small a b :
  (- 2 ^ 63 ≤ a + b < 2 ^ 63)%Z → i64_add a b = (a + b)%Z.
Proof.
  intros Hb. unfold i64_add, i64_wrap. rewrite Z.mod_small; [lia|].
  change (2 ^ 64)%Z with (2 ^ 63 + 2 ^ 63)%Z. lia.
Qed.

Lemma i64_add_time now ttl :
  chrono_time now → (0 ≤ ttl ≤ MAX_LEASE_TTL_SECONDS)%Z → i64_add now ttl = (now + ttl)%Z.
Proof.
  unfold chrono_time, MAX_LEASE_TTL_SECONDS. intros Hn Ht. apply i64_add_small.
  change (2 ^ 43)%Z with 8796093022208%Z in Hn. change (2 ^ 63)%Z with 9223372036854775808%Z. lia.
Qed.

Lemma in_range_true lo hi z : in_range lo hi z = true ↔ (lo ≤ z ≤ hi)%Z.
Proof. unfold in_range. rewrite andb_true_iff, !Z.leb_le. lia. Qed.

(** ** Token texts *)

Lemma split_once_app c x y :
  contains_char c x = false → split_once c (x +:+ String c y)%string = Some (x, y).
Proof.
  induction x as [|a x IH]; simpl; [by rewrite bool_decide_true|].
  intros [Ha Hx]%orb_false_iff. rewrite Ha. by rewrite (IH Hx).
Qed.

Lemma split_once_Some c s x y : split_once c s = Some (x, y) → s = (x +:+ String c y)%string.
Proof.
  revert x. induction s as [|a s IH]; intros x; simpl; [done|].
  case_bool_decide as Hc; [intros [= <- <-]; by subst|].
  destruct (split_once c s) as [[u v]|]; [|done]. intros [= <- <-].
  change (String a s = String a (u +:+ String c v)). f_equal. by apply IH.
Qed.

Section Facts.
Context `{HE : Env, HA : AuthEnv}.

Lemma token_parts_text `{!Base64CanonicalLaws} t payload tag :
  token_parts t = Ok (payload, tag) → t = token_text payload tag.
Proof.
  unfold token_parts. intros Hp. inv_run Hp. inv_run Hp. apply ok_or_Ok in Hstep0.
  destruct (split_once _ t) as [[x y]|] eqn:Hs; [|done].
  destruct (contains_char _ y); [done|]. injection Hstep0 as <-. simpl in Hp.
  inv_run Hp. inv_run Hp. injection Hp as -> ->. apply ok_or_Ok in Hstep0, Hstep1.
  apply split_once_Some in Hs as ->. unfold token_text.
  by rewrite (b64url_canonical _ _ Hstep0), (b64url_canonical _ _ Hstep1).
Qed.

Lemma token_text_parts `{!Base64Laws, !Base64TextLaws} payload tag :
  (N.of_nat (String.length (token_text payload tag)) ≤ MAX_TOKEN_BYTES)%N →
  token_parts (token_text payload tag) = Ok (payload, tag).
Proof.
  intros Hl. unfold token_parts. apply N.ltb_ge in Hl. rewrite Hl. simpl.
  change (token_text payload tag)
    with (b64url_encode payload +:+ String "."%char (b64url_encode tag))%string.
  rewrite split_once_app by
    (apply (contains_char_none _ is_base64url_byte); [apply b64url_text|done]).
  rewrite (contains_char_none _ is_base64url_byte) by (apply b64url_text || done).
  simpl. by rewrite !b64url_roundtrip.
Qed.

(** ** Consuming *)

(** [t] carries [c], signed by the authority. *)
Definition carries (a : ProviderAuthorization) (t : string) (c : TokenClaims) : Prop :=
  ∃ payload, token_parts t = Ok (payload, hmac_sha256 (hmac_key a) payload) ∧
             parse_claims payload = Some c.

Definition consumed_of (c : TokenClaims) : ConsumedOneTimeAuthorization :=
  {| co_provider_instance_id := tc_provider_instance_id c;
     co_parent_lease_id := tc_parent_lease_id c; co_consumer := tc_consumer c;
     co_capability := tc_capability c; co_store_id := tc_store_id c;
     co_expires_at := tc_expires_at c |}.

(** The authority after a token that passed every check was looked up. *)
Definition mark_consumed (t : string) (c : TokenClaims) (now : Z) (a : ProviderAuthorization)
    : ProviderAuthorization :=
  set_consumed (λ m, <[sha256 t := tc_expires_at c]> (filter (λ e, (now < e.2)%Z) m)) a.

(** The checks of [consume_for_operation_at] before the list of consumed tokens. *)
Definition admissible (a : ProviderAuthorization) (t : string) (e : OneTimeOperationBinding)
    (now : Z) (c : TokenClaims) : Prop :=
  validate_binding e = Ok tt ∧ carries a t c ∧ claims_match a e c = true ∧
  (now < tc_expires_at c)%Z ∧
  ∃ parent, leases a !! tc_parent_lease_id c = Some parent ∧ lease_backs parent c now = true.

(** The same checks as one function. *)
Definition checks (a : ProviderAuthorization) (t : string) (e : OneTimeOperationBinding)
    (now : Z) : result ProviderAuthorizationError.t TokenClaims :=
  do? validate_binding e;
  let? parts := token_parts t in
  do? verify_payload a parts.1 parts.2;
  let? c := ok_or (parse_claims parts.1) ProviderAuthorizationError.TokenInvalid in
  do? rguard (negb (claims_match a e c)) ProviderAuthorizationError.TokenInvalid;
  do? rguard (tc_expires_at c <=? now)%Z ProviderAuthorizationError.TokenExpired;
  let? parent := ok_or (leases a !! tc_parent_lease_id c) ProviderAuthorizationError.LeaseInvalid in
  do? rguard (negb (lease_backs parent c now)) ProviderAuthorizationError.LeaseInvalid;
  Ok c.

Lemma checks_Ok a t e now c : checks a t e now = Ok c ↔ admissible a t e now c.
Proof.
  unfold checks, admissible, carries. split.
  - intros Hc. repeat inv_run Hc. injection Hc as <-. destruct_units. destruct a1 as [payload tag].
    unfold verify_payload in Hstep1. rewrite rguard_Ok, negb_false_iff in *.
    apply ok_or_Ok in Hstep2, Hstep5. simpl in *. apply bool_decide_eq_true in Hstep1 as ->.
    apply Z.leb_gt in Hstep4. eauto 12.
  - intros (-> & (payload & -> & Hp) & Hm & Hx & parent & Hl & Hb). unfold verify_payload. simpl.
    rewrite bool_decide_true, Hp by done. simpl. rewrite Hm. simpl.
    apply Z.leb_gt in Hx. rewrite Hx. simpl. rewrite Hl. simpl. by rewrite Hb.
Qed.

(** A token that passes the checks is recorded; it is accepted when it was not yet. *)
Definition seen (a : ProviderAuthorization) (t : string) (now : Z) : bool :=
  bool_decide (is_Some (filter (λ e, (now < e.2)%Z) (consumed_tokens a) !! sha256 t)).

Lemma consume_checks t e now a w :
  consume_for_operation_at t e now (a, w)
  = match checks a t e now with
    | Ok c => (if seen a t now then Err ProviderAuthorizationError.TokenConsumed
               else Ok (consumed_of c), (mark_consumed t c now a, w))
    | Err err => (Err err, (a, w))
    end.
Proof.
  unfold consume_for_operation_at, checks, bind, lift, sguard, authority, update_authority, ret.
  destruct (validate_binding e) as [[]|]; [|done]. cbn.
  destruct (token_parts t) as [p|]; [|done]. cbn.
  destruct (verify_payload a p.1 p.2) as [[]|]; [|done]. cbn.
  destruct (parse_claims p.1) as [c|]; [|done]. cbn.
  destruct (claims_match a e c); [|done]. cbn.
  destruct (tc_expires_at c <=? now)%Z; [done|]. cbn.
  destruct (leases a !! tc_parent_lease_id c) as [parent|]; [|done]. cbn.
  destruct (lease_backs parent c now); [|done]. cbn. unfold seen.
  by case_bool_decide.
Qed.

Lemma carries_inj a t c c' : carries a t c → carries a t c' → c = c'.
Proof. intros (p & H1 & H2) (p' & H3 & H4). rewrite H1 in H3. injection H3 as ->. congruence. Qed.

(** ** Histories *)

(** The clock reading that comes next, in whole seconds. *)
Definition time (w : World) : Z := (clock_utc (ticks w) / 1000000000)%Z.

Inductive label :=
  | Acquired (lease_id : string)
  | Accepted (token : string)
  | Quiet.

(** One call of a public operation of the authority, or a run of other code, which may read
    the clock and draw random bytes. *)
Inductive step : ProviderAuthorization * World → label → ProviderAuthorization * World → Prop :=
  | step_acquire consumer caps sid ttl x lease x' :
      acquire_lease consumer caps sid ttl x = (Ok lease, x') →
      step x (Acquired (pcl_lease_id lease)) x'
  | step_acquire_err consumer caps sid ttl x err x' :
      acquire_lease consumer caps sid ttl x = (Err err, x') → step x Quiet x'
  | step_dispose lease x r x' : dispose_lease lease x = (r, x') → step x Quiet x'
  | step_authorize lease c x r x' : authorize lease c x = (r, x') → step x Quiet x'
  | step_issue lease b ttl x r x' : issue_one_time lease b ttl x = (r, x') → step x Quiet x'
  | step_issue_context lease b ttl x r x' :
      issue_one_time_with_context lease b ttl x = (r, x') → step x Quiet x'
  | step_consume t e x co x' :
      consume_for_operation t e x = (Ok co, x') → step x (Accepted t) x'
  | step_consume_err t e x err x' :
      consume_for_operation t e x = (Err err, x') → step x Quiet x'
  | step_consume_one_time t e x x' :
      consume_one_time t e x = (Ok tt, x') → step x (Accepted t) x'
  | step_consume_one_time_err t e x err x' :
      consume_one_time t e x = (Err err, x') → step x Quiet x'
  | step_other a w w' : ticks w ≤ ticks w' → step (a, w) Quiet (a, w').

Inductive history : ProviderAuthorization * World → list label →
    ProviderAuthorization * World → Prop :=
  | history_nil x : history x [] x
  | history_snoc x l x1 e x2 : history x l x1 → step x1 e x2 → history x (l ++ [e]) x2.

(** What a step does to the authority. *)
Inductive effect (a : ProviderAuthorization) (now : Z) : label → ProviderAuthorization → Prop :=
  | effect_none : effect a now Quiet a
  | effect_grant id parent : effect a now (Acquired id) (set_leases (insert id parent) a)
  | effect_drop id : effect a now Quiet (set_leases (delete id) a)
  | effect_accept t e c : admissible a t e now c → seen a t now = false →
      effect a now (Accepted t) (mark_consumed t c now a)
  | effect_replay t e c : admissible a t e now c → seen a t now = true →
      effect a now Quiet (mark_consumed t c now a).

(** A computation after which the authority is the same and the clock has not been read
    backwards. *)
Definition at_ (a : ProviderAuthorization) (w : World) (x : ProviderAuthorization * World) : Prop :=
  x.1 = a ∧ ticks w ≤ ticks x.2.

Lemma at_lift {A} a w (r : result ProviderAuthorizationError.t A) :
  triple (at_ a w) (lift r) (λ b x, r = Ok b ∧ at_ a w x) (at_ a w).
Proof. apply triple_lift; auto. Qed.

Lemma at_sguard a w bad (e : ProviderAuthorizationError.t) :
  triple (at_ a w) (sguard bad e) (λ _, at_ a w) (at_ a w).
Proof. eapply triple_conseq; [apply triple_sguard|..]; naive_solver. Qed.

Lemma at_authority a w : triple (at_ a w) authority (λ b x, b = a ∧ at_ a w x) (at_ a w).
Proof. intros [a' w'] r x' [Ha Hw] [= <- <-]. simpl in Ha. subst a'. by repeat split. Qed.

Lemma at_random_id a w : triple (at_ a w) (of_world random_id) (λ _, at_ a w) (at_ a w).
Proof. intros [a' w'] r x' [Ha Hw] [= <- <-]. simpl in Ha. subst a'. by split. Qed.

(** The clock: it is read once, at the time of the world before. *)
Lemma at_unix_now a w : triple (at_ a w) (of_world unix_now) (λ _, at_ a w) (at_ a w).
Proof. intros [a' w'] r x' [Ha Hw] [= <- <-]. simpl in Ha. subst a'. split; [done|]. simpl in *. lia. Qed.

Lemma unix_now_run {A} (k : Z → AM A) a w :
  bind (of_world unix_now) k (a, w)
  = k (time w) (a, {| disk := disk w; io := io w; draws := draws w; ticks := S (ticks w) |}).
Proof. done. Qed.

Ltac at_step :=
  eapply triple_bind;
    [first [apply at_sguard | apply at_lift | apply at_authority | apply at_random_id
           | apply at_unix_now] |]; intros; simpl;
  try (apply triple_pull; intros ?; subst).

Lemma authorize_quiet lease c a w :
  triple (at_ a w) (authorize lease c) (λ _, at_ a w) (at_ a w).
Proof. unfold authorize. do 5 at_step. apply at_sguard. Qed.

Lemma issue_quiet lease b ttl now a w :
  triple (at_ a w) (issue_one_time_with_context_at lease b ttl now) (λ _, at_ a w) (at_ a w).
Proof. unfold issue_one_time_with_context_at. do 7 at_step. by apply triple_ret. Qed.

Lemma acquire_effect consumer caps sid ttl now t0 a w :
  triple (at_ a w) (acquire_lease_at consumer caps sid ttl now)
    (λ l x, effect a t0 (Acquired (pcl_lease_id l)) x.1 ∧ ticks w ≤ ticks x.2) (at_ a w).
Proof.
  unfold acquire_lease_at. do 5 at_step. intros [a' w'] r x' [Ha Hw] [= <- <-].
  simpl in Ha. subst a'. split; [apply effect_grant|done].
Qed.

Lemma dispose_effect lease a w t0 r x' :
  dispose_lease lease (a, w) = (r, x') → effect a t0 Quiet x'.1 ∧ x'.2 = w.
Proof.
  unfold dispose_lease, bind, authority, sguard, rguard, lift, update_authority, ret. simpl.
  destruct (negb _); simpl; [intros [= <- <-]; by split; [constructor|]|].
  destruct (leases a !! pcl_lease_id lease); simpl; intros [= <- <-];
    (split; [apply effect_drop|done]).
Qed.

Lemma consume_effect t e now a w r x' :
  consume_for_operation_at t e now (a, w) = (r, x') →
  effect a now match r with Ok _ => Accepted t | Err _ => Quiet end x'.1 ∧ x'.2 = w.
Proof.
  rewrite consume_checks. destruct (checks a t e now) as [c|] eqn:Hc.
  - apply checks_Ok in Hc. destruct (seen a t now) eqn:Hs; intros [= <- <-];
      (split; [by econstructor|done]).
  - intros [= <- <-]. split; [constructor|done].
Qed.

(** Every step has one of the effects, at the time it starts. *)
Lemma step_effect x l x' :
  step x l x' → effect x.1 (time x.2) l x'.1 ∧ ticks x.2 ≤ ticks x'.2.
Proof.
  assert (Hat : ∀ a w, at_ a w (a, w)) by (by split).
  assert (Hq : ∀ a w x' t0, at_ a w x' → effect a t0 Quiet x'.1 ∧ ticks w ≤ ticks x'.2).
  { intros a w x0 t0 [-> Hw]. split; [constructor|done]. }
  assert (Hat' : ∀ a w, at_ a w (a, {| disk := disk w; io := io w; draws := draws w;
    ticks := S (ticks w) |})) by (split; simpl; [done|lia]).
  destruct 1 as [c caps sid ttl [a w] lease x' Hr|c caps sid ttl [a w] err x' Hr|lease [a w] r x' Hr
    |lease c [a w] r x' Hr|lease b ttl [a w] r x' Hr|lease b ttl [a w] r x' Hr|t e [a w] co x' Hr
    |t e [a w] err x' Hr|t e [a w] x' Hr|t e [a w] err x' Hr|a w w' Hw]; simpl.
  - exact (acquire_effect c caps sid ttl _ (time w) a w _ _ _ (Hat' a w) Hr).
  - exact (Hq _ _ _ _ (acquire_effect c caps sid ttl _ (time w) a w _ _ _ (Hat' a w) Hr)).
  - apply dispose_effect with (t0 := time w) in Hr as [He ->]. by split.
  - apply Hq. pose proof (authorize_quiet lease c a w _ _ _ (Hat a w) Hr). by destruct r.
  - apply Hq. unfold issue_one_time in Hr. rewrite unix_now_run in Hr.
    unfold issue_one_time_at, bind in Hr.
    destruct (issue_one_time_with_context_at _ _ _ _ _) as [r' x1] eqn:Hi.
    pose proof (issue_quiet _ _ _ _ a w _ _ _ (Hat' a w) Hi).
    destruct r'; injection Hr as <- <-; done.
  - apply Hq. unfold issue_one_time_with_context in Hr. rewrite unix_now_run in Hr.
    pose proof (issue_quiet _ _ _ _ a w _ _ _ (Hat' a w) Hr). by destruct r.
  - unfold consume_for_operation in Hr. rewrite unix_now_run in Hr.
    apply consume_effect in Hr as [He ->]. split; [done|simpl; lia].
  - unfold consume_for_operation in Hr. rewrite unix_now_run in Hr.
    apply consume_effect in Hr as [He ->]. split; [done|simpl; lia].
  - unfold consume_one_time in Hr. rewrite unix_now_run in Hr. apply bind_Ok in Hr as (co & x1 & Hr & [= <-]).
    apply consume_effect in Hr as [He ->]. split; [done|simpl; lia].
  - unfold consume_one_time in Hr. rewrite unix_now_run in Hr. unfold bind in Hr.
    destruct (consume_for_operation_at _ _ _ _) as [r x1] eqn:Hc.
    apply consume_effect in Hc as [He Hw]. destruct r; [done|]. injection Hr as <- <-.
    rewrite Hw. split; [done|simpl; lia].
  - split; [constructor|done].
Qed.
Lemma effect_identity a now l a' :
  effect a now l a' →
  provider_instance_id a' = provider_instance_id a ∧ hmac_key a' = hmac_key a.
Proof. by destruct 1. Qed.

Lemma carries_key a a' t c : hmac_key a' = hmac_key a → carries a t c → carries a' t c.
Proof. unfold carries. by intros ->. Qed.

(** ** A token is accepted once *)

(** The payload that an accepted token carried. *)
Definition accepted_payload (l : label) : option string :=
  match l with
  | Accepted t => match token_parts t with Ok p => Some p.1 | Err _ => None end
  | _ => None
  end.

(** [t] was accepted: it is expired or listed. *)
Definition remembered (a : ProviderAuthorization) (now : Z) (t : string) : Prop :=
  ∃ c, carries a t c ∧
    ((tc_expires_at c ≤ now)%Z ∨ consumed_tokens a !! sha256 t = Some (tc_expires_at c)).

Lemma mark_remembers `{!DigestLaws} a now t u c :
  carries a u c → remembered a now t → remembered (mark_consumed u c now a) now t.
Proof.
  intros Hu (c' & Hc & Hs). exists c'. split; [done|]. simpl.
  destruct (decide (sha256 t = sha256 u)) as [Heq|Hne].
  - apply sha256_inj in Heq as ->. rewrite (carries_inj _ _ _ _ Hc Hu), lookup_insert_eq. by right.
  - rewrite lookup_insert_ne by congruence. destruct (decide (tc_expires_at c' ≤ now)%Z); [by left|].
    destruct Hs as [?|Hs]; [by left|]. right. apply map_lookup_filter_Some. simpl. split; [done|lia].
Qed.

Lemma effect_remembers `{!DigestLaws} a now l a' t :
  effect a now l a' → remembered a now t → remembered a' now t.
Proof.
  destruct 1; try done; intros Ht; apply mark_remembers; try done;
    match goal with Ha : admissible _ _ _ _ _ |- _ => apply Ha end.
Qed.

Lemma remembered_later a now now' t : (now ≤ now')%Z → remembered a now t → remembered a now' t.
Proof. intros Hle (c & Hc & [Hx|Hx]); exists c; (split; [done|]); [left; lia|by right]. Qed.

Lemma accept_remembered a now t a' : effect a now (Accepted t) a' → remembered a' now t.
Proof.
  inversion 1 as [| | |u e c Ha Hs|]; subst. exists c. split; [apply Ha|]. right. simpl.
  by rewrite lookup_insert_eq.
Qed.

(** A token that was accepted is not accepted again, in whatever text. *)
Lemma remembered_rejected `{!Base64CanonicalLaws} a now t u a' :
  remembered a now t → effect a now (Accepted u) a' →
  accepted_payload (Accepted t) ≠ accepted_payload (Accepted u).
Proof.
  intros (c & (p & Ht & Hc) & Hr). inversion 1 as [| | |u' e d Ha Hs|]; subst.
  destruct Ha as (_ & (q & Hu & Hd) & _ & Hx & _). simpl. rewrite Ht, Hu. intros [= ->].
  pose proof (token_parts_text _ _ _ Ht) as E1. rewrite <-(token_parts_text _ _ _ Hu) in E1.
  subst u. assert (d = c) as -> by congruence. destruct Hr as [?|Hr]; [lia|].
  apply bool_decide_eq_false in Hs. apply Hs. exists (tc_expires_at c).
  apply map_lookup_filter_Some. done.
Qed.

Lemma time_monotone `{!MonotoneClock} w w' : ticks w ≤ ticks w' → (time w ≤ time w')%Z.
Proof. intros Hw. apply Z.div_le_mono; [lia|]. by apply clock_monotone. Qed.

Lemma history_remembers `{!DigestLaws, !MonotoneClock} x l x' t :
  history x l x' → Accepted t ∈ l → remembered x'.1 (time x'.2) t.
Proof.
  induction 1 as [x|x l x1 e x2 Hh IH Hs]; [by intros ?%elem_of_nil|].
  apply step_effect in Hs as [He Hw]. apply time_monotone in Hw.
  intros [Hin|Hin]%elem_of_app; (eapply remembered_later; [exact Hw|]).
  - eapply effect_remembers; [exact He|]. auto.
  - apply list_elem_of_singleton in Hin as <-. by eapply accept_remembered.
Qed.

(** C22. One-time: in every history of an authority, with any operations of it and other code
    in between, calls that do not overlap and a clock that is not set back, no two accepted
    consumptions carry the same signed payload, however the token text is written. *)
Theorem token_consumed_once `{!Base64CanonicalLaws, !DigestLaws, !MonotoneClock} x l x' :
  history x l x' → NoDup (omap accepted_payload l).
Proof.
  induction 1 as [x|x l x1 e x2 Hh IH Hs]; [constructor|].
  rewrite omap_app. apply NoDup_app. split; [done|].
  apply step_effect in Hs as [He Hw]. cbn [omap list_omap].
  destruct (accepted_payload e) as [q|] eqn:Hq; [|split; [by intros p _ ?%elem_of_nil|constructor]].
  split; [|apply NoDup_singleton]. destruct e as [|u|]; try done.
  intros p (lab & Hin & Hp)%list_elem_of_omap ->%list_elem_of_singleton. destruct lab as [|t|]; try done.
  apply (remembered_rejected _ _ _ _ _ (history_remembers _ _ _ _ Hh Hin) He). congruence.
Qed.
(** ** A token authorizes the operation it was issued for *)

Lemma issue_run lease b ttl now a w i x' :
  issue_one_time_with_context_at lease b ttl now (a, w) = (Ok i, x') →
  ∃ parent payload,
    let c := claims_for a lease parent b (Z.min (i64_add now ttl) (ls_expires_at parent)) in
    validate_binding b = Ok tt ∧ (1 ≤ ttl ≤ MAX_OPERATION_TTL_SECONDS)%Z ∧
    leases a !! pcl_lease_id lease = Some parent ∧ (now < ls_expires_at parent)%Z ∧
    ob_capability b ∈ ls_capabilities parent ∧ canonical_json (claims_value c) = Some payload ∧
    i = {| issued_token := token_text payload (hmac_sha256 (hmac_key a) payload);
           issued_context := context_of c |} ∧ x' = (a, w).
Proof.
  unfold issue_one_time_with_context_at. intros Hi. repeat inv_run Hi. destruct_units.
  injection Hstep0 as <- <-. apply lift_Ok in Hstep as [Hv ->]. apply lift_Ok in Hstep2 as [Hl ->].
  unfold sguard in *. apply lift_Ok in Hstep1 as [Hg ->]. apply lift_Ok in Hstep3 as [Hx ->].
  apply lift_Ok in Hstep4 as [Hc ->]. apply lift_Ok in Hstep5 as [Hp ->].
  apply ok_or_Ok in Hl, Hp. rewrite rguard_Ok in *. apply orb_false_iff in Hg as [_ Ht].
  rewrite negb_false_iff in *. apply in_range_true in Ht. apply Z.leb_gt in Hx.
  apply bool_decide_eq_true in Hc. apply ret_Ok in Hi as [-> ->]. eauto 12.
Qed.

Lemma claims_match_self `{!RecipientLaws} a a' lease parent b e x :
  claims_match a' e (claims_for a lease parent b x) = true ↔
  e = b ∧ provider_instance_id a' = provider_instance_id a.
Proof.
  unfold claims_match. rewrite !andb_true_iff, !bool_decide_eq_true. simpl.
  unfold recipient_public_key_digest. split.
  - intros ((((((((_ & ?) & ?) & ?) & ?) & ?) & ?) & Hk) & ?). apply recipient_digest_inj in Hk.
    destruct e, b; simpl in *; split; congruence.
  - intros [-> ->]. done.
Qed.

(** The lease of an issued context is in force. *)
Definition in_force (a : ProviderAuthorization) (ctx : IssuedAuthorizationContext) (now : Z) : Prop :=
  ∃ parent, leases a !! iac_parent_lease_id ctx = Some parent ∧ (now < ls_expires_at parent)%Z ∧
    ls_consumer parent = iac_consumer ctx ∧ ls_store_id parent = iac_store_id ctx ∧
    iac_capability ctx ∈ ls_capabilities parent.

Lemma lease_backs_true parent c now :
  lease_backs parent c now = true ↔
  (now < ls_expires_at parent)%Z ∧ ls_consumer parent = tc_consumer c ∧
  ls_store_id parent = tc_store_id c ∧ tc_capability c ∈ ls_capabilities parent.
Proof.
  unfold lease_backs. rewrite !andb_true_iff, !bool_decide_eq_true, negb_true_iff, Z.leb_gt. tauto.
Qed.

Lemma consume_is_ok t e now a w :
  is_ok (consume_for_operation_at t e now (a, w)).1 = true ↔
  (∃ c, admissible a t e now c) ∧ seen a t now = false.
Proof.
  rewrite consume_checks. setoid_rewrite <-checks_Ok. destruct (checks a t e now) as [c|]; simpl.
  - destruct (seen a t now); simpl; naive_solver.
  - naive_solver.
Qed.

(** A token text the authority is willing to parse. *)
Definition short_token (t : OneTimeCapabilityToken) : Prop :=
  (N.of_nat (String.length t) ≤ MAX_TOKEN_BYTES)%N.

Lemma token_parts_short t p : token_parts t = Ok p → short_token t.
Proof.
  unfold token_parts. intros Hp. inv_run Hp. by apply rguard_Ok, N.ltb_ge in Hstep.
Qed.

(** What an issued token carries. *)
Lemma issued_carries
    `{!Base64Laws, !Base64TextLaws, !ClaimsLaws, !RecipientLaws} lease b ttl now a w i x' :
  chrono_time now →
  issue_one_time_with_context_at lease b ttl now (a, w) = (Ok i, x') →
  ∃ c parent, x' = (a, w) ∧ issued_context i = context_of c ∧ validate_binding b = Ok tt ∧
    in_force a (context_of c) now ∧
    (leases a !! tc_parent_lease_id c = Some parent ∧ (1 ≤ ttl ≤ MAX_OPERATION_TTL_SECONDS)%Z ∧
     (now < ls_expires_at parent)%Z ∧ tc_expires_at c = Z.min (now + ttl) (ls_expires_at parent)) ∧
    (∀ a', hmac_key a' = hmac_key a → short_token (issued_token i) → carries a' (issued_token i) c) ∧
    (∀ a' d, carries a' (issued_token i) d → d = c) ∧
    ∀ a' e, claims_match a' e c = true ↔ e = b ∧ provider_instance_id a' = provider_instance_id a.
Proof.
  intros Hn Hi. apply issue_run in Hi as (parent & payload & Hv & Ht & Hl & Hx & Hc & Hp & -> & ->).
  pose proof (claims_match_self a) as Hm.
  set (c := claims_for _ _ _ _ _) in *. simpl. exists c, parent.
  pose proof (token_text_parts payload (hmac_sha256 (hmac_key a) payload)) as Hparts.
  assert (Hexp : tc_expires_at c = Z.min (now + ttl) (ls_expires_at parent)).
  { subst c. simpl. unfold MAX_OPERATION_TTL_SECONDS in *.
    by rewrite i64_add_time by (done || unfold MAX_LEASE_TTL_SECONDS; lia). }
  assert (Hcl : parse_claims payload = Some c).
  { apply claims_roundtrip; [|done]. unfold chrono_time, MAX_OPERATION_TTL_SECONDS in *.
    change (2 ^ 43)%Z with 8796093022208%Z in *. change (2 ^ 53)%Z with 9007199254740992%Z. lia. }
  split_and!; try done; try lia.
  - exists parent. subst c. simpl. auto.
  - intros a' Hk Hs. exists payload. rewrite Hk. split; [by apply Hparts|done].
  - intros a' d (p & Hq & Hd). pose proof (token_parts_short _ _ Hq) as Hs.
    rewrite Hparts in Hq by done. injection Hq as <- _. congruence.
  - intros a' e. apply Hm.
Qed.

Lemma in_force_backs a c now :
  in_force a (context_of c) now ↔
  ∃ parent, leases a !! tc_parent_lease_id c = Some parent ∧ lease_backs parent c now = true.
Proof. unfold in_force. setoid_rewrite lease_backs_true. done. Qed.

(** The consumption an issued context stands for. *)
Definition consumed_of_context (ctx : IssuedAuthorizationContext) : ConsumedOneTimeAuthorization :=
  {| co_provider_instance_id := iac_provider_instance_id ctx;
     co_parent_lease_id := iac_parent_lease_id ctx; co_consumer := iac_consumer ctx;
     co_capability := iac_capability ctx; co_store_id := iac_store_id ctx;
     co_expires_at := iac_expires_at ctx |}.

Lemma issued_accepted
    `{!Base64Laws, !Base64TextLaws, !ClaimsLaws, !RecipientLaws} lease b ttl now a w i x' a' now' w' :
  chrono_time now →
  issue_one_time_with_context_at lease b ttl now (a, w) = (Ok i, x') →
  (N.of_nat (String.length (issued_token i)) ≤ MAX_TOKEN_BYTES)%N →
  provider_instance_id a' = provider_instance_id a → hmac_key a' = hmac_key a →
  (now' < iac_expires_at (issued_context i))%Z → in_force a' (issued_context i) now' →
  seen a' (issued_token i) now' = false →
  ∃ a'', consume_for_operation_at (issued_token i) b now' (a', w')
         = (Ok (consumed_of_context (issued_context i)), (a'', w')).
Proof.
  intros Hn Hi Hlen Ha Hk Hx Hf Hs.
  destruct (issued_carries _ _ _ _ _ _ _ _ Hn Hi)
    as (c & parent & _ & Hctx & Hv & _ & _ & Hcar & _ & Hm). rewrite Hctx in *.
  apply in_force_backs in Hf. rewrite consume_checks.
  rewrite (proj2 (checks_Ok a' (issued_token i) b now' c)), Hs; [by eexists|].
  split_and!; auto. by apply Hm.
Qed.

(** C23. A token is issued for the time that is asked for, at most five minutes, cut off at the
    end of its lease, and issuing changes nothing.  The authority accepts it for exactly the
    binding it was issued for, before it expires, while its lease is in force with the same
    consumer and store and still grants the capability, when it was not accepted before and
    when its text has at most 16 KiB (the issuing side does not check the length, the
    accepting side does); acceptance returns the issued context.  An authority of another
    instance never accepts it. *)
Theorem issued_token_exact
    `{!Base64Laws, !Base64TextLaws, !ClaimsLaws, !RecipientLaws} lease b ttl now a w i x' :
  chrono_time now →
  issue_one_time_with_context_at lease b ttl now (a, w) = (Ok i, x') →
  let ctx := issued_context i in
  x' = (a, w) ∧ in_force a ctx now ∧ (1 ≤ ttl ≤ MAX_OPERATION_TTL_SECONDS)%Z ∧
  (∃ parent, leases a !! iac_parent_lease_id ctx = Some parent ∧ (now < ls_expires_at parent)%Z ∧
     iac_expires_at ctx = Z.min (now + ttl) (ls_expires_at parent)) ∧
  (∀ a' e now' w', provider_instance_id a' = provider_instance_id a → hmac_key a' = hmac_key a →
    (is_ok (consume_for_operation_at (issued_token i) e now' (a', w')).1 = true ↔
     e = b ∧ (now' < iac_expires_at ctx)%Z ∧ in_force a' ctx now' ∧
     seen a' (issued_token i) now' = false ∧ short_token (issued_token i))) ∧
  (∀ a' e now' w' co x'', consume_for_operation_at (issued_token i) e now' (a', w') = (Ok co, x'') →
    provider_instance_id a' = provider_instance_id a ∧ co = consumed_of_context ctx).
Proof.
  intros Hn Hi ctx. subst ctx.
  destruct (issued_carries _ _ _ _ _ _ _ _ Hn Hi)
    as (c & parent & -> & -> & Hv & Hf & (Hl & Ht & Hx & Hexp) & Hcar & Hinj & Hm).
  split; [done|]. split; [done|]. split; [done|]. split; [by exists parent|]. split.
  - intros a' e now' w' Ha Hk. rewrite consume_is_ok, in_force_backs. simpl. split.
    + intros [(d & Hb & Hd & Hme & Hxx & Hback) Hs]. pose proof Hd as (p & Hp & _).
      apply Hinj in Hd as ->. apply Hm in Hme as [-> _]. apply token_parts_short in Hp. done.
    + intros (-> & Hxx & Hback & Hs & Hshort). split; [|done]. exists c. split_and!; auto. by apply Hm.
  - intros a' e now' w' co x''. rewrite consume_checks.
    destruct (checks _ _ _ _) as [d|] eqn:Hd; [|done]. apply checks_Ok in Hd as (_ & Hd & Hme & _).
    apply Hinj in Hd as ->. destruct (seen _ _ _); [done|]. intros [= <- _]. split; [|done].
    exact (proj2 (proj1 (Hm _ _) Hme)).
Qed.

(** ** Leases end *)

Lemma effect_no_lease a now l a' id :
  effect a now l a' → l ≠ Acquired id → leases a !! id = None → leases a' !! id = None.
Proof.
  destruct 1 as [|id' parent|id'| |]; simpl; intros Hl Hn; try done.
  - rewrite lookup_insert_ne; [done|]. congruence.
  - destruct (decide (id' = id)) as [->|]; [apply lookup_delete_eq|by rewrite lookup_delete_ne].
Qed.

(** Without its lease an authority neither accepts a token, nor authorizes, nor issues. *)
Lemma no_lease_refused lease a w :
  leases a !! pcl_lease_id lease = None →
  (∀ t c now a', effect a now (Accepted t) a' → carries a t c →
     tc_parent_lease_id c ≠ pcl_lease_id lease) ∧
  (∀ cap, is_ok (authorize lease cap (a, w)).1 = false) ∧
  (∀ b ttl, is_ok (issue_one_time lease b ttl (a, w)).1 = false).
Proof.
  intros Hn. split; [|split].
  - intros t c now a' He Hc Heq. inversion He as [| | |u e d Ha Hs|]; subst.
    destruct Ha as (_ & Hd & _ & _ & par & Hl & _). rewrite (carries_inj _ _ _ _ Hd Hc) in Hl. congruence.
  - intros cap. unfold authorize, bind, authority, sguard, lift, rguard. simpl.
    destruct (_ || _); [done|]. by rewrite Hn.
  - intros b ttl. unfold issue_one_time. rewrite unix_now_run.
    unfold issue_one_time_at, issue_one_time_with_context_at, bind, lift, sguard, rguard, authority.
    simpl. destruct (validate_binding b); [|done]. destruct (_ || _); [done|]. by rewrite Hn.
Qed.

(** Disposal is final: after a lease was disposed, and as long as no other lease draws its
    identifier, no token issued under it is accepted, the lease authorizes no capability and
    no token can be issued under it, whatever else happens. *)
Theorem disposed_lease_dead lease x x1 l x2 :
  dispose_lease lease x = (Ok tt, x1) → history x1 l x2 → Acquired (pcl_lease_id lease) ∉ l →
  (∀ t c, Accepted t ∈ l → carries x1.1 t c → tc_parent_lease_id c ≠ pcl_lease_id lease) ∧
  (∀ cap, is_ok (authorize lease cap x2).1 = false) ∧
  (∀ b ttl, is_ok (issue_one_time lease b ttl x2).1 = false).
Proof.
  intros Hd Hh Hl.
  assert (leases x1.1 !! pcl_lease_id lease = None) as Hn.
  { unfold dispose_lease in Hd. repeat inv_run Hd. unfold authority, update_authority, sguard in *.
    injection Hstep as <- <-. apply lift_Ok in Hstep0 as [_ ->]. injection Hstep1 as <- <-.
    apply lift_Ok in Hstep2 as [_ ->]. apply ret_Ok in Hd as [_ ->]. apply lookup_delete_eq. }
  enough (hmac_key x2.1 = hmac_key x1.1 ∧ leases x2.1 !! pcl_lease_id lease = None ∧
          ∀ t c, Accepted t ∈ l → carries x1.1 t c → tc_parent_lease_id c ≠ pcl_lease_id lease)
    as (_ & Hn2 & Ht).
  { destruct x2 as [a2 w2]. split; [done|]. apply (no_lease_refused _ _ w2) in Hn2. apply Hn2. }
  induction Hh as [x1|x1 l y e x2 Hh IH Hs]; [split_and!; try done; by intros t c ?%elem_of_nil|].
  apply step_effect in Hs as [He _].
  destruct IH as (Hk & Hy & Ht); [done|set_solver|done|]. split_and!.
  - rewrite <-Hk. by apply effect_identity in He as [_ ->].
  - eapply effect_no_lease; [done| |done]. intros ->. apply Hl. set_solver.
  - intros t c [Hin|Hin]%elem_of_app Hc; [by eapply Ht|].
    apply list_elem_of_singleton in Hin as <-.
    eapply (no_lease_refused lease y.1 y.2 Hy); [exact He|]. by eapply carries_key.
Qed.
End Facts.
