(* ===== verification/HostToy.v ===== *)
(** * A concrete environment for the host protocols

    The environment of [Toy] with base64url texts and with a canonical form of token claims
    that can be read back, and the scenario the witnesses about authorizations run in. *)

From stdpp Require Import base strings list gmap.
From S2P Require Import Prelude Json Errors Records Env Toy Base64 World ProviderAuthorization.
From S2P Require Import ProviderAuthorizationFacts.
From Stdlib Require Import Ascii.

(** ** Claims that are read back from their JSON value *)

Definition claims_of_value (v : Value) : option TokenClaims :=
  version ← get_str v "version"; instance ← get_str v "provider_instance_id";
  lease ← get_str v "parent_lease_id"; consumer ← get_str v "consumer";
  cap ← get_str v "capability"; store ← get_str v "store_id"; identity ← get_str v "identity_id";
  operation ← get_str v "operation";
  kid ← match get v "kid" with
        | Some (Str k) => Some (Some k) | Some Null => Some None | _ => None
        end;
  request ← get_str v "request_id"; recipient ← get_str v "recipient_public_key_digest";
  input ← get_str v "operation_input_digest";
  expires ← match get v "expires_at" with
            | Some (Number (PosInt n)) => Some (Z.of_N n)
            | Some (Number (NegInt z)) => Some z
            | _ => None
            end;
  Some {| tc_version := version; tc_provider_instance_id := instance; tc_parent_lease_id := lease;
          tc_consumer := consumer; tc_capability := cap; tc_store_id := store;
          tc_identity_id := identity; tc_operation := operation; tc_kid := kid;
          tc_request_id := request; tc_recipient_public_key_digest := recipient;
          tc_operation_input_digest := input; tc_expires_at := expires |}.

Lemma claims_of_claims_value c : claims_of_value (claims_value c) = Some c.
Proof.
  by destruct c as [v i l co ca s id o [k|] r re d [|p|p]]; vm_compute.
Defined.

(** ** A text for claims *)

(** Every byte is announced by [c], the end by [e]. *)
Fixpoint quote (s : string) : string :=
  match s with
  | EmptyString => "e"
  | String a s => String "c" (String a (quote s))
  end.
Fixpoint unquote (s : string) : option (string * string) :=
  match s with
  | String "e" s => Some (EmptyString, s)
  | String "c" (String a s) =>
      match unquote s with Some (x, r) => Some (String a x, r) | None => None end
  | _ => None
  end.
Fixpoint quote_all (l : list string) : string :=
  match l with [] => EmptyString | s :: l => (quote s +:+ quote_all l)%string end.
Fixpoint unquote_all (n : nat) (s : string) : option (list string) :=
  match n with
  | 0 => Some []
  | S n => p ← unquote s; l ← unquote_all n p.2; Some (p.1 :: l)
  end.

Lemma unquote_quote s r : unquote (quote s +:+ r)%string = Some (s, r).
Proof. induction s as [|a s IH]; [done|]. simpl. by rewrite IH. Qed.
Lemma unquote_quote_all l : unquote_all (length l) (quote_all l) = Some l.
Proof. induction l as [|s l IH]; [done|]. simpl. rewrite unquote_quote. simpl. by rewrite IH. Qed.

Fixpoint pos_text (p : positive) : string :=
  match p with
  | xH => EmptyString
  | xO p => String "0" (pos_text p)
  | xI p => String "1" (pos_text p)
  end.
Fixpoint text_pos (s : string) : positive :=
  match s with
  | EmptyString => xH
  | String a s => if bool_decide (a = "0"%char) then xO (text_pos s) else xI (text_pos s)
  end.
Lemma text_pos_text p : text_pos (pos_text p) = p.
Proof. induction p as [p IH|p IH|]; simpl; by rewrite ?IH. Qed.

Definition z_text (z : Z) : string :=
  match z with
  | Z0 => EmptyString | Zpos p => String "+" (pos_text p) | Zneg p => String "-" (pos_text p)
  end.
Definition text_z (s : string) : Z :=
  match s with
  | EmptyString => Z0
  | String a s => if bool_decide (a = "+"%char) then Zpos (text_pos s) else Zneg (text_pos s)
  end.
Lemma text_z_text z : text_z (z_text z) = z.
Proof. destruct z; simpl; by rewrite ?text_pos_text. Qed.

Definition claims_text (c : TokenClaims) : string :=
  quote_all [tc_version c; tc_provider_instance_id c; tc_parent_lease_id c; tc_consumer c;
    tc_capability c; tc_store_id c; tc_identity_id c; tc_operation c;
    match tc_kid c with Some k => String "s" k | None => EmptyString end; tc_request_id c;
    tc_recipient_public_key_digest c; tc_operation_input_digest c; z_text (tc_expires_at c)].
Definition text_claims (s : string) : option TokenClaims :=
  match unquote_all 13 s with
  | Some [v; i; l; co; ca; st; id; o; k; r; re; d; x] =>
      Some {| tc_version := v; tc_provider_instance_id := i; tc_parent_lease_id := l;
              tc_consumer := co; tc_capability := ca; tc_store_id := st; tc_identity_id := id;
              tc_operation := o;
              tc_kid := match k with String _ k => Some k | EmptyString => None end;
              tc_request_id := r; tc_recipient_public_key_digest := re;
              tc_operation_input_digest := d; tc_expires_at := text_z x |}
  | _ => None
  end.
Lemma text_claims_text c : text_claims (claims_text c) = Some c.
Proof.
  unfold text_claims, claims_text. rewrite (unquote_quote_all [_;_;_;_;_;_;_;_;_;_;_;_;_]).
  rewrite text_z_text. destruct c as [v i l co ca s id o [k|] r re d x]; done.
Qed.

(** ** The environment *)

Definition host_canonical (v : Value) : string :=
  match claims_of_value v with Some c => claims_text c | None => print_value v end.
Definition host_env : Env := toy_env_with bits_encode bits_decode host_canonical.
Definition host_auth : AuthEnv := {|
  hmac_sha256 key payload := pad 4 key;
  parse_claims := text_claims;
  sealed_recipient_public_key_digest k := k |}.

Lemma host_base64_laws : @Base64Laws host_env.
Proof. destruct bits_base64_laws as [Hl]. constructor. exact Hl. Defined.
Lemma host_text_laws : @Base64TextLaws host_env.
Proof. destruct bits_text_laws as [Hl]. constructor. exact Hl. Defined.
Lemma host_canonical_laws : @Base64CanonicalLaws host_env.
Proof. destruct bits_canonical_laws as [Hl]. constructor. exact Hl. Defined.
Lemma host_digest_laws : @DigestLaws host_env.
Proof. constructor. auto. Defined.
Lemma host_claims_laws : @ClaimsLaws host_env host_auth.
Proof.
  constructor. intros c payload _. simpl. intros [= <-]. unfold host_canonical.
  rewrite claims_of_claims_value. apply text_claims_text.
Defined.
Lemma host_recipient_laws : @RecipientLaws host_auth.
Proof. constructor. auto. Defined.
Lemma host_clock : @MonotoneClock host_env.
Proof. constructor. intros m n Hmn. simpl. lia. Defined.

(** ** A scenario: an authority, a lease and two tokens *)

Definition w0 : World := {| disk := empty_disk; io := NoFault; draws := 0; ticks := 1000 |}.
Definition request (id : string) : OneTimeOperationBinding :=
  {| ob_capability := capability.IDENTITY_ECDH_SEALED; ob_identity_id := "identity-1";
     ob_operation := "ecdh_sealed"; ob_kid := Some "did#agreement"; ob_request_id := id;
     ob_recipient_public_key := "recipient"; ob_operation_input_digest := "digest" |}.

Definition authority0 : ProviderAuthorization * World :=
  match @new_authority host_env w0 with
  | (Ok a, w) => (a, w)
  | (Err _, w) => ({| provider_instance_id := ""; hmac_key := ""; leases := ∅;
                      consumed_tokens := ∅ |}, w)
  end.
Definition lease_run : result ProviderAuthorizationError.t ProviderCapabilityLease
    * (ProviderAuthorization * World) :=
  @acquire_lease host_env "viewer" [capability.IDENTITY_ECDH_SEALED] "store-1" 600 authority0.
Definition lease0 : ProviderCapabilityLease :=
  match lease_run.1 with
  | Ok l => l
  | Err _ => {| pcl_provider_instance_id := ""; pcl_lease_id := "" |}
  end.
Definition issue_run0 (id : string) (ttl now : Z)
    : result ProviderAuthorizationError.t IssuedOneTimeAuthorization
      * (ProviderAuthorization * World) :=
  @issue_one_time_with_context_at host_env host_auth lease0 (request id) ttl now lease_run.2.
Definition token_of (r : result ProviderAuthorizationError.t IssuedOneTimeAuthorization) : string :=
  match r with Ok i => issued_token i | Err _ => EmptyString end.

Lemma lease_ok : ∃ x, lease_run = (Ok lease0, x).
Proof.
  unfold lease0. destruct lease_run as [[l|e] x] eqn:Hr; [by exists x|].
  exfalso. assert (is_ok lease_run.1 = true) as Hok by (vm_compute; reflexivity).
  rewrite Hr in Hok. discriminate Hok.
Defined.

(** ** Witnesses *)

Definition t1 : string := token_of (issue_run0 "request-1" 10 1000).1.
Definition t2 : string := token_of (issue_run0 "request-2" 20 1005).1.
Definition consume0 (t id : string) (now : Z) (x : ProviderAuthorization * World)
    : result ProviderAuthorizationError.t ConsumedOneTimeAuthorization
      * (ProviderAuthorization * World) :=
  @consume_for_operation_at host_env host_auth t (request id) now x.

Definition x1 : ProviderAuthorization * World :=
  (@consume_for_operation host_env host_auth t1 (request "request-1") lease_run.2).2.
Definition x2 : ProviderAuthorization * World :=
  (@consume_for_operation host_env host_auth t2 (request "request-2") x1).2.

Lemma is_ok_run {W E A} (m : result E A * W) : is_ok m.1 = true → ∃ a, m = (Ok a, m.2).
Proof. destruct m as [[a|e] w]; simpl; [eauto|discriminate]. Defined.

Lemma token_consumed_once_witness :
  @history host_env host_auth lease_run.2 [Accepted t1; Accepted t2] x2 ∧
  NoDup (omap (@accepted_payload host_env) [Accepted t1; Accepted t2]).
Proof.
  assert (@history host_env host_auth lease_run.2 [Accepted t1; Accepted t2] x2) as Hh.
  { destruct (is_ok_run (@consume_for_operation host_env host_auth t1 (request "request-1")
                lease_run.2)) as [c1 H1]; [vm_compute; reflexivity|].
    destruct (is_ok_run (@consume_for_operation host_env host_auth t2 (request "request-2") x1))
      as [c2 H2]; [vm_compute; reflexivity|].
    apply (@history_snoc host_env host_auth _ [Accepted t1] x1 (Accepted t2) x2).
    - apply (@history_snoc host_env host_auth _ [] lease_run.2 (Accepted t1) x1).
      + apply history_nil.
      + apply (@step_consume host_env host_auth t1 (request "request-1") _ c1 _ H1).
    - apply (@step_consume host_env host_auth t2 (request "request-2") _ c2 _ H2). }
  split; [exact Hh|].
  exact (@token_consumed_once host_env host_auth host_canonical_laws host_digest_laws host_clock
           _ _ _ Hh).
Defined.

Definition issue1 : result ProviderAuthorizationError.t IssuedOneTimeAuthorization
    * (ProviderAuthorization * World) :=
  @issue_one_time_with_context_at host_env host_auth lease0 (request "request-1") 10 1000
    (lease_run.2.1, lease_run.2.2).

Lemma issued_token_exact_witness : ∃ i,
  issue1 = (Ok i, (lease_run.2.1, lease_run.2.2)) ∧ (iac_expires_at (issued_context i) ≤ 1010)%Z ∧
  ∀ e, is_ok (@consume_for_operation_at host_env host_auth (issued_token i) e 1009
                (lease_run.2.1, lease_run.2.2)).1 = true → e = request "request-1".
Proof.
  destruct (is_ok_run issue1) as [i Hi]; [vm_compute; reflexivity|]. exists i.
  assert (chrono_time 1000) as Hc by (unfold chrono_time; lia).
  destruct (@issued_token_exact host_env host_auth host_base64_laws host_text_laws
    host_claims_laws host_recipient_laws lease0 (request "request-1") 10 1000
    lease_run.2.1 lease_run.2.2 i issue1.2 Hc Hi) as (Hs & _ & _ & (parent & _ & _ & He) & Hacc & _).
  split; [by rewrite <-Hs|]. split; [rewrite He; lia|].
  intros e Hok. exact (proj1 (proj1 (Hacc _ e 1009%Z lease_run.2.2 eq_refl eq_refl) Hok)).
Defined.

Lemma disposed_lease_dead_witness :
  ∃ x, @dispose_lease lease0 lease_run.2 = (Ok tt, x) ∧
       is_ok (@authorize host_env lease0 capability.IDENTITY_ECDH_SEALED x).1 = false.
Proof.
  destruct (is_ok_run (@dispose_lease lease0 lease_run.2)) as [[] Hd]; [vm_compute; reflexivity|].
  exists (@dispose_lease lease0 lease_run.2).2. split; [exact Hd|].
  apply (@disposed_lease_dead host_env host_auth lease0 lease_run.2 _ [] _ Hd).
  - apply history_nil.
  - apply not_elem_of_nil.
Defined.

(** With a clock that is set back a token is accepted twice: the consumption of another
    token forgets the first one when its time is over, and an earlier reading of the clock
    makes it current again.  The same happens with a steady clock when calls overlap, since
    a call reads the clock before it takes the mutex: the third consumption may have read
    1005 and waited while the second one went first. *)
Theorem replay_after_clock_step_back :
  let y1 := consume0 t1 "request-1" 1001 lease_run.2 in
  let y2 := consume0 t2 "request-2" 1011 y1.2 in
  let y3 := consume0 t1 "request-1" 1005 y2.2 in
  is_ok y1.1 = true ∧ is_ok y2.1 = true ∧ is_ok y3.1 = true ∧
  (consume0 t1 "request-1" 1005 y1.2).1 = Err ProviderAuthorizationError.TokenConsumed.
Proof. split_and!; vm_compute; reflexivity. Qed.
