(* ===== verification/Host.v ===== *)
(** * The host ports (host/)

    What a native host calls on managed identities and the manager: status, adoption of
    published documents, key agreement, proofs, request signatures, enrollment sessions,
    migration of private keys and transfer of the root key.  The ports translate requests,
    select keys and call the engine; a port of a [ManagedIdentity] or an [EnrollmentSession]
    is a computation over its engine, one of the [IdentityManager] over the store. *)

From stdpp Require Import base strings list gmap.
From S2P Require Import Prelude Json Errors Records Env Input World Document Keystore Registry.
From S2P Require Import Recovery Identity Adoption Lifecycle CryptoOps KeyImport RootTransfer.
From S2P Require Import Namespace Managed DocumentChange.
From Stdlib Require Import Ascii.

(** An engine call that returns a handle and two results. *)
Definition reassoc {A B C} (m : M (A * B * C)) : M (A * (B * C)) :=
  let! r := m in ret (r.1.1, (r.1.2, r.2)).

(** ** Status (host/status.rs) *)

Module HostRootCapability.
Inductive t := Absent | Pending | Active.
#[global] Instance eq_dec : EqDecision t.
Proof. solve_decision. Defined.
End HostRootCapability.

Record HostDocumentCheckpoint := {
  hdc_document_version : N;
  hdc_registry_version : N;
  hdc_document_digest : string }.

Record IdentityHostStatus := {
  ihs_root_capability : HostRootCapability.t;
  ihs_root_key_fingerprint : option string;
  ihs_checkpoint : option HostDocumentCheckpoint }.

Definition host_checkpoint (c : DocumentCheckpoint) : HostDocumentCheckpoint :=
  {| hdc_document_version := document_version c; hdc_registry_version := registry_version c;
     hdc_document_digest := document_digest c |}.

Definition host_status : HM DidIdentity IdentityHostStatus :=
  let! i := this in
  let r := di_record i in
  ret {| ihs_root_capability := match root_capability r with
                                | RootCapabilityState.Absent => HostRootCapability.Absent
                                | RootCapabilityState.Pending => HostRootCapability.Pending
                                | RootCapabilityState.Active => HostRootCapability.Active
                                end;
         ihs_root_key_fingerprint := root_key_fingerprint r;
         ihs_checkpoint := host_checkpoint <$> checkpoint r |}.

(** ** Publication phases (host/document_change.rs) *)

Module HostDocumentChangePhase.
Inductive t := Prepared | PublicationInFlight | PublicationUncertain | Published.
End HostDocumentChangePhase.

Definition host_phase (s : DocumentChangeSession) : HM DidIdentity HostDocumentChangePhase.t :=
  let! st := session_publication_state s in
  ret match st with
      | PublicationState.Prepared => HostDocumentChangePhase.Prepared
      | PublicationState.PublicationInFlight => HostDocumentChangePhase.PublicationInFlight
      | PublicationState.PublicationUncertain => HostDocumentChangePhase.PublicationUncertain
      | PublicationState.Published => HostDocumentChangePhase.Published
      end.

(** ** Selection of a key *)

(** The [match] on the selector that every port repeats: a named key must be usable, else the
    error depends on its role; the default is the only usable key. *)
Definition select_usable (usable right_role : KeyMetadata → bool)
    (unavailable wrong_role : Facade.IdentityError) (i : DidIdentity) (selector : KeySelector.t)
    : IdentityResult KeyMetadata :=
  match selector with
  | KeySelector.Kid k =>
      let? m := from_engine (identity_key_metadata i k) in
      do? rguard (negb (usable m)) (if right_role m then unavailable else wrong_role);
      Ok m
  | KeySelector.Default =>
      match List.filter usable (keys (di_record i)) with
      | [] => Err unavailable
      | [m] => Ok m
      | _ => Err Facade.AmbiguousKey
      end
  end.

(** [relationship_contains]: an entry is a key identifier or an embedded method. *)
Definition entry_is (k : string) (entry : Value) : bool :=
  bool_decide (as_str entry = Some k) || bool_decide (get_str entry "id" = Some k).
Definition document_relationship_contains (doc : Value) (relationship k : string) : bool :=
  match get doc relationship ≫= as_array with
  | Some entries => existsb (entry_is k) entries
  | None => false
  end.

Definition select_agreement_key (i : DidIdentity) : KeySelector.t → IdentityResult KeyMetadata :=
  select_usable
    (λ m, is_role (role m) KeyRole.E2eeAgreement && signable m
          && document_relationship_contains (document (di_record i)) "keyAgreement" (kid m))
    (λ m, is_role (role m) KeyRole.E2eeAgreement)
    Facade.KeyUnavailable Facade.KeyPurposeViolation i.

Definition select_root_key (i : DidIdentity) : KeySelector.t → IdentityResult KeyMetadata :=
  select_usable (λ m, is_role (role m) KeyRole.RootControl && signable m)
    (λ m, is_role (role m) KeyRole.RootControl)
    Facade.KeyUnavailable Facade.KeyPurposeViolation i.

Definition pending_root (m : KeyMetadata) : bool :=
  is_role (role m) KeyRole.RootControl && bool_decide (origin m = KeyOrigin.Managed)
  && bool_decide (key_state m = KeyState.Pending) && negb (material_erased m).
Definition select_pending_root_key (i : DidIdentity) : KeySelector.t → IdentityResult KeyMetadata :=
  select_usable pending_root (λ _, true)
    Facade.CapabilityUnavailable Facade.CapabilityUnavailable i.

(** ** Adoption (host/convergence.rs) *)

Module ConvergenceOutcome.
Inductive t := Activated | Updated | Unchanged | Revoked.
#[global] Instance eq_dec : EqDecision t.
Proof. solve_decision. Defined.
End ConvergenceOutcome.

(** [evidence]: unlike [engine_evidence] it takes the digest as it is. *)
Definition host_evidence (e : VerifiedPublicationEvidence) : VerifiedDocumentEvidence :=
  {| ev_document_version := vpe_document_version e; ev_registry_version := vpe_registry_version e;
     ev_document_digest := vpe_document_digest e |}.
Definition adopt_spec (remote : VerifiedRemoteDocument) : AdoptVerifiedDocumentSpec :=
  {| avd_document := vrd_document remote; avd_evidence := host_evidence (vrd_evidence remote) |}.

Section Ports.
Context `{Env}.

Definition recover_identity : HM DidIdentity unit := calls_unit reload_identity.

Definition host_adopt_verified_document (remote : VerifiedRemoteDocument)
    : HM DidIdentity ConvergenceOutcome.t :=
  let! outcome := calls (λ i, adopt_verified_document i (adopt_spec remote)) in
  ret match outcome with
      | AdoptDocumentOutcome.Activated => ConvergenceOutcome.Activated
      | AdoptDocumentOutcome.Updated => ConvergenceOutcome.Updated
      | AdoptDocumentOutcome.Unchanged => ConvergenceOutcome.Unchanged
      | AdoptDocumentOutcome.Revoked => ConvergenceOutcome.Revoked
      end.

Definition host_adopt_verified_sibling_document (remote : VerifiedRemoteDocument)
    : HM DidIdentity ConvergenceOutcome.t :=
  let! outcome := calls (λ i, adopt_verified_sibling_document i (adopt_spec remote)) in
  match outcome with
  | AdoptDocumentOutcome.Updated => ret ConvergenceOutcome.Updated
  | AdoptDocumentOutcome.Unchanged => ret ConvergenceOutcome.Unchanged
  | _ => fail Facade.InvalidDocumentChangeState
  end.

(** ** Key agreement (host/key_agreement.rs) *)

Record KeyAgreementRequest := { kar_key : KeySelector.t; kar_peer_public : string }.

Definition derive_shared_secret (q : KeyAgreementRequest) : HM DidIdentity string :=
  let! i := this in
  let! m := lift (select_agreement_key i (kar_key q)) in
  asks (λ i, ecdh i (kid m) (kar_peer_public q)).

(** ** Proofs (host/proofs.rs) *)

Record ObjectProofRequest := {
  opq_key : KeySelector.t;
  opq_document : Value;
  opq_issuer_did : string;
  opq_created : option string }.
Record DocumentProofOptions := {
  dpo_proof_purpose : option string;
  dpo_proof_type : option string;
  dpo_cryptosuite : option string;
  dpo_created : option string;
  dpo_domain : option string;
  dpo_challenge : option string }.
Record DocumentProofRequest := {
  dpq_key : KeySelector.t;
  dpq_document : Value;
  dpq_options : DocumentProofOptions }.

Definition host_sign_object_proof (q : ObjectProofRequest) : HM DidIdentity Value :=
  let! i := this in
  let! m := lift (select_key i (opq_key q) KeyRole.DeviceSigning) in
  asks (λ i, sign_object_proof i (kid m) (opq_document q) (opq_issuer_did q) (opq_created q)).

Definition host_sign_document_proof (q : DocumentProofRequest) : HM DidIdentity Value :=
  let! i := this in
  let! m := lift (select_root_key i (dpq_key q)) in
  let o := dpq_options q in
  asks (λ i, sign_document_proof i (dpq_document q) (kid m)
    {| proof_purpose := dpo_proof_purpose o; proof_type := dpo_proof_type o;
       cryptosuite := dpo_cryptosuite o; proof_created := dpo_created o;
       proof_domain := dpo_domain o; proof_challenge := dpo_challenge o |}).

(** ** Request signatures (host/http_signing.rs) *)

Definition MAX_HTTP_SIGNING_BODY_BYTES : N := 4 * 1024 * 1024.
Definition MANAGED_HEADERS : list string :=
  ["authorization"; "content-digest"; "signature"; "signature-input"]%string.

Record HttpHeader := { hh_name : string; hh_value : string }.
Record HttpRequestSigningOptions := {
  hro_nonce : option string;
  hro_created : option Z;
  hro_expires : option Z;
  hro_covered_components : option (list string) }.
Record ExactHttpRequest := {
  ehr_key : KeySelector.t;
  ehr_url : string;
  ehr_method : string;
  ehr_headers : list HttpHeader;
  ehr_body : option string;
  ehr_options : HttpRequestSigningOptions }.
Record PreparedHttpSignatureAttempt := {
  phs_binding_digest : string;
  phs_kid : string;
  phs_header_patch : list HttpHeader }.

(** [str::to_ascii_lowercase]. *)
Definition lower_byte (a : ascii) : ascii :=
  if byte_in 65 90 a then ascii_of_nat (nat_of_ascii a + 32) else a.
Fixpoint to_ascii_lowercase (s : string) : string :=
  match s with
  | EmptyString => EmptyString
  | String a s => String (lower_byte a) (to_ascii_lowercase s)
  end.

(** [BTreeMap::insert] on a map that is kept in key order. *)
Fixpoint btree_insert {V} (k : string) (v : V) (m : list (string * V)) : list (string * V) :=
  match m with
  | [] => [(k, v)]
  | (k', v') :: m' =>
      match String.compare k k' with
      | Lt => (k, v) :: m
      | Eq => (k, v) :: m'
      | Gt => (k', v') :: btree_insert k v m'
      end
  end.

(** One iteration of the loop of [normalize_headers]: the map and the set of names. *)
Definition normalize_header (acc : list (string * string) * gset string) (h : HttpHeader)
    : IdentityResult (list (string * string) * gset string) :=
  let name := to_ascii_lowercase (trim (hh_name h)) in
  do? rguard (is_empty name || contains_char "013"%char (hh_value h)
              || contains_char "010"%char (hh_value h)
              || bool_decide (name ∈ MANAGED_HEADERS) || bool_decide (name ∈ acc.2))
             Facade.InvalidRequest;
  Ok (btree_insert name (hh_value h) acc.1, {[name]} ∪ acc.2).
Definition normalize_headers (headers : list HttpHeader) : IdentityResult (list (string * string)) :=
  let? acc := fold_result normalize_header headers ([], ∅) in Ok acc.1.

(** The JSON form of [Binding]. *)
Definition binding_value (url method : string) (headers : list (string * string))
    (body_digest : string) : Value :=
  json_object [("url", Str url); ("method", Str method);
    ("headers", Object (map (λ h, (h.1, Str h.2)) headers)); ("body_digest", Str body_digest)].

Definition request_binding_digest (q : ExactHttpRequest) (normalized : list (string * string))
    : IdentityResult string :=
  let body_digest := b64url_encode (sha256 (default EmptyString (ehr_body q))) in
  let? c := ok_or (canonical_json (binding_value (ehr_url q) (ehr_method q) normalized body_digest))
              Facade.Internal in
  Ok ("sha256:" +:+ b64url_encode (sha256 c))%string.

Definition authentication_role (m : KeyMetadata) : bool :=
  is_role (role m) KeyRole.DeviceSigning || is_role (role m) KeyRole.RequestSigning.
Definition select_authentication_key (i : DidIdentity) : KeySelector.t → IdentityResult KeyMetadata :=
  select_usable
    (λ m, authentication_role m && signable m
          && is_authentication_authorized (document (di_record i)) (kid m))
    authentication_role Facade.KeyUnavailable Facade.KeyPurposeViolation i.

Definition prepare_http_signature (q : ExactHttpRequest)
    : HM DidIdentity PreparedHttpSignatureAttempt :=
  let! normalized := lift (normalize_headers (ehr_headers q)) in
  do! sguard (is_empty (trim (ehr_method q)) || negb (bool_decide (trim (ehr_url q) = ehr_url q)))
             Facade.InvalidRequest;
  do! sguard (match ehr_body q with
              | Some b => (MAX_HTTP_SIGNING_BODY_BYTES <? N.of_nat (String.length b))%N
              | None => false
              end) Facade.InvalidRequest;
  let! i := this in
  let! m := lift (select_authentication_key i (ehr_key q)) in
  let! digest := lift (request_binding_digest q normalized) in
  let o := ehr_options q in
  let! patch := asks (λ i, http_signature_headers_with_options i (kid m) (ehr_url q) (ehr_method q)
    (Some normalized) (ehr_body q)
    {| hso_keyid := None; hso_nonce := hro_nonce o; hso_created := hro_created o;
       hso_expires := hro_expires o; hso_covered_components := hro_covered_components o |}) in
  ret {| phs_binding_digest := digest; phs_kid := kid m;
         phs_header_patch := map (λ h, {| hh_name := h.1; hh_value := h.2 |}) patch |}.

Definition prepare_legacy_did_wba (key : KeySelector.t) (service_domain version : string)
    : HM DidIdentity string :=
  do! sguard (is_empty (trim service_domain) || is_empty (trim version)) Facade.InvalidRequest;
  let! i := this in
  let! m := lift (select_authentication_key i key) in
  asks (λ i, legacy_did_wba_header i (kid m) service_domain version).

End Ports.

(** ** Enrollment sessions (host/enrollment.rs) *)

Record EnrollmentCapabilities := { ec_did_wba : bool }.
Record DeviceEnrollmentRequest := {
  der_remote : VerifiedRemoteDocument;
  der_device_id : string;
  der_device_signing_fragment : string;
  der_device_agreement_fragment : string;
  der_profiles : list string;
  der_capabilities : EnrollmentCapabilities }.
Record RequestSigningEnrollmentRequest := {
  rer_remote : VerifiedRemoteDocument;
  rer_fragment : string;
  rer_capabilities : EnrollmentCapabilities }.
(** [EnrollmentPublicKey] of host/enrollment.rs. *)
Record ProposalPublicKey := { ppk_kid : string; ppk_public_key_multibase : string }.
Module EnrollmentProposalKind.
Inductive t :=
  | Device (device_id : string) (signing_key agreement_key : ProposalPublicKey)
      (profiles : list string)
  | RequestSigning (signing_key : ProposalPublicKey).
End EnrollmentProposalKind.
Record EnrollmentProposal := {
  ep_enrollment_id : string;
  ep_identity : IdentityRef;
  ep_kind : EnrollmentProposalKind.t;
  ep_root_key_fingerprint : option string;
  ep_checkpoint : HostDocumentCheckpoint }.
(** [EnrollmentSession] without its engine. *)
Record EnrollmentSession := {
  ses_identity : ManagedIdentity;
  proposal : EnrollmentProposal }.

Definition proposal_key (k : EnrollmentPublicKey) : ProposalPublicKey :=
  {| ppk_kid := epk_kid k; ppk_public_key_multibase := epk_public_key_multibase k |}.
Definition device_proposal (identity : IdentityRef) (p : PreparedEnrollment) : EnrollmentProposal :=
  {| ep_enrollment_id := ple_enrollment_id p; ep_identity := identity;
     ep_kind := EnrollmentProposalKind.Device (ple_device_id p) (proposal_key (device_signing_key p))
                  (proposal_key (device_e2ee_key p)) (ple_profiles p);
     ep_root_key_fingerprint := ple_root_key_fingerprint p;
     ep_checkpoint := host_checkpoint (ple_checkpoint p) |}.
Definition request_signing_proposal (identity : IdentityRef) (p : PreparedRequestSigningEnrollment)
    : EnrollmentProposal :=
  {| ep_enrollment_id := prse_enrollment_id p; ep_identity := identity;
     ep_kind := EnrollmentProposalKind.RequestSigning (proposal_key (request_signing_key p));
     ep_root_key_fingerprint := prse_root_key_fingerprint p;
     ep_checkpoint := host_checkpoint (prse_checkpoint p) |}.

Section EnrollmentPort.
Context `{Env}.

Definition begin_device_enrollment (q : DeviceEnrollmentRequest)
    : HM DidStore (EnrollmentSession * DidIdentity) :=
  let! r := calls (λ s, reassoc (prepare_enrollment s
    {| es_verified_document := vrd_document (der_remote q);
       es_evidence := host_evidence (vrd_evidence (der_remote q));
       es_device_id := der_device_id q; device_signing_fragment := der_device_signing_fragment q;
       device_e2ee_fragment := der_device_agreement_fragment q; es_profiles := der_profiles q;
       es_capabilities := {| did_wba := ec_did_wba (der_capabilities q) |} |})) in
  let! s := this in
  let identity := wrap s r.1 in
  ret ({| ses_identity := identity.1;
          proposal := device_proposal (mi_reference identity.1) r.2 |}, identity.2).

Definition begin_request_signing_enrollment (q : RequestSigningEnrollmentRequest)
    : HM DidStore (EnrollmentSession * DidIdentity) :=
  let! r := calls (λ s, reassoc (prepare_request_signing_enrollment s
    {| rse_verified_document := vrd_document (rer_remote q);
       rse_evidence := host_evidence (vrd_evidence (rer_remote q));
       rse_fragment := rer_fragment q;
       rse_capabilities := {| did_wba := ec_did_wba (rer_capabilities q) |} |})) in
  let! s := this in
  let identity := wrap s r.1 in
  ret ({| ses_identity := identity.1;
          proposal := request_signing_proposal (mi_reference identity.1) r.2 |}, identity.2).

(** The proposal that a record in enrollment holds. *)
Definition pending_proposal (reference : IdentityRef) (r : IdentityRecord)
    : option EnrollmentProposal :=
  match pending_enrollment_of r with
  | Some p => Some (device_proposal reference p)
  | None => request_signing_proposal reference <$> pending_request_signing_enrollment_of r
  end.

Definition resume_enrollment (reference : IdentityRef)
    : HM DidStore (option (EnrollmentSession * DidIdentity)) :=
  let! identity := manager_get reference in
  ret ((λ p, ({| ses_identity := identity.1; proposal := p |}, identity.2))
         <$> pending_proposal reference (di_record identity.2)).

Definition session_sign_device_assertion (s : EnrollmentSession) (payload : string)
    : HM DidIdentity string :=
  match ep_kind (proposal s) with
  | EnrollmentProposalKind.Device _ signing_key _ _ =>
      asks (λ i, sign_pending_enrollment i (ep_enrollment_id (proposal s)) (ppk_kid signing_key)
                   payload)
  | _ => fail Facade.CapabilityUnavailable
  end.

Definition derive_device_shared_secret (s : EnrollmentSession) (peer_public : string)
    : HM DidIdentity string :=
  match ep_kind (proposal s) with
  | EnrollmentProposalKind.Device _ _ agreement_key _ =>
      asks (λ i, ecdh_pending_enrollment i (ep_enrollment_id (proposal s)) (ppk_kid agreement_key)
                   peer_public)
  | _ => fail Facade.CapabilityUnavailable
  end.

Definition session_activate (remote : VerifiedRemoteDocument) : HM DidIdentity ConvergenceOutcome.t :=
  let! outcome := host_adopt_verified_document remote in
  do! sguard (negb (bool_decide (outcome = ConvergenceOutcome.Activated)))
             Facade.InvalidDocumentChangeState;
  ret outcome.

Definition session_cancel (s : EnrollmentSession) : HM DidStore unit :=
  let! m := this in
  do! sguard (negb (bool_decide (manager_store_id m = ref_store_id (ep_identity (proposal s)))))
             Facade.IdentityNotFound;
  calls_unit (λ m, discard_unpublished_enrollment m (ref_did (ep_identity (proposal s)))
                     (ref_identity_id (ep_identity (proposal s))) (registry_generation m)).

End EnrollmentPort.

(** ** Migration of private keys (host/migration.rs) *)

Module MigrationPrivateKeyEncoding.
Inductive t := Raw32 | Pkcs8Der.
End MigrationPrivateKeyEncoding.
Module MigrationKeyPurpose.
Inductive t := RootControl | Authentication | DeviceAssertion | ApplicationAssertion | KeyAgreement.
End MigrationKeyPurpose.
Record MigrationPrivateKey := {
  mpr_kid : string;
  mpr_purpose : MigrationKeyPurpose.t;
  mpr_encoding : MigrationPrivateKeyEncoding.t;
  mpr_secret : string }.
Record FullIdentityImportRequest := {
  fir_remote : VerifiedRemoteDocument;
  fir_did_wba : bool;
  fir_private_keys : list MigrationPrivateKey }.
Record DeviceIdentityImportRequest := {
  dir_remote : VerifiedRemoteDocument;
  dir_did_wba : bool;
  dir_signing_key : MigrationPrivateKey;
  dir_agreement_key : MigrationPrivateKey }.
Record RequestSigningIdentityImportRequest := {
  rir_remote : VerifiedRemoteDocument;
  rir_did_wba : bool;
  rir_signing_key : MigrationPrivateKey }.

(** [impl From<MigrationPrivateKey> for ImportedPrivateKey]. *)
Definition imported_private_key (k : MigrationPrivateKey) : ImportedPrivateKey :=
  {| ipk_kid := mpr_kid k;
     ipk_role := match mpr_purpose k with
                 | MigrationKeyPurpose.RootControl => KeyRole.RootControl
                 | MigrationKeyPurpose.Authentication => KeyRole.RequestSigning
                 | MigrationKeyPurpose.DeviceAssertion => KeyRole.DeviceSigning
                 | MigrationKeyPurpose.ApplicationAssertion => KeyRole.E2eeSigning
                 | MigrationKeyPurpose.KeyAgreement => KeyRole.E2eeAgreement
                 end;
     ipk_encoding := match mpr_encoding k with
                     | MigrationPrivateKeyEncoding.Raw32 => PrivateKeyEncoding.Raw32
                     | MigrationPrivateKeyEncoding.Pkcs8Der => PrivateKeyEncoding.Pkcs8Der
                     end;
     ipk_secret := mpr_secret k |}.

Definition full_import_spec (q : FullIdentityImportRequest) : IdentityImportSpec :=
  {| ii_verified_document := vrd_document (fir_remote q);
     ii_evidence := host_evidence (vrd_evidence (fir_remote q));
     ii_capabilities := {| did_wba := fir_did_wba q |};
     ii_private_keys := map imported_private_key (fir_private_keys q) |}.

Section MigrationPort.
Context `{Env}.

(** A call of an import, and [self.wrap(engine)]. *)
Definition wrap_imported (f : DidStore → M (DidStore * DidIdentity * unit))
    : HM DidStore (ManagedIdentity * DidIdentity) :=
  let! r := calls (λ s, reassoc (f s)) in
  let! s := this in
  ret (wrap s r.1).

Definition import_full_identity (q : FullIdentityImportRequest) :=
  wrap_imported (λ s, import_identity s (full_import_spec q)).
Definition import_full_identity_with_id (iid : string) (q : FullIdentityImportRequest) :=
  wrap_imported (λ s, import_identity_with_id s (full_import_spec q) iid).
Definition host_import_device_identity (q : DeviceIdentityImportRequest) :=
  wrap_imported (λ s, import_device_identity s
    {| dii_verified_document := vrd_document (dir_remote q);
       dii_evidence := host_evidence (vrd_evidence (dir_remote q));
       dii_capabilities := {| did_wba := dir_did_wba q |};
       dii_signing_key := imported_private_key (dir_signing_key q);
       dii_e2ee_key := imported_private_key (dir_agreement_key q) |}).
Definition host_import_request_signing_identity (q : RequestSigningIdentityImportRequest) :=
  wrap_imported (λ s, import_request_signing_identity s
    {| rsi_verified_document := vrd_document (rir_remote q);
       rsi_evidence := host_evidence (vrd_evidence (rir_remote q));
       rsi_capabilities := {| did_wba := rir_did_wba q |};
       rsi_private_key := imported_private_key (rir_signing_key q) |}).

End MigrationPort.

(** ** Transfer of the root key (host/root_transfer.rs) *)

Record RootPromotionRequest := { rpq_remote : VerifiedRemoteDocument }.
Record PendingRootObjectProofRequest := {
  prq_key : KeySelector.t;
  prq_document : Value;
  prq_issuer_did : string;
  prq_created : option string }.
Module WrappedRootImportOutcome.
Inductive t := Pending | Active.
End WrappedRootImportOutcome.
Record UserConfirmedRootExportRequest := {
  ure_key : KeySelector.t;
  ure_user_presence_confirmed : bool }.
Module RootPrivateKeyEncoding.
Inductive t := Raw32 | Pkcs8Der.
End RootPrivateKeyEncoding.
Record LegacyRootImportEvidence := {
  lre_transfer_id : string;
  lre_source_did : string;
  lre_target_did : string;
  lre_sender_device_id : string;
  lre_recipient_device_id : string;
  lre_recipient_agreement_kid : string;
  lre_root_kid : string;
  lre_checkpoint : HostDocumentCheckpoint;
  lre_accepted_at : string }.
Record LegacyRootImportRequest := {
  lrq_evidence : LegacyRootImportEvidence;
  lrq_encoding : RootPrivateKeyEncoding.t;
  lrq_root_key : string }.
Module LegacyRootImportOutcome.
Inductive t := Pending | Active.
End LegacyRootImportOutcome.

Section RootTransferPort.
Context `{Env}.

Definition import_wrapped_root_envelope (e : WrappedRootEnvelope)
    : HM DidIdentity WrappedRootImportOutcome.t :=
  let! outcome := calls (λ i, import_wrapped_root i e) in
  ret match outcome with
      | RootTransferImportOutcome.Pending => WrappedRootImportOutcome.Pending
      | RootTransferImportOutcome.Active => WrappedRootImportOutcome.Active
      end.

Definition host_confirm_root_promotion (q : RootPromotionRequest) : HM DidIdentity unit :=
  calls_unit (λ i, confirm_root_promotion i
    {| rps_document := vrd_document (rpq_remote q);
       rps_evidence := host_evidence (vrd_evidence (rpq_remote q)) |}).

Definition host_sign_pending_root_object_proof (q : PendingRootObjectProofRequest)
    : HM DidIdentity Value :=
  let! i := this in
  let! m := lift (select_pending_root_key i (prq_key q)) in
  asks (λ i, sign_pending_root_object_proof i (kid m) (prq_document q) (prq_issuer_did q)
               (prq_created q)).

Definition export_root_for_legacy_envelope (q : UserConfirmedRootExportRequest)
    : HM DidIdentity string :=
  do! sguard (negb (ure_user_presence_confirmed q)) Facade.CapabilityUnavailable;
  let! i := this in
  let! m := lift (select_root_key i (ure_key q)) in
  asks (λ i, export_root_private_key i (kid m)).

Definition legacy_import_spec (q : LegacyRootImportRequest) : LegacyRootTransferImportSpec :=
  let e := lrq_evidence q in
  {| lri_evidence :=
       {| lrt_transfer_id := lre_transfer_id e; lrt_source_did := lre_source_did e;
          lrt_target_did := lre_target_did e; lrt_sender_device_id := lre_sender_device_id e;
          lrt_recipient_device_id := lre_recipient_device_id e;
          lrt_recipient_agreement_kid := lre_recipient_agreement_kid e;
          lrt_root_kid := lre_root_kid e;
          lrt_checkpoint := {| document_version := hdc_document_version (lre_checkpoint e);
                               registry_version := hdc_registry_version (lre_checkpoint e);
                               document_digest := hdc_document_digest (lre_checkpoint e) |};
          lrt_accepted_at := lre_accepted_at e |};
     lri_encoding := match lrq_encoding q with
                     | RootPrivateKeyEncoding.Raw32 => PrivateKeyEncoding.Raw32
                     | RootPrivateKeyEncoding.Pkcs8Der => PrivateKeyEncoding.Pkcs8Der
                     end;
     lri_root_key := lrq_root_key q |}.

Definition import_legacy_root (q : LegacyRootImportRequest)
    : HM DidIdentity LegacyRootImportOutcome.t :=
  let! outcome := calls (λ i, import_legacy_root_transfer i (legacy_import_spec q)) in
  ret match outcome with
      | RootTransferImportOutcome.Pending => LegacyRootImportOutcome.Pending
      | RootTransferImportOutcome.Active => LegacyRootImportOutcome.Active
      end.
End RootTransferPort.
