(* ===== verification/HostFacts.v ===== *)
(** * Correctness of the host ports (src/host)

    An enrollment session can be taken up again from its reference, and the headers of a
    request are normalised to one canonical map, whatever their order. *)

From stdpp Require Import base strings list gmap sorting.
From Stdlib Require Import Ascii OrderedTypeEx.
From S2P Require Import Prelude Json Errors Records Env Toy Input World Document Keystore Registry.
From S2P Require Import Recovery Identity RecordFacts Adoption IdentityFacts EnrollmentFacts.
From S2P Require Import Scenario Managed DocumentChange ManagedFacts Host.

(** ** Resuming an enrollment *)

Section Resume.
Context `{Env} `{!Base64Laws, !AeadLaws, !RandomLaws, !DigestLaws}.

Lemma prepare_enrollment_runtime s spec w s' i p w' :
  prepare_enrollment s spec w = (Ok (s', i, p), w') →
  ds_runtime s' = ds_runtime s ∧ di_runtime i = ds_runtime s.
Proof.
  unfold prepare_enrollment. intros Hr. do 15 inv_run Hr.
  by apply enroll_transaction_Ok in Hr as (? & ? & _).
Qed.

Lemma prepare_request_signing_runtime s spec w s' i p w' :
  prepare_request_signing_enrollment s spec w = (Ok (s', i, p), w') →
  ds_runtime s' = ds_runtime s ∧ di_runtime i = ds_runtime s ∧
  pending_enrollment (di_record i) = None.
Proof.
  unfold prepare_request_signing_enrollment. intros Hr. do 14 inv_run Hr.
  apply enroll_transaction_Ok in Hr as (? & ? & Hrec). do 2 (split; [done|]).
  unfold request_enrollment_record in Hrec. do 3 inv_run Hrec. by injection Hrec as <- _.
Qed.

(** An identity in enrollment is what its reference gets. *)
Lemma enrolling_get s i d0 registry w :
  di_runtime i = ds_runtime s →
  added_identity IdentityState.Enrolling (ds_runtime s) d0 (di_record i) registry (disk w) →
  manager_get (mi_reference (wrap s i).1) (s, w) = (Ok (wrap s i), (s, w)).
Proof.
  intros Hrt Ha. destruct (ai_before _ _ _ _ _ _ Ha) as (registry0 & _ & _ & Hids & _).
  destruct i as [rt r]. simpl in Hrt. subst rt. apply manager_get_runs.
  - unfold validate_store. simpl. by rewrite bool_decide_true.
  - apply (open_identity_runs s (did r) w registry (summary r) r);
      [exact (ai_registry _ _ _ _ _ _ Ha)| |exact (ai_record _ _ _ _ _ _ Ha)|..].
    + simpl. by rewrite Hids, lookup_insert_eq.
    + done.
    + done.
    + pose proof (ai_state _ _ _ _ _ _ Ha) as Hst. simpl in Hst. by rewrite Hst.
  - done.
Qed.

(** Round trip.  From a store without open journals, the session that
    [begin_device_enrollment] or [begin_request_signing_enrollment] returns is the session
    that [resume_enrollment] finds for the reference of its proposal, with the same identity
    behind it, and resuming writes nothing. *)
Theorem enrollment_resumes begin s w ses i s' w' :
  quiescent (disk w) → fresh_draws (disk w) (draws w) →
  (∃ q, begin = begin_device_enrollment q) ∨
  (∃ q, begin = begin_request_signing_enrollment q) →
  begin (s, w) = (Ok (ses, i), (s', w')) →
  resume_enrollment (ep_identity (proposal ses)) (s', w') = (Ok (Some (ses, i)), (s', w')).
Proof.
  intros Hq Hf [[q ->]|[q ->]] Hr.
  - unfold begin_device_enrollment in Hr. inv_run Hr.
    apply calls_Ok in Hstep as (s1 & w1 & Hc & ->). inv_run Hr. apply this_Ok in Hstep as [-> ->].
    apply ret_Ok in Hr as [[= -> ->] [= -> ->]]. destruct a as [i p]. simpl in *.
    unfold reassoc in Hc. inv_run Hc. destruct a as [[s2 i2] p2].
    apply ret_Ok in Hc as [[= -> -> ->] ->].
    destruct (prepare_enrollment_runtime _ _ _ _ _ _ _ Hstep) as [Hs Hi].
    apply prepare_enrollment_safe in Hstep as (registry & _ & Hp & _ & Ha); [|done..].
    unfold resume_enrollment. unfold bind at 1. rewrite <-Hs in Ha.
    pose proof (enrolling_get s2 i2 _ _ _ (eq_trans Hi (eq_sym Hs)) Ha) as Hg. simpl in Hg.
    rewrite Hg. unfold ret, pending_proposal. simpl. by rewrite Hp.
  - unfold begin_request_signing_enrollment in Hr. inv_run Hr.
    apply calls_Ok in Hstep as (s1 & w1 & Hc & ->). inv_run Hr. apply this_Ok in Hstep as [-> ->].
    apply ret_Ok in Hr as [[= -> ->] [= -> ->]]. destruct a as [i p]. simpl in *.
    unfold reassoc in Hc. inv_run Hc. destruct a as [[s2 i2] p2].
    apply ret_Ok in Hc as [[= -> -> ->] ->].
    destruct (prepare_request_signing_runtime _ _ _ _ _ _ _ Hstep) as (Hs & Hi & Hn).
    apply prepare_request_signing_enrollment_safe in Hstep as (registry & _ & Hp & _ & Ha); [|done..].
    unfold resume_enrollment. unfold bind at 1. rewrite <-Hs in Ha.
    pose proof (enrolling_get s2 i2 _ _ _ (eq_trans Hi (eq_sym Hs)) Ha) as Hg. simpl in Hg.
    rewrite Hg. unfold ret, pending_proposal, pending_enrollment_of. simpl.
    rewrite Hn. simpl. by rewrite Hp.
Qed.
End Resume.

(** ** The headers of a request *)

Definition header_name (h : HttpHeader) : string := to_ascii_lowercase (trim (hh_name h)).
Definition header_pair (h : HttpHeader) : string * string := (header_name h, hh_value h).
(** A header that may be signed: it has a name, it is not one the signature writes itself, and
    its value is a single line. *)
Definition acceptable (h : HttpHeader) : Prop :=
  header_name h ≠ EmptyString ∧ header_name h ∉ MANAGED_HEADERS ∧
  contains_char "013"%char (hh_value h) = false ∧ contains_char "010"%char (hh_value h) = false.

(** The order of the keys of a [BTreeMap<String, String>]. *)
Definition key_before (p q : string * string) : Prop := String.compare p.1 q.1 = Lt.

Lemma compare_Lt_trans s t u :
  String.compare s t = Lt → String.compare t u = Lt → String.compare s u = Lt.
Proof.
  intros Hst%String_as_OT.cmp_lt Htu%String_as_OT.cmp_lt. apply String_as_OT.cmp_lt.
  by eapply String_as_OT.lt_trans.
Qed.

Lemma compare_refl s : String.compare s s = Eq.
Proof. pose proof (String.compare_antisym s s) as Hs. by destruct (String.compare s s). Qed.

#[local] Instance key_before_antisymm : AntiSymm (=) key_before.
Proof.
  intros p q Hpq Hqp. unfold key_before in *.
  pose proof (compare_Lt_trans _ _ _ Hpq Hqp) as Hs. by rewrite compare_refl in Hs.
Qed.

Lemma btree_insert_new k v m :
  k ∉ m.*1 → StronglySorted key_before m →
  StronglySorted key_before (btree_insert k v m) ∧ btree_insert k v m ≡ₚ (k, v) :: m.
Proof.
  intros Hk Hs. induction Hs as [|[k' v'] m Hs IH Hall]; simpl; [by repeat constructor|].
  destruct (String.compare k k') eqn:Hc.
  - apply String.compare_eq_iff in Hc. set_solver.
  - split; [|done]. constructor; [by constructor|]. constructor; [done|].
    eapply Forall_impl; [exact Hall|]. intros q. by apply compare_Lt_trans.
  - destruct IH as [IHs IHp]; [set_solver|]. split; [|rewrite IHp; constructor].
    constructor; [done|]. rewrite IHp. constructor; [|done]. unfold key_before. simpl.
    rewrite String.compare_antisym, Hc. done.
Qed.

Definition headers_ok (seen : gset string) (hs : list HttpHeader) : Prop :=
  Forall acceptable hs ∧ NoDup (header_name <$> hs) ∧ Forall (λ h, header_name h ∉ seen) hs.

Lemma normalize_header_cases m seen h :
  (acceptable h ∧ header_name h ∉ seen ∧ normalize_header (m, seen) h =
     Ok (btree_insert (header_name h) (hh_value h) m, {[header_name h]} ∪ seen)) ∨
  (¬ (acceptable h ∧ header_name h ∉ seen) ∧
   normalize_header (m, seen) h = Err Facade.InvalidRequest).
Proof.
  unfold normalize_header, acceptable, is_empty. fold (header_name h). simpl.
  destruct (contains_char "013" _), (contains_char "010" _); repeat case_bool_decide; simpl;
    (left; by auto) || (right; split; [naive_solver|done]).
Qed.

Lemma headers_ok_cons seen h hs :
  headers_ok seen (h :: hs) ↔
    (acceptable h ∧ header_name h ∉ seen) ∧ headers_ok ({[header_name h]} ∪ seen) hs.
Proof.
  unfold headers_ok. simpl. rewrite !Forall_cons, NoDup_cons, !Forall_forall. split.
  - intros ((Ha & Hall) & (Hn & Hnd) & (Hs & Hseen)). split_and!; [done..|].
    intros x Hx. apply not_elem_of_union. split; [|by apply Hseen].
    rewrite elem_of_singleton. intros Heq. apply Hn. rewrite <-Heq. by apply list_elem_of_fmap_2.
  - intros ((Ha & Hs) & Hall & Hnd & Hseen). split_and!; [done..| |done|done|].
    + intros (x & Heq & Hx)%list_elem_of_fmap. specialize (Hseen x Hx). set_solver.
    + intros x Hx. specialize (Hseen x Hx). set_solver.
Qed.

Lemma normalize_loop hs m seen :
  StronglySorted key_before m → (∀ k, k ∈ m.*1 ↔ k ∈ seen) →
  (headers_ok seen hs ∧ ∃ m' seen', fold_result normalize_header hs (m, seen) = Ok (m', seen') ∧
     StronglySorted key_before m' ∧ m' ≡ₚ (header_pair <$> hs) ++ m) ∨
  (¬ headers_ok seen hs ∧ fold_result normalize_header hs (m, seen) = Err Facade.InvalidRequest).
Proof.
  revert m seen. induction hs as [|h hs IH]; intros m seen Hs Hk.
  - left. split; [by repeat constructor|]. by exists m, seen.
  - rewrite headers_ok_cons. simpl fold_result.
    destruct (normalize_header_cases m seen h) as [(Ha & Hn & ->)|[Hn ->]];
      [|right; simpl; split; [tauto|done]]. simpl rbind.
    destruct (btree_insert_new (header_name h) (hh_value h) m) as [Hs' Hp]; [by rewrite Hk|done|].
    destruct (IH _ ({[header_name h]} ∪ seen) Hs') as [(Hok & m' & seen' & -> & Hs2 & Hp2)|[Hok ->]].
    + intros k. rewrite Hp. simpl. set_solver.
    + left. split; [done|]. exists m', seen'. split_and!; [done..|]. rewrite Hp2, Hp. simpl.
      by rewrite Permutation_middle.
    + right. tauto.
Qed.

Lemma normalize_headers_iff hs m :
  normalize_headers hs = Ok m ↔
    Forall acceptable hs ∧ NoDup (header_name <$> hs) ∧ StronglySorted key_before m ∧
    m ≡ₚ header_pair <$> hs.
Proof.
  unfold normalize_headers.
  destruct (normalize_loop hs [] ∅) as [(Hok & m' & seen' & -> & Hs & Hp)|[Hok ->]];
    [constructor|set_solver|..]; simpl; [rewrite app_nil_r in Hp|].
  - destruct Hok as (Ha & Hn & _). split; [by intros [= <-]|]. intros (_ & _ & Hs' & Hp').
    f_equal. apply (StronglySorted_unique key_before); [done..|]. by rewrite Hp, Hp'.
  - split; [done|]. intros (Ha & Hn & _). exfalso. apply Hok. split_and!; [done..|].
    apply Forall_forall. set_solver.
Qed.

(** C40.  Equivalence with a reference.  [normalize_headers] accepts exactly the lists of
    acceptable headers with pairwise different names, and returns their names and values in
    the order of the names; anything else is [InvalidRequest].  So the order in which a caller
    lists the headers, and the case of their names, do not change what is signed. *)
Theorem normalize_headers_canonical hs :
  (∀ m, normalize_headers hs = Ok m ↔
     Forall acceptable hs ∧ NoDup (header_name <$> hs) ∧ StronglySorted key_before m ∧
     m ≡ₚ header_pair <$> hs) ∧
  (∀ e, normalize_headers hs = Err e → e = Facade.InvalidRequest) ∧
  (∀ hs', header_pair <$> hs' ≡ₚ header_pair <$> hs →
     normalize_headers hs' = normalize_headers hs).
Proof.
  assert (∀ l e, normalize_headers l = Err e → e = Facade.InvalidRequest) as Herr.
  { intros l e. unfold normalize_headers.
    destruct (normalize_loop l [] ∅) as [(_ & m' & s' & -> & _)|[_ ->]];
      [constructor|set_solver|done|]. by intros [= <-]. }
  split; [apply normalize_headers_iff|]. split; [apply Herr|].
  enough (∀ l l' m, header_pair <$> l ≡ₚ header_pair <$> l' → normalize_headers l = Ok m →
    normalize_headers l' = Ok m) as Hok.
  { intros l Hp. destruct (normalize_headers hs) as [m|e] eqn:E; [by apply (Hok hs)|].
    destruct (normalize_headers l) as [m'|e'] eqn:E'.
    - by rewrite (Hok l hs m') in E.
    - by rewrite (Herr _ _ E), (Herr _ _ E'). }
  intros l l' m Hp (Ha & Hn & Hs & Hm)%normalize_headers_iff. apply normalize_headers_iff.
  split_and!; [| |done|by rewrite Hm].
  - rewrite Forall_forall in Ha |- *. intros h Hh.
    assert (header_pair h ∈ header_pair <$> l) as (h' & Heq & Hh')%list_elem_of_fmap
      by (rewrite Hp; by apply list_elem_of_fmap_2).
    injection Heq as E1 E2. specialize (Ha h' Hh'). unfold acceptable in *. by rewrite E1, E2.
  - assert (∀ x, header_name <$> x = (header_pair <$> x).*1) as Hnames
      by (intros x; by rewrite <-list_fmap_compose).
    rewrite Hnames in *. by rewrite <-Hp.
Qed.

(** ** Witnesses *)

Definition phone_request : DeviceEnrollmentRequest := {|
  der_remote := {| vrd_document := base_document;
                   vrd_evidence := {| vpe_document_version := 1; vpe_registry_version := 1;
                     vpe_document_digest := ev_document_digest (evidence_for base_document 1) |} |};
  der_device_id := "phone"; der_device_signing_fragment := "phone-sign";
  der_device_agreement_fragment := "phone-e2ee"; der_profiles := ["anp.core.binding.v1"%string];
  der_capabilities := {| ec_did_wba := true |} |}.

Abbreviation phone_run := (@begin_device_enrollment toy_env phone_request (sample_store, initial_world)).

Lemma enrollment_resumes_witness :
  ∃ ses i s w, phone_run = (Ok (ses, i), (s, w)) ∧
    @resume_enrollment toy_env (ep_identity (proposal ses)) (s, w) = (Ok (Some (ses, i)), (s, w)).
Proof.
  destruct (is_ok_Ok phone_run.1) as [[ses i] Hok]; [vm_compute; reflexivity|].
  destruct phone_run as [r [s w]] eqn:E. simpl in Hok. subst r.
  exists ses, i, s, w. split; [reflexivity|].
  exact (@enrollment_resumes toy_env toy_base64_laws toy_aead_laws toy_random_laws
    toy_digest_laws _ sample_store initial_world ses i s w quiescent_empty (fresh_empty _)
    (or_introl (ex_intro _ phone_request eq_refl)) E).
Defined.
