(* ===== verification/SealedHandoff.v ===== *)
(** * Sealed hand-off of secrets (host/sealed_handoff.rs)

    A provider hands a secret to its native host, or receives one, only as an HPKE ciphertext
    for the recipient's key.  Each operation consumes a one-time token that is bound to the
    exact request, and the associated data of the ciphertext names request and token.  The
    computations act on an engine (of an identity, an enrollment session or the manager), an
    authority and the world. *)

From stdpp Require Import base strings list gmap.
From S2P Require Import Prelude Json Errors Records Env World Document Identity Adoption.
From S2P Require Import RootTransfer Managed DocumentChange ProviderAuthorization Host.

(** ** What [anp::sealed_handoff] provides *)

Record SealedIdentityContext := {
  sic_store_id : string;
  sic_identity_id : string;
  sic_did : string }.
Record SealedAuthorizationContext := {
  sac_provider_instance_id : string;
  sac_parent_lease_id : string;
  sac_consumer : string;
  sac_capability : string;
  sac_store_id : string;
  sac_expires_at : Z }.
Record SealedOperationBinding := {
  sob_capability : string;
  sob_identity_id : string;
  sob_operation : string;
  sob_kid : string;
  sob_request_id : string;
  sob_recipient_public_key : string;
  sob_operation_input_digest : string }.
Record SealedDocumentCheckpoint := {
  sdc_document_version : N;
  sdc_registry_version : N;
  sdc_document_digest : string }.
Record SealedLegacyRootImportEvidence := {
  sle_transfer_id : string;
  sle_source_did : string;
  sle_target_did : string;
  sle_sender_device_id : string;
  sle_recipient_device_id : string;
  sle_recipient_agreement_kid : string;
  sle_root_kid : string;
  sle_checkpoint : SealedDocumentCheckpoint;
  sle_accepted_at : string }.
Module SealedPrivateKeyEncoding.
Inductive t := Raw32 | Pkcs8Der.
End SealedPrivateKeyEncoding.
Module SealedKeyPurpose.
Inductive t := RootControl | Authentication | DeviceAssertion | ApplicationAssertion | KeyAgreement.
End SealedKeyPurpose.
Record SealedMaterialKeySpec := {
  smk_kid : string;
  smk_purpose : SealedKeyPurpose.t;
  smk_encoding : SealedPrivateKeyEncoding.t }.

(** An HPKE ciphertext: the encapsulated key and the sealed bytes. *)
Record Handoff := { encapped_key : string; ciphertext : string }.

Class SealedEnv := {
  sealed_secret_protocol : string;
  sealed_secret_info : string;
  sealed_handoff_suite : string;
  ecdh_operation : string;
  enrollment_ecdh_operation : string;
  root_export_operation : string;
  root_import_operation : string;
  (* the private key of the n-th generated recipient, and its public key *)
  generate_recipient : nat → string;
  recipient_public : string → string;
  handoff_from_parts : string → string → option Handoff;
  (* sealing draws its ephemeral key: the position in the stream of random draws *)
  handoff_seal : nat → string → string → string → string → option Handoff;
  handoff_open : string → Handoff → string → string → option string;
  identity_ecdh_binding :
    SealedIdentityContext → string → string → string → string → option SealedOperationBinding;
  identity_enrollment_ecdh_binding : SealedIdentityContext → string → string → string → string →
    string → option SealedOperationBinding;
  identity_root_export_binding :
    SealedIdentityContext → string → string → string → bool → option SealedOperationBinding;
  identity_root_import_binding : SealedIdentityContext → SealedLegacyRootImportEvidence →
    SealedPrivateKeyEncoding.t → string → string → option SealedOperationBinding;
  identity_material_import_binding : SealedIdentityContext → string → string → bool → string → N →
    N → list SealedMaterialKeySpec → option SealedOperationBinding;
  identity_operation_aad : SealedAuthorizationContext → SealedOperationBinding →
    SealedIdentityContext → option string;
  identity_material_import_item_aad : SealedAuthorizationContext → SealedOperationBinding →
    SealedIdentityContext → nat → string → option string }.

(** ** Data *)

Module SealedProviderError.
Inductive t := Authorization | IdentityBinding | InvalidRequest | Identity | EnvelopeInvalid.
#[global] Instance eq_dec : EqDecision t.
Proof. solve_decision. Defined.
End SealedProviderError.

Record SealedSecretEnvelope := {
  env_protocol : string;
  env_suite : string;
  encapped_key_b64u : string;
  ciphertext_b64u : string }.
Record SealedSecretDelivery := {
  delivery_envelope : SealedSecretEnvelope;
  delivery_authorization : IssuedAuthorizationContext;
  delivery_aad : string }.

Record SealedKeyAgreementRequest := {
  ska_identity : IdentityRef;
  ska_kid : string;
  ska_peer_public : string;
  ska_recipient_public_key : string;
  ska_request_id : string;
  ska_token : OneTimeCapabilityToken }.
Record SealedEnrollmentKeyAgreementRequest := {
  see_identity : IdentityRef;
  see_enrollment_id : string;
  see_kid : string;
  see_peer_public : string;
  see_recipient_public_key : string;
  see_request_id : string;
  see_token : OneTimeCapabilityToken }.
Record SealedRootExportRequest := {
  sre_identity : IdentityRef;
  sre_kid : string;
  sre_recipient_public_key : string;
  sre_request_id : string;
  sre_user_presence_confirmed : bool;
  sre_token : OneTimeCapabilityToken }.
Record SealedRootImportPreparation := {
  sri_identity : IdentityRef;
  sri_evidence : LegacyRootImportEvidence;
  sri_encoding : RootPrivateKeyEncoding.t;
  sri_request_id : string }.
Record SealedImportOffer := {
  sio_recipient_public_key : string;
  sio_request_id : string;
  sio_token : OneTimeCapabilityToken;
  sio_authorization : IssuedAuthorizationContext;
  sio_aad_b64u : string }.
Record PreparedSealedRootImport := {
  psr_recipient : string;
  psr_preparation : SealedRootImportPreparation;
  psr_binding : OneTimeOperationBinding;
  psr_aad : string }.
Record SealedIdentityMaterialKeySpec := {
  sks_kid : string;
  sks_purpose : MigrationKeyPurpose.t;
  sks_encoding : MigrationPrivateKeyEncoding.t }.
Record SealedIdentityMaterialImportPreparation := {
  smi_remote : VerifiedRemoteDocument;
  smi_did_wba : bool;
  smi_keys : list SealedIdentityMaterialKeySpec;
  smi_request_id : string }.
Record SealedIdentityMaterialImportOffer := {
  smo_target : IdentityRef;
  smo_recipient_public_key : string;
  smo_request_id : string;
  smo_token : OneTimeCapabilityToken;
  smo_authorization : IssuedAuthorizationContext;
  smo_item_aad_b64u : list string }.
Record PreparedSealedIdentityMaterialImport := {
  psm_recipient : string;
  psm_target : IdentityRef;
  psm_preparation : SealedIdentityMaterialImportPreparation;
  psm_binding : OneTimeOperationBinding;
  psm_item_aad : list string }.

(** ** Computations over an engine, an authority and the world *)

Definition XM (S A : Type) : Type :=
  ST (S * ProviderAuthorization * World) SealedProviderError.t A.

(** [impl From<ProviderAuthorizationError>] and [impl From<IdentityError>]. *)
Definition of_authorization_error (_ : ProviderAuthorizationError.t) : SealedProviderError.t :=
  SealedProviderError.Authorization.
Definition of_identity_error (_ : Facade.IdentityError) : SealedProviderError.t :=
  SealedProviderError.Identity.

Definition with_authority {S A} (m : AM A) : XM S A := λ x,
  let '(r, (a, w)) := m (x.1.2, x.2) in (map_err of_authorization_error r, (x.1.1, a, w)).
Definition with_engine {S A} (m : HM S A) : XM S A := λ x,
  let '(r, (s, w)) := m (x.1.1, x.2) in (map_err of_identity_error r, (s, x.1.2, w)).
Definition engine {S} : XM S S := λ x, (Ok x.1.1, x).

(** The next random draw: its position in the stream. *)
Definition draw {S} : XM S nat := λ x,
  (Ok (draws x.2), (x.1, {| disk := disk x.2; io := io x.2; draws := Datatypes.S (draws x.2);
                            ticks := ticks x.2 |})).

(** ** Bindings *)

Definition sealed_identity_context (i : IdentityRef) : SealedIdentityContext :=
  {| sic_store_id := ref_store_id i; sic_identity_id := ref_identity_id i; sic_did := ref_did i |}.

Definition shared_operation_binding (b : SealedOperationBinding) : OneTimeOperationBinding :=
  {| ob_capability := sob_capability b; ob_identity_id := sob_identity_id b;
     ob_operation := sob_operation b; ob_kid := Some (sob_kid b);
     ob_request_id := sob_request_id b; ob_recipient_public_key := sob_recipient_public_key b;
     ob_operation_input_digest := sob_operation_input_digest b |}.

Definition sealed_key_purpose (p : MigrationKeyPurpose.t) : SealedKeyPurpose.t :=
  match p with
  | MigrationKeyPurpose.RootControl => SealedKeyPurpose.RootControl
  | MigrationKeyPurpose.Authentication => SealedKeyPurpose.Authentication
  | MigrationKeyPurpose.DeviceAssertion => SealedKeyPurpose.DeviceAssertion
  | MigrationKeyPurpose.ApplicationAssertion => SealedKeyPurpose.ApplicationAssertion
  | MigrationKeyPurpose.KeyAgreement => SealedKeyPurpose.KeyAgreement
  end.
Definition sealed_material_key (k : SealedIdentityMaterialKeySpec) : SealedMaterialKeySpec :=
  {| smk_kid := sks_kid k; smk_purpose := sealed_key_purpose (sks_purpose k);
     smk_encoding := match sks_encoding k with
                     | MigrationPrivateKeyEncoding.Raw32 => SealedPrivateKeyEncoding.Raw32
                     | MigrationPrivateKeyEncoding.Pkcs8Der => SealedPrivateKeyEncoding.Pkcs8Der
                     end |}.

Definition sealed_root_evidence (e : LegacyRootImportEvidence) : SealedLegacyRootImportEvidence :=
  {| sle_transfer_id := lre_transfer_id e; sle_source_did := lre_source_did e;
     sle_target_did := lre_target_did e; sle_sender_device_id := lre_sender_device_id e;
     sle_recipient_device_id := lre_recipient_device_id e;
     sle_recipient_agreement_kid := lre_recipient_agreement_kid e; sle_root_kid := lre_root_kid e;
     sle_checkpoint := {| sdc_document_version := hdc_document_version (lre_checkpoint e);
                          sdc_registry_version := hdc_registry_version (lre_checkpoint e);
                          sdc_document_digest := hdc_document_digest (lre_checkpoint e) |};
     sle_accepted_at := lre_accepted_at e |}.

Definition validate_identity_binding (actual requested : IdentityRef)
    (c : ConsumedOneTimeAuthorization) : result SealedProviderError.t unit :=
  rguard (negb (bool_decide (actual = requested))
          || negb (bool_decide (co_store_id c = ref_store_id requested)))
         SealedProviderError.IdentityBinding.

Section Sealed.
Context `{Env, AuthEnv, SealedEnv}.

Definition sealed_key_agreement_binding (i : IdentityRef)
    (kid peer_public recipient_public_key request_id : string)
    : result SealedProviderError.t OneTimeOperationBinding :=
  let? b := ok_or (identity_ecdh_binding (sealed_identity_context i) kid peer_public
                     recipient_public_key request_id) SealedProviderError.InvalidRequest in
  Ok (shared_operation_binding b).

Definition sealed_enrollment_key_agreement_binding (i : IdentityRef)
    (enrollment_id kid peer_public recipient_public_key request_id : string)
    : result SealedProviderError.t OneTimeOperationBinding :=
  let? b := ok_or (identity_enrollment_ecdh_binding (sealed_identity_context i) enrollment_id kid
                     peer_public recipient_public_key request_id)
                  SealedProviderError.InvalidRequest in
  Ok (shared_operation_binding b).

Definition sealed_root_export_binding (i : IdentityRef)
    (kid recipient_public_key request_id : string) (user_presence_confirmed : bool)
    : result SealedProviderError.t OneTimeOperationBinding :=
  let? b := ok_or (identity_root_export_binding (sealed_identity_context i) kid
                     recipient_public_key request_id user_presence_confirmed)
                  (if user_presence_confirmed then SealedProviderError.InvalidRequest
                   else SealedProviderError.Authorization) in
  Ok (shared_operation_binding b).

Definition sealed_root_import_binding (p : SealedRootImportPreparation)
    (recipient_public_key : string) : result SealedProviderError.t OneTimeOperationBinding :=
  let encoding := match sri_encoding p with
                  | RootPrivateKeyEncoding.Raw32 => SealedPrivateKeyEncoding.Raw32
                  | RootPrivateKeyEncoding.Pkcs8Der => SealedPrivateKeyEncoding.Pkcs8Der
                  end in
  let? b := ok_or (identity_root_import_binding (sealed_identity_context (sri_identity p))
                     (sealed_root_evidence (sri_evidence p)) encoding recipient_public_key
                     (sri_request_id p))
                  (if bool_decide (lre_target_did (sri_evidence p) = ref_did (sri_identity p))
                   then SealedProviderError.InvalidRequest
                   else SealedProviderError.IdentityBinding) in
  Ok (shared_operation_binding b).

Definition sealed_identity_material_import_binding (target : IdentityRef)
    (p : SealedIdentityMaterialImportPreparation) (recipient_public_key : string)
    : result SealedProviderError.t OneTimeOperationBinding :=
  let doc := vrd_document (smi_remote p) in
  let e := vrd_evidence (smi_remote p) in
  do? rguard (negb (bool_decide (get_str doc "id" = Some (ref_did target))))
             SealedProviderError.IdentityBinding;
  let? digest := map_err (λ e, of_identity_error (Facade.from_did_error e)) (digest_document doc) in
  do? rguard (negb (bool_decide (digest = vpe_document_digest e)))
             SealedProviderError.IdentityBinding;
  let? b := ok_or (identity_material_import_binding (sealed_identity_context target)
                     (smi_request_id p) recipient_public_key (smi_did_wba p)
                     (vpe_document_digest e) (vpe_document_version e) (vpe_registry_version e)
                     (map sealed_material_key (smi_keys p))) SealedProviderError.InvalidRequest in
  Ok {| ob_capability := sob_capability b; ob_identity_id := sob_identity_id b;
        ob_operation := sob_operation b; ob_kid := None; ob_request_id := sob_request_id b;
        ob_recipient_public_key := sob_recipient_public_key b;
        ob_operation_input_digest := sob_operation_input_digest b |}.

(** The three [operation_binding] methods. *)
Definition key_agreement_operation_binding (q : SealedKeyAgreementRequest) :=
  sealed_key_agreement_binding (ska_identity q) (ska_kid q) (ska_peer_public q)
    (ska_recipient_public_key q) (ska_request_id q).
Definition enrollment_operation_binding (q : SealedEnrollmentKeyAgreementRequest) :=
  sealed_enrollment_key_agreement_binding (see_identity q) (see_enrollment_id q) (see_kid q)
    (see_peer_public q) (see_recipient_public_key q) (see_request_id q).
Definition root_export_operation_binding (q : SealedRootExportRequest) :=
  sealed_root_export_binding (sre_identity q) (sre_kid q) (sre_recipient_public_key q)
    (sre_request_id q) (sre_user_presence_confirmed q).

(** ** Associated data *)

Definition sealed_aad_values (operation : string) (i : IdentityRef)
    (kid request_id operation_input_digest recipient_public_key provider_instance_id
     parent_lease_id consumer capability : string) (expires_at : Z)
    : result SealedProviderError.t string :=
  ok_or (identity_operation_aad
    {| sac_provider_instance_id := provider_instance_id; sac_parent_lease_id := parent_lease_id;
       sac_consumer := consumer; sac_capability := capability; sac_store_id := ref_store_id i;
       sac_expires_at := expires_at |}
    {| sob_capability := capability; sob_identity_id := ref_identity_id i;
       sob_operation := operation; sob_kid := kid; sob_request_id := request_id;
       sob_recipient_public_key := recipient_public_key;
       sob_operation_input_digest := operation_input_digest |}
    (sealed_identity_context i)) SealedProviderError.InvalidRequest.

Definition sealed_aad (operation : string) (i : IdentityRef)
    (kid request_id operation_input_digest recipient_public_key : string)
    (c : ConsumedOneTimeAuthorization) : result SealedProviderError.t string :=
  sealed_aad_values operation i kid request_id operation_input_digest recipient_public_key
    (co_provider_instance_id c) (co_parent_lease_id c) (co_consumer c) (co_capability c)
    (co_expires_at c).

Definition sealed_operation_aad (ctx : IssuedAuthorizationContext) (b : OneTimeOperationBinding)
    (i : IdentityRef) : result SealedProviderError.t string :=
  do? rguard (negb (bool_decide (iac_store_id ctx = ref_store_id i))
              || negb (bool_decide (iac_capability ctx = ob_capability b)))
             SealedProviderError.IdentityBinding;
  let? kid := ok_or (ob_kid b) SealedProviderError.InvalidRequest in
  sealed_aad_values (ob_operation b) i kid (ob_request_id b) (ob_operation_input_digest b)
    (ob_recipient_public_key b) (iac_provider_instance_id ctx) (iac_parent_lease_id ctx)
    (iac_consumer ctx) (iac_capability ctx) (iac_expires_at ctx).

Definition sealed_identity_material_item_aad (ctx : IssuedAuthorizationContext)
    (b : OneTimeOperationBinding) (target : IdentityRef) (index : nat) (kid : string)
    : result SealedProviderError.t string :=
  ok_or (identity_material_import_item_aad
    {| sac_provider_instance_id := iac_provider_instance_id ctx;
       sac_parent_lease_id := iac_parent_lease_id ctx; sac_consumer := iac_consumer ctx;
       sac_capability := iac_capability ctx; sac_store_id := iac_store_id ctx;
       sac_expires_at := iac_expires_at ctx |}
    {| sob_capability := ob_capability b; sob_identity_id := ob_identity_id b;
       sob_operation := ob_operation b; sob_kid := EmptyString; sob_request_id := ob_request_id b;
       sob_recipient_public_key := ob_recipient_public_key b;
       sob_operation_input_digest := ob_operation_input_digest b |}
    (sealed_identity_context target) index kid) SealedProviderError.IdentityBinding.

(** ** Envelopes *)

Definition from_handoff (h : Handoff) : SealedSecretEnvelope :=
  {| env_protocol := sealed_secret_protocol; env_suite := sealed_handoff_suite;
     encapped_key_b64u := b64url_encode (encapped_key h);
     ciphertext_b64u := b64url_encode (ciphertext h) |}.

Definition to_handoff (e : SealedSecretEnvelope) : result SealedProviderError.t Handoff :=
  do? rguard (negb (bool_decide (env_protocol e = sealed_secret_protocol))
              || negb (bool_decide (env_suite e = sealed_handoff_suite)))
             SealedProviderError.EnvelopeInvalid;
  let? encapped := ok_or (b64url_decode (encapped_key_b64u e)) SealedProviderError.EnvelopeInvalid in
  let? ct := ok_or (b64url_decode (ciphertext_b64u e)) SealedProviderError.EnvelopeInvalid in
  ok_or (handoff_from_parts encapped ct) SealedProviderError.EnvelopeInvalid.

Definition sealed_delivery (h : Handoff) (aad : string) (c : ConsumedOneTimeAuthorization)
    : SealedSecretDelivery :=
  {| delivery_envelope := from_handoff h;
     delivery_authorization :=
       {| iac_provider_instance_id := co_provider_instance_id c;
          iac_parent_lease_id := co_parent_lease_id c; iac_consumer := co_consumer c;
          iac_capability := co_capability c; iac_store_id := co_store_id c;
          iac_expires_at := co_expires_at c |};
     delivery_aad := b64url_encode aad |}.

(** [SealedHandoff::seal] and [sealed_delivery] at the end of the three exports. *)
Definition deliver {S} (recipient_public_key aad secret : string) (c : ConsumedOneTimeAuthorization)
    : XM S SealedSecretDelivery :=
  let! n := draw in
  let! h := lift (ok_or (handoff_seal n recipient_public_key sealed_secret_info aad secret)
                    SealedProviderError.EnvelopeInvalid) in
  ret (sealed_delivery h aad c).

(** [envelope.to_handoff()?] and [recipient.open]. *)
Definition open_envelope (recipient : string) (e : SealedSecretEnvelope) (aad : string)
    : result SealedProviderError.t string :=
  let? h := to_handoff e in
  ok_or (handoff_open recipient h sealed_secret_info aad) SealedProviderError.EnvelopeInvalid.

(** ** Exports *)

Definition derive_shared_secret_sealed (self : ManagedIdentity) (q : SealedKeyAgreementRequest)
    : XM DidIdentity SealedSecretDelivery :=
  let! b := lift (key_agreement_operation_binding q) in
  let! consumed := with_authority (consume_for_operation (ska_token q) b) in
  do! lift (validate_identity_binding (mi_reference self) (ska_identity q) consumed);
  let! shared := with_engine (derive_shared_secret
    {| kar_key := KeySelector.Kid (ska_kid q); kar_peer_public := ska_peer_public q |}) in
  let! aad := lift (sealed_aad ecdh_operation (ska_identity q) (ska_kid q) (ska_request_id q)
    (ob_operation_input_digest b) (ska_recipient_public_key q) consumed) in
  deliver (ska_recipient_public_key q) aad shared consumed.

Definition derive_device_shared_secret_sealed (self : EnrollmentSession)
    (q : SealedEnrollmentKeyAgreementRequest) : XM DidIdentity SealedSecretDelivery :=
  let! b := lift (enrollment_operation_binding q) in
  let! consumed := with_authority (consume_for_operation (see_token q) b) in
  let p := proposal self in
  match ep_kind p with
  | EnrollmentProposalKind.RequestSigning _ => fail SealedProviderError.IdentityBinding
  | EnrollmentProposalKind.Device _ _ agreement_key _ =>
      do! sguard (negb (bool_decide (ep_identity p = see_identity q))
                  || negb (bool_decide (ep_enrollment_id p = see_enrollment_id q))
                  || negb (bool_decide (ppk_kid agreement_key = see_kid q)))
                 SealedProviderError.IdentityBinding;
      do! lift (validate_identity_binding (ep_identity p) (see_identity q) consumed);
      let! shared := with_engine (derive_device_shared_secret self (see_peer_public q)) in
      let! aad := lift (sealed_aad enrollment_ecdh_operation (see_identity q) (see_kid q)
        (see_request_id q) (ob_operation_input_digest b) (see_recipient_public_key q) consumed) in
      deliver (see_recipient_public_key q) aad shared consumed
  end.

Definition export_root_key_sealed (self : ManagedIdentity) (q : SealedRootExportRequest)
    : XM DidIdentity SealedSecretDelivery :=
  let! b := lift (root_export_operation_binding q) in
  let! consumed := with_authority (consume_for_operation (sre_token q) b) in
  do! lift (validate_identity_binding (mi_reference self) (sre_identity q) consumed);
  let! exported := with_engine (export_root_for_legacy_envelope
    {| ure_key := KeySelector.Kid (sre_kid q);
       ure_user_presence_confirmed := sre_user_presence_confirmed q |}) in
  let! aad := lift (sealed_aad root_export_operation (sre_identity q) (sre_kid q)
    (sre_request_id q) (ob_operation_input_digest b) (sre_recipient_public_key q) consumed) in
  deliver (sre_recipient_public_key q) aad exported consumed.

(** ** Imports *)

Definition prepare_root_import {S} (lease : ProviderCapabilityLease)
    (p : SealedRootImportPreparation) (ttl_seconds : Z)
    : XM S (PreparedSealedRootImport * SealedImportOffer) :=
  let! n := draw in
  let recipient := generate_recipient n in
  let! b := lift (sealed_root_import_binding p (recipient_public recipient)) in
  let! issued := with_authority (issue_one_time_with_context lease b ttl_seconds) in
  let! aad := lift (sealed_operation_aad (issued_context issued) b (sri_identity p)) in
  ret ({| psr_recipient := recipient; psr_preparation := p; psr_binding := b; psr_aad := aad |},
       {| sio_recipient_public_key := recipient_public recipient;
          sio_request_id := sri_request_id p; sio_token := issued_token issued;
          sio_authorization := issued_context issued; sio_aad_b64u := b64url_encode aad |}).

Definition complete_root_import (self : PreparedSealedRootImport) (identity : ManagedIdentity)
    (token : OneTimeCapabilityToken) (e : SealedSecretEnvelope)
    : XM DidIdentity LegacyRootImportOutcome.t :=
  let p := psr_preparation self in
  let! consumed := with_authority (consume_for_operation token (psr_binding self)) in
  do! lift (validate_identity_binding (mi_reference identity) (sri_identity p) consumed);
  let! expected := lift (sealed_aad root_import_operation (sri_identity p)
    (lre_root_kid (sri_evidence p)) (sri_request_id p)
    (ob_operation_input_digest (psr_binding self)) (recipient_public (psr_recipient self))
    consumed) in
  do! sguard (negb (bool_decide (expected = psr_aad self))) SealedProviderError.Authorization;
  let! root_key := lift (open_envelope (psr_recipient self) e (psr_aad self)) in
  with_engine (import_legacy_root
    {| lrq_evidence := sri_evidence p; lrq_encoding := sri_encoding p; lrq_root_key := root_key |}).

Definition prepare_identity_material_import (lease : ProviderCapabilityLease)
    (p : SealedIdentityMaterialImportPreparation) (ttl_seconds : Z)
    : XM DidStore (PreparedSealedIdentityMaterialImport * SealedIdentityMaterialImportOffer) :=
  let! d := lift (ok_or (get_str (vrd_document (smi_remote p)) "id")
                    SealedProviderError.InvalidRequest) in
  let! manager := engine in
  let! id := draw in
  let target := {| ref_store_id := manager_store_id manager;
                   ref_identity_id := b64url_encode (random_bytes id 16); ref_did := d |} in
  let! n := draw in
  let recipient := generate_recipient n in
  let! b := lift (sealed_identity_material_import_binding target p (recipient_public recipient)) in
  let! issued := with_authority (issue_one_time_with_context lease b ttl_seconds) in
  let! item_aad := lift (map_result (λ x : nat * SealedIdentityMaterialKeySpec,
    sealed_identity_material_item_aad (issued_context issued) b target x.1 (sks_kid x.2))
    (zip (seq 0 (length (smi_keys p))) (smi_keys p))) in
  ret ({| psm_recipient := recipient; psm_target := target; psm_preparation := p;
          psm_binding := b; psm_item_aad := item_aad |},
       {| smo_target := target; smo_recipient_public_key := recipient_public recipient;
          smo_request_id := smi_request_id p; smo_token := issued_token issued;
          smo_authorization := issued_context issued;
          smo_item_aad_b64u := map b64url_encode item_aad |}).

(** The private key of one envelope. *)
Definition open_material (recipient : string)
    (x : SealedIdentityMaterialKeySpec * string * SealedSecretEnvelope)
    : result SealedProviderError.t MigrationPrivateKey :=
  let? secret := open_envelope recipient x.2 x.1.2 in
  Ok {| mpr_kid := sks_kid x.1.1; mpr_purpose := sks_purpose x.1.1;
        mpr_encoding := sks_encoding x.1.1; mpr_secret := secret |}.

Definition complete_identity_material_import (self : PreparedSealedIdentityMaterialImport)
    (token : OneTimeCapabilityToken) (envelopes : list SealedSecretEnvelope)
    : XM DidStore (ManagedIdentity * DidIdentity) :=
  let p := psm_preparation self in
  let! consumed := with_authority (consume_for_operation token (psm_binding self)) in
  let! manager := engine in
  do! sguard (negb (bool_decide (manager_store_id manager = ref_store_id (psm_target self)))
              || negb (bool_decide (co_store_id consumed = ref_store_id (psm_target self)))
              || negb (bool_decide (length envelopes = length (smi_keys p))))
             SealedProviderError.IdentityBinding;
  let! private_keys := lift (map_result (open_material (psm_recipient self))
    (zip (zip (smi_keys p) (psm_item_aad self)) envelopes)) in
  let! imported := with_engine (import_full_identity_with_id (ref_identity_id (psm_target self))
    {| fir_remote := smi_remote p; fir_did_wba := smi_did_wba p;
       fir_private_keys := private_keys |}) in
  do! sguard (negb (bool_decide (mi_reference imported.1 = psm_target self)))
             SealedProviderError.IdentityBinding;
  ret imported.
End Sealed.
