(* ===== verification/SealedHandoffFacts.v ===== *)
(** * Correctness of the sealed hand-off

    An exported secret leaves only as a ciphertext for the recipient of the request that the
    token was issued for, and a sealed import is the plain import of the keys that were
    sealed for it. *)

From stdpp Require Import base strings list gmap.
From S2P Require Import Prelude Json Errors Records Env Toy Base64 World Document Identity Adoption.
From S2P Require Import RootTransfer KeyImport Managed DocumentChange ProviderAuthorization.
From S2P Require Import ProviderAuthorizationFacts EnrollmentFacts Host SealedHandoff.

(** HPKE opens what it sealed for the same key, information and associated data, and a
    ciphertext is rebuilt from its parts. *)
Class HandoffLaws `{SealedEnv} := {
  handoff_roundtrip n r info aad msg h :
    handoff_seal n (recipient_public r) info aad msg = Some h → handoff_open r h info aad = Some msg;
  handoff_parts n pk info aad msg h :
    handoff_seal n pk info aad msg = Some h →
    handoff_from_parts (encapped_key h) (ciphertext h) = Some h }.

(** A binding names the operation, key, request and recipient it was asked for. *)
Definition names (b : SealedOperationBinding) (operation kid request_id recipient : string) : Prop :=
  sob_operation b = operation ∧ sob_kid b = kid ∧ sob_request_id b = request_id ∧
  sob_recipient_public_key b = recipient.
Class BindingLaws `{SealedEnv} := {
  ecdh_binding_names i k peer pk id b :
    identity_ecdh_binding i k peer pk id = Some b → names b ecdh_operation k id pk;
  enrollment_binding_names i eid k peer pk id b :
    identity_enrollment_ecdh_binding i eid k peer pk id = Some b →
    names b enrollment_ecdh_operation k id pk;
  root_export_binding_names i k pk id confirmed b :
    identity_root_export_binding i k pk id confirmed = Some b → names b root_export_operation k id pk;
  root_import_binding_names i e enc pk id b :
    identity_root_import_binding i e enc pk id = Some b →
    names b root_import_operation (sle_root_kid e) id pk }.

Section Facts.
Context `{HE : Env, HA : AuthEnv, HS : SealedEnv}.

(** ** Exports *)

(** The three sealed exports. *)
Inductive Export :=
  | ExportAgreement (self : ManagedIdentity) (q : SealedKeyAgreementRequest)
  | ExportEnrollment (self : EnrollmentSession) (q : SealedEnrollmentKeyAgreementRequest)
  | ExportRoot (self : ManagedIdentity) (q : SealedRootExportRequest).

Definition export_call (e : Export) : XM DidIdentity SealedSecretDelivery :=
  match e with
  | ExportAgreement self q => derive_shared_secret_sealed self q
  | ExportEnrollment self q => derive_device_shared_secret_sealed self q
  | ExportRoot self q => export_root_key_sealed self q
  end.

(** What a request asks for. *)
Definition export_binding (e : Export) : result SealedProviderError.t OneTimeOperationBinding :=
  match e with
  | ExportAgreement _ q => key_agreement_operation_binding q
  | ExportEnrollment _ q => enrollment_operation_binding q
  | ExportRoot _ q => root_export_operation_binding q
  end.
Definition export_token (e : Export) : OneTimeCapabilityToken :=
  match e with
  | ExportAgreement _ q => ska_token q | ExportEnrollment _ q => see_token q
  | ExportRoot _ q => sre_token q
  end.
Definition export_identity (e : Export) : IdentityRef :=
  match e with
  | ExportAgreement _ q => ska_identity q | ExportEnrollment _ q => see_identity q
  | ExportRoot _ q => sre_identity q
  end.
Definition export_recipient (e : Export) : string :=
  match e with
  | ExportAgreement _ q => ska_recipient_public_key q
  | ExportEnrollment _ q => see_recipient_public_key q
  | ExportRoot _ q => sre_recipient_public_key q
  end.
(** The identity whose engine is used. *)
Definition export_self (e : Export) : IdentityRef :=
  match e with
  | ExportAgreement self _ => mi_reference self
  | ExportEnrollment self _ => ep_identity (proposal self)
  | ExportRoot self _ => mi_reference self
  end.
(** The operation whose result is sealed. *)
Definition export_plain (e : Export) : HM DidIdentity string :=
  match e with
  | ExportAgreement _ q => derive_shared_secret
      {| kar_key := KeySelector.Kid (ska_kid q); kar_peer_public := ska_peer_public q |}
  | ExportEnrollment self q => derive_device_shared_secret self (see_peer_public q)
  | ExportRoot _ q => export_root_for_legacy_envelope
      {| ure_key := KeySelector.Kid (sre_kid q);
         ure_user_presence_confirmed := sre_user_presence_confirmed q |}
  end.
Definition export_check (e : Export) (c : ConsumedOneTimeAuthorization)
    : result SealedProviderError.t unit :=
  match e with
  | ExportEnrollment self q =>
      match ep_kind (proposal self) with
      | EnrollmentProposalKind.RequestSigning _ => Err SealedProviderError.IdentityBinding
      | EnrollmentProposalKind.Device _ _ k _ =>
          do? rguard (negb (bool_decide (ep_identity (proposal self) = see_identity q))
                      || negb (bool_decide (ep_enrollment_id (proposal self) = see_enrollment_id q))
                      || negb (bool_decide (ppk_kid k = see_kid q)))
                     SealedProviderError.IdentityBinding;
          validate_identity_binding (ep_identity (proposal self)) (see_identity q) c
      end
  | _ => validate_identity_binding (export_self e) (export_identity e) c
  end.
Definition export_aad (e : Export) (b : OneTimeOperationBinding) (c : ConsumedOneTimeAuthorization)
    : result SealedProviderError.t string :=
  match e with
  | ExportAgreement _ q => sealed_aad ecdh_operation (ska_identity q) (ska_kid q)
      (ska_request_id q) (ob_operation_input_digest b) (ska_recipient_public_key q) c
  | ExportEnrollment _ q => sealed_aad enrollment_ecdh_operation (see_identity q) (see_kid q)
      (see_request_id q) (ob_operation_input_digest b) (see_recipient_public_key q) c
  | ExportRoot _ q => sealed_aad root_export_operation (sre_identity q) (sre_kid q)
      (sre_request_id q) (ob_operation_input_digest b) (sre_recipient_public_key q) c
  end.

(** The common form of the three exports. *)
Lemma export_call_form e x :
  export_call e x =
  (let! b := lift (export_binding e) in
   let! c := with_authority (consume_for_operation (export_token e) b) in
   do! lift (export_check e c);
   let! secret := with_engine (export_plain e) in
   let! aad := lift (export_aad e b c) in
   deliver (export_recipient e) aad secret c) x.
Proof.
  destruct e as [self q|self q|self q]; try done. simpl.
  unfold derive_device_shared_secret_sealed, bind, lift, fail, sguard.
  destruct (enrollment_operation_binding q) as [b|]; [|done].
  destruct (with_authority _ x) as [[c|] x1]; [|done]. simpl.
  destruct (ep_kind (proposal self)); [|done].
  by destruct (rguard _ _).
Qed.
(** ** Parts of the theorems *)

Definition context_of_consumed (c : ConsumedOneTimeAuthorization) : IssuedAuthorizationContext :=
  {| iac_provider_instance_id := co_provider_instance_id c;
     iac_parent_lease_id := co_parent_lease_id c; iac_consumer := co_consumer c;
     iac_capability := co_capability c; iac_store_id := co_store_id c;
     iac_expires_at := co_expires_at c |}.

Lemma consumed_capability t b x c x' :
  consume_for_operation t b x = (Ok c, x') → co_capability c = ob_capability b.
Proof.
  destruct x as [a w]. unfold consume_for_operation. rewrite unix_now_run, consume_checks.
  destruct (checks a t b _) as [d|] eqn:Hd; [|done]. destruct (seen _ _ _); [done|].
  intros [= <- _]. apply checks_Ok in Hd as (_ & _ & Hm & _). unfold claims_match in Hm.
  rewrite !andb_true_iff, !bool_decide_eq_true in Hm. apply Hm.
Qed.

Lemma validate_identity_binding_Ok i j c u :
  validate_identity_binding i j c = Ok u → i = j ∧ co_store_id c = ref_store_id j.
Proof.
  intros [Hi Hs]%rguard_Ok%orb_false_iff. rewrite negb_false_iff, bool_decide_eq_true in Hi, Hs. done.
Qed.

Lemma export_check_Ok e c u :
  export_check e c = Ok u → export_self e = export_identity e ∧
                            co_store_id c = ref_store_id (export_identity e).
Proof.
  destruct e as [self q|self q|self q]; simpl; try apply validate_identity_binding_Ok.
  destruct (ep_kind _); [|done]. intros (? & _ & Hv)%rbind_Ok. by apply validate_identity_binding_Ok in Hv.
Qed.

(** The host recomputes the associated data from the delivered context and its request. *)
Lemma aad_of_names op i k id digest pk b c :
  names b op k id pk → co_store_id c = ref_store_id i → co_capability c = sob_capability b →
  digest = sob_operation_input_digest b →
  sealed_operation_aad (context_of_consumed c) (shared_operation_binding b) i
  = sealed_aad op i k id digest pk c.
Proof.
  intros (<- & <- & <- & <-) Hs Hc ->. unfold sealed_operation_aad. simpl.
  by rewrite !bool_decide_true by done.
Qed.

Lemma export_aad_operation `{!BindingLaws} e b c :
  export_binding e = Ok b → co_store_id c = ref_store_id (export_identity e) →
  co_capability c = ob_capability b →
  sealed_operation_aad (context_of_consumed c) b (export_identity e) = export_aad e b c.
Proof.
  intros Hb Hs Hc. destruct e as [self q|self q|self q]; simpl in *;
    apply rbind_Ok in Hb as (s & Hb%ok_or_Ok & [= <-]); simpl;
    (apply aad_of_names; [|done..]).
  - by eapply ecdh_binding_names.
  - by eapply enrollment_binding_names.
  - by eapply root_export_binding_names.
Qed.

Lemma open_sealed `{!HandoffLaws, !Base64Laws} n r aad msg h :
  handoff_seal n (recipient_public r) sealed_secret_info aad msg = Some h →
  open_envelope r (from_handoff h) aad = Ok msg.
Proof.
  intros Hh. unfold open_envelope, to_handoff. simpl. rewrite !bool_decide_true by done. simpl.
  rewrite !b64url_roundtrip. simpl. rewrite (handoff_parts _ _ _ _ _ _ Hh). simpl.
  by rewrite (handoff_roundtrip _ _ _ _ _ _ Hh).
Qed.

Lemma with_authority_run {S A} (m : AM A) (s : S) a w r a' w' :
  m (a, w) = (r, (a', w')) →
  with_authority m (s, a, w) = (map_err of_authorization_error r, (s, a', w')).
Proof. unfold with_authority. simpl. by intros ->. Qed.

Lemma with_authority_Ok {S A} (m : AM A) (s : S) a w v x :
  with_authority m (s, a, w) = (Ok v, x) → ∃ a' w', m (a, w) = (Ok v, (a', w')) ∧ x = (s, a', w').
Proof.
  unfold with_authority. simpl. destruct (m (a, w)) as [[v'|] [a' w']]; simpl; [|done].
  intros [= -> <-]. eauto.
Qed.

Lemma with_engine_Ok {S A} (m : HM S A) (s : S) a w v x :
  with_engine m (s, a, w) = (Ok v, x) → ∃ s' w', m (s, w) = (Ok v, (s', w')) ∧ x = (s', a, w').
Proof.
  unfold with_engine. simpl. destruct (m (s, w)) as [[v'|] [s' w']]; simpl; [|done].
  intros [= -> <-]. eauto.
Qed.

(** C28. A sealed export that returns consumed its token for exactly the binding of the request,
    on the identity the request names, and returns what the plain operation returned, sealed
    for the recipient of the request: the recipient's key opens the envelope with the
    associated data that the host recomputes from the delivered authorization. *)
Theorem sealed_export_delivers `{!BindingLaws, !HandoffLaws, !Base64Laws} e i a w d x' :
  export_call e (i, a, w) = (Ok d, x') →
  ∃ b c w1 secret w2 aad,
    export_binding e = Ok b ∧ export_self e = export_identity e ∧
    consume_for_operation (export_token e) b (a, w) = (Ok c, (x'.1.2, w1)) ∧
    export_plain e (i, w1) = (Ok secret, (x'.1.1, w2)) ∧
    delivery_authorization d = context_of_consumed c ∧
    sealed_operation_aad (delivery_authorization d) b (export_identity e) = Ok aad ∧
    delivery_aad d = b64url_encode aad ∧
    ∀ r, recipient_public r = export_recipient e → open_envelope r (delivery_envelope d) aad = Ok secret.
Proof.
  rewrite export_call_form. intros Hr. inv_run Hr. apply lift_Ok in Hstep as [Hb ->].
  inv_run Hr. apply with_authority_Ok in Hstep as (au & wu & Hc & ->). inv_run Hr.
  apply lift_Ok in Hstep as [Hk ->]. inv_run Hr.
  apply with_engine_Ok in Hstep as (iu & wv & Hp & ->). inv_run Hr. apply lift_Ok in Hstep as [Ha ->].
  unfold deliver in Hr. inv_run Hr. injection Hstep as <- <-. inv_run Hr.
  apply lift_Ok in Hstep as [Hh%ok_or_Ok ->]. apply ret_Ok in Hr as [-> ->]. simpl.
  pose proof (export_check_Ok _ _ _ Hk) as [Hself Hstore].
  pose proof (consumed_capability _ _ _ _ _ Hc) as Hcap.
  rewrite <-(export_aad_operation e _ _ Hb Hstore Hcap) in Ha.
  do 6 eexists. split_and!; eauto. intros r Hpk. rewrite <-Hpk in Hh. by eapply open_sealed.
Qed.

(** C29. The token comes first: when it is refused the call fails as an authorization error and
    nothing else has happened; when it is accepted it is spent, whatever the rest of the
    call does, and a retry with it at that time is refused. *)
Theorem sealed_export_spends_token e b i a w r x' :
  export_binding e = Ok b → export_call e (i, a, w) = (r, x') →
  match consume_for_operation (export_token e) b (a, w) with
  | (Err _, (a1, w1)) => r = Err SealedProviderError.Authorization ∧ x' = (i, a1, w1)
  | (Ok c, (a1, w1)) =>
      x'.1.2 = a1 ∧ ∀ w2, (time w ≤ time w2 < co_expires_at c)%Z →
      is_ok (consume_for_operation (export_token e) b (x'.1.2, w2)).1 = false
  end.
Proof.
  intros Hb. rewrite export_call_form. unfold bind at 1, lift at 1. rewrite Hb. intros Hr.
  destruct (consume_for_operation (export_token e) b (a, w)) as [[c|err] [a1 w1]] eqn:Hc.
  2: { unfold bind at 1 in Hr. rewrite (with_authority_run _ _ _ _ _ _ _ Hc) in Hr. simpl in Hr.
       by injection Hr as <- <-. }
  assert (Ha : x'.1.2 = a1).
  { unfold bind at 1 in Hr. rewrite (with_authority_run _ _ _ _ _ _ _ Hc) in Hr. simpl in Hr.
    unfold deliver, draw, bind, lift, ret, with_engine in Hr. simpl in Hr.
    destruct (export_check e c) as [[]|]; [|by injection Hr as <- <-].
    destruct (export_plain e (i, w1)) as [[secret|] [i1 w2]]; simpl in Hr; [|by injection Hr as <- <-].
    destruct (export_aad e b c); [|by injection Hr as <- <-]. simpl in Hr.
    by destruct (ok_or _ _); injection Hr as <- <-. }
  split; [done|]. intros w2 Hw. rewrite Ha. unfold consume_for_operation in *.
  rewrite unix_now_run in *. rewrite consume_checks in Hc.
  destruct (checks a (export_token e) b (time w)) as [d|] eqn:Hd; [|done].
  destruct (seen a _ _); [done|]. injection Hc as <- <- <-. simpl in Hw.
  apply not_true_iff_false. rewrite consume_is_ok. intros [_ Hs].
  apply bool_decide_eq_false in Hs. apply Hs. exists (tc_expires_at d). simpl.
  apply map_lookup_filter_Some. simpl. split; [apply lookup_insert_eq|lia].
Qed.
(** ** Imports *)

(** The world after one reading of the clock. *)
Definition tick (w : World) : World :=
  {| disk := disk w; io := io w; draws := draws w; ticks := S (ticks w) |}.

(** A token of an offer can be consumed later: the authority still has its lease, and neither
    the lease nor the token has expired or was used. *)
Definition redeemable (a a' : ProviderAuthorization) (ctx : IssuedAuthorizationContext)
    (t : OneTimeCapabilityToken) (now : Z) : Prop :=
  provider_instance_id a' = provider_instance_id a ∧ hmac_key a' = hmac_key a ∧
  (now < iac_expires_at ctx)%Z ∧ in_force a' ctx now ∧ seen a' t now = false.

Section Imports.
Context `{!Base64Laws, !Base64TextLaws, !ClaimsLaws, !RecipientLaws, !BindingLaws, !HandoffLaws}.

Lemma redeem lease b ttl a w i x' a' w' :
  chrono_time (time w) →
  issue_one_time_with_context lease b ttl (a, w) = (Ok i, x') →
  (N.of_nat (String.length (issued_token i)) ≤ MAX_TOKEN_BYTES)%N →
  redeemable a a' (issued_context i) (issued_token i) (time w') →
  ∃ a'', ∀ S (s : S), with_authority (consume_for_operation (issued_token i) b) (s, a', w')
         = (Ok (consumed_of_context (issued_context i)), (s, a'', tick w')).
Proof.
  intros Hn Hi Hlen (Ha & Hk & Hx & Hf & Hs). unfold issue_one_time_with_context in Hi.
  rewrite unix_now_run in Hi.
  destruct (issued_accepted _ _ _ _ _ _ _ _ _ _ (tick w') Hn Hi Hlen Ha Hk Hx Hf Hs) as [a'' Hc].
  exists a''. intros S s. exact (with_authority_run (consume_for_operation _ b) s a' w' _ _ _ Hc).
Qed.

Lemma prepare_root_import_run {S} lease p ttl (s : S) a w prep offer x1 :
  prepare_root_import lease p ttl (s, a, w) = (Ok (prep, offer), x1) →
  ∃ w1 w2 b issued aad,
    time w1 = time w ∧ sealed_root_import_binding p (recipient_public (psr_recipient prep)) = Ok b ∧
    issue_one_time_with_context lease b ttl (a, w1) = (Ok issued, (x1.1.2, w2)) ∧
    sealed_operation_aad (issued_context issued) b (sri_identity p) = Ok aad ∧
    prep = {| psr_recipient := psr_recipient prep; psr_preparation := p; psr_binding := b;
              psr_aad := aad |} ∧
    offer = {| sio_recipient_public_key := recipient_public (psr_recipient prep);
               sio_request_id := sri_request_id p; sio_token := issued_token issued;
               sio_authorization := issued_context issued; sio_aad_b64u := b64url_encode aad |}.
Proof.
  unfold prepare_root_import. intros Hr. inv_run Hr. injection Hstep as <- <-. inv_run Hr.
  apply lift_Ok in Hstep as [Hb ->]. inv_run Hr.
  apply with_authority_Ok in Hstep as (au & wu & Hi & ->). inv_run Hr. apply lift_Ok in Hstep as [Ha ->].
  apply ret_Ok in Hr as [[= -> ->] ->]. simpl. do 5 eexists.
  split; [|split; [exact Hb|split; [exact Hi|split; [exact Ha|done]]]]. done.
Qed.

(** The associated data that [complete] recomputes is the one of the offer. *)
Lemma root_import_aad p r b ctx aad :
  sealed_root_import_binding p (recipient_public r) = Ok b →
  sealed_operation_aad ctx b (sri_identity p) = Ok aad →
  iac_store_id ctx = ref_store_id (sri_identity p) ∧
  sealed_aad root_import_operation (sri_identity p) (lre_root_kid (sri_evidence p))
    (sri_request_id p) (ob_operation_input_digest b) (recipient_public r) (consumed_of_context ctx)
  = Ok aad.
Proof.
  unfold sealed_root_import_binding. intros (o & Ho%ok_or_Ok & [= <-])%rbind_Ok Ha.
  assert (Hg := Ha). unfold sealed_operation_aad in Hg.
  apply rbind_Ok in Hg as (u & [Hs Hc]%rguard_Ok%orb_false_iff & _).
  rewrite negb_false_iff, bool_decide_eq_true in Hs, Hc. split; [done|]. rewrite <-Ha.
  replace ctx with (context_of_consumed (consumed_of_context ctx)) at 2 by (by destruct ctx).
  symmetry. apply aad_of_names; [|done..]. by apply root_import_binding_names in Ho.
Qed.

(** C30. A sealed import of the root key is the plain import of the key that was sealed: with
    the token of the offer, while it can be redeemed, and a ciphertext made for the offered
    recipient and associated data, completion does exactly what [import_legacy_root] does
    with the sealed key, after consuming the token. *)
Theorem sealed_root_import_equiv {S} lease p ttl (s : S) a w prep offer x1 :
  chrono_time (time w) →
  prepare_root_import lease p ttl (s, a, w) = (Ok (prep, offer), x1) →
  (N.of_nat (String.length (sio_token offer)) ≤ MAX_TOKEN_BYTES)%N →
  ∀ m i a2 w2 n aad key h,
    redeemable a a2 (sio_authorization offer) (sio_token offer) (time w2) →
    mi_reference m = sri_identity p → b64url_decode (sio_aad_b64u offer) = Some aad →
    handoff_seal n (sio_recipient_public_key offer) sealed_secret_info aad key = Some h →
    ∃ a3, complete_root_import prep m (sio_token offer) (from_handoff h) (i, a2, w2)
          = with_engine (import_legacy_root
              {| lrq_evidence := sri_evidence p; lrq_encoding := sri_encoding p;
                 lrq_root_key := key |}) (i, a3, tick w2).
Proof.
  intros Hn Hp Hlen m i a2 w2 n aad key h Hred Hm Haad Hh.
  destruct (prepare_root_import_run _ _ _ _ _ _ _ _ _ Hp)
    as (w1 & w1' & b & issued & aad' & Htime & Hb & Hi & Ha & Hprep & ->). simpl in *.
  rewrite b64url_roundtrip in Haad. injection Haad as ->. rewrite <-Htime in Hn.
  destruct (redeem _ _ _ _ _ _ _ _ _ Hn Hi Hlen Hred) as [a3 Hc]. exists a3.
  destruct (root_import_aad _ _ _ _ _ Hb Ha) as [Hst Hexp].
  rewrite Hprep. unfold complete_root_import. simpl. unfold bind at 1. rewrite Hc. simpl.
  unfold bind at 1, lift at 1, validate_identity_binding. simpl.
  rewrite Hm, !bool_decide_true by done. simpl.
  unfold bind at 1, lift at 1. rewrite Hexp. unfold bind at 1, sguard at 1, lift at 1. simpl.
  rewrite bool_decide_true by done. simpl.
  unfold bind at 1, lift at 1. by rewrite (open_sealed _ _ _ _ _ Hh).
Qed.
(** *** Import of a whole identity *)

Lemma prepare_material_run lease p ttl s a w prep offer x1 :
  prepare_identity_material_import lease p ttl (s, a, w) = (Ok (prep, offer), x1) →
  ∃ w1 x2 b issued aads,
    time w1 = time w ∧ issue_one_time_with_context lease b ttl (a, w1) = (Ok issued, x2) ∧
    length aads = length (smi_keys p) ∧ get_str (vrd_document (smi_remote p)) "id"
      = Some (ref_did (psm_target prep)) ∧ ref_store_id (psm_target prep) = manager_store_id s ∧
    prep = {| psm_recipient := psm_recipient prep; psm_target := psm_target prep;
              psm_preparation := p; psm_binding := b; psm_item_aad := aads |} ∧
    offer = {| smo_target := psm_target prep;
               smo_recipient_public_key := recipient_public (psm_recipient prep);
               smo_request_id := smi_request_id p; smo_token := issued_token issued;
               smo_authorization := issued_context issued;
               smo_item_aad_b64u := map b64url_encode aads |}.
Proof.
  unfold prepare_identity_material_import. intros Hr. inv_run Hr. apply lift_Ok in Hstep as [Hd ->].
  inv_run Hr. injection Hstep as <- <-. inv_run Hr. injection Hstep as <- <-.
  inv_run Hr. injection Hstep as <- <-. inv_run Hr. apply lift_Ok in Hstep as [Hb ->].
  inv_run Hr. apply with_authority_Ok in Hstep as (au & wu & Hi & ->).
  inv_run Hr. apply lift_Ok in Hstep as [Ha ->]. apply ret_Ok in Hr as [[= -> ->] ->]. simpl.
  apply map_result_Forall2, Forall2_length in Ha. apply ok_or_Ok in Hd.
  rewrite length_zip_with, length_seq, Nat.min_id in Ha.
  do 5 eexists. split; [|split; [exact Hi|split; [by rewrite <-Ha|done]]]. done.
Qed.

Lemma map_encode_inj l k : map b64url_encode l = map b64url_encode k → l = k.
Proof.
  revert k. induction l as [|x l IH]; intros [|y k]; simpl; try done.
  intros [= Hx Hl]. apply b64url_encode_inj in Hx as ->. f_equal. by apply IH.
Qed.

(** The private keys of an import: the specified keys with their secrets. *)
Definition with_secrets (l : list SealedIdentityMaterialKeySpec) (secrets : list string)
    : list MigrationPrivateKey :=
  zip_with (λ k secret, {| mpr_kid := sks_kid k; mpr_purpose := sks_purpose k;
                           mpr_encoding := sks_encoding k; mpr_secret := secret |}) l secrets.

Lemma open_materials r l aads secrets hs :
  length aads = length l →
  Forall3 (λ aad secret h, ∃ n,
    handoff_seal n (recipient_public r) sealed_secret_info aad secret = Some h) aads secrets hs →
  map_result (open_material r) (zip (zip l aads) (map from_handoff hs))
  = Ok (with_secrets l secrets).
Proof.
  intros Hl Hs. revert l Hl.
  induction Hs as [|aad secret h aads secrets hs [n Hh] Hs IH]; intros [|k l] Hl; try done.
  simpl. unfold open_material at 1. simpl. rewrite (open_sealed _ _ _ _ _ Hh). simpl.
  injection Hl as Hl. by rewrite (IH l Hl).
Qed.

(** An imported identity has the reference that was chosen for it. *)
Lemma import_reference iid q s w m i s' w' :
  import_full_identity_with_id iid q (s, w) = (Ok (m, i), (s', w')) →
  ref_store_id (mi_reference m) = manager_store_id s ∧ ref_identity_id (mi_reference m) = iid ∧
  get_str (vrd_document (fir_remote q)) "id" = Some (ref_did (mi_reference m)).
Proof.
  unfold import_full_identity_with_id, wrap_imported. intros Hr. inv_run Hr. unfold calls in Hstep.
  simpl in Hstep. unfold reassoc, bind at 1 in Hstep.
  destruct (import_identity_with_id s (full_import_spec q) iid w) as [[[[s1 i1] u]|] w1] eqn:Hi;
    [|done]. injection Hstep as <- <-. inv_run Hr. injection Hstep as <- <-.
  apply ret_Ok in Hr as [[= -> ->] [= -> ->]]. simpl.
  unfold import_identity_with_id in Hi. do 6 inv_run Hi. inv_run Hi.
  apply lift_Ok in Hstep0 as [Hd%ok_or_Ok _].
  apply enroll_transaction_Ok in Hi as (Hrt & _ & Hrec).
  unfold identity_import_record in Hrec. do 3 inv_run Hrec. injection Hrec as Hrec _.
  rewrite <-Hrec. unfold manager_store_id. by rewrite Hrt.
Qed.

(** A sealed import of an identity is the plain import of its keys: with the token of the
    offer, while it can be redeemed in the store it was made for, and one ciphertext per key
    made for the offered recipient and associated data, completion returns what
    [import_full_identity_with_id] returns for the sealed secrets, under the offered
    reference. *)
Theorem sealed_material_import_equiv lease p ttl s a w prep offer x1 :
  chrono_time (time w) →
  prepare_identity_material_import lease p ttl (s, a, w) = (Ok (prep, offer), x1) →
  (N.of_nat (String.length (smo_token offer)) ≤ MAX_TOKEN_BYTES)%N →
  iac_store_id (smo_authorization offer) = manager_store_id s →
  ∀ s2 a2 w2 aads secrets hs,
    redeemable a a2 (smo_authorization offer) (smo_token offer) (time w2) →
    manager_store_id s2 = manager_store_id s →
    smo_item_aad_b64u offer = map b64url_encode aads →
    Forall3 (λ aad secret h, ∃ n, handoff_seal n (smo_recipient_public_key offer)
               sealed_secret_info aad secret = Some h) aads secrets hs →
    ∃ a3, let plain := with_engine (import_full_identity_with_id (ref_identity_id (smo_target offer))
              {| fir_remote := smi_remote p; fir_did_wba := smi_did_wba p;
                 fir_private_keys := with_secrets (smi_keys p) secrets |}) (s2, a3, tick w2) in
      complete_identity_material_import prep (smo_token offer) (map from_handoff hs) (s2, a2, w2)
      = plain ∧ ∀ m x, plain = (Ok m, x) → mi_reference m.1 = smo_target offer.
Proof.
  intros Hn Hp Hlen Hst s2 a2 w2 aads secrets hs Hred Hs2 Haads Hs.
  destruct (prepare_material_run _ _ _ _ _ _ _ _ _ Hp)
    as (w1 & x2 & b & issued & aads' & Htime & Hi & Hlaad & Hdid & Hsid & Hprep & ->). simpl in *.
  apply map_encode_inj in Haads as ->.
  rewrite <-Htime in Hn. destruct (redeem _ _ _ _ _ _ _ _ _ Hn Hi Hlen Hred) as [a3 Hc]. exists a3.
  assert (Hlhs : length hs = length (smi_keys p)).
  { rewrite <-Hlaad. symmetry. by eapply Forall3_length_lr. }
  assert (Href : ∀ m x, with_engine (import_full_identity_with_id (ref_identity_id (psm_target prep))
     {| fir_remote := smi_remote p; fir_did_wba := smi_did_wba p;
        fir_private_keys := with_secrets (smi_keys p) secrets |}) (s2, a3, tick w2) = (Ok m, x) →
     mi_reference m.1 = psm_target prep).
  { intros [m i] x (s' & w' & Hm & _)%with_engine_Ok. apply import_reference in Hm as (E1 & E2 & E3).
    simpl in *. rewrite Hdid in E3. injection E3 as E3.
    destruct (mi_reference m), (psm_target prep); simpl in *; congruence. }
  split; [|exact Href]. rewrite Hprep. unfold complete_identity_material_import. simpl.
  unfold bind at 1. rewrite Hc. unfold bind at 1, engine at 1, bind at 1, sguard at 1, lift at 1. simpl.
  rewrite length_map, !bool_decide_true by congruence. simpl.
  unfold bind at 1, lift at 1. rewrite (open_materials _ _ _ _ _ Hlaad Hs). unfold bind.
  destruct (with_engine _ (s2, a3, tick w2)) as [[m|] x] eqn:Hw; [|done].
  unfold sguard, lift. by rewrite bool_decide_true by (by eapply Href).
Qed.
End Imports.
End Facts.
