(* ===== verification/SealedScenario.v ===== *)
(** * Concrete runs of the sealed hand-off

    An identity with a root, a device and an agreement key is imported from sealed keys, a
    shared secret of it is exported sealed, and an import of a root key is offered. *)

From stdpp Require Import base strings list gmap pretty.
From S2P Require Import Prelude Json Errors Records Env Toy Base64 World Document Identity Adoption.
From S2P Require Import RootTransfer KeyImport IdentityFacts Namespace Scenario Managed DocumentChange.
From S2P Require Import ProviderAuthorization ProviderAuthorizationFacts HostToy Host SealedHandoff.
From S2P Require Import SealedHandoffFacts.

Definition toy_binding (cap op : string) (i : SealedIdentityContext) (k pk id : string)
    : option SealedOperationBinding :=
  Some {| sob_capability := cap; sob_identity_id := sic_identity_id i; sob_operation := op;
          sob_kid := k; sob_request_id := id; sob_recipient_public_key := pk;
          sob_operation_input_digest := "digest" |}.

Definition host_sealed : SealedEnv := {|
  sealed_secret_protocol := "protocol"; sealed_secret_info := "info"; sealed_handoff_suite := "suite";
  ecdh_operation := "ecdh"; enrollment_ecdh_operation := "enrollment";
  root_export_operation := "export"; root_import_operation := "import";
  generate_recipient n := ("recipient" +:+ pretty n)%string;
  recipient_public r := r;
  handoff_from_parts e c := Some {| encapped_key := e; ciphertext := c |};
  handoff_seal _ pk _ aad msg := Some {| encapped_key := pk; ciphertext := (quote aad +:+ msg)%string |};
  handoff_open r h _ aad :=
    if bool_decide (encapped_key h = r) then strip_prefix (quote aad) (ciphertext h) else None;
  identity_ecdh_binding i k _ pk id :=
    toy_binding capability.IDENTITY_ECDH_SEALED "ecdh" i k pk id;
  identity_enrollment_ecdh_binding i _ k _ pk id :=
    toy_binding capability.IDENTITY_ECDH_SEALED "enrollment" i k pk id;
  identity_root_export_binding i k pk id confirmed :=
    if confirmed then toy_binding capability.AWIKI_LEGACY_ROOT_TRANSFER_V1 "export" i k pk id else None;
  identity_root_import_binding i e _ pk id :=
    toy_binding capability.AWIKI_LEGACY_ROOT_TRANSFER_V1 "import" i (sle_root_kid e) pk id;
  identity_material_import_binding i id pk _ _ _ _ _ :=
    toy_binding capability.IDENTITY_IMPORT "material" i "" pk id;
  identity_operation_aad c b i := Some (sac_consumer c +:+ sob_kid b +:+ sob_request_id b)%string;
  identity_material_import_item_aad c b _ index k := Some (pretty index +:+ k)%string |}.

Lemma host_handoff_laws : @HandoffLaws host_sealed.
Proof.
  constructor.
  - intros n r info aad msg h [= <-]. simpl. rewrite bool_decide_true by done. apply strip_prefix_app.
  - intros n pk info aad msg h [= <-]. done.
Defined.
Lemma host_binding_laws : @BindingLaws host_sealed.
Proof.
  constructor; simpl; unfold toy_binding.
  - by intros i k peer pk id b [= <-].
  - by intros i eid k peer pk id b [= <-].
  - intros i k pk id [] b; [by intros [= <-]|done].
  - by intros i e enc pk id b [= <-].
Defined.

(** ** The imported identity *)

Definition agreement_raw : string := pad 32 "agreement-key".
Definition sealed_document : Value :=
  sample_document [(sample_kid "device", (bytes [122; 237; 1] +:+ device_raw)%string);
                   (sample_kid "agree", (bytes [122; 236; 1] +:+ agreement_raw)%string)]
    [sample_kid "device"] [sample_kid "agree"] [].
Definition sealed_remote : VerifiedRemoteDocument :=
  {| vrd_document := sealed_document;
     vrd_evidence := {| vpe_document_version := 4; vpe_registry_version := 4;
                        vpe_document_digest := match @digest_document host_env sealed_document with
                                               | Ok dg => dg | Err _ => EmptyString
                                               end |} |}.
Definition material_key (fragment : string) (p : MigrationKeyPurpose.t)
    : SealedIdentityMaterialKeySpec :=
  {| sks_kid := fragment; sks_purpose := p; sks_encoding := MigrationPrivateKeyEncoding.Raw32 |}.
Definition material_preparation : SealedIdentityMaterialImportPreparation :=
  {| smi_remote := sealed_remote; smi_did_wba := true;
     smi_keys := [material_key "root" MigrationKeyPurpose.RootControl;
                  material_key "device" MigrationKeyPurpose.DeviceAssertion;
                  material_key "agree" MigrationKeyPurpose.KeyAgreement];
     smi_request_id := "migration" |}.
Definition secrets : list string := [root_raw; device_raw; agreement_raw].

Definition sealed_lease_run : result ProviderAuthorizationError.t ProviderCapabilityLease
    * (ProviderAuthorization * World) :=
  @acquire_lease host_env "host" [capability.IDENTITY_IMPORT; capability.IDENTITY_ECDH_SEALED;
      capability.AWIKI_LEGACY_ROOT_TRANSFER_V1] (manager_store_id sample_store) 600 authority0.
Definition sealed_lease : ProviderCapabilityLease :=
  match sealed_lease_run.1 with
  | Ok l => l | Err _ => {| pcl_provider_instance_id := ""; pcl_lease_id := "" |}
  end.
Definition a0 : ProviderAuthorization := sealed_lease_run.2.1.
Definition w1 : World := sealed_lease_run.2.2.

(** What a custodian seals for a recipient. *)
Definition sealed_for (pk : string) (aads secrets : list string) : list Handoff :=
  zip_with (λ aad secret, {| encapped_key := pk; ciphertext := (quote aad +:+ secret)%string |})
    aads secrets.
Lemma sealed_for_seals pk aads l :
  length aads = length l →
  Forall3 (λ aad secret h, ∃ n, @handoff_seal host_sealed n pk "info" aad secret = Some h)
    aads l (sealed_for pk aads l).
Proof.
  revert l. induction aads as [|x aads IH]; intros [|y l] Hl; try discriminate Hl; simpl;
    [constructor|]. constructor; [by exists 0|]. apply IH. by injection Hl.
Defined.

(** ** Deciding the hypotheses *)

Definition in_force_b (a : ProviderAuthorization) (ctx : IssuedAuthorizationContext) (now : Z) : bool :=
  match leases a !! iac_parent_lease_id ctx with
  | Some p => (now <? ls_expires_at p)%Z && bool_decide (ls_consumer p = iac_consumer ctx)
      && bool_decide (ls_store_id p = iac_store_id ctx)
      && bool_decide (iac_capability ctx ∈ ls_capabilities p)
  | None => false
  end.
Definition redeemable_b (a a' : ProviderAuthorization) (ctx : IssuedAuthorizationContext)
    (t : string) (w : World) : bool :=
  bool_decide (provider_instance_id a' = provider_instance_id a)
  && bool_decide (hmac_key a' = hmac_key a) && (@time host_env w <? iac_expires_at ctx)%Z
  && in_force_b a' ctx (@time host_env w) && negb (@seen host_env a' t (@time host_env w))
  && (N.of_nat (String.length t) <=? MAX_TOKEN_BYTES)%N.

Lemma redeemable_b_true a a' ctx t w :
  redeemable_b a a' ctx t w = true →
  @redeemable host_env a a' ctx t (@time host_env w) ∧
  (N.of_nat (String.length t) ≤ MAX_TOKEN_BYTES)%N.
Proof.
  unfold redeemable_b, redeemable, in_force_b, in_force.
  rewrite !andb_true_iff, !bool_decide_eq_true, Z.ltb_lt, negb_true_iff, N.leb_le.
  destruct (leases a' !! _) as [p|]; [|naive_solver].
  rewrite !andb_true_iff, !bool_decide_eq_true, Z.ltb_lt. naive_solver.
Defined.

Lemma chrono_start : chrono_time (@time host_env w1).
Proof. unfold chrono_time. by vm_compute. Defined.

(** ** The import of the identity, and a shared secret of it *)

Abbreviation material_run := (@prepare_identity_material_import host_env host_auth host_sealed
  sealed_lease material_preparation 60 (sample_store, a0, w1)).
Definition offered_aads (o : SealedIdentityMaterialImportOffer) : list string :=
  omap bits_decode (smo_item_aad_b64u o).
Definition complete_material (prep : PreparedSealedIdentityMaterialImport)
    (o : SealedIdentityMaterialImportOffer) (x : DidStore * ProviderAuthorization * World) :=
  @complete_identity_material_import host_env host_auth host_sealed prep (smo_token o)
    (map (@from_handoff host_env host_sealed)
       (sealed_for (smo_recipient_public_key o) (offered_aads o) secrets)) x.

(** The hypotheses of the theorem about a run of [prepare], decided. *)
Definition material_check (r : result SealedProviderError.t
      (PreparedSealedIdentityMaterialImport * SealedIdentityMaterialImportOffer)
      * (DidStore * ProviderAuthorization * World)) : bool :=
  match r with
  | (Ok (prep, o), (s, a, w)) =>
      redeemable_b a0 a (smo_authorization o) (smo_token o) w
      && bool_decide (iac_store_id (smo_authorization o) = manager_store_id sample_store)
      && bool_decide (manager_store_id s = manager_store_id sample_store)
      && bool_decide (smo_item_aad_b64u o = map bits_encode (offered_aads o))
      && bool_decide (length (offered_aads o) = length secrets)
      && is_ok (complete_material prep o (s, a, w)).1
  | (Err e, _) => false
  end.

Lemma material_check_true r : material_check r = true → ∃ prep o s a w hs m i x,
  r = (Ok (prep, o), (s, a, w)) ∧
  @redeemable host_env a0 a (smo_authorization o) (smo_token o) (@time host_env w) ∧
  (N.of_nat (String.length (smo_token o)) ≤ MAX_TOKEN_BYTES)%N ∧
  iac_store_id (smo_authorization o) = manager_store_id sample_store ∧
  manager_store_id s = manager_store_id sample_store ∧
  smo_item_aad_b64u o = map (@b64url_encode host_env) (offered_aads o) ∧
  Forall3 (λ aad secret h, ∃ n, @handoff_seal host_sealed n (smo_recipient_public_key o)
             (@sealed_secret_info host_sealed) aad secret = Some h) (offered_aads o) secrets hs ∧
  @complete_identity_material_import host_env host_auth host_sealed prep (smo_token o)
    (map (@from_handoff host_env host_sealed) hs) (s, a, w) = (Ok (m, i), x).
Proof.
  destruct r as [[[prep o]|e] [[s a] w]]; [|discriminate]. unfold material_check.
  rewrite !andb_true_iff, !bool_decide_eq_true.
  intros (((((Hred & Hst) & Hs) & Haad) & Hlen) & Hok).
  apply redeemable_b_true in Hred as [Hred Htok]. destruct (is_ok_run _ Hok) as [[m i] Hc].
  do 9 eexists. split; [reflexivity|]. do 5 (split; [eassumption|]).
  split; [by apply sealed_for_seals|]. exact Hc.
Qed.

Lemma material_ok : material_check material_run = true.
Proof. vm_compute. reflexivity. Qed.

Lemma sealed_material_import_equiv_witness : ∃ o s w m i a3 y,
  with_engine (@import_full_identity_with_id host_env (ref_identity_id (smo_target o))
    {| fir_remote := smi_remote material_preparation; fir_did_wba := smi_did_wba material_preparation;
       fir_private_keys := with_secrets (smi_keys material_preparation) secrets |})
    (s, a3, tick w) = (Ok (m, i), y) ∧ mi_reference m = smo_target o.
Proof.
  destruct (material_check_true _ material_ok)
    as (prep & o & s & a & w & hs & m & i & x & Hr & Hred & Htok & Hst & Hs & Haad & Hseal & Hc).
  destruct (@sealed_material_import_equiv host_env host_auth host_sealed host_base64_laws
    host_text_laws host_claims_laws host_recipient_laws host_handoff_laws
    sealed_lease material_preparation 60%Z sample_store a0 w1 prep o (s, a, w) chrono_start Hr Htok Hst s a w (offered_aads o) secrets hs Hred Hs Haad
    Hseal) as (a3 & Heq & Href).
  rewrite Hc in Heq. exists o, s, w, m, i, a3, x. split; [exact (eq_sym Heq)|].
  exact (Href _ _ (eq_sym Heq)).
Defined.

(** A request for a shared secret of the imported identity, with a token issued for it. *)
Definition agreement_request (target : IdentityRef) (token : string) : SealedKeyAgreementRequest :=
  {| ska_identity := target; ska_kid := "agree"; ska_peer_public := pad 32 "peer";
     ska_recipient_public_key := "native-host"; ska_request_id := "request-1"; ska_token := token |}.

(** The state in which the secret is exported, and the call. *)
Definition export_state : option (ManagedIdentity * Export
    * (DidIdentity * ProviderAuthorization * World)) :=
  match material_run with
  | (Ok (prep, o), x) =>
      match complete_material prep o x with
      | (Ok (m, i), (_, a, w)) =>
          match @key_agreement_operation_binding host_sealed (agreement_request (smo_target o) "") with
          | Ok b =>
              match @issue_one_time_with_context host_env host_auth sealed_lease b 60 (a, w) with
              | (Ok issued, (a, w)) => Some (m, ExportAgreement m
                  (agreement_request (smo_target o) (issued_token issued)), (i, a, w))
              | _ => None
              end
          | _ => None
          end
      | _ => None
      end
  | _ => None
  end.
Definition export_check_state (st : option (ManagedIdentity * Export
    * (DidIdentity * ProviderAuthorization * World))) : bool :=
  match st with
  | Some (m, e, x) => is_ok (@export_call host_env host_auth host_sealed e x).1
      && is_ok (@export_binding host_sealed e)
  | None => false
  end.
Lemma export_check_state_true st : export_check_state st = true → ∃ e i a w d x b,
  @export_call host_env host_auth host_sealed e (i, a, w) = (Ok d, x) ∧
  @export_binding host_sealed e = Ok b.
Proof.
  destruct st as [[[m e] [[i a] w]]|]; [|discriminate].
  intros [Hc Hb]%andb_true_iff.
  destruct (is_ok_run _ Hc) as [d Hd]. destruct (is_ok_Ok _ Hb) as [b Hb']. eauto 10.
Qed.
Lemma export_ok : export_check_state export_state = true.
Proof. vm_compute. reflexivity. Qed.

Lemma sealed_export_delivers_witness : ∃ e i a w d x aad secret,
  @export_call host_env host_auth host_sealed e (i, a, w) = (Ok d, x) ∧
  ∀ r, @recipient_public host_sealed r = export_recipient e →
    @open_envelope host_env host_sealed r (delivery_envelope d) aad = Ok secret.
Proof.
  destruct (export_check_state_true _ export_ok) as (e & i & a & w & d & x & b & Hd & _).
  destruct (@sealed_export_delivers host_env host_auth host_sealed host_binding_laws
    host_handoff_laws host_base64_laws e i a w d x Hd)
    as (b' & c & w' & secret & w'' & aad & _ & _ & _ & _ & _ & _ & _ & Hopen).
  exists e, i, a, w, d, x, aad, secret. split; [exact Hd|exact Hopen].
Defined.

Lemma sealed_export_spends_token_witness : ∃ e i a w d x b,
  @export_call host_env host_auth host_sealed e (i, a, w) = (Ok d, x) ∧
  match @consume_for_operation host_env host_auth (export_token e) b (a, w) with
  | (Err _, _) => False
  | (Ok _, (a1, _)) => x.1.2 = a1
  end.
Proof.
  destruct (export_check_state_true _ export_ok) as (e & i & a & w & d & x & b & Hd & Hb).
  exists e, i, a, w, d, x, b. split; [exact Hd|].
  pose proof (@sealed_export_spends_token host_env host_auth host_sealed e b i a w _ _ Hb Hd) as Hs.
  destruct (consume_for_operation _ _ _) as [[c|err] [a1 w2]]; [exact (proj1 Hs)|].
  destruct Hs as [Hs _]. discriminate Hs.
Defined.

(** ** An offer for a root key *)

Definition root_preparation : SealedRootImportPreparation :=
  {| sri_identity := {| ref_store_id := manager_store_id sample_store; ref_identity_id := "identity-1";
                        ref_did := sample_did |};
     sri_evidence := {| lre_transfer_id := "transfer"; lre_source_did := sample_did;
       lre_target_did := sample_did; lre_sender_device_id := "laptop";
       lre_recipient_device_id := "phone"; lre_recipient_agreement_kid := sample_kid "phone-e2ee";
       lre_root_kid := sample_kid "root";
       lre_checkpoint := {| hdc_document_version := 2; hdc_registry_version := 2;
                            hdc_document_digest := "" |}; lre_accepted_at := "t0" |};
     sri_encoding := RootPrivateKeyEncoding.Raw32; sri_request_id := "root-transfer" |}.
Abbreviation root_import_run := (@prepare_root_import host_env host_auth host_sealed DidStore
  sealed_lease root_preparation 60 (sample_store, a0, w1)).
Definition root_identity : ManagedIdentity :=
  {| mi_store_id := manager_store_id sample_store; mi_reference := sri_identity root_preparation |}.

Definition root_import_check (r : result SealedProviderError.t
      (PreparedSealedRootImport * SealedImportOffer) * (DidStore * ProviderAuthorization * World))
    : bool :=
  match r with
  | (Ok (prep, o), (_, a, w)) =>
      redeemable_b a0 a (sio_authorization o) (sio_token o) w
      && bool_decide (is_Some (bits_decode (sio_aad_b64u o)))
  | (Err e, _) => false
  end.
Lemma root_import_check_true r : root_import_check r = true → ∃ prep o s a w aad,
  r = (Ok (prep, o), (s, a, w)) ∧
  @redeemable host_env a0 a (sio_authorization o) (sio_token o) (@time host_env w) ∧
  (N.of_nat (String.length (sio_token o)) ≤ MAX_TOKEN_BYTES)%N ∧
  @b64url_decode host_env (sio_aad_b64u o) = Some aad.
Proof.
  destruct r as [[[prep o]|e] [[s a] w]]; [|discriminate]. unfold root_import_check.
  intros [Hred [aad Haad]%bool_decide_eq_true]%andb_true_iff.
  apply redeemable_b_true in Hred as [Hred Htok]. by exists prep, o, s, a, w, aad.
Qed.
Lemma root_import_ok : root_import_check root_import_run = true.
Proof. vm_compute. reflexivity. Qed.

Lemma sealed_root_import_equiv_witness : ∃ prep o i a w aad a3,
  @complete_root_import host_env host_auth host_sealed prep root_identity (sio_token o)
    (@from_handoff host_env host_sealed
       {| encapped_key := sio_recipient_public_key o; ciphertext := (quote aad +:+ root_raw)%string |})
    (i, a, w)
  = with_engine (@import_legacy_root host_env
      {| lrq_evidence := sri_evidence root_preparation;
         lrq_encoding := RootPrivateKeyEncoding.Raw32; lrq_root_key := root_raw |}) (i, a3, tick w).
Proof.
  destruct (material_check_true _ material_ok) as (_ & _ & _ & _ & _ & _ & _ & i & _).
  destruct (root_import_check_true _ root_import_ok)
    as (prep & o & s & a & w & aad & Hr & Hred & Htok & Haad).
  destruct (@sealed_root_import_equiv host_env host_auth host_sealed host_base64_laws
    host_text_laws host_claims_laws host_recipient_laws host_binding_laws host_handoff_laws
    DidStore _ _ _ _ _ _ _ _ _ chrono_start Hr Htok root_identity i a w 0 aad root_raw _ Hred
    eq_refl Haad eq_refl) as [a3 Heq].
  exists prep, o, i, a, w, aad, a3. exact Heq.
Defined.
