(* ===== verification/NodeHeap.v ===== *)
(** * The runtime of the Node binding (bindings/node/src/lib.rs)

    JavaScript objects of the binding hold [Arc]s to shared cells: a manager, an authority, the
    lease of a consumer, the engine of an identity, sessions, one-time slots.  [Heap] holds the
    cells, and every method of an object is a computation over the heap and the machine.

    An asynchronous method is a [Task]: it is polled, runs until it waits for a blocking
    operation, and is polled again.  Calls of other objects run in between. *)

From stdpp Require Import base strings list gmap.
From S2P Require Import Prelude Json Errors Records Env World Identity Managed DocumentChange.
From S2P Require Import IdentityTransition Store ProviderAuthorization Host SealedHandoff RootTransfer.
From Stdlib Require Import Ascii.

(** ** Errors *)

(** [napi::Error] with the status [GenericFailure]: its reason. *)
Record NapiError := { reason : string }.

Definition js_error (code message : string) : NapiError :=
  {| reason := ("ANP_IDENTITY_CODE:" +:+ code +:+ ":" +:+ message)%string |}.

(** [IdentityError::to_string]. *)
Definition identity_error_text (e : Facade.IdentityError) : string :=
  match e with
  | Facade.InvalidRequest => "the identity request is invalid"
  | Facade.StoreNotFound => "the identity store is not initialized"
  | Facade.ProviderUnavailable => "the configured root-key provider is unavailable"
  | Facade.RootKeyMismatch => "the root key does not match this identity store"
  | Facade.CorruptState => "the identity store contains invalid or damaged state"
  | Facade.IdentityNotFound => "the requested identity does not exist"
  | Facade.IdentityAlreadyExists => "the requested identity already exists"
  | Facade.KeyNotFound => "the requested key does not exist"
  | Facade.KeyUnavailable => "the requested key cannot perform this operation"
  | Facade.KeyPurposeViolation => "the requested key is not authorized for this purpose"
  | Facade.AmbiguousKey => "more than one key matches the request"
  | Facade.VerificationFailed => "signature verification failed"
  | Facade.PendingDocumentChange => "the identity already has a pending document change"
  | Facade.DocumentChangeNotFound => "the pending document change does not exist"
  | Facade.InvalidDocumentChangeState =>
      "the document change is not in a valid state for this operation"
  | Facade.Conflict => "the identity store changed concurrently"
  | Facade.CapabilityUnavailable => "the requested capability is unavailable"
  | Facade.Unsupported => "the operation is not supported"
  | Facade.Storage => "identity storage failed"
  | Facade.Internal => "identity processing failed"
  end.
(** [ProviderAuthorizationError::to_string]. *)
Definition authorization_error_text (e : ProviderAuthorizationError.t) : string :=
  match e with
  | ProviderAuthorizationError.LeaseInvalid => "the provider lease is invalid"
  | ProviderAuthorizationError.CapabilityDenied => "the provider capability is not granted"
  | ProviderAuthorizationError.TokenInvalid => "the one-time authorization is invalid"
  | ProviderAuthorizationError.TokenExpired => "the one-time authorization has expired"
  | ProviderAuthorizationError.TokenConsumed => "the one-time authorization was already consumed"
  | ProviderAuthorizationError.Internal => "provider authorization processing failed"
  end.
(** [SealedProviderError::to_string]. *)
Definition sealed_error_text (e : SealedProviderError.t) : string :=
  match e with
  | SealedProviderError.Authorization => "the provider authorization is invalid"
  | SealedProviderError.IdentityBinding => "the sealed provider request does not match the identity"
  | SealedProviderError.InvalidRequest => "the sealed provider request is invalid"
  | SealedProviderError.Identity => "the identity operation failed"
  | SealedProviderError.EnvelopeInvalid => "the sealed envelope is invalid"
  end.

(** The [match] of [map_error], and [map_error]. *)
Definition identity_error_code (e : Facade.IdentityError) : string :=
  match e with
  | Facade.InvalidRequest => "invalid_request"
  | Facade.StoreNotFound => "store_not_found"
  | Facade.ProviderUnavailable => "provider_unavailable"
  | Facade.RootKeyMismatch => "root_key_mismatch"
  | Facade.CorruptState => "corrupt_state"
  | Facade.IdentityNotFound => "identity_not_found"
  | Facade.IdentityAlreadyExists => "identity_already_exists"
  | Facade.KeyNotFound => "key_not_found"
  | Facade.KeyUnavailable => "key_unavailable"
  | Facade.KeyPurposeViolation => "key_purpose_violation"
  | Facade.AmbiguousKey => "ambiguous_key"
  | Facade.VerificationFailed => "verification_failed"
  | Facade.PendingDocumentChange => "pending_document_change"
  | Facade.DocumentChangeNotFound => "document_change_not_found"
  | Facade.InvalidDocumentChangeState => "invalid_document_change_state"
  | Facade.Conflict => "conflict"
  | Facade.CapabilityUnavailable => "capability_unavailable"
  | Facade.Unsupported => "unsupported_operation"
  | Facade.Storage => "storage"
  | Facade.Internal => "internal"
  end.
Definition map_error (e : Facade.IdentityError) : NapiError :=
  js_error (identity_error_code e) (identity_error_text e).

Definition authorization_error_code (e : ProviderAuthorizationError.t) : string :=
  match e with
  | ProviderAuthorizationError.CapabilityDenied => "capability_denied"
  | ProviderAuthorizationError.LeaseInvalid => "provider_disposed"
  | ProviderAuthorizationError.TokenExpired => "token_expired"
  | ProviderAuthorizationError.TokenConsumed => "token_consumed"
  | ProviderAuthorizationError.TokenInvalid => "token_invalid"
  | ProviderAuthorizationError.Internal => "internal"
  end.
Definition map_authorization_error (e : ProviderAuthorizationError.t) : NapiError :=
  js_error (authorization_error_code e) (authorization_error_text e).

Definition sealed_error_code (e : SealedProviderError.t) : string :=
  match e with
  | SealedProviderError.Authorization => "capability_denied"
  | SealedProviderError.IdentityBinding | SealedProviderError.InvalidRequest => "invalid_request"
  | SealedProviderError.Identity => "identity_unavailable"
  | SealedProviderError.EnvelopeInvalid => "sealed_envelope_invalid"
  end.
Definition map_sealed_error (e : SealedProviderError.t) : NapiError :=
  js_error (sealed_error_code e) (sealed_error_text e).

(** What [call] of the JavaScript wrapper takes from the reason of an error.  Its pattern is the
    prefix, a code of one or more characters without colon, a colon, and the message, which is
    all the rest; the first place where it matches counts. *)
Definition match_code (rest : string) : option (string * string) :=
  match split_once ":"%char rest with
  | Some (code, message) => if is_empty code then None else Some (code, message)
  | None => None
  end.
Fixpoint error_code_match (text : string) : option (string * string) :=
  match strip_prefix "ANP_IDENTITY_CODE:" text ≫= match_code with
  | Some m => Some m
  | None => match text with String _ text => error_code_match text | EmptyString => None end
  end.

(** ** The heap *)

(** An [Arc] to a cell that holds an [A]. *)
Inductive Ref (A : Type) := Loc (address : nat).
Arguments Loc {A} address.
Definition address {A} (r : Ref A) : nat := match r with Loc a => a end.

(** A [DocumentChangeSession] and an [EnrollmentSession] share the engine of their identity. *)
Record SharedEnrollment := {
  she_session : EnrollmentSession;
  she_engine : Ref DidIdentity }.

Inductive Cell :=
  | ManagerCell (s : DidStore)
  | AuthorityCell (a : ProviderAuthorization)
  | LeaseCell (l : option ProviderCapabilityLease)
  | EngineCell (i : DidIdentity)
  | TransitionCell (s : IdentityTransitionSession)
  | EnrollmentCell (e : option SharedEnrollment)
  | RootImportCell (p : option PreparedSealedRootImport)
  | MaterialImportCell (p : option PreparedSealedIdentityMaterialImport)
  | OfferCell (v : option Value)
  | BufferCell (b : string).

Class Stored (A : Type) := {
  into_cell : A → Cell;
  from_cell : Cell → option A;
  from_into a : from_cell (into_cell a) = Some a;
  into_from c a : from_cell c = Some a → c = into_cell a }.

Ltac stored := by intros [] ? [= ->].
#[export] Instance stored_manager : Stored DidStore.
Proof. refine {| into_cell := ManagerCell;
  from_cell c := match c with ManagerCell s => Some s | _ => None end |}; [done|stored]. Defined.
#[export] Instance stored_authority : Stored ProviderAuthorization.
Proof. refine {| into_cell := AuthorityCell;
  from_cell c := match c with AuthorityCell s => Some s | _ => None end |}; [done|stored]. Defined.
#[export] Instance stored_lease : Stored (option ProviderCapabilityLease).
Proof. refine {| into_cell := LeaseCell;
  from_cell c := match c with LeaseCell s => Some s | _ => None end |}; [done|stored]. Defined.
#[export] Instance stored_engine : Stored DidIdentity.
Proof. refine {| into_cell := EngineCell;
  from_cell c := match c with EngineCell s => Some s | _ => None end |}; [done|stored]. Defined.
#[export] Instance stored_transition : Stored IdentityTransitionSession.
Proof. refine {| into_cell := TransitionCell;
  from_cell c := match c with TransitionCell s => Some s | _ => None end |}; [done|stored]. Defined.
#[export] Instance stored_enrollment : Stored (option SharedEnrollment).
Proof. refine {| into_cell := EnrollmentCell;
  from_cell c := match c with EnrollmentCell s => Some s | _ => None end |}; [done|stored]. Defined.
#[export] Instance stored_root_import : Stored (option PreparedSealedRootImport).
Proof. refine {| into_cell := RootImportCell;
  from_cell c := match c with RootImportCell s => Some s | _ => None end |}; [done|stored]. Defined.
#[export] Instance stored_material_import : Stored (option PreparedSealedIdentityMaterialImport).
Proof. refine {| into_cell := MaterialImportCell;
  from_cell c := match c with MaterialImportCell s => Some s | _ => None end |}; [done|stored]. Defined.
#[export] Instance stored_offer : Stored (option Value).
Proof. refine {| into_cell := OfferCell;
  from_cell c := match c with OfferCell s => Some s | _ => None end |}; [done|stored]. Defined.
#[export] Instance stored_buffer : Stored string.
Proof. refine {| into_cell := BufferCell;
  from_cell c := match c with BufferCell s => Some s | _ => None end |}; [done|stored]. Defined.

Abbreviation Heap := (gmap nat Cell).

(** The heap, the platform of the root keys, and the machine. *)
Record Node := { heap : Heap; node_platform : Platform; node_world : World }.

Definition set_heap (h : Heap) (n : Node) : Node :=
  {| heap := h; node_platform := node_platform n; node_world := node_world n |}.
Definition set_world (w : World) (n : Node) : Node :=
  {| heap := heap n; node_platform := node_platform n; node_world := w |}.

(** The content of a cell. *)
Definition content `{Stored A} (h : Heap) (r : Ref A) : option A := h !! address r ≫= from_cell.

(** ** Computations *)

Abbreviation JM := (ST Node NapiError).

(** An [Arc] always points to its cell: objects hold references that [alloc] returned, and cells
    are never removed or given another type.  A read of another reference fails. *)
Definition no_cell : NapiError := js_error "internal" "no cell".
Definition deref `{Stored A} (r : Ref A) : JM A := λ n, (ok_or (content (heap n) r) no_cell, n).
Definition store `{Stored A} (r : Ref A) (a : A) : JM unit := λ n,
  (Ok tt, set_heap (<[address r := into_cell a]> (heap n)) n).
(** [Arc::new]. *)
Definition alloc `{Stored A} (a : A) : JM (Ref A) := λ n,
  let l := fresh (dom (heap n)) in (Ok (Loc l), set_heap (<[l := into_cell a]> (heap n)) n).

(** A closure that gets the content of a locked cell, [FnOnce(&mut S) -> Result<A>]. *)
Definition Op (S A : Type) : Type := ST (S * Node) NapiError A.

(** [operation(&mut cell.lock())]. *)
Definition locked {S A} `{Stored S} (r : Ref S) (operation : Op S A) : JM A :=
  let! s := deref r in λ n,
  let '(x, (s, n)) := operation (s, n) in
  (x, set_heap (<[address r := into_cell s]> (heap n)) n).

(** A facade or host call of the locked object, with [map_err(map_error)]. *)
Definition facade {S A} (m : HM S A) : Op S A := λ x,
  let '(r, (s, w)) := m (x.1, node_world x.2) in (map_err map_error r, (s, set_world w x.2)).
(** A computation that does not use the locked object. *)
Definition outside {S A} (m : JM A) : Op S A := λ x, let (r, n) := m x.2 in (r, (x.1, n)).
(** A call with the authority as an argument, with [map_err(map_sealed_error)]. *)
Definition sealed {S A} (authorization : Ref ProviderAuthorization) (m : XM S A) : Op S A :=
  let! a := outside (deref authorization) in λ x,
  let '(r, (s, a, w)) := m (x.1, a, node_world x.2) in
  let n := set_world w x.2 in
  (map_err map_sealed_error r,
   (s, set_heap (<[address authorization := into_cell a]> (heap n)) n)).
(** A call on an object that only this closure has. *)
Definition owned {T A} (t : T) (operation : Op T A) : JM A := λ n,
  let '(r, (_, n)) := operation (t, n) in (r, n).

(** A call of the authority, with [map_err(map_authorization_error)]. *)
Definition with_authorization {A} (r : Ref ProviderAuthorization) (m : AM A) : JM A :=
  let! a := deref r in λ n,
  let '(x, (a, w)) := m (a, node_world n) in
  let n := set_world w n in
  (map_err map_authorization_error x, set_heap (<[address r := into_cell a]> (heap n)) n).

(** A constructor of the manager, with [map_err(map_error)]. *)
Definition with_platform {A} (m : ST (Platform * World) Facade.IdentityError A) : JM A := λ n,
  let '(r, (p, w)) := m (node_platform n, node_world n) in
  (map_err map_error r, {| heap := heap n; node_platform := p; node_world := w |}).

(** The engines that [get] and [create] return are fresh: a call on one is a call of the manager
    that drops it, or that returns it with the result. *)
Definition scoped {S T A} (t : T) (m : HM T A) : HM S A := λ x,
  let '(r, (_, w)) := m (t, x.2) in (r, (x.1, w)).
Definition scoped_keep {S T A} (t : T) (m : HM T A) : HM S (A * T) := λ x,
  let '(r, (t, w)) := m (t, x.2) in
  (match r with Ok a => Ok (a, t) | Err e => Err e end, (x.1, w)).
(** A facade call through [&self], and one through [&mut self]. *)
Definition asks_facade {S A} (f : S → ST World Facade.IdentityError A) : HM S A := λ x,
  let (r, w) := f x.1 x.2 in (r, (x.1, w)).
Definition calls_facade {S A} (f : S → ST World Facade.IdentityError (S * A)) : HM S A := λ x,
  match f x.1 x.2 with
  | (Ok (s, a), w) => (Ok a, (s, w))
  | (Err e, w) => (Err e, (x.1, w))
  end.

(** ** Asynchronous methods *)

(** A poll runs the task up to its next wait: it yields a result or the rest of the task. *)
Inductive Task (A : Type) := Poll (resume : Node → (result NapiError A + Task A) * Node).
Arguments Poll {A} resume.
Definition resume {A} (t : Task A) : Node → (result NapiError A + Task A) * Node :=
  match t with Poll f => f end.

(** Code without a wait. *)
Definition sync {A} (m : JM A) : Task A := Poll (λ n, let (r, n) := m n in (inl r, n)).
Fixpoint tbind {A B} (t : Task A) (k : A → Task B) : Task B :=
  match t with
  | Poll f => Poll (λ n,
      match f n with
      | (inl (Ok a), n) => resume (k a) n
      | (inl (Err e), n) => (inl (Err e), n)
      | (inr t, n) => (inr (tbind t k), n)
      end)
  end.
(** [run_blocking(operation).await]: the task waits until a thread has run the operation, and is
    polled again when it has.  A thread of the pool runs every operation to its end. *)
Definition run_blocking {A} (operation : JM A) : Task A :=
  Poll (λ n, (inr (Poll (λ n, let (r, n) := operation n in (inr (sync (lift r)), n))), n)).

Notation "'let*' x := t 'in' k" := (tbind t (λ x, k))
  (at level 10, x pattern, t at level 100, k at level 200) : anp_scope.
Notation "'do*' t ; k" := (tbind t (λ _, k))
  (at level 10, t at level 100, k at level 200) : anp_scope.

(** A call that is awaited with nothing else running. *)
Fixpoint await {A} (t : Task A) : JM A :=
  match t with
  | Poll f => λ n, match f n with
                   | (inl r, n) => (r, n)
                   | (inr t, n) => await t n
                   end
  end.

(** ** Requests and replies as JSON

    [serde_json::from_value] at the types with [derive(Deserialize)], and [serde_json::to_value]
    at the types with [derive(Serialize)]. *)

Class Serde := {
  de_create_request : Value → option CreateIdentityRequest;
  de_transition_request : Value → option IdentityTransitionRequest;
  de_change_request : Value → option (list DocumentChange.t);
  de_attempt : Value → option PublicationAttempt;
  de_publication_result : Value → option PublicationResult.t;
  de_remote_document : Value → option VerifiedRemoteDocument;
  de_transition_attempt : Value → option IdentityTransitionPublicationAttempt;
  de_transition_result : Value → option TransitionResult.t;
  de_observation : Value → option RemoteObservation.t;
  de_object_proof : Value → option ObjectProofRequest;
  de_document_proof : Value → option DocumentProofRequest;
  de_device_enrollment : Value → option DeviceEnrollmentRequest;
  de_request_signing_enrollment : Value → option RequestSigningEnrollmentRequest;
  de_wrapped_root : Value → option WrappedRootEnvelope;
  de_root_promotion : Value → option RootPromotionRequest;
  de_pending_root_proof : Value → option PendingRootObjectProofRequest;
  de_root_evidence : Value → option LegacyRootImportEvidence;
  de_material_keys : Value → option (list SealedIdentityMaterialKeySpec);
  de_envelope : Value → option SealedSecretEnvelope;
  de_envelopes : Value → option (list SealedSecretEnvelope);
  ser_store_info : StoreInfo → option Value;
  ser_descriptors : list IdentityDescriptor → option Value;
  ser_recovery_report : RecoveryReport → option Value;
  ser_public_identity : PublicIdentity → option Value;
  ser_origin_proof : SignedOriginProof → option Value;
  ser_change_candidate : PreparedDocumentChange → option Value;
  ser_change_attempt : PublicationAttempt → option Value;
  ser_change_outcome : DocumentChangeOutcome.t → option Value;
  ser_change_phase : HostDocumentChangePhase.t → option Value;
  ser_transition_candidate : PreparedIdentityTransition → option Value;
  ser_transition_attempt : IdentityTransitionPublicationAttempt → option Value;
  ser_transition_outcome : TransitionOutcome.t → option Value;
  ser_host_status : IdentityHostStatus → option Value;
  ser_http_signature : PreparedHttpSignatureAttempt → option Value;
  ser_convergence : ConvergenceOutcome.t → option Value;
  ser_delivery : SealedSecretDelivery → option Value;
  ser_proposal : EnrollmentProposal → option Value;
  ser_authorization_context : IssuedAuthorizationContext → option Value }.

Definition invalid_json : NapiError := js_error "invalid_request" "request shape is invalid".
(** [serde_json::from_value(value).map_err(invalid_json)]. *)
Definition from_value {A} (de : Value → option A) (v : Value) : result NapiError A :=
  ok_or (de v) invalid_json.
Definition to_value {A} (ser : A → option Value) (a : A) : result NapiError Value :=
  ok_or (ser a) (js_error "internal" "response serialization failed").
