(* ===== verification/Node.v ===== *)
(** * The Node binding (bindings/node/src/lib.rs)

    The classes a JavaScript host gets: [IdentityManager] and its sessions without any guard, and
    [IdentityProvider], whose leases and the sessions made through a lease ask the authority
    before every operation.  A [Buffer] that is only read is its bytes; the buffer of an
    injected root key is a cell, since the binding overwrites it. *)

From stdpp Require Import base strings list gmap.
From S2P Require Import Prelude Json Errors Records Env World Identity Managed DocumentChange.
From S2P Require Import IdentityTransition Store ProviderAuthorization Host SealedHandoff RootTransfer.
From S2P Require Import NodeHeap.
From Stdlib Require Import Ascii.

(** ** Arguments *)

Record JsIdentityManagerConfig := {
  jc_state_root : string;
  jc_root_key_kind : string;
  jc_key_id : option string;
  jc_environment_variable : option string;
  jc_root_key : option (Ref string);
  jc_service : option string;
  jc_account : option string;
  jc_fallback_to_local_file : option bool }.
Record JsIdentityRef := { jr_store_id : string; jr_identity_id : string; jr_did : string }.
Record JsSignRequest := {
  jsr_purpose : string;
  jsr_domain : option string;
  jsr_kid : option string;
  jsr_payload : string }.
Record JsSignature := { js_kid : string; js_algorithm : string; js_bytes : string }.
Record JsVerifyRequest := {
  jv_purpose : string;
  jv_domain : option string;
  jv_kid : string;
  jv_payload : string;
  jv_signature : string }.
Record JsOriginProofOptions := {
  jo_created : option Z;
  jo_expires : option Z;
  jo_nonce : option string }.
Record JsOriginProofRequest := {
  jop_method : string;
  jop_meta : Value;
  jop_body : Value;
  jop_kid : option string;
  jop_options : option JsOriginProofOptions }.
Record JsProviderLeaseRequest := {
  jlr_consumer : string;
  jlr_capabilities : list string;
  jlr_ttl_seconds : Z }.
Record JsHttpHeader := { jh_name : string; jh_value : string }.
Record JsExactHttpSigningRequest := {
  jx_identity : JsIdentityRef;
  jx_kid : option string;
  jx_url : string;
  jx_method : string;
  jx_headers : list JsHttpHeader;
  jx_body : option string;
  jx_nonce : option string;
  jx_created : option Z;
  jx_expires : option Z;
  jx_covered_components : option (list string) }.
Record JsSealedKeyAgreementRequest := {
  jka_identity : JsIdentityRef;
  jka_kid : string;
  jka_peer_public : string;
  jka_recipient_public_key : string;
  jka_request_id : string }.
Record JsSealedEnrollmentKeyAgreementRequest := {
  jea_peer_public : string;
  jea_recipient_public_key : string;
  jea_request_id : string }.
Record JsSealedRootExportRequest := {
  jre_identity : JsIdentityRef;
  jre_kid : string;
  jre_recipient_public_key : string;
  jre_request_id : string;
  jre_user_presence_confirmed : bool }.
Record JsSealedRootImportPreparation := {
  jri_identity : JsIdentityRef;
  jri_evidence : Value;
  jri_encoding : string;
  jri_request_id : string }.
Record JsSealedIdentityImportPreparation := {
  jii_remote : Value;
  jii_did_wba : bool;
  jii_keys : Value;
  jii_request_id : string }.

(** ** Objects *)

Record JsIdentityManager := { jm_inner : Ref DidStore }.
Record JsManagedIdentity := { ji_identity : ManagedIdentity; ji_engine : Ref DidIdentity }.
Record JsDocumentChangeSession := {
  jd_session : DocumentChangeSession;
  jd_engine : Ref DidIdentity }.
Record JsIdentityTransitionSession := { jt_inner : Ref IdentityTransitionSession }.
Record JsIdentityProvider := {
  jp_manager : Ref DidStore;
  jp_authorization : Ref ProviderAuthorization;
  jp_store_id : string }.
Record JsProviderLease := {
  jl_manager : Ref DidStore;
  jl_authorization : Ref ProviderAuthorization;
  jl_lease : Ref (option ProviderCapabilityLease) }.
Record JsProviderDocumentChangeSession := {
  jpd_session : DocumentChangeSession;
  jpd_engine : Ref DidIdentity;
  jpd_authorization : Ref ProviderAuthorization;
  jpd_lease : Ref (option ProviderCapabilityLease) }.
Record JsProviderIdentityTransitionSession := {
  jpt_inner : Ref IdentityTransitionSession;
  jpt_authorization : Ref ProviderAuthorization;
  jpt_lease : Ref (option ProviderCapabilityLease) }.
Record JsProviderEnrollmentSession := {
  jpe_inner : Ref (option SharedEnrollment);
  jpe_manager : Ref DidStore;
  jpe_authorization : Ref ProviderAuthorization;
  jpe_lease : Ref (option ProviderCapabilityLease) }.
Record JsPreparedRootImport := {
  jpr_manager : Ref DidStore;
  jpr_authorization : Ref ProviderAuthorization;
  jpr_identity : IdentityRef;
  jpr_prepared : Ref (option PreparedSealedRootImport);
  jpr_offer : Ref (option Value) }.
Record JsPreparedIdentityMaterialImport := {
  jpm_manager : Ref DidStore;
  jpm_authorization : Ref ProviderAuthorization;
  jpm_prepared : Ref (option PreparedSealedIdentityMaterialImport);
  jpm_offer : Ref (option Value) }.

(** ** Conversions *)

(** [impl From<JsIdentityRef> for IdentityRef] and back. *)
Definition identity_ref_of (r : JsIdentityRef) : IdentityRef :=
  {| ref_store_id := jr_store_id r; ref_identity_id := jr_identity_id r; ref_did := jr_did r |}.
Definition js_identity_ref (r : IdentityRef) : JsIdentityRef :=
  {| jr_store_id := ref_store_id r; jr_identity_id := ref_identity_id r; jr_did := ref_did r |}.

Definition required {A} (value : option A) (field : string) : result NapiError A :=
  ok_or value (js_error "invalid_request" (field +:+ " is required")).

Definition signing_purpose (purpose : string) (domain : option string)
    : result NapiError SigningPurpose.t :=
  if bool_decide (purpose = "authentication") then Ok SigningPurpose.Authentication
  else if bool_decide (purpose = "device_assertion") then Ok SigningPurpose.DeviceAssertion
  else if bool_decide (purpose = "application_assertion") then
    let? d := required domain "domain" in Ok (SigningPurpose.ApplicationAssertion d)
  else Err (js_error "invalid_request" "unknown signing purpose").

Definition key_selector (kid : option string) : KeySelector.t :=
  match kid with Some k => KeySelector.Kid k | None => KeySelector.Default end.
Definition key_algorithm (a : KeyAlgorithm.t) : string :=
  match a with KeyAlgorithm.Ed25519 => "ed25519" | KeyAlgorithm.X25519 => "x25519" end.
Definition verification_text (o : VerificationOutcome.t) : string :=
  match o with VerificationOutcome.Valid => "valid" | VerificationOutcome.Invalid => "invalid" end.
Definition js_signature (s : Signature) : JsSignature :=
  {| js_kid := sig_kid s; js_algorithm := key_algorithm (sig_algorithm s);
     js_bytes := sig_bytes s |}.

Definition fixed_public_key (buffer field : string) : result NapiError string :=
  if bool_decide (String.length buffer = 32) then Ok buffer
  else Err (js_error "invalid_request" (field +:+ " must contain 32 bytes")).

Definition sign_request (q : JsSignRequest) : result NapiError SignRequest :=
  let? purpose := signing_purpose (jsr_purpose q) (jsr_domain q) in
  Ok {| sq_purpose := purpose; sq_key := key_selector (jsr_kid q); sq_payload := jsr_payload q |}.
Definition verify_request (q : JsVerifyRequest) : result NapiError VerifyRequest :=
  let? purpose := signing_purpose (jv_purpose q) (jv_domain q) in
  Ok {| vq_purpose := purpose; vq_kid := jv_kid q; vq_payload := jv_payload q;
        vq_signature := jv_signature q |}.
Definition origin_proof_request (q : JsOriginProofRequest) : OriginProofRequest :=
  let options := default {| jo_created := None; jo_expires := None; jo_nonce := None |}
                   (jop_options q) in
  {| opr_method := jop_method q; opr_meta := jop_meta q; opr_body := jop_body q;
     opr_key := key_selector (jop_kid q);
     opr_options := {| opo_created := jo_created options; opo_expires := jo_expires options;
                       opo_nonce := jo_nonce options |} |}.
Definition exact_http_request (q : JsExactHttpSigningRequest) : ExactHttpRequest :=
  {| ehr_key := key_selector (jx_kid q); ehr_url := jx_url q; ehr_method := jx_method q;
     ehr_headers := map (λ h, {| hh_name := jh_name h; hh_value := jh_value h |}) (jx_headers q);
     ehr_body := jx_body q;
     ehr_options := {| hro_nonce := jx_nonce q; hro_created := jx_created q;
                       hro_expires := jx_expires q;
                       hro_covered_components := jx_covered_components q |} |}.
Definition root_encoding (encoding : string) : result NapiError RootPrivateKeyEncoding.t :=
  if bool_decide (encoding = "raw32") then Ok RootPrivateKeyEncoding.Raw32
  else if bool_decide (encoding = "pkcs8_der") then Ok RootPrivateKeyEncoding.Pkcs8Der
  else Err (js_error "invalid_request" "unknown root key encoding").

(** ** Configuration *)

(** [Zeroize] of a byte slice. *)
Fixpoint zeros (n : nat) : string :=
  match n with 0 => EmptyString | S n => String "000" (zeros n) end.
Definition zeroize (buffer : Ref string) : JM unit :=
  let! b := deref buffer in store buffer (zeros (String.length b)).

Definition consume_root_key (buffer : Ref string) : JM string :=
  let! b := deref buffer in
  if negb (bool_decide (String.length b = 32)) then
    do! zeroize buffer;
    fail (js_error "invalid_request" "root key must contain exactly 32 bytes")
  else
    do! zeroize buffer;
    ret b.

Definition manager_config (c : JsIdentityManagerConfig) : JM (string * RootKeySource) :=
  let kind := jc_root_key_kind c in
  let! source :=
    if bool_decide (kind = "injected") then
      let! key_id := lift (required (jc_key_id c) "keyId") in
      let! buffer := lift (required (jc_root_key c) "rootKey") in
      let! key := consume_root_key buffer in
      ret (InjectedKey key_id key)
    else if bool_decide (kind = "environment") then
      let! key_id := lift (required (jc_key_id c) "keyId") in
      let! variable := lift (required (jc_environment_variable c) "environmentVariable") in
      ret (Environment key_id variable)
    else if bool_decide (kind = "local_private_file") then ret LocalPrivateFile
    else if bool_decide (kind = "keyring") then
      let! service := lift (required (jc_service c) "service") in
      let! account := lift (required (jc_account c) "account") in
      ret (Keyring service account (default false (jc_fallback_to_local_file c)))
    else fail (js_error "invalid_request" "unknown root key provider") in
  ret (jc_state_root c, source).

(** ** One-time slots *)

(** [slot.lock()?.take().ok_or_else(...)]. *)
Definition take_slot {A} `{Stored (option A)} (slot : Ref (option A)) (e : NapiError) : JM A :=
  let! v := deref slot in
  do! store slot None;
  lift (ok_or v e).
Definition take_once {A} `{Stored (option A)} (slot : Ref (option A)) (message : string) : JM A :=
  take_slot slot (js_error "token_consumed" message).

(** ** Offers *)

(** A fixed-size byte array as JSON. *)
Fixpoint byte_values (s : string) : list Value :=
  match s with
  | EmptyString => []
  | String a s => Number (PosInt (N.of_nat (nat_of_ascii a))) :: byte_values s
  end.
(** [derive(Serialize)] of [IdentityRef]. *)
Definition identity_ref_value (r : IdentityRef) : Value :=
  json_object [("store_id", Str (ref_store_id r)); ("identity_id", Str (ref_identity_id r));
               ("did", Str (ref_did r))].

Section Node.
Context `{Env, AuthEnv, SealedEnv, Serde}.

Definition root_import_offer (o : SealedImportOffer) : result NapiError Value :=
  let? authorization := to_value ser_authorization_context (sio_authorization o) in
  Ok (json_object [("recipient_public_key", Array (byte_values (sio_recipient_public_key o)));
    ("request_id", Str (sio_request_id o)); ("token", Str (sio_token o));
    ("authorization", authorization); ("aad_b64u", Str (sio_aad_b64u o))]).
Definition identity_import_offer (o : SealedIdentityMaterialImportOffer) : result NapiError Value :=
  let? authorization := to_value ser_authorization_context (smo_authorization o) in
  Ok (json_object [("target", identity_ref_value (smo_target o));
    ("recipient_public_key", Array (byte_values (smo_recipient_public_key o)));
    ("request_id", Str (smo_request_id o)); ("token", Str (smo_token o));
    ("authorization", authorization);
    ("item_aad_b64u", Array (map Str (smo_item_aad_b64u o)))]).

(** A call whose result is serialized: [to_value(call.map_err(map_error)?)]. *)
Definition value_of {S A} (ser : A → option Value) (m : HM S A) : Op S Value :=
  let! a := facade m in lift (to_value ser a).

(** [session.map(|session| ...)]. *)
Definition map_session {W A B} (f : A → ST W NapiError B) (s : option A)
    : ST W NapiError (option B) :=
  match s with Some s => let! b := f s in ret (Some b) | None => ret None end.

(** ** [IdentityManager] *)

Definition new_manager (s : DidStore) : JM JsIdentityManager :=
  let! r := alloc s in ret {| jm_inner := r |}.
Definition new_identity {S} (p : ManagedIdentity * DidIdentity) : Op S JsManagedIdentity :=
  outside (let! r := alloc p.2 in ret {| ji_identity := p.1; ji_engine := r |}).
Definition new_transition_session {S} (s : IdentityTransitionSession)
    : Op S JsIdentityTransitionSession :=
  outside (let! r := alloc s in ret {| jt_inner := r |}).

Definition with_manager {A} (self : JsIdentityManager) (operation : Op DidStore A) : Task A :=
  run_blocking (locked (jm_inner self) operation).

Definition manager_js_initialize (c : JsIdentityManagerConfig) : Task JsIdentityManager :=
  let* config := sync (manager_config c) in
  let* m := run_blocking (with_platform (manager_initialize config.1 config.2)) in
  sync (new_manager m).
Definition manager_js_open (c : JsIdentityManagerConfig) : Task JsIdentityManager :=
  let* config := sync (manager_config c) in
  let* m := run_blocking (with_platform (manager_open config.1 config.2)) in
  sync (new_manager m).
Definition manager_js_info (self : JsIdentityManager) : Task Value :=
  with_manager self (value_of ser_store_info manager_info).
Definition manager_js_list (self : JsIdentityManager) : Task Value :=
  with_manager self (value_of ser_descriptors manager_list).
Definition manager_js_create (self : JsIdentityManager) (request : Value)
    : Task JsManagedIdentity :=
  let* q := sync (lift (from_value de_create_request request)) in
  with_manager self (let! p := facade (manager_create q) in new_identity p).
Definition manager_js_get (self : JsIdentityManager) (identity : JsIdentityRef)
    : Task JsManagedIdentity :=
  with_manager self (let! p := facade (manager_get (identity_ref_of identity)) in new_identity p).
Definition manager_js_delete (self : JsIdentityManager) (identity : JsIdentityRef) : Task unit :=
  with_manager self (facade (manager_delete (identity_ref_of identity)
                               {| discard_pending_changes := false |})).
Definition manager_js_recover (self : JsIdentityManager) : Task Value :=
  with_manager self (value_of ser_recovery_report manager_recover).
Definition manager_js_prepare_identity_transition (self : JsIdentityManager) (request : Value)
    : Task JsIdentityTransitionSession :=
  let* q := sync (lift (from_value de_transition_request request)) in
  with_manager self
    (let! s := facade (asks_facade (λ m, prepare_identity_transition m q)) in
     new_transition_session s).
Definition manager_js_resume_identity_transition (self : JsIdentityManager) (did : string)
    : Task (option JsIdentityTransitionSession) :=
  with_manager self
    (let! s := facade (resume_identity_transition did) in
     map_session new_transition_session s).

(** ** [ManagedIdentity] *)

Definition with_identity {A} (self : JsManagedIdentity) (operation : Op DidIdentity A) : Task A :=
  run_blocking (locked (ji_engine self) operation).

Definition identity_js_reference (self : JsManagedIdentity) : Task JsIdentityRef :=
  with_identity self (ret (js_identity_ref (mi_reference (ji_identity self)))).
Definition identity_js_public_identity (self : JsManagedIdentity) : Task Value :=
  with_identity self (value_of ser_public_identity (public_identity (ji_identity self))).
Definition identity_js_sign (self : JsManagedIdentity) (request : JsSignRequest)
    : Task JsSignature :=
  let* q := sync (lift (sign_request request)) in
  with_identity self (let! s := facade (managed_sign q) in ret (js_signature s)).
Definition identity_js_verify (self : JsManagedIdentity) (request : JsVerifyRequest)
    : Task string :=
  let* q := sync (lift (verify_request request)) in
  with_identity self (let! o := facade (managed_verify q) in ret (verification_text o)).
Definition identity_js_sign_origin_proof (self : JsManagedIdentity)
    (request : JsOriginProofRequest) : Task Value :=
  with_identity self
    (value_of ser_origin_proof (managed_sign_origin_proof (origin_proof_request request))).
Definition identity_js_prepare_document_change (self : JsManagedIdentity) (request : Value)
    : Task JsDocumentChangeSession :=
  let* q := sync (lift (from_value de_change_request request)) in
  with_identity self
    (let! s := facade (prepare_document_change (ji_identity self) q) in
     ret {| jd_session := s; jd_engine := ji_engine self |}).
Definition identity_js_resume_document_change (self : JsManagedIdentity)
    : Task (option JsDocumentChangeSession) :=
  with_identity self
    (let! s := facade (resume_document_change (ji_identity self)) in
     ret ((λ s, {| jd_session := s; jd_engine := ji_engine self |}) <$> s)).

(** ** [DocumentChangeSession]: the methods, over the engine of the session *)

Definition change_candidate (s : DocumentChangeSession) : Op DidIdentity Value :=
  lift (to_value ser_change_candidate (candidate s)).
Definition change_begin (s : DocumentChangeSession) : Op DidIdentity Value :=
  value_of ser_change_attempt (session_begin s).
Definition change_complete (s : DocumentChangeSession) (a : PublicationAttempt)
    (r : PublicationResult.t) : Op DidIdentity Value :=
  value_of ser_change_outcome (session_complete s a r).
Definition change_reconcile (s : DocumentChangeSession) (o : VerifiedRemoteDocument)
    : Op DidIdentity Value :=
  value_of ser_change_outcome (session_reconcile s o).
Definition change_reconcile_rejected (s : DocumentChangeSession) (o : VerifiedRemoteDocument)
    : Op DidIdentity Value :=
  value_of ser_change_outcome (session_reconcile_rejected s o).

Definition with_session {A} (self : JsDocumentChangeSession) (operation : Op DidIdentity A)
    : Task A :=
  run_blocking (locked (jd_engine self) operation).

Definition change_js_candidate (self : JsDocumentChangeSession) : Task Value :=
  with_session self (change_candidate (jd_session self)).
Definition change_js_begin_publication (self : JsDocumentChangeSession) : Task Value :=
  with_session self (change_begin (jd_session self)).
Definition change_js_complete (self : JsDocumentChangeSession) (attempt result : Value)
    : Task Value :=
  let* a := sync (lift (from_value de_attempt attempt)) in
  let* r := sync (lift (from_value de_publication_result result)) in
  with_session self (change_complete (jd_session self) a r).
Definition change_js_reconcile (self : JsDocumentChangeSession) (observation : Value)
    : Task Value :=
  let* o := sync (lift (from_value de_remote_document observation)) in
  with_session self (change_reconcile (jd_session self) o).
Definition change_js_reconcile_rejected (self : JsDocumentChangeSession) (observation : Value)
    : Task Value :=
  let* o := sync (lift (from_value de_remote_document observation)) in
  with_session self (change_reconcile_rejected (jd_session self) o).

(** ** [IdentityTransitionSession] *)

Definition transition_op_candidate : Op IdentityTransitionSession Value :=
  let! s := facade this in lift (to_value ser_transition_candidate (its_candidate s)).
Definition transition_op_begin : Op IdentityTransitionSession Value :=
  value_of ser_transition_attempt (calls_facade transition_begin).
Definition transition_op_complete (a : IdentityTransitionPublicationAttempt)
    (r : TransitionResult.t) : Op IdentityTransitionSession Value :=
  value_of ser_transition_outcome (calls_facade (λ s, transition_complete s a r)).
Definition transition_op_reconcile (o : RemoteObservation.t) : Op IdentityTransitionSession Value :=
  value_of ser_transition_outcome (calls_facade (λ s, transition_reconcile s o)).

Definition with_transition {A} (self : JsIdentityTransitionSession)
    (operation : Op IdentityTransitionSession A) : Task A :=
  run_blocking (locked (jt_inner self) operation).

Definition transition_js_candidate (self : JsIdentityTransitionSession) : Task Value :=
  with_transition self transition_op_candidate.
Definition transition_js_begin_publication (self : JsIdentityTransitionSession) : Task Value :=
  with_transition self transition_op_begin.
Definition transition_js_complete (self : JsIdentityTransitionSession) (attempt result : Value)
    : Task Value :=
  let* a := sync (lift (from_value de_transition_attempt attempt)) in
  let* r := sync (lift (from_value de_transition_result result)) in
  with_transition self (transition_op_complete a r).
Definition transition_js_reconcile (self : JsIdentityTransitionSession) (observation : Value)
    : Task Value :=
  let* o := sync (lift (from_value de_observation observation)) in
  with_transition self (transition_op_reconcile o).

(** ** [IdentityProvider] *)

Definition new_provider (p : DidStore * string) : JM JsIdentityProvider :=
  let! manager := alloc p.1 in
  let! a := λ n, let (r, w) := new_authority (node_world n) in
                 (map_err (λ e, map_error (Facade.from_did_error e)) r, set_world w n) in
  let! authorization := alloc a in
  ret {| jp_manager := manager; jp_authorization := authorization; jp_store_id := p.2 |}.

(** [let store_id = manager.info()?.store_id]. *)
Definition manager_and_store_id (m : DidStore) : JM (DidStore * string) :=
  λ n, let '(r, (m, n)) := facade manager_info (m, n) in
       (match r with Ok info => Ok (m, si_store_id info) | Err e => Err e end, n).

Definition provider_js_initialize (c : JsIdentityManagerConfig) : Task JsIdentityProvider :=
  let* config := sync (manager_config c) in
  let* p := run_blocking (let! m := with_platform (manager_initialize config.1 config.2) in
                          manager_and_store_id m) in
  sync (new_provider p).
Definition provider_js_open (c : JsIdentityManagerConfig) : Task JsIdentityProvider :=
  let* config := sync (manager_config c) in
  let* p := run_blocking (let! m := with_platform (manager_open config.1 config.2) in
                          manager_and_store_id m) in
  sync (new_provider p).

Definition provider_js_acquire_lease (self : JsIdentityProvider) (q : JsProviderLeaseRequest)
    : JM JsProviderLease :=
  let! lease := with_authorization (jp_authorization self)
    (acquire_lease (jlr_consumer q) (jlr_capabilities q) (jp_store_id self) (jlr_ttl_seconds q)) in
  let! slot := alloc (Some lease) in
  ret {| jl_manager := jp_manager self; jl_authorization := jp_authorization self;
         jl_lease := slot |}.
End Node.
