(* ===== verification/NodeProvider.v ===== *)
(** * Leases of the Node binding (bindings/node/src/lib.rs)

    [ProviderLease] and the objects made through a lease.  A lease and its sessions share one
    slot that holds the lease until [dispose] takes it: an operation first asks the authority
    with the lease in the slot, and a high-risk operation also gets a one-time token for
    exactly its request. *)

From stdpp Require Import base strings list gmap.
From S2P Require Import Prelude Json Errors Records Env World Identity Managed DocumentChange.
From S2P Require Import IdentityTransition Store ProviderAuthorization Host SealedHandoff RootTransfer.
From S2P Require Import NodeHeap Node.

Definition provider_disposed : NapiError :=
  js_error "provider_disposed" "provider lease is disposed".
Definition session_consumed : NapiError :=
  js_error "invalid_state" "enrollment session was already consumed".

(** The lease of a slot: [lease.lock()?.as_ref().ok_or_else(...)]. *)
Definition lease_in (slot : Ref (option ProviderCapabilityLease)) : JM ProviderCapabilityLease :=
  let! l := deref slot in lift (ok_or l provider_disposed).

(** A call on the engine of an identity that [get] returns. *)
Definition get_and_then `{Env} {A} (reference : IdentityRef)
    (f : ManagedIdentity → HM DidIdentity A) : HM DidStore A :=
  let! p := manager_get reference in scoped p.2 (f p.1).

Section Provider.
Context `{Env, AuthEnv, SealedEnv, Serde}.

(** ** Authorization *)

Definition authorize_provider_lease (authorization : Ref ProviderAuthorization)
    (slot : Ref (option ProviderCapabilityLease)) (capability : string) : JM unit :=
  let! lease := lease_in slot in
  with_authorization authorization (authorize lease capability).
Definition issue_provider_one_time (authorization : Ref ProviderAuthorization)
    (slot : Ref (option ProviderCapabilityLease)) (b : OneTimeOperationBinding)
    : JM OneTimeCapabilityToken :=
  let! lease := lease_in slot in
  with_authorization authorization (issue_one_time lease b 60).

Definition with_lease {A} (self : JsProviderLease) (operation : ProviderCapabilityLease → JM A)
    : JM A :=
  let! lease := lease_in (jl_lease self) in operation lease.
Definition lease_issue_one_time (self : JsProviderLease) (b : OneTimeOperationBinding)
    : JM OneTimeCapabilityToken :=
  with_lease self (λ lease, with_authorization (jl_authorization self) (issue_one_time lease b 60)).
Definition lease_with_manager {A} (self : JsProviderLease) (operation : Op DidStore A) : Task A :=
  run_blocking (locked (jl_manager self) operation).
Definition with_authorized {A} (self : JsProviderLease) (capability : string)
    (operation : Op DidStore A) : Task A :=
  do* sync (with_lease self (λ lease,
        with_authorization (jl_authorization self) (authorize lease capability)));
  lease_with_manager self operation.

Definition lease_dispose (self : JsProviderLease) : JM unit :=
  let! lease := take_slot (jl_lease self) provider_disposed in
  with_authorization (jl_authorization self) (dispose_lease lease).

(** ** Reading *)

Definition lease_info (self : JsProviderLease) : Task Value :=
  with_authorized self capability.IDENTITY_READ (value_of ser_store_info manager_info).
Definition lease_recover (self : JsProviderLease) : Task Value :=
  with_authorized self capability.IDENTITY_READ (value_of ser_recovery_report manager_recover).
Definition lease_list (self : JsProviderLease) : Task Value :=
  with_authorized self capability.IDENTITY_READ (value_of ser_descriptors manager_list).
Definition lease_public_identity (self : JsProviderLease) (identity : JsIdentityRef) : Task Value :=
  with_authorized self capability.IDENTITY_READ
    (value_of ser_public_identity (get_and_then (identity_ref_of identity) public_identity)).
Definition lease_host_status (self : JsProviderLease) (identity : JsIdentityRef) : Task Value :=
  with_authorized self capability.IDENTITY_READ
    (value_of ser_host_status (get_and_then (identity_ref_of identity) (λ _, host_status))).
Definition lease_recover_identity (self : JsProviderLease) (identity : JsIdentityRef) : Task unit :=
  with_authorized self capability.IDENTITY_READ
    (facade (get_and_then (identity_ref_of identity) (λ _, recover_identity))).
Definition lease_verify (self : JsProviderLease) (identity : JsIdentityRef)
    (request : JsVerifyRequest) : Task string :=
  let* q := sync (lift (verify_request request)) in
  with_authorized self capability.IDENTITY_READ
    (let! o := facade (get_and_then (identity_ref_of identity) (λ _, managed_verify q)) in
     ret (verification_text o)).

(** ** Creation and deletion *)

Definition lease_create (self : JsProviderLease) (request : Value) : Task Value :=
  let* q := sync (lift (from_value de_create_request request)) in
  with_authorized self capability.IDENTITY_CREATE
    (let! p := facade (manager_create q) in
     value_of ser_public_identity (scoped p.2 (public_identity p.1))).
Definition lease_delete (self : JsProviderLease) (identity : JsIdentityRef) : Task unit :=
  with_authorized self capability.IDENTITY_DELETE
    (facade (manager_delete (identity_ref_of identity) {| discard_pending_changes := true |})).

(** ** Signatures *)

Definition lease_sign (self : JsProviderLease) (identity : JsIdentityRef)
    (request : JsSignRequest) : Task JsSignature :=
  let* q := sync (lift (sign_request request)) in
  with_authorized self capability.IDENTITY_SIGN
    (let! s := facade (get_and_then (identity_ref_of identity) (λ _, managed_sign q)) in
     ret (js_signature s)).
Definition lease_sign_origin_proof (self : JsProviderLease) (identity : JsIdentityRef)
    (request : JsOriginProofRequest) : Task Value :=
  with_authorized self capability.IDENTITY_SIGN
    (value_of ser_origin_proof (get_and_then (identity_ref_of identity)
       (λ _, managed_sign_origin_proof (origin_proof_request request)))).
Definition lease_sign_object_proof (self : JsProviderLease) (identity : JsIdentityRef)
    (request : Value) : Task Value :=
  let* q := sync (lift (from_value de_object_proof request)) in
  with_authorized self capability.IDENTITY_SIGN
    (value_of Some (get_and_then (identity_ref_of identity) (λ _, host_sign_object_proof q))).
Definition lease_sign_document_proof (self : JsProviderLease) (identity : JsIdentityRef)
    (request : Value) : Task Value :=
  let* q := sync (lift (from_value de_document_proof request)) in
  with_authorized self capability.IDENTITY_SIGN
    (value_of Some (get_and_then (identity_ref_of identity) (λ _, host_sign_document_proof q))).
Definition lease_prepare_http_signature (self : JsProviderLease)
    (request : JsExactHttpSigningRequest) : Task Value :=
  with_authorized self capability.IDENTITY_HTTP_SIGNATURE
    (value_of ser_http_signature (get_and_then (identity_ref_of (jx_identity request))
       (λ _, prepare_http_signature (exact_http_request request)))).
Definition lease_prepare_legacy_did_wba (self : JsProviderLease) (identity : JsIdentityRef)
    (kid : option string) (service_domain version : string) : Task string :=
  with_authorized self capability.IDENTITY_HTTP_SIGNATURE
    (facade (get_and_then (identity_ref_of identity)
       (λ _, prepare_legacy_did_wba (key_selector kid) service_domain version))).

(** ** Sessions *)

Definition new_provider_change (self : JsProviderLease) (s : DocumentChangeSession * DidIdentity)
    : JM JsProviderDocumentChangeSession :=
  let! engine := alloc s.2 in
  ret {| jpd_session := s.1; jpd_engine := engine; jpd_authorization := jl_authorization self;
         jpd_lease := jl_lease self |}.
Definition new_provider_transition (self : JsProviderLease) (s : IdentityTransitionSession)
    : JM JsProviderIdentityTransitionSession :=
  let! r := alloc s in
  ret {| jpt_inner := r; jpt_authorization := jl_authorization self;
         jpt_lease := jl_lease self |}.
Definition new_provider_enrollment (self : JsProviderLease) (s : EnrollmentSession * DidIdentity)
    : JM JsProviderEnrollmentSession :=
  let! engine := alloc s.2 in
  let! slot := alloc (Some {| she_session := s.1; she_engine := engine |}) in
  ret {| jpe_inner := slot; jpe_manager := jl_manager self;
         jpe_authorization := jl_authorization self; jpe_lease := jl_lease self |}.

Definition lease_prepare_document_change (self : JsProviderLease) (identity : JsIdentityRef)
    (request : Value) : Task JsProviderDocumentChangeSession :=
  let* q := sync (lift (from_value de_change_request request)) in
  let* s := with_authorized self capability.IDENTITY_DOCUMENT_UPDATE
    (facade (let! p := manager_get (identity_ref_of identity) in
             scoped_keep p.2 (prepare_document_change p.1 q))) in
  sync (new_provider_change self s).
Definition lease_resume_document_change (self : JsProviderLease) (identity : JsIdentityRef)
    : Task (option JsProviderDocumentChangeSession) :=
  let* s := with_authorized self capability.IDENTITY_DOCUMENT_UPDATE
    (facade (let! p := manager_get (identity_ref_of identity) in
             scoped_keep p.2 (resume_document_change p.1))) in
  sync (map_session (new_provider_change self) ((λ c, (c, s.2)) <$> s.1)).
Definition lease_prepare_identity_transition (self : JsProviderLease) (request : Value)
    : Task JsProviderIdentityTransitionSession :=
  let* q := sync (lift (from_value de_transition_request request)) in
  let* s := with_authorized self capability.IDENTITY_DOCUMENT_UPDATE
    (facade (asks_facade (λ m, prepare_identity_transition m q))) in
  sync (new_provider_transition self s).
Definition lease_resume_identity_transition (self : JsProviderLease) (did : string)
    : Task (option JsProviderIdentityTransitionSession) :=
  let* s := with_authorized self capability.IDENTITY_DOCUMENT_UPDATE
    (facade (resume_identity_transition did)) in
  sync (map_session (new_provider_transition self) s).
Definition lease_begin_device_enrollment (self : JsProviderLease) (request : Value)
    : Task JsProviderEnrollmentSession :=
  let* q := sync (lift (from_value de_device_enrollment request)) in
  let* s := with_authorized self capability.IDENTITY_CREATE (facade (begin_device_enrollment q)) in
  sync (new_provider_enrollment self s).
Definition lease_begin_request_signing_enrollment (self : JsProviderLease) (request : Value)
    : Task JsProviderEnrollmentSession :=
  let* q := sync (lift (from_value de_request_signing_enrollment request)) in
  let* s := with_authorized self capability.IDENTITY_CREATE
    (facade (begin_request_signing_enrollment q)) in
  sync (new_provider_enrollment self s).
Definition lease_resume_enrollment (self : JsProviderLease) (identity : JsIdentityRef)
    : Task (option JsProviderEnrollmentSession) :=
  let* s := with_authorized self capability.IDENTITY_CREATE
    (facade (resume_enrollment (identity_ref_of identity))) in
  sync (map_session (new_provider_enrollment self) s).

(** ** Adoption and root transfer *)

Definition lease_adopt_verified_document (self : JsProviderLease) (identity : JsIdentityRef)
    (remote : Value) : Task Value :=
  let* r := sync (lift (from_value de_remote_document remote)) in
  with_authorized self capability.IDENTITY_DOCUMENT_UPDATE
    (value_of ser_convergence
       (get_and_then (identity_ref_of identity) (λ _, host_adopt_verified_document r))).
Definition lease_adopt_verified_sibling_document (self : JsProviderLease)
    (identity : JsIdentityRef) (remote : Value) : Task Value :=
  let* r := sync (lift (from_value de_remote_document remote)) in
  with_authorized self capability.IDENTITY_DOCUMENT_UPDATE
    (value_of ser_convergence
       (get_and_then (identity_ref_of identity) (λ _, host_adopt_verified_sibling_document r))).
Definition lease_import_wrapped_root (self : JsProviderLease) (identity : JsIdentityRef)
    (envelope : Value) : Task Value :=
  let* e := sync (lift (from_value de_wrapped_root envelope)) in
  with_authorized self capability.AWIKI_LEGACY_ROOT_TRANSFER_V1
    (let! o := facade (get_and_then (identity_ref_of identity)
                         (λ _, import_wrapped_root_envelope e)) in
     ret (Str match o with
              | WrappedRootImportOutcome.Pending => "pending"
              | WrappedRootImportOutcome.Active => "active"
              end)).
Definition lease_confirm_root_promotion (self : JsProviderLease) (identity : JsIdentityRef)
    (request : Value) : Task unit :=
  let* q := sync (lift (from_value de_root_promotion request)) in
  with_authorized self capability.AWIKI_LEGACY_ROOT_TRANSFER_V1
    (facade (get_and_then (identity_ref_of identity) (λ _, host_confirm_root_promotion q))).
Definition lease_sign_pending_root_object_proof (self : JsProviderLease)
    (identity : JsIdentityRef) (request : Value) : Task Value :=
  let* q := sync (lift (from_value de_pending_root_proof request)) in
  with_authorized self capability.AWIKI_LEGACY_ROOT_TRANSFER_V1
    (value_of Some
       (get_and_then (identity_ref_of identity) (λ _, host_sign_pending_root_object_proof q))).

(** ** Sealed secrets *)

(** A sealed call on the engine of the identity, whose delivery is serialized. *)
Definition deliver_value {S} (authorization : Ref ProviderAuthorization)
    (m : XM S SealedSecretDelivery) : Op S Value :=
  let! d := sealed authorization m in lift (to_value ser_delivery d).

Definition lease_ecdh_sealed (self : JsProviderLease) (request : JsSealedKeyAgreementRequest)
    : Task Value :=
  let identity := identity_ref_of (jka_identity request) in
  let* peer := sync (lift (fixed_public_key (jka_peer_public request) "peerPublic")) in
  let* recipient := sync (lift (fixed_public_key (jka_recipient_public_key request)
                                  "recipientPublicKey")) in
  let* b := sync (lift (map_err map_sealed_error (sealed_key_agreement_binding identity
                          (jka_kid request) peer recipient (jka_request_id request)))) in
  let* token := sync (lease_issue_one_time self b) in
  lease_with_manager self
    (let! p := facade (manager_get identity) in
     outside (owned p.2 (deliver_value (jl_authorization self)
       (derive_shared_secret_sealed p.1
          {| ska_identity := identity; ska_kid := jka_kid request; ska_peer_public := peer;
             ska_recipient_public_key := recipient; ska_request_id := jka_request_id request;
             ska_token := token |})))).

Definition lease_export_root_key_sealed (self : JsProviderLease)
    (request : JsSealedRootExportRequest) : Task Value :=
  let identity := identity_ref_of (jre_identity request) in
  let* recipient := sync (lift (fixed_public_key (jre_recipient_public_key request)
                                  "recipientPublicKey")) in
  let* b := sync (lift (map_err map_sealed_error (sealed_root_export_binding identity
                          (jre_kid request) recipient (jre_request_id request)
                          (jre_user_presence_confirmed request)))) in
  let* token := sync (lease_issue_one_time self b) in
  lease_with_manager self
    (let! p := facade (manager_get identity) in
     outside (owned p.2 (deliver_value (jl_authorization self)
       (export_root_key_sealed p.1
          {| sre_identity := identity; sre_kid := jre_kid request;
             sre_recipient_public_key := recipient; sre_request_id := jre_request_id request;
             sre_user_presence_confirmed := jre_user_presence_confirmed request;
             sre_token := token |})))).

Definition lease_prepare_legacy_root_import (self : JsProviderLease)
    (request : JsSealedRootImportPreparation) : Task JsPreparedRootImport :=
  let identity := identity_ref_of (jri_identity request) in
  let* evidence := sync (lift (from_value de_root_evidence (jri_evidence request))) in
  let* encoding := sync (lift (root_encoding (jri_encoding request))) in
  let* p := sync (with_lease self (λ lease, owned tt (sealed (jl_authorization self)
    (prepare_root_import lease
       {| sri_identity := identity; sri_evidence := evidence; sri_encoding := encoding;
          sri_request_id := jri_request_id request |} 60)))) in
  sync (let! prepared := alloc (Some p.1) in
        let! v := lift (root_import_offer p.2) in
        let! offer := alloc (Some v) in
        ret {| jpr_manager := jl_manager self; jpr_authorization := jl_authorization self;
               jpr_identity := identity; jpr_prepared := prepared; jpr_offer := offer |}).

Definition lease_prepare_identity_material_import (self : JsProviderLease)
    (request : JsSealedIdentityImportPreparation) : Task JsPreparedIdentityMaterialImport :=
  let* remote := sync (lift (from_value de_remote_document (jii_remote request))) in
  let* keys := sync (lift (from_value de_material_keys (jii_keys request))) in
  let* p := run_blocking
    (let! lease := lease_in (jl_lease self) in
     locked (jl_manager self) (sealed (jl_authorization self)
       (prepare_identity_material_import lease
          {| smi_remote := remote; smi_did_wba := jii_did_wba request; smi_keys := keys;
             smi_request_id := jii_request_id request |} 60))) in
  sync (let! prepared := alloc (Some p.1) in
        let! v := lift (identity_import_offer p.2) in
        let! offer := alloc (Some v) in
        ret {| jpm_manager := jl_manager self; jpm_authorization := jl_authorization self;
               jpm_prepared := prepared; jpm_offer := offer |}).

(** ** [ProviderDocumentChangeSession] *)

Definition with_provider_change {A} (self : JsProviderDocumentChangeSession)
    (operation : Op DidIdentity A) : Task A :=
  do* sync (authorize_provider_lease (jpd_authorization self) (jpd_lease self)
              capability.IDENTITY_DOCUMENT_UPDATE);
  run_blocking (locked (jpd_engine self) operation).

Definition pchange_candidate (self : JsProviderDocumentChangeSession) : Task Value :=
  with_provider_change self (change_candidate (jpd_session self)).
Definition pchange_host_phase (self : JsProviderDocumentChangeSession) : Task Value :=
  with_provider_change self (value_of ser_change_phase (host_phase (jpd_session self))).
Definition pchange_begin_publication (self : JsProviderDocumentChangeSession) : Task Value :=
  with_provider_change self (change_begin (jpd_session self)).
Definition pchange_complete (self : JsProviderDocumentChangeSession) (attempt result : Value)
    : Task Value :=
  let* a := sync (lift (from_value de_attempt attempt)) in
  let* r := sync (lift (from_value de_publication_result result)) in
  with_provider_change self (change_complete (jpd_session self) a r).
Definition pchange_reconcile (self : JsProviderDocumentChangeSession) (observation : Value)
    : Task Value :=
  let* o := sync (lift (from_value de_remote_document observation)) in
  with_provider_change self (change_reconcile (jpd_session self) o).
Definition pchange_reconcile_rejected (self : JsProviderDocumentChangeSession)
    (observation : Value) : Task Value :=
  let* o := sync (lift (from_value de_remote_document observation)) in
  with_provider_change self (change_reconcile_rejected (jpd_session self) o).

(** ** [ProviderIdentityTransitionSession] *)

Definition with_provider_transition {A} (self : JsProviderIdentityTransitionSession)
    (operation : Op IdentityTransitionSession A) : Task A :=
  do* sync (authorize_provider_lease (jpt_authorization self) (jpt_lease self)
              capability.IDENTITY_DOCUMENT_UPDATE);
  run_blocking (locked (jpt_inner self) operation).

Definition ptransition_candidate (self : JsProviderIdentityTransitionSession) : Task Value :=
  with_provider_transition self transition_op_candidate.
Definition ptransition_begin_publication (self : JsProviderIdentityTransitionSession)
    : Task Value :=
  with_provider_transition self transition_op_begin.
Definition ptransition_complete (self : JsProviderIdentityTransitionSession)
    (attempt result : Value) : Task Value :=
  let* a := sync (lift (from_value de_transition_attempt attempt)) in
  let* r := sync (lift (from_value de_transition_result result)) in
  with_provider_transition self (transition_op_complete a r).
Definition ptransition_reconcile (self : JsProviderIdentityTransitionSession)
    (observation : Value) : Task Value :=
  let* o := sync (lift (from_value de_observation observation)) in
  with_provider_transition self (transition_op_reconcile o).

(** ** [ProviderEnrollmentSession] *)

Definition with_enrollment {A} (self : JsProviderEnrollmentSession) (capability : string)
    (operation : EnrollmentSession → Op DidIdentity A) : Task A :=
  do* sync (authorize_provider_lease (jpe_authorization self) (jpe_lease self) capability);
  run_blocking
    (let! inner := deref (jpe_inner self) in
     let! s := lift (ok_or inner session_consumed) in
     locked (she_engine s) (operation (she_session s))).

Definition enrollment_proposal (self : JsProviderEnrollmentSession) : Task Value :=
  with_enrollment self capability.IDENTITY_READ
    (λ s, lift (to_value ser_proposal (proposal s))).
Definition enrollment_sign_device_assertion (self : JsProviderEnrollmentSession)
    (payload : string) : Task string :=
  with_enrollment self capability.IDENTITY_SIGN
    (λ s, facade (session_sign_device_assertion s payload)).
Definition enrollment_derive_device_shared_secret_sealed (self : JsProviderEnrollmentSession)
    (request : JsSealedEnrollmentKeyAgreementRequest) : Task Value :=
  let* peer := sync (lift (fixed_public_key (jea_peer_public request) "peerPublic")) in
  let* recipient := sync (lift (fixed_public_key (jea_recipient_public_key request)
                                  "recipientPublicKey")) in
  let* p := with_enrollment self capability.IDENTITY_ECDH_SEALED (λ s, ret (proposal s)) in
  match ep_kind p with
  | EnrollmentProposalKind.RequestSigning _ =>
      sync (fail (js_error "capability_unavailable" "enrollment has no device agreement key"))
  | EnrollmentProposalKind.Device _ _ agreement_key _ =>
      let* b := sync (lift (map_err map_sealed_error (sealed_enrollment_key_agreement_binding
        (ep_identity p) (ep_enrollment_id p) (ppk_kid agreement_key) peer recipient
        (jea_request_id request)))) in
      let* token := sync (issue_provider_one_time (jpe_authorization self) (jpe_lease self) b) in
      with_enrollment self capability.IDENTITY_ECDH_SEALED (λ s,
        deliver_value (jpe_authorization self) (derive_device_shared_secret_sealed s
          {| see_identity := ep_identity p; see_enrollment_id := ep_enrollment_id p;
             see_kid := ppk_kid agreement_key; see_peer_public := peer;
             see_recipient_public_key := recipient; see_request_id := jea_request_id request;
             see_token := token |}))
  end.
Definition enrollment_activate (self : JsProviderEnrollmentSession) (remote : Value) : Task Value :=
  let* r := sync (lift (from_value de_remote_document remote)) in
  with_enrollment self capability.IDENTITY_DOCUMENT_UPDATE
    (λ _, value_of ser_convergence (session_activate r)).
Definition enrollment_cancel (self : JsProviderEnrollmentSession) : Task unit :=
  do* sync (authorize_provider_lease (jpe_authorization self) (jpe_lease self)
              capability.IDENTITY_CREATE);
  run_blocking (locked (jpe_manager self)
    (let! s := outside (take_slot (jpe_inner self) session_consumed) in
     facade (session_cancel (she_session s)))).

(** ** [PreparedRootImport] and [PreparedIdentityMaterialImport] *)

Definition root_import_js_offer (self : JsPreparedRootImport) : JM Value :=
  take_once (jpr_offer self) "sealed import offer was already read".
Definition root_import_js_complete (self : JsPreparedRootImport) (token : string)
    (envelope : Value) : Task string :=
  let* prepared := sync (take_once (jpr_prepared self) "sealed root import was already completed") in
  let* e := sync (lift (from_value de_envelope envelope)) in
  run_blocking
    (let! p := locked (jpr_manager self) (facade (manager_get (jpr_identity self))) in
     owned p.2
       (let! o := sealed (jpr_authorization self) (complete_root_import prepared p.1 token e) in
        ret match o with
            | LegacyRootImportOutcome.Pending => "pending"%string
            | LegacyRootImportOutcome.Active => "active"%string
            end)).

Definition material_import_js_offer (self : JsPreparedIdentityMaterialImport) : JM Value :=
  take_once (jpm_offer self) "sealed import offer was already read".
Definition material_import_js_complete (self : JsPreparedIdentityMaterialImport) (token : string)
    (envelopes : Value) : Task Value :=
  let* prepared := sync (take_once (jpm_prepared self)
                           "sealed identity import was already completed") in
  let* e := sync (lift (from_value de_envelopes envelopes)) in
  run_blocking
    (let! p := locked (jpm_manager self) (sealed (jpm_authorization self)
                 (complete_identity_material_import prepared token e)) in
     owned p.2 (value_of ser_public_identity (public_identity p.1))).
End Provider.
