(* ===== verification/NodeSystem.v ===== *)
(** * Calls of the Node binding and their interleavings

    [Call] is every call a JavaScript program can make, [call_task] its task.  The event loop
    keeps the calls under way: a step starts a call, polls one, or lets the world outside
    change.  Every interleaving of calls is a sequence of steps. *)

From stdpp Require Import base strings list gmap.
From S2P Require Import Prelude Json Errors Records Env World Identity Managed DocumentChange.
From S2P Require Import IdentityTransition Store ProviderAuthorization Host SealedHandoff RootTransfer.
From S2P Require Import NodeHeap Node NodeProvider.

(** ** Calls *)

Inductive ManagerCall :=
  | MInfo | MList | MCreate (request : Value) | MGet (i : JsIdentityRef)
  | MDelete (i : JsIdentityRef) | MRecover | MPrepareTransition (request : Value)
  | MResumeTransition (did : string).
Inductive IdentityCall :=
  | IReference | IPublicIdentity | ISign (q : JsSignRequest) | IVerify (q : JsVerifyRequest)
  | ISignOriginProof (q : JsOriginProofRequest) | IPrepareChange (request : Value)
  | IResumeChange.
Inductive ChangeCall :=
  | CCandidate | CBegin | CComplete (attempt result : Value)
  | CReconcile (observation : Value) | CReconcileRejected (observation : Value).
Inductive TransitionCall :=
  | TCandidate | TBegin | TComplete (attempt result : Value) | TReconcile (observation : Value).
Inductive LeaseCall :=
  | LInfo | LRecover | LList | LPublicIdentity (i : JsIdentityRef) | LHostStatus (i : JsIdentityRef)
  | LRecoverIdentity (i : JsIdentityRef) | LCreate (request : Value) | LDelete (i : JsIdentityRef)
  | LVerify (i : JsIdentityRef) (q : JsVerifyRequest) | LSign (i : JsIdentityRef) (q : JsSignRequest)
  | LSignOriginProof (i : JsIdentityRef) (q : JsOriginProofRequest)
  | LSignObjectProof (i : JsIdentityRef) (request : Value)
  | LSignDocumentProof (i : JsIdentityRef) (request : Value)
  | LPrepareHttpSignature (q : JsExactHttpSigningRequest)
  | LPrepareLegacyDidWba (i : JsIdentityRef) (kid : option string) (service_domain version : string)
  | LPrepareChange (i : JsIdentityRef) (request : Value) | LResumeChange (i : JsIdentityRef)
  | LPrepareTransition (request : Value) | LResumeTransition (did : string)
  | LAdopt (i : JsIdentityRef) (remote : Value) | LAdoptSibling (i : JsIdentityRef) (remote : Value)
  | LBeginDeviceEnrollment (request : Value) | LBeginRequestSigningEnrollment (request : Value)
  | LResumeEnrollment (i : JsIdentityRef) | LImportWrappedRoot (i : JsIdentityRef) (envelope : Value)
  | LConfirmRootPromotion (i : JsIdentityRef) (request : Value)
  | LSignPendingRoot (i : JsIdentityRef) (request : Value)
  | LEcdhSealed (q : JsSealedKeyAgreementRequest) | LExportRoot (q : JsSealedRootExportRequest)
  | LPrepareRootImport (q : JsSealedRootImportPreparation)
  | LPrepareMaterialImport (q : JsSealedIdentityImportPreparation).
Inductive EnrollmentCall :=
  | EProposal | ESignDeviceAssertion (payload : string)
  | EDeriveSealed (q : JsSealedEnrollmentKeyAgreementRequest) | EActivate (remote : Value) | ECancel.

Inductive Call :=
  | InitializeManager (c : JsIdentityManagerConfig)
  | OpenManager (c : JsIdentityManagerConfig)
  | InitializeProvider (c : JsIdentityManagerConfig)
  | OpenProvider (c : JsIdentityManagerConfig)
  | OnManager (o : JsIdentityManager) (c : ManagerCall)
  | OnIdentity (o : JsManagedIdentity) (c : IdentityCall)
  | OnChange (o : JsDocumentChangeSession) (c : ChangeCall)
  | OnTransition (o : JsIdentityTransitionSession) (c : TransitionCall)
  | AcquireLease (o : JsIdentityProvider) (q : JsProviderLeaseRequest)
  | DisposeLease (o : JsProviderLease)
  | OnLease (o : JsProviderLease) (c : LeaseCall)
  | OnProviderChange (o : JsProviderDocumentChangeSession) (c : ChangeCall)
  | ProviderChangePhase (o : JsProviderDocumentChangeSession)
  | OnProviderTransition (o : JsProviderIdentityTransitionSession) (c : TransitionCall)
  | OnEnrollment (o : JsProviderEnrollmentSession) (c : EnrollmentCall)
  | RootImportOffer (o : JsPreparedRootImport)
  | RootImportComplete (o : JsPreparedRootImport) (token : string) (envelope : Value)
  | MaterialImportOffer (o : JsPreparedIdentityMaterialImport)
  | MaterialImportComplete (o : JsPreparedIdentityMaterialImport) (token : string) (envelopes : Value).

Inductive Reply :=
  | RUnit | RNone
  | RValue (v : Value)
  | RText (s : string)
  | RSignature (s : JsSignature)
  | RRef (r : JsIdentityRef)
  | RManager (o : JsIdentityManager)
  | RIdentity (o : JsManagedIdentity)
  | RChange (o : JsDocumentChangeSession)
  | RTransition (o : JsIdentityTransitionSession)
  | RProvider (o : JsIdentityProvider)
  | RLease (o : JsProviderLease)
  | RProviderChange (o : JsProviderDocumentChangeSession)
  | RProviderTransition (o : JsProviderIdentityTransitionSession)
  | REnrollment (o : JsProviderEnrollmentSession)
  | RRootImport (o : JsPreparedRootImport)
  | RMaterialImport (o : JsPreparedIdentityMaterialImport).

Definition replies {A} (f : A → Reply) (t : Task A) : Task Reply :=
  let* a := t in sync (ret (f a)).
Definition unit_reply (_ : unit) : Reply := RUnit.
Definition option_reply {A} (f : A → Reply) (o : option A) : Reply :=
  match o with Some a => f a | None => RNone end.

Section System.
Context `{Env, AuthEnv, SealedEnv, Serde}.

Definition manager_task (o : JsIdentityManager) (c : ManagerCall) : Task Reply :=
  match c with
  | MInfo => replies RValue (manager_js_info o)
  | MList => replies RValue (manager_js_list o)
  | MCreate q => replies RIdentity (manager_js_create o q)
  | MGet i => replies RIdentity (manager_js_get o i)
  | MDelete i => replies unit_reply (manager_js_delete o i)
  | MRecover => replies RValue (manager_js_recover o)
  | MPrepareTransition q => replies RTransition (manager_js_prepare_identity_transition o q)
  | MResumeTransition d =>
      replies (option_reply RTransition) (manager_js_resume_identity_transition o d)
  end.
Definition identity_task (o : JsManagedIdentity) (c : IdentityCall) : Task Reply :=
  match c with
  | IReference => replies RRef (identity_js_reference o)
  | IPublicIdentity => replies RValue (identity_js_public_identity o)
  | ISign q => replies RSignature (identity_js_sign o q)
  | IVerify q => replies RText (identity_js_verify o q)
  | ISignOriginProof q => replies RValue (identity_js_sign_origin_proof o q)
  | IPrepareChange q => replies RChange (identity_js_prepare_document_change o q)
  | IResumeChange => replies (option_reply RChange) (identity_js_resume_document_change o)
  end.
Definition change_task (o : JsDocumentChangeSession) (c : ChangeCall) : Task Reply :=
  match c with
  | CCandidate => replies RValue (change_js_candidate o)
  | CBegin => replies RValue (change_js_begin_publication o)
  | CComplete a r => replies RValue (change_js_complete o a r)
  | CReconcile v => replies RValue (change_js_reconcile o v)
  | CReconcileRejected v => replies RValue (change_js_reconcile_rejected o v)
  end.
Definition transition_task (o : JsIdentityTransitionSession) (c : TransitionCall) : Task Reply :=
  match c with
  | TCandidate => replies RValue (transition_js_candidate o)
  | TBegin => replies RValue (transition_js_begin_publication o)
  | TComplete a r => replies RValue (transition_js_complete o a r)
  | TReconcile v => replies RValue (transition_js_reconcile o v)
  end.
Definition lease_task (o : JsProviderLease) (c : LeaseCall) : Task Reply :=
  match c with
  | LInfo => replies RValue (lease_info o)
  | LRecover => replies RValue (lease_recover o)
  | LList => replies RValue (lease_list o)
  | LPublicIdentity i => replies RValue (lease_public_identity o i)
  | LHostStatus i => replies RValue (lease_host_status o i)
  | LRecoverIdentity i => replies unit_reply (lease_recover_identity o i)
  | LCreate q => replies RValue (lease_create o q)
  | LDelete i => replies unit_reply (lease_delete o i)
  | LVerify i q => replies RText (lease_verify o i q)
  | LSign i q => replies RSignature (lease_sign o i q)
  | LSignOriginProof i q => replies RValue (lease_sign_origin_proof o i q)
  | LSignObjectProof i q => replies RValue (lease_sign_object_proof o i q)
  | LSignDocumentProof i q => replies RValue (lease_sign_document_proof o i q)
  | LPrepareHttpSignature q => replies RValue (lease_prepare_http_signature o q)
  | LPrepareLegacyDidWba i k d v => replies RText (lease_prepare_legacy_did_wba o i k d v)
  | LPrepareChange i q => replies RProviderChange (lease_prepare_document_change o i q)
  | LResumeChange i =>
      replies (option_reply RProviderChange) (lease_resume_document_change o i)
  | LPrepareTransition q => replies RProviderTransition (lease_prepare_identity_transition o q)
  | LResumeTransition d =>
      replies (option_reply RProviderTransition) (lease_resume_identity_transition o d)
  | LAdopt i v => replies RValue (lease_adopt_verified_document o i v)
  | LAdoptSibling i v => replies RValue (lease_adopt_verified_sibling_document o i v)
  | LBeginDeviceEnrollment q => replies REnrollment (lease_begin_device_enrollment o q)
  | LBeginRequestSigningEnrollment q =>
      replies REnrollment (lease_begin_request_signing_enrollment o q)
  | LResumeEnrollment i => replies (option_reply REnrollment) (lease_resume_enrollment o i)
  | LImportWrappedRoot i v => replies RValue (lease_import_wrapped_root o i v)
  | LConfirmRootPromotion i q => replies unit_reply (lease_confirm_root_promotion o i q)
  | LSignPendingRoot i q => replies RValue (lease_sign_pending_root_object_proof o i q)
  | LEcdhSealed q => replies RValue (lease_ecdh_sealed o q)
  | LExportRoot q => replies RValue (lease_export_root_key_sealed o q)
  | LPrepareRootImport q => replies RRootImport (lease_prepare_legacy_root_import o q)
  | LPrepareMaterialImport q => replies RMaterialImport (lease_prepare_identity_material_import o q)
  end.
Definition provider_change_task (o : JsProviderDocumentChangeSession) (c : ChangeCall)
    : Task Reply :=
  match c with
  | CCandidate => replies RValue (pchange_candidate o)
  | CBegin => replies RValue (pchange_begin_publication o)
  | CComplete a r => replies RValue (pchange_complete o a r)
  | CReconcile v => replies RValue (pchange_reconcile o v)
  | CReconcileRejected v => replies RValue (pchange_reconcile_rejected o v)
  end.
Definition provider_transition_task (o : JsProviderIdentityTransitionSession) (c : TransitionCall)
    : Task Reply :=
  match c with
  | TCandidate => replies RValue (ptransition_candidate o)
  | TBegin => replies RValue (ptransition_begin_publication o)
  | TComplete a r => replies RValue (ptransition_complete o a r)
  | TReconcile v => replies RValue (ptransition_reconcile o v)
  end.
Definition enrollment_task (o : JsProviderEnrollmentSession) (c : EnrollmentCall) : Task Reply :=
  match c with
  | EProposal => replies RValue (enrollment_proposal o)
  | ESignDeviceAssertion p => replies RText (enrollment_sign_device_assertion o p)
  | EDeriveSealed q => replies RValue (enrollment_derive_device_shared_secret_sealed o q)
  | EActivate v => replies RValue (enrollment_activate o v)
  | ECancel => replies unit_reply (enrollment_cancel o)
  end.

Definition call_task (c : Call) : Task Reply :=
  match c with
  | InitializeManager c => replies RManager (manager_js_initialize c)
  | OpenManager c => replies RManager (manager_js_open c)
  | InitializeProvider c => replies RProvider (provider_js_initialize c)
  | OpenProvider c => replies RProvider (provider_js_open c)
  | OnManager o c => manager_task o c
  | OnIdentity o c => identity_task o c
  | OnChange o c => change_task o c
  | OnTransition o c => transition_task o c
  | AcquireLease o q => replies RLease (sync (provider_js_acquire_lease o q))
  | DisposeLease o => replies unit_reply (sync (lease_dispose o))
  | OnLease o c => lease_task o c
  | OnProviderChange o c => provider_change_task o c
  | ProviderChangePhase o => replies RValue (pchange_host_phase o)
  | OnProviderTransition o c => provider_transition_task o c
  | OnEnrollment o c => enrollment_task o c
  | RootImportOffer o => replies RValue (sync (root_import_js_offer o))
  | RootImportComplete o t e => replies RText (root_import_js_complete o t e)
  | MaterialImportOffer o => replies RValue (sync (material_import_js_offer o))
  | MaterialImportComplete o t e => replies RValue (material_import_js_complete o t e)
  end.

(** ** The event loop *)

Record Loop := {
  node : Node;
  (* the calls under way, each with its rest *)
  calls_under_way : gmap nat (Call * Task Reply);
  next_call : nat }.

(** The start of a call, and a poll of call [id] at the machine [before]: it goes on waiting or
    ends with a result. *)
Inductive Event :=
  | Started (id : nat) (c : Call) (at_ : Node)
  | Polled (id : nat) (c : Call) (before after : Node) (outcome : option (result NapiError Reply))
  | Other.

Inductive loop_step : Loop → Event → Loop → Prop :=
  | loop_start c l :
      loop_step l (Started (next_call l) c (node l)) {| node := node l;
        calls_under_way := <[next_call l := (c, call_task c)]> (calls_under_way l);
        next_call := S (next_call l) |}
  | loop_wait id c t t' n l :
      calls_under_way l !! id = Some (c, t) → resume t (node l) = (inr t', n) →
      loop_step l (Polled id c (node l) n None) {| node := n;
        calls_under_way := <[id := (c, t')]> (calls_under_way l); next_call := next_call l |}
  | loop_end id c t r n l :
      calls_under_way l !! id = Some (c, t) → resume t (node l) = (inl r, n) →
      loop_step l (Polled id c (node l) n (Some r)) {| node := n;
        calls_under_way := delete id (calls_under_way l); next_call := next_call l |}
  (* other processes, the clock, and buffers the program makes *)
  | loop_outside p w l :
      loop_step l Other {| node := {| heap := heap (node l); node_platform := p; node_world := w |};
        calls_under_way := calls_under_way l; next_call := next_call l |}
  | loop_buffer b l :
      loop_step l Other {| node := (alloc b (node l)).2; calls_under_way := calls_under_way l;
        next_call := next_call l |}.

Inductive loop_run : Loop → list Event → Loop → Prop :=
  | loop_nil l : loop_run l [] l
  | loop_snoc l es l1 e l2 : loop_run l es l1 → loop_step l1 e l2 → loop_run l (es ++ [e]) l2.
End System.
