(* ===== verification/NodeFacts.v ===== *)
(** * How the heap of the binding evolves

    Every poll of every call keeps the cells that exist, with their types, and empties a
    one-time slot without ever filling it again. *)

From stdpp Require Import base strings list gmap.
From S2P Require Import Prelude Json Errors Records Env World Identity Managed DocumentChange.
From S2P Require Import IdentityTransition Store ProviderAuthorization Host SealedHandoff RootTransfer.
From S2P Require Import NodeHeap Node NodeProvider NodeSystem.

(** ** Preservation of a preorder *)

(** The state of a computation moves along [R], whatever its result. *)
Definition pres {W E A} (R : W → W → Prop) (m : ST W E A) : Prop :=
  ∀ w r w', m w = (r, w') → R w w'.

Section Pres.
Context {W E : Type} (R : W → W → Prop) `{!PreOrder R}.

Lemma pres_lift {A} (r : result E A) : pres R (lift r).
Proof. intros w s w' [= <- <-]. reflexivity. Qed.
Lemma pres_ret {A} (a : A) : pres R (ret (E:=E) a).
Proof. apply pres_lift. Qed.
Lemma pres_fail {A} (e : E) : pres R (fail (A:=A) e).
Proof. apply (pres_lift (Err e)). Qed.
Lemma pres_bind {A B} (m : ST W E A) (k : A → ST W E B) :
  pres R m → (∀ a, pres R (k a)) → pres R (bind m k).
Proof.
  intros Hm Hk w r w'. unfold bind. destruct (m w) as [[a|e] w1] eqn:Hw.
  - intros Hr. etrans; [by eapply Hm|by eapply Hk].
  - intros [= <- <-]. by eapply Hm.
Qed.
End Pres.

(** The same of a task: every poll moves along [R]. *)
Inductive task_pres {A} (R : Node → Node → Prop) : Task A → Prop :=
  | task_pres_intro t :
      (∀ n o n', resume t n = (o, n') → R n n') →
      (∀ n t' n', resume t n = (inr t', n') → task_pres R t') → task_pres R t.

Lemma task_pres_poll {A} R (t : Task A) n o n' : task_pres R t → resume t n = (o, n') → R n n'.
Proof. destruct 1 as [t Hp _]. apply Hp. Qed.
Lemma task_pres_rest {A} R (t t' : Task A) n n' :
  task_pres R t → resume t n = (inr t', n') → task_pres R t'.
Proof. destruct 1 as [t _ Hp]. apply Hp. Qed.

Section TaskPres.
Context (R : Node → Node → Prop) `{!PreOrder R}.

Lemma task_pres_sync {A} (m : JM A) : pres R m → task_pres R (sync m).
Proof.
  intros Hm. constructor; simpl; intros n o n'; destruct (m n) as [r n1] eqn:Hn; [|done].
  intros [= <- <-]. by eapply Hm.
Qed.
Lemma task_pres_blocking {A} (m : JM A) : pres R m → task_pres R (run_blocking m).
Proof.
  intros Hm. constructor; simpl; intros n o n' [= <- <-]; [reflexivity|].
  constructor; simpl; intros n1 o1 n1'; destruct (m n1) as [r n2] eqn:Hn; intros [= <- <-].
  - by eapply Hm.
  - apply task_pres_sync, (pres_lift R).
Qed.
Lemma task_pres_bind {A B} (t : Task A) (k : A → Task B) :
  task_pres R t → (∀ a, task_pres R (k a)) → task_pres R (tbind t k).
Proof.
  intros Ht Hk. induction Ht as [t Hp Hc IH]. constructor.
  - intros n o n'. destruct t as [f]. simpl. destruct (f n) as [[[a|e]|t'] n1] eqn:Hn.
    + intros Hr. etrans; [by eapply Hp|]. by eapply task_pres_poll.
    + intros [= <- <-]. by eapply Hp.
    + intros [= <- <-]. by eapply Hp.
  - intros n t' n'. destruct t as [f]. simpl. destruct (f n) as [[[a|e]|t1] n1] eqn:Hn.
    + intros Hr. by eapply task_pres_rest.
    + done.
    + intros [= <- <-]. by eapply IH.
Qed.
End TaskPres.

(** ** The evolution of the heap *)

(** A one-time slot keeps its content or is emptied. *)
Definition slot_evolves {A} (x y : option A) : Prop := y = x ∨ y = None.

Inductive cell_evolves : Cell → Cell → Prop :=
  | manager_evolves s s' : cell_evolves (ManagerCell s) (ManagerCell s')
  | authority_evolves a a' : cell_evolves (AuthorityCell a) (AuthorityCell a')
  | lease_evolves l l' : slot_evolves l l' → cell_evolves (LeaseCell l) (LeaseCell l')
  | engine_evolves i i' : cell_evolves (EngineCell i) (EngineCell i')
  | transition_evolves s s' : cell_evolves (TransitionCell s) (TransitionCell s')
  | enrollment_evolves e e' : slot_evolves e e' → cell_evolves (EnrollmentCell e) (EnrollmentCell e')
  | root_import_evolves p p' : slot_evolves p p' → cell_evolves (RootImportCell p) (RootImportCell p')
  | material_import_evolves p p' : slot_evolves p p' →
      cell_evolves (MaterialImportCell p) (MaterialImportCell p')
  | offer_evolves v v' : slot_evolves v v' → cell_evolves (OfferCell v) (OfferCell v')
  | buffer_evolves b b' : cell_evolves (BufferCell b) (BufferCell b').

Definition evolves (h h' : Heap) : Prop :=
  ∀ l c, h !! l = Some c → ∃ c', h' !! l = Some c' ∧ cell_evolves c c'.
Definition node_evolves (n n' : Node) : Prop := evolves (heap n) (heap n').
Definition op_evolves {S} (x x' : S * Node) : Prop := evolves (heap x.2) (heap x'.2).

#[export] Instance slot_evolves_preorder {A} : PreOrder (@slot_evolves A).
Proof.
  split; [by left|]. intros x y z [->| ->] [->| ->]; unfold slot_evolves; auto.
Qed.
#[export] Instance cell_evolves_preorder : PreOrder cell_evolves.
Proof.
  split.
  - intros []; constructor; reflexivity.
  - intros x y z Hx Hy. destruct Hx; inversion Hy; subst; constructor; by etrans.
Qed.
#[export] Instance evolves_preorder : PreOrder evolves.
Proof.
  split.
  - intros h l c Hl. exists c. split; [done|reflexivity].
  - intros h1 h2 h3 H12 H23 l c Hl. destruct (H12 l c Hl) as (c' & Hl' & Hc).
    destruct (H23 l c' Hl') as (c'' & Hl'' & Hc'). exists c''. split; [done|by etrans].
Qed.
#[export] Instance node_evolves_preorder : PreOrder node_evolves.
Proof. split; [intros n; unfold node_evolves; reflexivity|]. intros x y z. unfold node_evolves. by intros ->. Qed.
#[export] Instance op_evolves_preorder {S} : PreOrder (@op_evolves S).
Proof. split; [intros n; unfold op_evolves; reflexivity|]. intros x y z. unfold op_evolves. by intros ->. Qed.

(** Writing a cell that exists, and allocating one. *)
Lemma content_lookup `{Stored A} h (r : Ref A) a :
  content h r = Some a ↔ h !! address r = Some (into_cell a).
Proof.
  unfold content. split.
  - destruct (h !! address r) as [c|]; [|done]. simpl. intros Hc. by rewrite (into_from c a Hc).
  - intros ->. apply from_into.
Qed.
Lemma evolves_write `{Stored A} h h' (r : Ref A) a a' :
  content h r = Some a → evolves h h' → cell_evolves (into_cell a) (into_cell a') →
  evolves h (<[address r := into_cell a']> h').
Proof.
  rewrite content_lookup. intros Hr Hh Ha l c Hl.
  destruct (decide (l = address r)) as [->|Hne].
  - rewrite lookup_insert_eq. exists (into_cell a'). split; [done|]. by replace c with (into_cell a) by congruence.
  - rewrite lookup_insert_ne by done. by apply Hh.
Qed.
Lemma evolves_alloc h c : evolves h (<[fresh (dom h) := c]> h).
Proof.
  intros l c' Hl. exists c'. split; [|reflexivity]. rewrite lookup_insert_ne; [done|].
  intros <-. apply (is_fresh (dom h)). by apply elem_of_dom_2 in Hl.
Qed.

(** A cell that is not a slot. *)
Class Mutable (A : Type) `{Stored A} :=
  mutable a a' : cell_evolves (into_cell a) (into_cell a').
#[export] Instance mutable_manager : Mutable DidStore.
Proof. constructor. Qed.
#[export] Instance mutable_authority : Mutable ProviderAuthorization.
Proof. constructor. Qed.
#[export] Instance mutable_engine : Mutable DidIdentity.
Proof. constructor. Qed.
#[export] Instance mutable_transition : Mutable IdentityTransitionSession.
Proof. constructor. Qed.
#[export] Instance mutable_buffer : Mutable string.
Proof. constructor. Qed.
(** A slot. *)
Class Slot (A : Type) `{Stored (option A)} :=
  slot_cell (x y : option A) : slot_evolves x y → cell_evolves (into_cell x) (into_cell y).
#[export] Instance slot_lease : Slot ProviderCapabilityLease.
Proof. by constructor. Qed.
#[export] Instance slot_enrollment : Slot SharedEnrollment.
Proof. by constructor. Qed.
#[export] Instance slot_root_import : Slot PreparedSealedRootImport.
Proof. by constructor. Qed.
#[export] Instance slot_material_import : Slot PreparedSealedIdentityMaterialImport.
Proof. by constructor. Qed.
#[export] Instance slot_offer : Slot Value.
Proof. by constructor. Qed.

(** ** The primitives *)

Lemma bind_deref `{Stored A} {B} (r : Ref A) (k : A → JM B) n x :
  bind (deref r) k n = x →
  (∃ a, content (heap n) r = Some a ∧ k a n = x) ∨ (content (heap n) r = None ∧ x = (Err no_cell, n)).
Proof.
  unfold bind, deref, ok_or. destruct (content (heap n) r) as [a|]; intros <-; [left|right]; eauto.
Qed.

Lemma deref_evolves `{Stored A} (r : Ref A) : pres node_evolves (deref r).
Proof. intros n x n' [= <- <-]. reflexivity. Qed.
Lemma alloc_evolves `{Stored A} (a : A) : pres node_evolves (alloc a).
Proof. intros n x n' [= <- <-]. apply evolves_alloc. Qed.
Lemma locked_evolves {S A} `{Mutable S} (r : Ref S) (op : Op S A) :
  pres op_evolves op → pres node_evolves (locked r op).
Proof.
  intros Hop n x n' Hr. apply bind_deref in Hr as [(s & Hs & Hr)|[_ [= -> ->]]]; [|reflexivity].
  destruct (op (s, n)) as [o [s' n1]] eqn:Ho. injection Hr as <- <-.
  refine (evolves_write _ _ r s s' Hs _ (mutable _ _)). exact (Hop _ _ _ Ho).
Qed.
Lemma with_authorization_evolves {A} r (m : AM A) : pres node_evolves (with_authorization r m).
Proof.
  intros n x n' Hr. apply bind_deref in Hr as [(a & Ha & Hr)|[_ [= -> ->]]]; [|reflexivity].
  destruct (m (a, node_world n)) as [o [a' w']]. injection Hr as <- <-.
  refine (evolves_write _ _ r a a' Ha _ (mutable _ _)). reflexivity.
Qed.
Lemma with_platform_evolves {A} (m : ST (Platform * World) Facade.IdentityError A) :
  pres node_evolves (with_platform m).
Proof.
  intros n x n'. unfold with_platform. destruct (m _) as [o [p w]]. intros [= <- <-].
  unfold node_evolves. reflexivity.
Qed.
Lemma take_slot_evolves {A} `{Slot A} (r : Ref (option A)) e : pres node_evolves (take_slot r e).
Proof.
  intros n x n' Hr. apply bind_deref in Hr as [(v & Hv & Hr)|[_ [= -> ->]]]; [|reflexivity].
  unfold bind, store, lift in Hr. injection Hr as <- <-.
  refine (evolves_write _ _ r v None Hv _ (slot_cell _ _ _)); [reflexivity|by right].
Qed.
Lemma zeroize_evolves r : pres node_evolves (zeroize r).
Proof.
  intros n x n' Hr. apply bind_deref in Hr as [(b & Hb & Hr)|[_ [= -> ->]]]; [|reflexivity].
  injection Hr as <- <-. refine (evolves_write _ _ r b _ Hb _ (mutable _ _)). reflexivity.
Qed.
Lemma owned_evolves {T A} (t : T) (op : Op T A) :
  pres op_evolves op → pres node_evolves (owned t op).
Proof.
  intros Hop n x n'. unfold owned. destruct (op (t, n)) as [o [t' n1]] eqn:Ho.
  intros [= <- <-]. exact (Hop _ _ _ Ho).
Qed.

Lemma facade_evolves {S A} (m : HM S A) : pres op_evolves (facade m).
Proof.
  intros x r x'. unfold facade. destruct (m _) as [o [s w]]. intros [= <- <-].
  unfold op_evolves. simpl. reflexivity.
Qed.
Lemma outside_evolves {S A} (m : JM A) : pres node_evolves m → pres op_evolves (outside (S:=S) m).
Proof.
  intros Hm x r x'. unfold outside. destruct (m x.2) as [o n] eqn:Hn. intros [= <- <-].
  exact (Hm _ _ _ Hn).
Qed.
Lemma sealed_evolves {S A} r (m : XM S A) : pres op_evolves (sealed r m).
Proof.
  intros [s n] x x'. unfold sealed, bind, outside, deref, ok_or. simpl.
  destruct (content (heap n) r) as [a|] eqn:Ha; simpl.
  - destruct (m _) as [o [[s' a'] w]]. intros [= <- <-].
    refine (evolves_write _ _ r a a' Ha _ (mutable _ _)). reflexivity.
  - intros [= <- <-]. reflexivity.
Qed.

(** ** Calls *)

Lemma consume_root_key_evolves r : pres node_evolves (consume_root_key r).
Proof.
  apply (pres_bind node_evolves); [apply deref_evolves|]. intros b.
  destruct (negb _); (apply (pres_bind node_evolves); [apply zeroize_evolves|intros _]).
  - apply (pres_fail node_evolves).
  - apply (pres_ret node_evolves).
Qed.
Lemma manager_and_store_id_evolves `{Env} m : pres node_evolves (manager_and_store_id m).
Proof.
  intros n r n'. unfold manager_and_store_id. destruct (facade _ _) as [o [s n1]] eqn:Ho.
  intros [= <- <-]. exact (facade_evolves _ _ _ _ Ho).
Qed.
Lemma new_authority_evolves `{Env} : pres (E:=NapiError) node_evolves (λ n,
  let (r, w) := new_authority (node_world n) in
  (map_err (λ e, map_error (Facade.from_did_error e)) r, set_world w n)).
Proof.
  intros n r n'. destruct (new_authority _) as [o w]. intros [= <- <-].
  unfold node_evolves. reflexivity.
Qed.

Ltac head_of t := lazymatch t with ?f _ => head_of f | _ => t end.
Ltac unfold_head t := let h := head_of t in unfold h.
Ltac evolve_step :=
  lazymatch goal with
  | |- ∀ _, _ => intros ?
  | |- task_pres _ (tbind _ _) => apply (task_pres_bind node_evolves)
  | |- task_pres _ (sync _) => apply (task_pres_sync node_evolves)
  | |- task_pres _ (run_blocking _) => apply (task_pres_blocking node_evolves)
  | |- task_pres _ (match ?x with _ => _ end) => destruct x
  | |- task_pres _ ?t => unfold_head t
  | |- pres _ (lift _) => apply (pres_lift _)
  | |- pres _ (ret _) => apply (pres_ret _)
  | |- pres _ (fail _) => apply (pres_fail _)
  | |- pres _ (bind _ _) => apply (pres_bind _)
  | |- pres _ (deref _) => apply deref_evolves
  | |- pres _ (alloc _) => apply alloc_evolves
  | |- pres _ (locked _ _) => apply locked_evolves
  | |- pres _ (with_authorization _ _) => apply with_authorization_evolves
  | |- pres _ (with_platform _) => apply with_platform_evolves
  | |- pres _ (take_slot _ _) => apply take_slot_evolves
  | |- pres _ (owned _ _) => apply owned_evolves
  | |- pres _ (facade _) => apply facade_evolves
  | |- pres _ (outside _) => apply outside_evolves
  | |- pres _ (sealed _ _) => apply sealed_evolves
  | |- pres _ (consume_root_key _) => apply consume_root_key_evolves
  | |- pres _ (manager_and_store_id _) => apply manager_and_store_id_evolves
  | |- pres _ (λ _, _) => apply new_authority_evolves
  | |- pres _ (match ?x with _ => _ end) => destruct x
  | |- pres _ ?t => unfold_head t
  end.

Section Calls.
Context `{HE : Env, HA : AuthEnv, HS : SealedEnv, HD : Serde}.

Lemma lease_task_evolves o c : task_pres node_evolves (lease_task o c).
Proof. destruct c; repeat evolve_step. Qed.
Lemma call_evolves c : task_pres node_evolves (call_task c).
Proof. destruct c; try apply lease_task_evolves; repeat evolve_step. Qed.
End Calls.

(** ** The event loop *)

Definition fresh_loop (n : Node) : Loop :=
  {| node := n; calls_under_way := ∅; next_call := 0 |}.

(** What holds of a loop and its events at the start, and is kept by every step. *)
Lemma loop_invariant `{Env, AuthEnv, SealedEnv, Serde} (I : list Event → Loop → Prop) l es l' :
  loop_run l es l' →
  (∀ es l1 e l2, I es l1 → loop_step l1 e l2 → I (es ++ [e]) l2) → I [] l → I es l'.
Proof. induction 1 as [l|l es l1 e l2 Hr IH Hs]; [done|]. intros Hstep HI. eapply Hstep; eauto. Qed.

Section Loop.
Context `{HE : Env, HA : AuthEnv, HS : SealedEnv, HD : Serde}.

(** The calls under way are calls of the binding, and their numbers were given out. *)
Definition loop_ok (l : Loop) : Prop :=
  ∀ id c t, calls_under_way l !! id = Some (c, t) → task_pres node_evolves t ∧ id < next_call l.

Lemma loop_step_evolves l e l' : loop_ok l → loop_step l e l' → evolves (heap (node l)) (heap (node l')).
Proof.
  intros Hl. destruct 1 as [c l|id c t t' n l Hc Hr|id c t r n l Hc Hr|p w l|b l]; simpl.
  - reflexivity.
  - destruct (Hl _ _ _ Hc) as [Hp _]. exact (task_pres_poll _ _ _ _ _ Hp Hr).
  - destruct (Hl _ _ _ Hc) as [Hp _]. exact (task_pres_poll _ _ _ _ _ Hp Hr).
  - reflexivity.
  - apply evolves_alloc.
Qed.
Lemma loop_step_ok l e l' : loop_ok l → loop_step l e l' → loop_ok l' ∧ next_call l ≤ next_call l'.
Proof.
  intros Hl. destruct 1 as [c l|id c t t' n l Hc Hr|id c t r n l Hc Hr|p w l|b l]; simpl;
    (split; [|lia]); try exact Hl; intros id' c' t1; simpl.
  - destruct (decide (id' = next_call l)) as [->|Hne].
    + rewrite lookup_insert_eq. intros [= <- <-]. split; [apply call_evolves|lia].
    + rewrite lookup_insert_ne by done. intros Ht. apply Hl in Ht as [? ?]. split; [done|lia].
  - destruct (decide (id' = id)) as [->|Hne].
    + rewrite lookup_insert_eq. intros [= <- <-]. destruct (Hl _ _ _ Hc) as [Hp ?].
      split; [by eapply task_pres_rest|done].
    + rewrite lookup_insert_ne by done. apply Hl.
  - intros [_ Ht]%lookup_delete_Some. by eapply Hl.
Qed.

Lemma loop_run_ok l es l' :
  loop_ok l → loop_run l es l' → loop_ok l' ∧ evolves (heap (node l)) (heap (node l')).
Proof.
  intros Hl Hr. apply (loop_invariant (λ _ l1, loop_ok l1 ∧ evolves (heap (node l)) (heap (node l1)))
    _ _ _ Hr); [|split; [done|reflexivity]].
  intros es1 l1 e l2 [H1 He] Hs. split; [by eapply loop_step_ok|].
  etrans; [exact He|]. by eapply loop_step_evolves.
Qed.
Lemma fresh_loop_ok n : loop_ok (fresh_loop n).
Proof. intros id c t. simpl. by rewrite lookup_empty. Qed.

(** In every interleaving of calls of the binding, whatever they do and whatever happens
    outside, a cell that exists goes on existing with its type, and a one-time slot (the
    lease of a consumer, an enrollment session, a prepared import, an offer) is only ever
    emptied: it never gets another content, and once empty it stays empty. *)
Theorem heap_evolves n es1 l1 es2 l2 :
  loop_run (fresh_loop n) es1 l1 → loop_run l1 es2 l2 →
  evolves (heap (node l1)) (heap (node l2)).
Proof.
  intros H1 H2. apply (loop_run_ok l1 es2 l2); [|done].
  by eapply loop_run_ok; [apply (fresh_loop_ok n)|].
Qed.

(** ** Slots are taken once *)

(** The slot at an address is empty. *)
Definition cell_empty (c : Cell) : bool :=
  match c with
  | LeaseCell None | EnrollmentCell None | RootImportCell None | MaterialImportCell None
  | OfferCell None => true
  | _ => false
  end.
Definition emptied (a : nat) (n : Node) : bool :=
  match heap n !! a with Some c => cell_empty c | None => false end.
(** It was taken between two states. *)
Definition took (a : nat) (n n' : Node) : bool := negb (emptied a n) && emptied a n'.

Lemma emptied_evolves a n n' : node_evolves n n' → emptied a n = true → emptied a n' = true.
Proof.
  unfold emptied. intros He. destruct (heap n !! a) as [c|] eqn:Hc; [|done].
  destruct (He _ _ Hc) as (c' & -> & Hcc).
  by destruct Hcc as [| |? ? []| | |? ? []|? ? []|? ? []|? ? []|]; subst.
Qed.
Lemma took_true a n n' : took a n n' = true ↔ emptied a n = false ∧ emptied a n' = true.
Proof. unfold took. by rewrite andb_true_iff, negb_true_iff. Qed.
Lemma took_later a n n' n'' : node_evolves n' n'' → took a n n' = true → took a n n'' = true.
Proof. rewrite !took_true. intros He [? ?]. split; [done|by eapply emptied_evolves]. Qed.
Lemma took_earlier a n n' n'' : node_evolves n n' → took a n' n'' = true → took a n n'' = true.
Proof.
  rewrite !took_true. intros He [H1 ?]. split; [|done]. apply not_true_iff_false. intros Hn.
  rewrite (emptied_evolves _ _ _ He Hn) in H1. done.
Qed.

(** A computation that ends well takes the slot at [a]. *)
Definition takes {A} (a : nat) (m : JM A) : Prop := ∀ n v n', m n = (Ok v, n') → took a n n' = true.
(** A task that has not taken the slot yet, and ends well only after taking it. *)
Inductive taker {A} (a : nat) : Task A → Prop :=
  | taker_intro t :
      (∀ n v n', resume t n = (inl (Ok v), n') → took a n n' = true) →
      (∀ n t' n', resume t n = (inr t', n') → took a n n' = false → taker a t') → taker a t.

Lemma taker_end {A} a (t : Task A) n v n' :
  taker a t → resume t n = (inl (Ok v), n') → took a n n' = true.
Proof. destruct 1 as [t Hv _]. apply Hv. Qed.
Lemma taker_wait {A} a (t t' : Task A) n n' :
  taker a t → resume t n = (inr t', n') → took a n n' = false → taker a t'.
Proof. destruct 1 as [t _ Hw]. apply Hw. Qed.

Lemma takes_bind {A B} a (m : JM A) (k : A → JM B) :
  takes a m → (∀ x, pres node_evolves (k x)) → takes a (bind m k).
Proof.
  intros Hm Hk n v n'. unfold bind. destruct (m n) as [[x|e] n1] eqn:Hn; [|done]. intros Hv.
  eapply took_later; [exact (Hk _ _ _ _ Hv)|by eapply Hm].
Qed.
Lemma taker_sync {A} a (m : JM A) : takes a m → taker a (sync m).
Proof.
  intros Hm. constructor; simpl; intros n v n'; destruct (m n) as [r n1] eqn:Hn; [|done].
  intros [= -> <-]. by eapply Hm.
Qed.
Lemma taker_blocking {A} a (m : JM A) : takes a m → taker a (run_blocking m).
Proof.
  intros Hm. constructor; [by intros n v n' [=]|]. intros n t' n' [= <- <-] _.
  constructor; simpl; intros n1 v n1'; destruct (m n1) as [[x|e] n2] eqn:Hn; intros [= <- <-].
  - by rewrite (Hm _ _ _ Hn).
  - intros _. by constructor.
Qed.
(** The slot is taken before the rest of a task. *)
Lemma taker_bind {A B} a (t : Task A) (k : A → Task B) :
  taker a t → (∀ x, task_pres node_evolves (k x)) → taker a (tbind t k).
Proof.
  intros Ht Hk. induction Ht as [t Hv Hw IH]. destruct t as [f]. simpl in Hv, Hw, IH.
  constructor; simpl; intros n v n'; destruct (f n) as [[[x|e]|t1] n1] eqn:Hn; intros Hr;
    try discriminate Hr.
  - eapply took_later; [exact (task_pres_poll _ _ _ _ _ (Hk x) Hr)|exact (Hv _ _ _ Hn)].
  - intros Hf. pose proof (task_pres_poll _ _ _ _ _ (Hk x) Hr) as He.
    rewrite (took_later a n n1 n' He (Hv _ _ _ Hn)) in Hf. discriminate Hf.
  - injection Hr as <- <-. exact (IH _ _ _ Hn).
Qed.
(** The slot is taken in the rest of a task. *)
Lemma taker_sync_then {A B} a (m : JM A) (k : A → Task B) :
  pres node_evolves m → (∀ x, taker a (k x)) → taker a (tbind (sync m) k).
Proof.
  intros Hm Hk. constructor; simpl; intros n v n'; destruct (m n) as [[x|e] n1] eqn:Hn; intros Hr;
    try discriminate Hr; pose proof (Hm _ _ _ Hn) as He.
  - exact (took_earlier _ _ _ _ He (taker_end _ _ _ _ _ (Hk x) Hr)).
  - intros Hf. eapply taker_wait; [apply Hk|exact Hr|]. apply not_true_iff_false. intros Ht.
    rewrite (took_earlier a n n1 n' He Ht) in Hf. discriminate Hf.
Qed.

Lemma take_slot_takes {A} `{Slot A} (r : Ref (option A)) e :
  cell_empty (into_cell (A:=option A) None) = true →
  (∀ x : A, cell_empty (into_cell (Some x)) = false) → takes (address r) (take_slot r e).
Proof.
  intros Hnone Hsome n v n' Hr. apply bind_deref in Hr as [(x & Hx & Hr)|[_ [=]]].
  unfold bind, store, lift in Hr. injection Hr as Ho <-. apply ok_or_Ok in Ho as ->.
  rewrite content_lookup in Hx. apply took_true. unfold emptied. simpl.
  by rewrite Hx, lookup_insert_eq.
Qed.
(** Locking a cell of another type does not undo it. *)
Lemma locked_takes {S A} `{Mutable S} a (r : Ref S) (m : JM A) :
  (∀ (s : S) c, cell_evolves (into_cell s) c → cell_empty c = false) → pres node_evolves m →
  takes a m → ∀ B (k : A → Op S B), (∀ x, pres op_evolves (k x)) →
  takes a (locked r (bind (outside m) k)).
Proof.
  intros Hcell He Hm B k Hk n v n' Hr. apply bind_deref in Hr as [(s & Hs & Hr)|[_ [=]]].
  unfold bind, outside in Hr. simpl in Hr. destruct (m n) as [[x|?] n1] eqn:Hn; [|done].
  destruct (k x (s, n1)) as [o [s' n2]] eqn:Ho. injection Hr as -> <-.
  pose proof (Hk _ _ _ _ Ho) as He2. pose proof (took_later a n n1 n2 He2 (Hm _ _ _ Hn)) as Ht.
  apply took_true in Ht as [H1 H2]. apply took_true. split; [done|].
  unfold emptied in *. simpl. rewrite lookup_insert_ne; [done|]. intros Ha.
  rewrite content_lookup, Ha in Hs. destruct (He _ _ _ Hn _ _ Hs) as (c1 & Hc1 & Hcc1).
  destruct (He2 _ _ Hc1) as (c2 & Hc2 & Hcc2). simpl in Hc2. rewrite Hc2 in H2.
  rewrite (Hcell s c2) in H2; [done|]. by etrans.
Qed.

(** The slot a call takes. *)
Definition taken_slot (c : Call) : option nat :=
  match c with
  | DisposeLease o => Some (address (jl_lease o))
  | OnEnrollment o ECancel => Some (address (jpe_inner o))
  | RootImportOffer o => Some (address (jpr_offer o))
  | RootImportComplete o _ _ => Some (address (jpr_prepared o))
  | MaterialImportOffer o => Some (address (jpm_offer o))
  | MaterialImportComplete o _ _ => Some (address (jpm_prepared o))
  | _ => None
  end.

Ltac slot_takes := apply take_slot_takes; [reflexivity|intros x; reflexivity].
Lemma call_taker c a : taken_slot c = Some a → taker a (call_task c).
Proof.
  intros Ha. destruct c as [| | | | | | | | |o| | | | |o c|o|o tk e|o|o tk e]; try discriminate Ha;
    [|destruct c; try discriminate Ha|..]; injection Ha as <-;
    (apply taker_bind; [|repeat evolve_step]).
  - apply taker_sync, takes_bind; [slot_takes|repeat evolve_step].
  - apply taker_sync_then; [repeat evolve_step|]. intros _. apply taker_blocking.
    apply locked_takes; [by intros s c; inversion 1|repeat evolve_step|slot_takes|repeat evolve_step].
  - apply taker_sync. slot_takes.
  - apply taker_bind; [|repeat evolve_step]. apply taker_sync. slot_takes.
  - apply taker_sync. slot_takes.
  - apply taker_bind; [|repeat evolve_step]. apply taker_sync. slot_takes.
Qed.

(** A call that takes the slot at [a] ended well. *)
Definition took_event (a : nat) (e : Event) : bool :=
  match e with
  | Polled _ c _ _ (Some (Ok _)) => bool_decide (taken_slot c = Some a)
  | _ => false
  end.
Definition took_events (a : nat) (es : list Event) : nat := length (List.filter (took_event a) es).

(** Of the calls under way for the slot, only call [o] can have taken it. *)
Definition takers_but (a : nat) (o : option nat) (l : Loop) : Prop :=
  ∀ id c t, calls_under_way l !! id = Some (c, t) → taken_slot c = Some a → Some id = o ∨ taker a t.
Definition taken_by (o : option nat) : nat := match o with Some _ => 1 | None => 0 end.
Definition once (a : nat) (es : list Event) (l : Loop) : Prop :=
  loop_ok l ∧ ∃ o, takers_but a o l ∧ took_events a es + taken_by o ≤ 1 ∧
    (0 < took_events a es + taken_by o → emptied a (node l) = true).

Lemma took_events_snoc a es e :
  took_events a (es ++ [e]) = took_events a es + (if took_event a e then 1 else 0).
Proof.
  unfold took_events. rewrite List.filter_app, length_app. simpl. by destruct (took_event a e).
Qed.
(** Nothing has taken a slot that holds something. *)
Lemma once_free a es l o :
  took_events a es + taken_by o ≤ 1 → (0 < took_events a es + taken_by o → emptied a (node l) = true) →
  emptied a (node l) = false → took_events a es = 0 ∧ o = None.
Proof.
  intros _ Hemp Hf. destruct o; simpl in *; [rewrite Hemp in Hf by lia; discriminate Hf|].
  split; [|done]. destruct (took_events a es); [done|]. rewrite Hemp in Hf by lia. discriminate Hf.
Qed.
Lemma takers_but_insert a o l n id c t k :
  takers_but a o l → (taken_slot c = Some a → Some id = o ∨ taker a t) →
  takers_but a o {| node := n; calls_under_way := <[id := (c, t)]> (calls_under_way l); next_call := k |}.
Proof.
  intros Hl Ht id' c' t'. simpl. destruct (decide (id' = id)) as [->|Hne].
  - rewrite lookup_insert_eq. intros [= <- <-]. exact Ht.
  - rewrite lookup_insert_ne by done. apply Hl.
Qed.
Lemma takers_but_delete a o l n id k :
  takers_but a o l →
  takers_but a (if decide (o = Some id) then None else o)
    {| node := n; calls_under_way := delete id (calls_under_way l); next_call := k |}.
Proof.
  intros Hl id' c' t'. simpl. intros [Hne Ht]%lookup_delete_Some Hs.
  destruct (Hl _ _ _ Ht Hs) as [<-|?]; [left|by right]. rewrite decide_False by congruence. done.
Qed.

Lemma once_wait a es l id c t t' n :
  once a es l → calls_under_way l !! id = Some (c, t) → resume t (node l) = (inr t', n) →
  node_evolves (node l) n → ∃ o,
    takers_but a o {| node := n; calls_under_way := <[id := (c, t')]> (calls_under_way l);
                      next_call := next_call l |} ∧ took_events a es + taken_by o ≤ 1 ∧
    (0 < took_events a es + taken_by o → emptied a n = true).
Proof.
  intros (Hok & o & Hb & Hle & Hemp) Hc Hr He.
  destruct (decide (taken_slot c = Some a)) as [Hs|Hs].
  - destruct (Hb _ _ _ Hc Hs) as [Ho|Ht]; [|destruct (took a (node l) n) eqn:Htk].
    + exists o. split; [apply takers_but_insert; auto|]. split; [done|]. eauto using emptied_evolves.
    + apply took_true in Htk as [Hf Hn]. destruct (once_free _ _ _ _ Hle Hemp Hf) as [H0 ->].
      exists (Some id). rewrite H0. simpl. split; [|auto].
      apply takers_but_insert; [|auto]. intros id' c' t1 Ht1 Hs1.
      destruct (Hb _ _ _ Ht1 Hs1) as [?|?]; [done|auto].
    + exists o. split; [|split; [done|eauto using emptied_evolves]].
      apply takers_but_insert; [done|]. intros _. right. exact (taker_wait _ _ _ _ _ Ht Hr Htk).
  - exists o. split; [by apply takers_but_insert|]. split; [done|]. eauto using emptied_evolves.
Qed.
Lemma once_end a es l id c t r n :
  once a es l → calls_under_way l !! id = Some (c, t) → resume t (node l) = (inl r, n) →
  node_evolves (node l) n → ∃ o,
    let es' := es ++ [Polled id c (node l) n (Some r)] in
    takers_but a o {| node := n; calls_under_way := delete id (calls_under_way l);
                      next_call := next_call l |} ∧ took_events a es' + taken_by o ≤ 1 ∧
    (0 < took_events a es' + taken_by o → emptied a n = true).
Proof.
  intros (Hok & o & Hb & Hle & Hemp) Hc Hr He. exists (if decide (o = Some id) then None else o).
  cbv zeta. split; [by apply takers_but_delete|]. rewrite took_events_snoc. simpl.
  assert (Hkeep : ∀ m, m ≤ taken_by o → took_events a es + 0 + m ≤ 1 ∧
    (0 < took_events a es + 0 + m → emptied a n = true)).
  { intros m Hm. split; [lia|]. intros Hpos. eapply emptied_evolves; [exact He|]. apply Hemp. lia. }
  assert (Hless : taken_by (if decide (o = Some id) then None else o) ≤ taken_by o).
  { destruct (decide (o = Some id)); simpl; lia. }
  destruct r as [v|e]; [|by apply Hkeep]. case_bool_decide as Hs; [|by apply Hkeep].
  destruct (Hb _ _ _ Hc Hs) as [<-|Ht].
  - rewrite decide_True by done. simpl in *. split; [lia|]. intros _.
    eapply emptied_evolves; [exact He|]. apply Hemp. lia.
  - pose proof (taker_end _ _ _ _ _ Ht Hr) as [Hf Hn]%took_true.
    destruct (once_free _ _ _ _ Hle Hemp Hf) as [H0 ->]. rewrite H0. simpl. split; [lia|done].
Qed.

Lemma once_step a es l e l' : once a es l → loop_step l e l' → once a (es ++ [e]) l'.
Proof.
  intros Hl Hs. pose proof Hl as (Hok & o & Hb & Hle & Hemp).
  pose proof (loop_step_evolves _ _ _ Hok Hs) as He. split; [by eapply loop_step_ok|].
  destruct Hs as [c l|id c t t' n l Hc Hr|id c t r n l Hc Hr|p w l|b l].
  - exists o. rewrite took_events_snoc, Nat.add_0_r. split; [|done].
    apply takers_but_insert; [done|]. intros Hc. right. by apply call_taker.
  - rewrite took_events_snoc, Nat.add_0_r. by eapply once_wait.
  - by eapply once_end.
  - exists o. by rewrite took_events_snoc, Nat.add_0_r.
  - exists o. rewrite took_events_snoc, Nat.add_0_r. split; [done|]. split; [done|]. intros Hp.
    eapply emptied_evolves; [exact He|by apply Hemp].
Qed.

Lemma once_start a n : once a [] (fresh_loop n).
Proof.
  split; [apply fresh_loop_ok|]. exists None. split; [|simpl; lia].
  intros id c t. simpl. by rewrite lookup_empty.
Qed.

(** C26. In every interleaving of calls, each one-time object serves one call: of all the calls
    that complete a prepared import, read an offer, cancel an enrollment session or dispose
    a lease, at most one per object ends without an error. *)
Theorem one_time_objects n es l a :
  loop_run (fresh_loop n) es l → took_events a es ≤ 1.
Proof.
  intros Hr. assert (once a es l) as (_ & o & _ & Hle & _); [|lia].
  apply (loop_invariant (once a) _ _ _ Hr); [apply once_step|apply once_start].
Qed.
End Loop.
