(* ===== verification/NodeGate.v ===== *)
(** * The lease gate of the Node binding

    Every operation that a consumer reaches through a lease first finds the lease in its slot,
    known to the authority, not expired, and granting the capability of the operation. *)

From stdpp Require Import base strings list gmap.
From S2P Require Import Prelude Json Errors Records Env World Identity Managed DocumentChange.
From S2P Require Import IdentityTransition Store ProviderAuthorization ProviderAuthorizationFacts.
From S2P Require Import Host SealedHandoff RootTransfer NodeHeap Node NodeProvider NodeSystem NodeFacts.

(** ** The authority's answers *)

Section Authority.
Context `{HE : Env, HA : AuthEnv}.

(** The authority knows the lease, it has not expired and it grants the capability. *)
Definition lease_grants (a : ProviderAuthorization) (lease : ProviderCapabilityLease) (cap : string)
    (now : Z) : Prop :=
  pcl_provider_instance_id lease = provider_instance_id a ∧
  ∃ parent, leases a !! pcl_lease_id lease = Some parent ∧
    (now < ls_expires_at parent)%Z ∧ cap ∈ ls_capabilities parent.

(** The machine is as before, but for readings of the clock and random draws. *)
Definition same_disk (w w' : World) : Prop := disk w' = disk w ∧ io w' = io w.
#[export] Instance same_disk_preorder : PreOrder same_disk.
Proof. split; [done|]. intros x y z [? ?] [? ?]. split; congruence. Qed.

(** A question to the authority: it changes nothing, and a good answer needs the lease. *)
Definition asks_lease {A} (lease : ProviderCapabilityLease) (cap : string) (m : AM A) : Prop :=
  ∀ a w r x, m (a, w) = (r, x) →
    x.1 = a ∧ same_disk w x.2 ∧ match r with Ok _ => lease_grants a lease cap (time w) | Err _ => True end.

Lemma authorize_asks lease cap : asks_lease lease cap (authorize lease cap).
Proof.
  intros a w r x. unfold authorize, bind, authority, sguard, rguard, lift, ok_or, of_world. simpl.
  destruct (negb (bool_decide _)) eqn:Hi; simpl; [by intros [= <- <-]|].
  destruct (is_empty _); simpl; [by intros [= <- <-]|].
  destruct (leases a !! _) as [parent|] eqn:Hp; simpl; [|by intros [= <- <-]].
  fold (time w). destruct (_ <=? time w)%Z eqn:He; simpl; [by intros [= <- <-]|].
  destruct (negb (bool_decide (cap ∈ _))) eqn:Hc; intros [= <- <-]; [done|].
  rewrite negb_false_iff, bool_decide_eq_true in Hi, Hc. apply Z.leb_gt in He.
  split; [done|]. split; [done|]. split; [done|]. eauto.
Qed.

Lemma issue_asks lease b ttl :
  asks_lease lease (ob_capability b) (issue_one_time_with_context lease b ttl).
Proof.
  intros a w r x. unfold issue_one_time_with_context. rewrite unix_now_run.
  unfold issue_one_time_with_context_at, bind, authority, sguard, rguard, lift, ok_or. simpl.
  destruct (validate_binding b); simpl; [|by intros [= <- <-]].
  destruct (negb (bool_decide _)) eqn:Hi; simpl; [by intros [= <- <-]|].
  destruct (negb (in_range _ _ _)); simpl; [by intros [= <- <-]|].
  destruct (leases a !! _) as [parent|] eqn:Hp; simpl; [|by intros [= <- <-]].
  destruct (_ <=? time w)%Z eqn:He; simpl; [by intros [= <- <-]|].
  destruct (negb (bool_decide (_ ∈ _))) eqn:Hc; simpl; [by intros [= <- <-]|].
  rewrite negb_false_iff, bool_decide_eq_true in Hi, Hc. apply Z.leb_gt in He.
  destruct (canonical_json _); simpl; intros [= <- <-]; [|done].
  split; [done|]. split; [done|]. split; [done|]. eauto.
Qed.
Lemma issue_one_time_asks lease b ttl :
  asks_lease lease (ob_capability b) (issue_one_time lease b ttl).
Proof.
  intros a w r x. unfold issue_one_time, issue_one_time_at. rewrite unix_now_run.
  unfold bind. destruct (issue_one_time_with_context_at _ _ _ _ _) as [o [a1 w1]] eqn:Hi.
  pose proof (issue_asks lease b ttl a w o (a1, w1)) as H.
  unfold issue_one_time_with_context in H. rewrite unix_now_run in H. specialize (H Hi).
  destruct o; simpl; intros [= <- <-]; exact H.
Qed.
End Authority.

(** ** Guarded computations and tasks *)

(** Nothing has happened to the heap, the platform and the disk. *)
Definition untouched (n n' : Node) : Prop :=
  heap n' = heap n ∧ node_platform n' = node_platform n ∧ same_disk (node_world n) (node_world n').
#[export] Instance untouched_preorder : PreOrder untouched.
Proof.
  split; [done|]. intros x y z (? & ? & H1) (? & ? & H2).
  split; [congruence|]. split; [congruence|by etrans].
Qed.

(** A computation that does nothing but fail unless [P] holds where it starts. *)
Definition guarded_m {A} (P : Node → Prop) (m : JM A) : Prop :=
  ∀ n r n', m n = (r, n') → P n ∨ is_ok r = false ∧ untouched n n'.
(** A task that waits or fails, and does nothing else, up to a poll at which [P] holds. *)
Inductive guarded {A} (P : Node → Prop) : Task A → Prop :=
  | guarded_intro t :
      (∀ n r n', resume t n = (inl r, n') → ¬ P n → is_ok r = false) →
      (∀ n o n', resume t n = (o, n') → ¬ P n → untouched n n') →
      (∀ n t' n', resume t n = (inr t', n') → ¬ P n → guarded P t') → guarded P t.

Section Guarded.
Context (P : Node → Prop).

Lemma guarded_m_bind {A B} (m : JM A) (k : A → JM B) :
  guarded_m P m → guarded_m P (bind m k).
Proof.
  intros Hm n r n'. unfold bind. destruct (m n) as [[a|e] n1] eqn:Hn; destruct (Hm _ _ _ Hn) as [?|[? ?]];
    auto; [done|]. intros [= <- <-]. auto.
Qed.
Lemma guarded_fail {A} e : guarded P (sync (A:=A) (lift (Err e))).
Proof.
  constructor; simpl.
  - by intros n r n' [= <- <-].
  - intros n o n' [= <- <-] _. reflexivity.
  - intros n t' n' [=].
Qed.
Lemma guarded_sync {A} (m : JM A) : guarded_m P m → guarded P (sync m).
Proof.
  intros Hm. constructor; simpl; intros n o n'; destruct (m n) as [r n1] eqn:Hn;
    intros [= <- <-] HP; by destruct (Hm _ _ _ Hn) as [?|[? ?]].
Qed.
Lemma guarded_blocking {A} (m : JM A) : guarded_m P m → guarded P (run_blocking m).
Proof.
  intros Hm. constructor; simpl; [by intros n r n' [=]| |].
  - intros n o n' [= <- <-] _. reflexivity.
  - intros n t' n' [= <- <-] _. constructor; simpl; intros n1 o n1'; destruct (m n1) as [r n2] eqn:Hn;
      intros [= <- <-] HP; destruct (Hm _ _ _ Hn) as [?|[Hr Hu]]; try contradiction; [done|].
    destruct r as [v|e]; [discriminate Hr|]. apply guarded_fail.
Qed.
Lemma guarded_bind {A B} (t : Task A) (k : A → Task B) : guarded P t → guarded P (tbind t k).
Proof.
  intros Ht. induction Ht as [t Hf Hu Hw IH]. destruct t as [f]. simpl in Hf, Hu, Hw, IH.
  constructor; simpl; intros n o n'; destruct (f n) as [[[a|e]|t1] n1] eqn:Hn; intros Hr HP;
    try (discriminate (Hf _ _ _ Hn HP)); try (injection Hr as <- <-); try discriminate Hr.
  - reflexivity.
  - exact (Hu _ _ _ Hn HP).
  - exact (Hu _ _ _ Hn HP).
  - exact (IH _ _ _ Hn HP).
Qed.
Lemma guarded_pure {A B} (r : result NapiError A) (k : A → Task B) :
  (∀ a, r = Ok a → guarded P (k a)) → guarded P (tbind (sync (lift r)) k).
Proof.
  intros Hk. destruct r as [a|e]; [|apply guarded_bind, guarded_fail].
  specialize (Hk a eq_refl). remember (k a) as t eqn:Hka. destruct Hk as [t Hf Hu Hw].
  constructor; simpl; rewrite <-Hka; [exact Hf|exact Hu|exact Hw].
Qed.
End Guarded.

(** ** What a call needs *)

Section Calls.
Context `{HE : Env, HA : AuthEnv, HS : SealedEnv, HD : Serde}.

(** The lease in the slot grants a capability. *)
Definition grants (authorization : Ref ProviderAuthorization)
    (slot : Ref (option ProviderCapabilityLease)) (cap : string) (n : Node) : Prop :=
  ∃ lease a, content (heap n) slot = Some (Some lease) ∧ content (heap n) authorization = Some a ∧
             lease_grants a lease cap (time (node_world n)).

Definition binding_capability {E} (r : result E OneTimeOperationBinding) : option string :=
  match r with Ok b => Some (ob_capability b) | Err _ => None end.

(** The capability an operation of a lease needs.  That of a sealed operation is the one of the
    binding of its token: an import binds the recipient that is drawn for it. *)
Definition lease_capability (o : JsProviderLease) (c : LeaseCall) (n : Node) : option string :=
  let k := draws (node_world n) in
  match c with
  | LInfo | LRecover | LList | LPublicIdentity _ | LHostStatus _ | LRecoverIdentity _
  | LVerify _ _ => Some capability.IDENTITY_READ
  | LCreate _ | LBeginDeviceEnrollment _ | LBeginRequestSigningEnrollment _ | LResumeEnrollment _ =>
      Some capability.IDENTITY_CREATE
  | LDelete _ => Some capability.IDENTITY_DELETE
  | LSign _ _ | LSignOriginProof _ _ | LSignObjectProof _ _ | LSignDocumentProof _ _ =>
      Some capability.IDENTITY_SIGN
  | LPrepareHttpSignature _ | LPrepareLegacyDidWba _ _ _ _ =>
      Some capability.IDENTITY_HTTP_SIGNATURE
  | LPrepareChange _ _ | LResumeChange _ | LPrepareTransition _ | LResumeTransition _
  | LAdopt _ _ | LAdoptSibling _ _ => Some capability.IDENTITY_DOCUMENT_UPDATE
  | LImportWrappedRoot _ _ | LConfirmRootPromotion _ _ | LSignPendingRoot _ _ =>
      Some capability.AWIKI_LEGACY_ROOT_TRANSFER_V1
  | LEcdhSealed q =>
      binding_capability (sealed_key_agreement_binding (identity_ref_of (jka_identity q)) (jka_kid q)
        (jka_peer_public q) (jka_recipient_public_key q) (jka_request_id q))
  | LExportRoot q =>
      binding_capability (sealed_root_export_binding (identity_ref_of (jre_identity q)) (jre_kid q)
        (jre_recipient_public_key q) (jre_request_id q) (jre_user_presence_confirmed q))
  | LPrepareRootImport q =>
      match from_value de_root_evidence (jri_evidence q), root_encoding (jri_encoding q) with
      | Ok evidence, Ok encoding =>
          binding_capability (sealed_root_import_binding
            {| sri_identity := identity_ref_of (jri_identity q); sri_evidence := evidence;
               sri_encoding := encoding; sri_request_id := jri_request_id q |}
            (recipient_public (generate_recipient k)))
      | _, _ => None
      end
  | LPrepareMaterialImport q =>
      match content (heap n) (jl_manager o), from_value de_remote_document (jii_remote q),
            from_value de_material_keys (jii_keys q) with
      | Some m, Ok remote, Ok keys =>
          match get_str (vrd_document remote) "id" with
          | Some d =>
              binding_capability (sealed_identity_material_import_binding
                {| ref_store_id := manager_store_id m;
                   ref_identity_id := b64url_encode (random_bytes k 16); ref_did := d |}
                {| smi_remote := remote; smi_did_wba := jii_did_wba q; smi_keys := keys;
                   smi_request_id := jii_request_id q |}
                (recipient_public (generate_recipient (S k))))
          | None => None
          end
      | _, _, _ => None
      end
  end.
Definition enrollment_capability (c : EnrollmentCall) : string :=
  match c with
  | EProposal => capability.IDENTITY_READ
  | ESignDeviceAssertion _ => capability.IDENTITY_SIGN
  | EDeriveSealed _ => capability.IDENTITY_ECDH_SEALED
  | EActivate _ => capability.IDENTITY_DOCUMENT_UPDATE
  | ECancel => capability.IDENTITY_CREATE
  end.

(** The authority and the slot of the lease a call is made under, and the capability it needs. *)
Definition call_lease (c : Call)
    : option (Ref ProviderAuthorization * Ref (option ProviderCapabilityLease)) :=
  match c with
  | OnLease o _ => Some (jl_authorization o, jl_lease o)
  | OnProviderChange o _ | ProviderChangePhase o => Some (jpd_authorization o, jpd_lease o)
  | OnProviderTransition o _ => Some (jpt_authorization o, jpt_lease o)
  | OnEnrollment o _ => Some (jpe_authorization o, jpe_lease o)
  | _ => None
  end.
Definition call_capability (c : Call) (n : Node) : option string :=
  match c with
  | OnLease o c => lease_capability o c n
  | OnProviderChange _ _ | ProviderChangePhase _ | OnProviderTransition _ _ =>
      Some capability.IDENTITY_DOCUMENT_UPDATE
  | OnEnrollment _ c => Some (enrollment_capability c)
  | _ => None
  end.
(** The lease of the call grants at [n] what the call needs. *)
Definition granted (c : Call) (n : Node) : Prop :=
  ∃ authorization slot cap, call_lease c = Some (authorization, slot) ∧
    call_capability c n = Some cap ∧ grants authorization slot cap n.

(** ** Guards *)

Lemma ask_guarded {A} (P : Node → Prop) authorization slot cap
    (f : ProviderCapabilityLease → AM A) :
  (∀ lease, asks_lease lease cap (f lease)) → (∀ n, grants authorization slot cap n → P n) →
  guarded_m P (let! lease := lease_in slot in with_authorization authorization (f lease)).
Proof.
  intros Hf HP n r n' Hr. unfold lease_in, with_authorization, bind, deref, lift in Hr.
  destruct (content (heap n) slot) as [[lease|]|] eqn:Hl; simpl in Hr;
    [|injection Hr as <- <-; right; by split..].
  destruct (content (heap n) authorization) as [a|] eqn:Ha; simpl in Hr;
    [|injection Hr as <- <-; right; by split].
  destruct (f lease (a, node_world n)) as [o [a' w']] eqn:Ho. injection Hr as <- <-.
  destruct (Hf lease _ _ _ _ Ho) as (Ha' & Hw & Hg). simpl in Ha', Hw. subst a'.
  destruct o as [v|e]; [left; apply HP; exists lease, a; auto|right]. split; [done|].
  split; [|split; [done|exact Hw]]. simpl. apply insert_id.
  rewrite content_lookup in Ha. exact Ha.
Qed.

Lemma authorize_guarded (P : Node → Prop) authorization slot cap :
  (∀ n, grants authorization slot cap n → P n) →
  guarded_m P (authorize_provider_lease authorization slot cap).
Proof. intros HP. apply (ask_guarded P _ _ cap); [intros lease; apply authorize_asks|done]. Qed.
Lemma with_authorized_guarded {A} (P : Node → Prop) o cap (op : Op DidStore A) :
  (∀ n, grants (jl_authorization o) (jl_lease o) cap n → P n) →
  guarded P (with_authorized o cap op).
Proof.
  intros HP. apply guarded_bind, guarded_sync, (ask_guarded P _ _ cap); [|done].
  intros lease. apply authorize_asks.
Qed.
Lemma issue_guarded (P : Node → Prop) o b :
  (∀ n, grants (jl_authorization o) (jl_lease o) (ob_capability b) n → P n) →
  guarded_m P (lease_issue_one_time o b).
Proof.
  intros HP. apply (ask_guarded P _ _ (ob_capability b)); [|done].
  intros lease. apply issue_one_time_asks.
Qed.

(** Preparing an import asks for a token first. *)
Definition prepares {S A} (lease : ProviderCapabilityLease) (cap : S → World → option string)
    (m : XM S A) : Prop :=
  ∀ s a w r x, m (s, a, w) = (r, x) →
    (∃ c, cap s w = Some c ∧ lease_grants a lease c (time w)) ∨
    is_ok r = false ∧ x.1 = (s, a) ∧ same_disk w x.2.

Lemma issue_then {S A} lease b ttl (k : IssuedOneTimeAuthorization → XM S A) (s : S) a w r x :
  bind (with_authority (issue_one_time_with_context lease b ttl)) k (s, a, w) = (r, x) →
  lease_grants a lease (ob_capability b) (time w) ∨
  is_ok r = false ∧ x.1 = (s, a) ∧ same_disk w x.2.
Proof.
  unfold bind, with_authority. simpl.
  destruct (issue_one_time_with_context _ _ _ _) as [o [a1 w1]] eqn:Hi.
  destruct (issue_asks _ _ _ _ _ _ _ Hi) as (Ha & Hw & Hg). simpl in Ha, Hw. subst a1.
  destruct o as [v|e]; simpl; [by left|]. intros [= <- <-]. by right.
Qed.

Lemma prepare_root_import_prepares {S} lease p ttl :
  prepares (S:=S) lease (λ _ w, binding_capability
      (sealed_root_import_binding p (recipient_public (generate_recipient (draws w)))))
    (prepare_root_import lease p ttl).
Proof.
  intros s a w r x. unfold prepare_root_import. unfold bind at 1. simpl. unfold bind at 1, lift at 1.
  destruct (sealed_root_import_binding _ _) as [b|e]; simpl;
    [|intros [= <- <-]; by right].
  intros [Hg|Hf]%issue_then; [left; eauto|right]. exact Hf.
Qed.
Lemma prepare_material_prepares lease p ttl :
  prepares lease (λ m w, match get_str (vrd_document (smi_remote p)) "id" with
      | Some d => binding_capability (sealed_identity_material_import_binding
          {| ref_store_id := manager_store_id m;
             ref_identity_id := b64url_encode (random_bytes (draws w) 16); ref_did := d |} p
          (recipient_public (generate_recipient (S (draws w)))))
      | None => None
      end) (prepare_identity_material_import lease p ttl).
Proof.
  intros s a w r x. unfold prepare_identity_material_import. unfold bind at 1, lift at 1, ok_or at 1.
  destruct (get_str _ "id") as [d|]; simpl; [|intros [= <- <-]; by right].
  do 3 (unfold bind at 1; simpl). unfold bind at 1, lift at 1.
  destruct (sealed_identity_material_import_binding _ _ _) as [b|e]; simpl;
    [|intros [= <- <-]; by right].
  intros [Hg|Hf]%issue_then; [left; eauto|right]. exact Hf.
Qed.

(** A preparation under the lease of a slot, with the state of the call at hand. *)
Lemma sealed_guarded {S A} lease cap (m : XM S A) authorization (s : S) n r s' n' :
  prepares lease cap m → sealed authorization m (s, n) = (r, (s', n')) →
  (∃ c a, cap s (node_world n) = Some c ∧ content (heap n) authorization = Some a ∧
          lease_grants a lease c (time (node_world n))) ∨
  is_ok r = false ∧ s' = s ∧ untouched n n'.
Proof.
  intros Hm. unfold sealed, bind, outside, deref, ok_or. simpl.
  destruct (content (heap n) authorization) as [a|] eqn:Ha; simpl;
    [|intros [= <- <- <-]; by right].
  destruct (m (s, a, node_world n)) as [o [[s1 a1] w1]] eqn:Ho. intros [= <- <- <-].
  destruct (Hm _ _ _ _ _ Ho) as [(c & Hc & Hg)|(Hf & [= -> ->] & Hw)]; [left; eauto|right].
  split; [by destruct o|]. split; [done|]. split; [|split; [done|exact Hw]].
  simpl. apply insert_id. rewrite content_lookup in Ha. exact Ha.
Qed.
Lemma prepare_owned_guarded {A} (P : Node → Prop) o cap (m : ProviderCapabilityLease → XM unit A) :
  (∀ lease, prepares lease cap (m lease)) →
  (∀ n c, cap tt (node_world n) = Some c → grants (jl_authorization o) (jl_lease o) c n → P n) →
  guarded_m P (with_lease o (λ lease, owned tt (sealed (jl_authorization o) (m lease)))).
Proof.
  intros Hm HP n r n' Hr. unfold with_lease, lease_in, bind, deref, lift in Hr.
  destruct (content (heap n) (jl_lease o)) as [[lease|]|] eqn:Hl; simpl in Hr;
    [|injection Hr as <- <-; right; by split..].
  unfold owned in Hr. destruct (sealed _ _ _) as [x [[] n1]] eqn:Hs. injection Hr as <- <-.
  destruct (sealed_guarded _ _ _ _ _ _ _ _ _ (Hm lease) Hs) as [(c & a & Hc & Ha & Hg)|(Hf & _ & Hu)];
    [left|by right]. eapply HP; [exact Hc|]. exists lease, a. auto.
Qed.
Lemma prepare_locked_guarded {A} (P : Node → Prop) o cap
    (m : ProviderCapabilityLease → XM DidStore A) :
  (∀ lease, prepares lease cap (m lease)) →
  (∀ n s c, content (heap n) (jl_manager o) = Some s → cap s (node_world n) = Some c →
     grants (jl_authorization o) (jl_lease o) c n → P n) →
  guarded_m P (let! lease := lease_in (jl_lease o) in
               locked (jl_manager o) (sealed (jl_authorization o) (m lease))).
Proof.
  intros Hm HP n r n' Hr. unfold lease_in, locked, bind, deref, lift in Hr.
  destruct (content (heap n) (jl_lease o)) as [[lease|]|] eqn:Hl; simpl in Hr;
    [|injection Hr as <- <-; right; by split..].
  destruct (content (heap n) (jl_manager o)) as [s|] eqn:Hs; simpl in Hr;
    [|injection Hr as <- <-; right; by split].
  destruct (sealed _ _ _) as [x [s1 n1]] eqn:Hx. injection Hr as <- <-.
  destruct (sealed_guarded _ _ _ _ _ _ _ _ _ (Hm lease) Hx)
    as [(c & a & Hc & Ha & Hg)|(Hf & -> & Hh & Hp & Hw)].
  - left. eapply HP; [exact Hs|exact Hc|]. exists lease, a. auto.
  - right. split; [done|]. split; [|done]. simpl. rewrite Hh. apply insert_id.
    rewrite content_lookup in Hs. exact Hs.
Qed.

(** ** Every call under a lease is guarded *)

Lemma granted_lease o c n cap :
  lease_capability o c n = Some cap → grants (jl_authorization o) (jl_lease o) cap n →
  granted (OnLease o c) n.
Proof. intros Hc Hg. exists (jl_authorization o), (jl_lease o), cap. auto. Qed.
Lemma fixed_public_key_Ok b f x : fixed_public_key b f = Ok x → x = b.
Proof. unfold fixed_public_key. case_bool_decide; [by intros [= <-]|done]. Qed.
Lemma map_err_Ok {E F A} (f : E → F) (r : result E A) a : map_err f r = Ok a → r = Ok a.
Proof. destruct r; [|done]. by intros [= ->]. Qed.

Ltac guard_step :=
  lazymatch goal with
  | |- guarded _ (replies _ _) => apply guarded_bind
  | |- guarded _ (tbind (sync (lift _)) _) => apply guarded_pure; intros ? ?
  | |- guarded _ (tbind _ _) => apply guarded_bind
  | |- guarded _ (with_authorized _ _ _) =>
      apply with_authorized_guarded; intros n; apply granted_lease; reflexivity
  | |- guarded _ (sync _) => apply guarded_sync
  | |- guarded _ (run_blocking _) => apply guarded_blocking
  | |- guarded _ ?t => unfold_head t
  end.

Ltac guard_requests :=
  repeat match goal with
         | H : fixed_public_key _ _ = Ok _ |- _ => apply fixed_public_key_Ok in H; subst
         | H : map_err _ _ = Ok _ |- _ => apply map_err_Ok in H
         end.
Lemma lease_task_guarded o c : guarded (granted (OnLease o c)) (lease_task o c).
Proof.
  destruct c; repeat guard_step; guard_requests.
  - apply issue_guarded. intros n. apply granted_lease. simpl.
    match goal with H : sealed_key_agreement_binding _ _ _ _ _ = _ |- _ => by rewrite H end.
  - apply issue_guarded. intros n. apply granted_lease. simpl.
    match goal with H : sealed_root_export_binding _ _ _ _ _ = _ |- _ => by rewrite H end.
  - eapply prepare_owned_guarded; [intros lease; apply prepare_root_import_prepares|].
    intros n cap Hc. apply granted_lease. simpl.
    repeat match goal with H : _ = Ok _ |- _ => rewrite H; clear H end. exact Hc.
  - eapply prepare_locked_guarded; [intros lease; apply prepare_material_prepares|].
    intros n s cap Hs Hc. apply granted_lease. simpl. rewrite Hs.
    repeat match goal with H : _ = Ok _ |- _ => rewrite H; clear H end. exact Hc.
Qed.

Lemma change_guarded {A} o c (op : Op DidIdentity A) :
  call_lease c = Some (jpd_authorization o, jpd_lease o) →
  (∀ n, call_capability c n = Some capability.IDENTITY_DOCUMENT_UPDATE) →
  guarded (granted c) (with_provider_change o op).
Proof.
  intros Hl Hc. apply guarded_bind, guarded_sync, authorize_guarded. intros n Hg.
  exists (jpd_authorization o), (jpd_lease o), capability.IDENTITY_DOCUMENT_UPDATE. auto.
Qed.
Lemma transition_guarded {A} o c (op : Op IdentityTransitionSession A) :
  call_lease c = Some (jpt_authorization o, jpt_lease o) →
  (∀ n, call_capability c n = Some capability.IDENTITY_DOCUMENT_UPDATE) →
  guarded (granted c) (with_provider_transition o op).
Proof.
  intros Hl Hc. apply guarded_bind, guarded_sync, authorize_guarded. intros n Hg.
  exists (jpt_authorization o), (jpt_lease o), capability.IDENTITY_DOCUMENT_UPDATE. auto.
Qed.
Lemma enrollment_authorize_guarded o c :
  guarded_m (granted (OnEnrollment o c))
    (authorize_provider_lease (jpe_authorization o) (jpe_lease o) (enrollment_capability c)).
Proof.
  apply authorize_guarded. intros n Hg.
  exists (jpe_authorization o), (jpe_lease o), (enrollment_capability c). auto.
Qed.

Lemma call_guarded c : call_lease c ≠ None → guarded (granted c) (call_task c).
Proof.
  destruct c as [| | | | | | | | | |o c|o c|o|o c|o c| | | |]; try (intros []; reflexivity); intros _.
  - apply lease_task_guarded.
  - destruct c; repeat (apply change_guarded; [done|done] || guard_step).
  - repeat (apply change_guarded; [done|done] || guard_step).
  - destruct c; repeat (apply transition_guarded; [done|done] || guard_step).
  - destruct c; repeat guard_step;
      [exact (enrollment_authorize_guarded o EProposal)
      |exact (enrollment_authorize_guarded o (ESignDeviceAssertion payload))
      |exact (enrollment_authorize_guarded o (EDeriveSealed q))
      |exact (enrollment_authorize_guarded o (EActivate remote))
      |exact (enrollment_authorize_guarded o ECancel)].
Qed.
End Calls.

(** ** Interleavings *)

Lemma guarded_end {A} P (t : Task A) n v n' :
  guarded P t → resume t n = (inl (Ok v), n') → ¬ P n → False.
Proof. destruct 1 as [t Hf _ _]. intros Hr HP. discriminate (Hf _ _ _ Hr HP). Qed.
Lemma guarded_poll {A} P (t : Task A) n o n' :
  guarded P t → resume t n = (o, n') → ¬ P n → untouched n n'.
Proof. destruct 1 as [t _ Hu _]. apply Hu. Qed.
Lemma guarded_wait {A} P (t t' : Task A) n n' :
  guarded P t → resume t n = (inr t', n') → ¬ P n → guarded P t'.
Proof. destruct 1 as [t _ _ Hw]. apply Hw. Qed.

Section Loop.
Context `{HE : Env, HA : AuthEnv, HS : SealedEnv, HD : Serde}.

#[local] Instance lease_grants_dec a lease cap now : Decision (lease_grants a lease cap now).
Proof.
  unfold lease_grants. apply and_dec; [apply _|].
  destruct (leases a !! pcl_lease_id lease) as [p|]; [|right; by intros (? & ? & _)].
  destruct (decide ((now < ls_expires_at p)%Z ∧ cap ∈ ls_capabilities p)) as [Hd|Hd];
    [left; naive_solver|right; naive_solver].
Defined.
#[local] Instance grants_dec authorization slot cap n : Decision (grants authorization slot cap n).
Proof.
  unfold grants. destruct (content (heap n) slot) as [[lease|]|] eqn:Hl; [|right; naive_solver..].
  destruct (content (heap n) authorization) as [a|] eqn:Ha; [|right; naive_solver].
  destruct (decide (lease_grants a lease cap (time (node_world n)))); [left|right]; naive_solver.
Defined.
#[export] Instance granted_dec c n : Decision (granted c n).
Proof.
  unfold granted. destruct (call_lease c) as [[authorization slot]|]; [|right; naive_solver].
  destruct (call_capability c n) as [cap|]; [|right; naive_solver].
  destruct (decide (grants authorization slot cap n)); [left|right]; naive_solver.
Defined.

(** A call was let through: a poll of it found its lease granting what it needs. *)
Definition let_through (id : nat) (c : Call) (es : list Event) : Prop :=
  ∃ n n' o, Polled id c n n' o ∈ es ∧ granted c n.
(** Calls under a lease that were not let through are still guarded. *)
Definition gated (es : list Event) (l : Loop) : Prop :=
  loop_ok l ∧ ∀ id c t, calls_under_way l !! id = Some (c, t) → call_lease c ≠ None →
    let_through id c es ∨ guarded (granted c) t.

Lemma let_through_mono id c es es' : es ⊆ es' → let_through id c es → let_through id c es'.
Proof. intros Hs (n & n' & o & Hin & Hg). exists n, n', o. split; [by apply Hs|done]. Qed.

Lemma gated_step es l e l' : gated es l → loop_step l e l' → gated (es ++ [e]) l'.
Proof.
  intros [Hok Hg] Hs. split; [by eapply loop_step_ok|].
  assert (Hm : ∀ id c, let_through id c es → let_through id c (es ++ [e])).
  { intros id c. apply let_through_mono. set_solver. }
  destruct Hs as [c l|id c t t' n l Hc Hr|id c t r n l Hc Hr|p w l|b l]; intros id1 c1 t1 Ht1 Hl;
    simpl in Ht1; try (destruct (Hg _ _ _ Ht1 Hl); auto; done).
  - destruct (decide (id1 = next_call l)) as [->|Hne].
    + rewrite lookup_insert_eq in Ht1. injection Ht1 as <- <-. right. by apply call_guarded.
    + rewrite lookup_insert_ne in Ht1 by done. destruct (Hg _ _ _ Ht1 Hl); auto.
  - destruct (decide (id1 = id)) as [->|Hne].
    + rewrite lookup_insert_eq in Ht1. injection Ht1 as <- <-.
      destruct (decide (granted c (node l))) as [Hgr|Hgr].
      * left. exists (node l), n, None. split; [set_solver|done].
      * destruct (Hg _ _ _ Hc Hl) as [Hp|Hgd]; [auto|right]. by eapply guarded_wait.
    + rewrite lookup_insert_ne in Ht1 by done. destruct (Hg _ _ _ Ht1 Hl); auto.
  - apply lookup_delete_Some in Ht1 as [_ Ht1]. destruct (Hg _ _ _ Ht1 Hl); auto.
Qed.

Lemma gated_run n es l : loop_run (fresh_loop n) es l → gated es l.
Proof.
  intros Hr. apply (loop_invariant gated _ _ _ Hr); [apply gated_step|].
  split; [apply fresh_loop_ok|]. intros id c t. simpl. by rewrite lookup_empty.
Qed.

(** Everything a call can show for itself: a result without error, or a change of the heap,
    the platform or the disk. *)
Definition effective (e : Event) : Prop :=
  match e with
  | Polled _ _ n n' o => ¬ untouched n n' ∨ ∃ v, o = Some (Ok v)
  | _ => False
  end.

Lemma gated_event es l id c n n' o l' :
  gated es l → loop_step l (Polled id c n n' o) l' → call_lease c ≠ None →
  let_through id c es ∨ granted c n ∨ ¬ effective (Polled id c n n' o).
Proof.
  intros [Hok Hg] Hs Hl. destruct (decide (granted c n)) as [|Hn]; [auto|].
  inversion Hs as [|? ? t t' ? ? Hc Hr|? ? t r ? ? Hc Hr| |]; subst;
    (destruct (Hg _ _ _ Hc Hl) as [Hp|Hgd]; [by left|right; right]); simpl;
    intros [Hu|[v Hv]]; try discriminate Hv.
  - apply Hu. by eapply guarded_poll.
  - apply Hu. by eapply guarded_poll.
  - injection Hv as ->. by eapply guarded_end.
Qed.

Lemma loop_run_split l es1 e es2 l' :
  loop_run l (es1 ++ e :: es2) l' → ∃ l1 l2, loop_run l es1 l1 ∧ loop_step l1 e l2.
Proof.
  revert l'. induction es2 as [|x es2 IH] using rev_ind; intros l' Hr.
  - inversion Hr as [|l0 es0 l1 e0 l2 Hr0 Hs Heq]; subst; [by destruct es1|].
    match goal with H : _ ++ [_] = es1 ++ [e] |- _ => apply app_inj_tail in H as [-> ->] end. eauto.
  - rewrite app_comm_cons, app_assoc in Hr.
    inversion Hr as [|l0 es0 l1 e0 l2 Hr0 Hs Heq]; [by destruct (es1 ++ e :: es2)|]; subst.
    match goal with H : _ ++ [_] = _ ++ [x] |- _ => apply app_inj_tail in H as [-> ->] end. eauto.
Qed.

(** C24. In every interleaving of calls, whatever a call under a lease shows for itself (a result
    without error, a change of the disk or of any object) comes at or after a poll of it that
    found its lease in its slot, known to the authority, unexpired, and granting the
    capability that the operation needs. *)
Theorem lease_gate n0 es1 id c n n' o es2 l :
  loop_run (fresh_loop n0) (es1 ++ Polled id c n n' o :: es2) l → call_lease c ≠ None →
  effective (Polled id c n n' o) → granted c n ∨ let_through id c es1.
Proof.
  intros Hr Hl He. apply loop_run_split in Hr as (l1 & l2 & Hr & Hs).
  destruct (gated_event _ _ _ _ _ _ _ _ (gated_run _ _ _ Hr) Hs Hl) as [?|[?|[]]]; auto.
Qed.

(** ** Revocation *)

Lemma emptied_not_granted authorization slot c n :
  call_lease c = Some (authorization, slot) → emptied (address slot) n = true → ¬ granted c n.
Proof.
  intros Hl He (a & s & cap & Hl' & _ & lease & au & Hs & _). rewrite Hl in Hl'. injection Hl' as -> ->.
  rewrite content_lookup in Hs. unfold emptied in He. by rewrite Hs in He.
Qed.
Lemma dispose_empties n0 es l id o n n' v :
  loop_run (fresh_loop n0) es l → Polled id (DisposeLease o) n n' (Some (Ok v)) ∈ es →
  emptied (address (jl_lease o)) (node l) = true.
Proof.
  intros Hr Hin. set (a := address (jl_lease o)).
  assert (once a es l) as (_ & ow & _ & _ & Hemp).
  { apply (loop_invariant (once a) _ _ _ Hr); [apply once_step|]. apply once_start. }
  apply Hemp. apply list_elem_of_split in Hin as (es1 & es2 & ->).
  unfold took_events. rewrite List.filter_app, length_app. simpl. rewrite bool_decide_true by done.
  simpl. lia.
Qed.

Lemma loop_run_app l es1 l1 es2 l2 :
  loop_run l es1 l1 → loop_run l1 es2 l2 → loop_run l (es1 ++ es2) l2.
Proof.
  intros H1 H2. induction H2 as [l1|l1 es l' e l'' Hr IH Hs]; [by rewrite app_nil_r|].
  rewrite app_assoc. econstructor; eauto.
Qed.
Lemma polled_before l id c n n' o l' : loop_step l (Polled id c n n' o) l' → node l = n.
Proof. by inversion 1. Qed.
Lemma revoked_not_granted n0 es1 l1 es2 l2 id0 o n1 n1' v authorization id c n n' r :
  loop_run (fresh_loop n0) es1 l1 → Polled id0 (DisposeLease o) n1 n1' (Some (Ok v)) ∈ es1 →
  loop_run l1 es2 l2 → Polled id c n n' r ∈ es2 →
  call_lease c = Some (authorization, jl_lease o) → ¬ granted c n.
Proof.
  intros H1 Hd H2 (p & q & ->)%list_elem_of_split Hl.
  apply loop_run_split in H2 as (lp & lq & Hp & Hs). rewrite <-(polled_before _ _ _ _ _ _ _ Hs).
  eapply emptied_not_granted; [exact Hl|].
  eapply dispose_empties; [exact (loop_run_app _ _ _ _ _ H1 Hp)|]. apply elem_of_app. by left.
Qed.

(** C25. Disposing a lease is final.  Once a call of [dispose] has ended without an error, no call
    under the lease that had not been let through before then, on the lease itself or on
    any session made through it, started already or later, ever changes anything or ends
    without an error, in whatever interleaving with other calls. *)
Theorem dispose_revokes n0 es1 l1 es2 l2 id0 o n1 n1' v authorization id c n n' r :
  loop_run (fresh_loop n0) es1 l1 → Polled id0 (DisposeLease o) n1 n1' (Some (Ok v)) ∈ es1 →
  loop_run l1 es2 l2 → Polled id c n n' r ∈ es2 →
  call_lease c = Some (authorization, jl_lease o) → ¬ let_through id c es1 →
  ¬ effective (Polled id c n n' r).
Proof.
  intros H1 Hd H2 Hin Hl Hlet He.
  assert (Hng : ∀ m m' x, Polled id c m m' x ∈ es2 → ¬ granted c m).
  { intros m m' x Hx. exact (revoked_not_granted _ _ _ _ _ _ _ _ _ _ _ _ _ _ _ _ H1 Hd H2 Hx Hl). }
  apply list_elem_of_split in Hin as Hsp. destruct Hsp as (p & q & ->).
  apply loop_run_split in H2 as (lp & lq & Hp & Hs).
  destruct (gated_event _ _ _ _ _ _ _ _ (gated_run _ _ _ (loop_run_app _ _ _ _ _ H1 Hp)) Hs)
    as [(m & m' & x & [Hm|Hm]%elem_of_app & Hg)|[Hg|[]]]; [congruence|..|done].
  - apply Hlet. by exists m, m', x.
  - eapply (Hng m m' x); [|exact Hg]. apply elem_of_app. by left.
  - exact (Hng _ _ _ Hin Hg).
Qed.
End Loop.
