(* ===== verification/NodeSpec.v ===== *)
(** * What single calls of the Node binding do

    The code of an error reaches JavaScript, and an injected root key leaves its buffer. *)

From stdpp Require Import base strings list gmap.
From S2P Require Import Prelude Json Errors Records Env World Identity Managed DocumentChange.
From S2P Require Import IdentityTransition Store ProviderAuthorization ProviderAuthorizationFacts.
From S2P Require Import Host SealedHandoff RootTransfer NodeHeap Node NodeProvider NodeSystem NodeFacts.
From S2P Require Import NodeGate.
From Stdlib Require Import Ascii.

(** ** Errors *)

Lemma error_code_match_here text m :
  strip_prefix "ANP_IDENTITY_CODE:" text ≫= match_code = Some m → error_code_match text = Some m.
Proof.
  intros Hm. destruct text as [|a text]; unfold error_code_match; fold error_code_match;
    by rewrite Hm.
Qed.
Lemma js_error_match code message :
  is_empty code = false → contains_char ":"%char code = false →
  error_code_match (reason (js_error code message)) = Some (code, message).
Proof.
  intros Hne Hc.
  assert (match_code (code +:+ ":" +:+ message)%string = Some (code, message)) as Hm.
  { unfold match_code. change (":" +:+ message)%string with (String ":" message).
    by rewrite split_once_app, Hne. }
  apply error_code_match_here. unfold js_error, reason. by rewrite strip_prefix_app.
Qed.

(** The code of every error of the library reaches a JavaScript program: the wrapper reads
    from the text of a mapped error exactly the code and the message it was made of, and
    different errors of the facade, and of the authority, have different codes. *)
Theorem error_codes_roundtrip :
  (∀ e, error_code_match (reason (map_error e)) = Some (identity_error_code e, identity_error_text e)) ∧
  (∀ e, error_code_match (reason (map_authorization_error e))
        = Some (authorization_error_code e, authorization_error_text e)) ∧
  (∀ e, error_code_match (reason (map_sealed_error e))
        = Some (sealed_error_code e, sealed_error_text e)) ∧
  Inj (=) (=) identity_error_code ∧ Inj (=) (=) authorization_error_code.
Proof.
  split; [by intros []; apply js_error_match|]. split; [by intros []; apply js_error_match|].
  split; [by intros []; apply js_error_match|].
  split; intros [] []; (reflexivity || discriminate).
Qed.

(** ** The root key of a configuration *)

Lemma content_insert `{Stored A} h (r : Ref A) a : content (<[address r := into_cell a]> h) r = Some a.
Proof. apply content_lookup. apply lookup_insert_eq. Qed.

Lemma zeroize_run r b n :
  content (heap n) r = Some b →
  zeroize r n = (Ok tt, set_heap (<[address r := BufferCell (zeros (String.length b))]> (heap n)) n).
Proof. intros Hb. unfold zeroize, bind, deref. by rewrite Hb. Qed.

Lemma consume_root_key_run r b n :
  content (heap n) r = Some b →
  consume_root_key r n
  = (if decide (String.length b = 32) then Ok b
     else Err (js_error "invalid_request" "root key must contain exactly 32 bytes"),
     set_heap (<[address r := BufferCell (zeros (String.length b))]> (heap n)) n).
Proof.
  intros Hb. pose proof (zeroize_run r b n Hb) as Hz. unfold consume_root_key.
  unfold bind at 1. unfold deref. rewrite Hb. unfold ok_or.
  destruct (decide (String.length b = 32)) as [Hl|Hl].
  - rewrite bool_decide_true by done. unfold negb, bind. by rewrite Hz.
  - rewrite bool_decide_false by done. unfold negb, bind. by rewrite Hz.
Qed.

(** C27. The injected root key of a configuration that names its key identifier is overwritten
    in its buffer as soon as it is read, whether it is accepted or refused for its length;
    the key that is used is what the buffer held, and nothing else changes. *)
Theorem injected_key_consumed c key_id buffer b n r n' :
  jc_root_key_kind c = "injected"%string → jc_key_id c = Some key_id →
  jc_root_key c = Some buffer → content (heap n) buffer = Some b → manager_config c n = (r, n') →
  content (heap n') buffer = Some (zeros (String.length b)) ∧
  n' = set_heap (<[address buffer := BufferCell (zeros (String.length b))]> (heap n)) n ∧
  r = if decide (String.length b = 32) then Ok (jc_state_root c, InjectedKey key_id b)
      else Err (js_error "invalid_request" "root key must contain exactly 32 bytes").
Proof.
  intros Hk Hid Hr Hb. unfold manager_config. rewrite Hk, Hid, Hr, bool_decide_true by done.
  pose proof (content_insert (heap n) buffer (zeros (String.length b))) as Hz. simpl in Hz.
  unfold bind, lift, required, ok_or. rewrite (consume_root_key_run _ _ _ Hb).
  by destruct (decide _); intros [= <- <-].
Qed.

(** Without a key identifier the configuration is refused before the buffer is looked at, and
    the key stays in it. *)
Theorem key_left_without_identifier c n :
  jc_root_key_kind c = "injected"%string → jc_key_id c = None →
  manager_config c n = (Err (js_error "invalid_request" "keyId is required"), n).
Proof. intros Hk Hid. unfold manager_config. by rewrite Hk, Hid, bool_decide_true. Qed.
