(* ===== verification/NodeScenario.v ===== *)
(** * A concrete run of the Node binding

    A host makes a store with an injected key, gives a consumer a lease that may read, the
    consumer uses it, the host disposes it, and a later call of the consumer fails.  The
    witnesses of the theorems about the binding run in it. *)

From stdpp Require Import base strings list gmap.
From S2P Require Import Prelude Json Errors Records Env Toy Base64 World Identity Managed DocumentChange.
From S2P Require Import IdentityTransition Store ProviderAuthorization ProviderAuthorizationFacts HostToy.
From S2P Require Import Host SealedHandoff RootTransfer SealedScenario.
From S2P Require Import NodeHeap Node NodeProvider NodeSystem NodeFacts NodeGate NodeSpec.

(** ** Running the event loop *)

Inductive Command := Start (c : Call) | PollCall (id : nat) | NewBuffer (b : string).

Section Run.
Context `{HE : Env, HA : AuthEnv, HS : SealedEnv, HD : Serde}.

Definition command_step (l : Loop) (x : Command) : Event * Loop :=
  match x with
  | Start c => (Started (next_call l) c (node l), {| node := node l;
      calls_under_way := <[next_call l := (c, call_task c)]> (calls_under_way l);
      next_call := S (next_call l) |})
  | PollCall id =>
      match calls_under_way l !! id with
      | None => (Other, l)
      | Some (c, t) =>
          match resume t (node l) with
          | (inr t', n) => (Polled id c (node l) n None, {| node := n;
              calls_under_way := <[id := (c, t')]> (calls_under_way l); next_call := next_call l |})
          | (inl r, n) => (Polled id c (node l) n (Some r), {| node := n;
              calls_under_way := delete id (calls_under_way l); next_call := next_call l |})
          end
      end
  | NewBuffer b => (Other, {| node := (alloc b (node l)).2; calls_under_way := calls_under_way l;
      next_call := next_call l |})
  end.
Lemma command_step_step l x : loop_step l (command_step l x).1 (command_step l x).2.
Proof.
  destruct x as [c|id|b]; simpl; [constructor| |constructor].
  destruct (calls_under_way l !! id) as [[c t]|] eqn:Ht.
  - destruct (resume t (node l)) as [[r|t'] n] eqn:Hr; by econstructor.
  - destruct l as [[h p w] u k]. apply (loop_outside p w {| node := {| heap := h; node_platform := p;
      node_world := w |}; calls_under_way := u; next_call := k |}).
Defined.
Fixpoint command_run (l : Loop) (xs : list Command) : list Event * Loop :=
  match xs with
  | [] => ([], l)
  | x :: xs => let s := command_step l x in
               let r := command_run s.2 xs in (s.1 :: r.1, r.2)
  end.
Lemma command_run_run l xs : loop_run l (command_run l xs).1 (command_run l xs).2.
Proof.
  revert l. induction xs as [|x xs IH]; intros l; simpl; [constructor|].
  assert (loop_run l ([] ++ [(command_step l x).1]) (command_step l x).2) as H1.
  { econstructor; [constructor|apply command_step_step]. }
  exact (loop_run_app _ _ _ _ _ H1 (IH _)).
Defined.
End Run.

(** ** The host *)

(** Requests are not needed, and replies are empty. *)
Definition toy_serde : Serde := {|
  de_create_request _ := None; de_transition_request _ := None; de_change_request _ := None;
  de_attempt _ := None; de_publication_result _ := None; de_remote_document _ := None;
  de_transition_attempt _ := None; de_transition_result _ := None; de_observation _ := None;
  de_object_proof _ := None; de_document_proof _ := None; de_device_enrollment _ := None;
  de_request_signing_enrollment _ := None; de_wrapped_root _ := None; de_root_promotion _ := None;
  de_pending_root_proof _ := None; de_root_evidence _ := None; de_material_keys _ := None;
  de_envelope _ := None; de_envelopes _ := None; ser_store_info _ := Some Null;
  ser_descriptors _ := Some Null; ser_recovery_report _ := Some Null;
  ser_public_identity _ := Some Null; ser_origin_proof _ := Some Null;
  ser_change_candidate _ := Some Null; ser_change_attempt _ := Some Null;
  ser_change_outcome _ := Some Null; ser_change_phase _ := Some Null;
  ser_transition_candidate _ := Some Null; ser_transition_attempt _ := Some Null;
  ser_transition_outcome _ := Some Null; ser_host_status _ := Some Null;
  ser_http_signature _ := Some Null; ser_convergence _ := Some Null; ser_delivery _ := Some Null;
  ser_proposal _ := Some Null; ser_authorization_context _ := Some Null |}.

Definition empty_node : Node := {|
  heap := ∅;
  node_platform := {| key_files := ∅; keyring_available := false; keyring_writable := false;
                      keyring_entries := ∅; env_vars := ∅ |};
  node_world := {| disk := empty_disk; io := NoFault; draws := 0; ticks := 0 |} |}.
Definition key_config : JsIdentityManagerConfig :=
  {| jc_state_root := "store"; jc_root_key_kind := "injected"; jc_key_id := Some "host"%string;
     jc_environment_variable := None; jc_root_key := Some (Loc 0); jc_service := None;
     jc_account := None; jc_fallback_to_local_file := None |}.
Definition setup : list Command :=
  [NewBuffer (zeros 31 +:+ "k")%string; Start (InitializeProvider key_config); PollCall 0; PollCall 0;
   PollCall 0].
Abbreviation host_run := (@command_run host_env host_auth host_sealed toy_serde).

Definition find_reply {A} (f : Reply → option A) (es : list Event) : option A :=
  find_map (λ e, match e with Polled _ _ _ _ (Some (Ok v)) => f v | _ => None end) es.
Definition replies_of (es : list Event) : list (nat * bool) :=
  omap (λ e, match e with Polled id _ _ _ (Some r) => Some (id, is_ok r) | _ => None end) es.

Definition provider : JsIdentityProvider :=
  default {| jp_manager := Loc 0; jp_authorization := Loc 0; jp_store_id := "" |}
    (find_reply (λ v, match v with RProvider o => Some o | _ => None end)
       (host_run (fresh_loop empty_node) setup).1).
Definition read_lease : JsProviderLeaseRequest :=
  {| jlr_consumer := "viewer"; jlr_capabilities := [capability.IDENTITY_READ];
     jlr_ttl_seconds := 600 |}.
Definition lease_setup : list Command := setup ++ [Start (AcquireLease provider read_lease); PollCall 1].
Definition viewer : JsProviderLease :=
  default {| jl_manager := Loc 0; jl_authorization := Loc 0; jl_lease := Loc 0 |}
    (find_reply (λ v, match v with RLease o => Some o | _ => None end)
       (host_run (fresh_loop empty_node) lease_setup).1).
(** Call 2 asks for the list of identities and is let through; before it goes on, call 3 disposes
    the lease. *)
Definition before_dispose : list Command :=
  lease_setup ++ [Start (OnLease viewer LList); PollCall 2; Start (DisposeLease viewer)].
Definition until_dispose : list Command := before_dispose ++ [PollCall 3].
(** Call 2 goes on and ends; calls 4 and 5 of the consumer come too late. *)
Definition after_dispose : list Command :=
  [PollCall 2; Start (OnLease viewer LList); PollCall 4; PollCall 2; Start (DisposeLease viewer);
   PollCall 5].

Abbreviation run1 := (host_run (fresh_loop empty_node) until_dispose).
Abbreviation run2 := (host_run (host_run (fresh_loop empty_node) until_dispose).2 after_dispose).
Abbreviation whole := (until_dispose ++ after_dispose).
Abbreviation run_all := (host_run (fresh_loop empty_node) (until_dispose ++ after_dispose)).

Lemma scenario_replies :
  replies_of run_all.1 = [(0, true); (1, true); (3, true); (4, false); (2, true); (5, false)].
Proof. vm_compute. reflexivity. Qed.

Lemma all_runs : @loop_run host_env host_auth host_sealed toy_serde (fresh_loop empty_node)
  run_all.1 run_all.2.
Proof. apply command_run_run. Defined.

Lemma one_time_objects_witness :
  took_events (address (jl_lease viewer)) run_all.1 ≤ 1 ∧
  took_events (address (jl_lease viewer)) run_all.1 = 1.
Proof.
  split; [|vm_compute; reflexivity].
  exact (@one_time_objects host_env host_auth host_sealed toy_serde _ _ _ _ all_runs).
Defined.

(** ** Events of the run *)

Lemma find_event (f : Event → bool) es :
  existsb f es = true → ∃ es1 e es2, es = es1 ++ e :: es2 ∧ f e = true.
Proof.
  intros (e & Hin & He)%existsb_exists. apply list_elem_of_In, list_elem_of_split in Hin as (es1 & es2 & ->). eauto.
Defined.
Lemma not_let_through `{Env, SealedEnv, Serde} id c es :
  forallb (λ e, match e with Polled id' _ _ _ _ => negb (id' =? id) | _ => true end) es = true →
  ¬ let_through id c es.
Proof.
  rewrite forallb_forall. intros Hf (n & n' & o & Hin & _). apply list_elem_of_In, Hf in Hin.
  by rewrite Nat.eqb_refl in Hin.
Defined.
Lemma ref_eq {A} (r s : Ref A) : address r = address s → r = s.
Proof. destruct r, s. simpl. by intros ->. Defined.

Lemma mid_elem {A} (x : A) l k : x ∈ l ++ x :: k.
Proof. apply elem_of_app. right. left. Defined.

(** A call on the lease of the viewer that ended well. *)
Definition viewer_success (e : Event) : bool :=
  match e with Polled _ (OnLease _ _) _ _ (Some (Ok _)) => true | _ => false end.
Definition viewer_dispose (e : Event) : bool :=
  match e with
  | Polled _ (DisposeLease o) _ _ (Some (Ok _)) => address (jl_lease o) =? address (jl_lease viewer)
  | _ => false
  end.
Definition viewer_late (e : Event) : bool :=
  match e with
  | Polled id (OnLease o _) _ _ (Some _) => (id =? 4) && (address (jl_lease o) =? address (jl_lease viewer))
  | _ => false
  end.

Lemma lease_gate_witness : ∃ es1 id o c n n' v es2,
  run_all.1 = es1 ++ Polled id (OnLease o c) n n' (Some (Ok v)) :: es2 ∧
  (@granted host_env host_sealed toy_serde (OnLease o c) n ∨
   @let_through host_env host_sealed toy_serde id (OnLease o c) es1).
Proof.
  destruct (find_event viewer_success run_all.1) as (es1 & e & es2 & Hes & He); [vm_compute; reflexivity|].
  destruct e as [|id c n n' [[v|]|]|]; try discriminate He; destruct c as [| | | | | | | | | |o c| | | | | | | |];
    try discriminate He.
  exists es1, id, o, c, n, n', v, es2. split; [exact Hes|].
  assert (@loop_run host_env host_auth host_sealed toy_serde (fresh_loop empty_node)
    (es1 ++ Polled id (OnLease o c) n n' (Some (Ok v)) :: es2) run_all.2) as Hr.
  { rewrite <-Hes. exact all_runs. }
  refine (@lease_gate host_env host_auth host_sealed toy_serde empty_node es1 id (OnLease o c) n n'
    (Some (Ok v)) es2 run_all.2 Hr _ _); [discriminate|]. right. exists v. reflexivity.
Defined.

Lemma dispose_revokes_witness : ∃ c n n' r,
  Polled 4 c n n' r ∈ run2.1 ∧ ¬ effective (Polled 4 c n n' r).
Proof.
  destruct (find_event viewer_dispose run1.1) as (p1 & e1 & q1 & Hd & He1); [vm_compute; reflexivity|].
  destruct (find_event viewer_late run2.1) as (p2 & e2 & q2 & Hl & He2); [vm_compute; reflexivity|].
  destruct e1 as [|id0 c0 n1 n1' [[v|]|]|]; try discriminate He1;
    destruct c0 as [| | | | | | | | |o| | | | | | | | |]; try discriminate He1.
  destruct e2 as [|id c n n' [r|]|]; try discriminate He2;
    destruct c as [| | | | | | | | | |o2 c| | | | | | | |]; try discriminate He2.
  simpl in He1, He2. apply andb_true_iff in He2 as [Hid Ho2]. apply Nat.eqb_eq in Hid as ->.
  apply Nat.eqb_eq, ref_eq in Ho2. apply Nat.eqb_eq, ref_eq in He1.
  assert (Polled 4 (OnLease o2 c) n n' (Some r) ∈ run2.1) as Hin.
  { rewrite Hl. apply mid_elem. }
  exists (OnLease o2 c), n, n', (Some r). split; [exact Hin|].
  refine (@dispose_revokes host_env host_auth host_sealed toy_serde empty_node run1.1 run1.2 run2.1 run2.2
    id0 o n1 n1' v (jl_authorization o2) 4 (OnLease o2 c) n n' (Some r) _ _ _ Hin _ _).
  - apply command_run_run.
  - rewrite Hd. apply mid_elem.
  - apply command_run_run.
  - simpl. by rewrite Ho2, He1.
  - apply not_let_through. vm_compute. reflexivity.
Defined.

(** ** Single calls *)

Definition keyed_node : Node := (alloc (zeros 31 +:+ "k")%string empty_node).2.
Lemma injected_key_consumed_witness :
  content (heap (manager_config key_config keyed_node).2) (Loc 0 : Ref string) = Some (zeros 32) ∧
  (manager_config key_config keyed_node).1 = Ok ("store"%string, InjectedKey "host" (zeros 31 +:+ "k")).
Proof.
  destruct (injected_key_consumed key_config "host" (Loc 0) (zeros 31 +:+ "k")%string keyed_node _ _
    eq_refl eq_refl eq_refl eq_refl (surjective_pairing (manager_config key_config keyed_node)))
    as (Hz & _ & Hr). split; [exact Hz|exact Hr].
Defined.

