(* ===== verification/Files.v ===== *)
(** * Files and directories (fs_util.rs)

    The operating system under the store: directory entries that name inodes, what a power
    loss may leave of both, and system calls each of which can work, fail (with all, part or
    none of its effect) or be the last one before the process dies.  [write_atomic_private] is
    modelled call by call.  The theorems show that it has exactly the outcomes of [durable],
    the one-step model every other file of the development builds on, and that what a power
    loss leaves of its target is never a torn file.

    Lock.v models the lock file that [open_private_lock_file] opens. *)

From stdpp Require Import base strings list gmap pretty.
From S2P Require Import Prelude Errors Records Env Toy World.
Local Open Scope N_scope.

(** ** The file system *)

Record Inode := { ino_data : string; ino_synced : bool; ino_mode : N }.

(** A directory and a name in it. *)
Abbreviation Entry := (string * string)%type.

(** [fs_names] are the entries a process sees.  [fs_stale] are the values an entry had since
    its directory was last synced: a power loss may bring any of them back. *)
Record Fs := {
  fs_dirs : gmap string N;
  fs_inodes : gmap N Inode;
  fs_names : gmap Entry N;
  fs_stale : gmap Entry (gset (option N));
  fs_next : N }.

Definition stale_of (fs : Fs) (e : Entry) : gset (option N) := default ∅ (fs_stale fs !! e).

Definition set_dirs (f : gmap string N → gmap string N) (fs : Fs) : Fs :=
  {| fs_dirs := f (fs_dirs fs); fs_inodes := fs_inodes fs; fs_names := fs_names fs;
     fs_stale := fs_stale fs; fs_next := fs_next fs |}.
Definition set_inode (i : N) (ino : Inode) (fs : Fs) : Fs :=
  {| fs_dirs := fs_dirs fs; fs_inodes := <[i := ino]> (fs_inodes fs); fs_names := fs_names fs;
     fs_stale := fs_stale fs; fs_next := N.max (fs_next fs) (i + 1) |}.
(** Change an entry: its old value is what the device still has. *)
Definition set_entry (e : Entry) (o : option N) (fs : Fs) : Fs :=
  {| fs_dirs := fs_dirs fs; fs_inodes := fs_inodes fs;
     fs_names := partial_alter (λ _, o) e (fs_names fs);
     fs_stale := <[e := {[fs_names fs !! e]} ∪ stale_of fs e]> (fs_stale fs);
     fs_next := fs_next fs |}.

(** What a process reads. *)
Definition read_file (e : Entry) (fs : Fs) : option Inode :=
  i ← fs_names fs !! e; fs_inodes fs !! i.
Definition content (e : Entry) (fs : Fs) : option string := ino_data <$> read_file e fs.

(** What may be read after a power loss: an entry that was not synced may be an older one, a
    file that was not synced may hold anything. *)
Definition survives (e : Entry) (fs : Fs) (c : option string) : Prop :=
  ∃ o, (o = fs_names fs !! e ∨ o ∈ stale_of fs e) ∧
    match o with
    | None => c = None
    | Some i => ∃ ino s, fs_inodes fs !! i = Some ino ∧ c = Some s ∧
                  (ino_synced ino = true → s = ino_data ino)
    end.

(** ** System calls *)

Inductive Event := Works | Fails (effect : nat) | Dies (effect : nat).
Inductive Stop := Failed (e : DidError) | Died.

(** [m_sequence] is [TEMP_FILE_SEQUENCE]; without events left every call works. *)
Record Machine := { m_fs : Fs; m_events : list Event; m_sequence : N; m_pid : N }.
Abbreviation FM := (ST Machine Stop).

Definition set_fs (fs : Fs) (w : Machine) : Machine :=
  {| m_fs := fs; m_events := m_events w; m_sequence := m_sequence w; m_pid := m_pid w |}.
Definition next_event (w : Machine) : Event * Machine :=
  match m_events w with
  | [] => (Works, w)
  | e :: l => (e, {| m_fs := m_fs w; m_events := l; m_sequence := m_sequence w;
                     m_pid := m_pid w |})
  end.

Section Calls.
Context `{Env}.

Definition io_error {A} : FM A := fail (Failed (Io os_error)).

(** A call that works is [act], where [None] is a refusal; a call that is cut short leaves
    [partial]. *)
Definition call {A} (act : Fs → option (A * Fs)) (partial : nat → Fs → Fs) : FM A := λ w,
  let (event, w) := next_event w in
  match event with
  | Works => match act (m_fs w) with
             | Some (a, fs) => (Ok a, set_fs fs w)
             | None => io_error w
             end
  | Fails n => io_error (set_fs (partial n (m_fs w)) w)
  | Dies n => (Err Died, set_fs (partial n (m_fs w)) w)
  end.
(** A call with the whole effect or none. *)
Definition atomic_call {A} (act : Fs → option (A * Fs)) : FM A :=
  call act (λ n fs, match n, act fs with S _, Some (_, fs') => fs' | _, _ => fs end).

(** [fs::create_dir_all]. *)
Definition create_dir_all (dir : string) : FM unit :=
  atomic_call (λ fs, Some (tt, if decide (is_Some (fs_dirs fs !! dir)) then fs
                               else set_dirs (<[dir := 493]>) fs)).
(** [fs::set_permissions] of a directory and of a file. *)
Definition set_dir_mode (dir : string) (mode : N) : FM unit :=
  atomic_call (λ fs, _ ← fs_dirs fs !! dir; Some (tt, set_dirs (<[dir := mode]>) fs)).
Definition set_file_mode (e : Entry) (mode : N) : FM unit :=
  atomic_call (λ fs, i ← fs_names fs !! e; ino ← fs_inodes fs !! i;
    Some (tt, set_inode i {| ino_data := ino_data ino; ino_synced := ino_synced ino;
                             ino_mode := mode |} fs)).
(** [OpenOptions::create_new]: the handle is the new inode. *)
Definition create_new (e : Entry) (mode : N) : FM N :=
  atomic_call (λ fs, match fs_names fs !! e with
    | Some _ => None
    | None => Some (fs_next fs, set_entry e (Some (fs_next fs))
        (set_inode (fs_next fs)
           {| ino_data := EmptyString; ino_synced := false; ino_mode := mode |} fs))
    end).
Definition append (h : N) (b : string) (fs : Fs) : Fs :=
  match fs_inodes fs !! h with
  | Some ino => set_inode h {| ino_data := (ino_data ino +:+ b)%string; ino_synced := false;
                               ino_mode := ino_mode ino |} fs
  | None => fs
  end.
(** [write_all]: a cut leaves a prefix. *)
Definition write_all (h : N) (b : string) : FM unit :=
  call (λ fs, Some (tt, append h b fs)) (λ n, append h (String.substring 0 n b)).
(** [File::sync_all]. *)
Definition sync_all (h : N) : FM unit :=
  atomic_call (λ fs, ino ← fs_inodes fs !! h;
    Some (tt, set_inode h {| ino_data := ino_data ino; ino_synced := true;
                             ino_mode := ino_mode ino |} fs)).
Definition rename (e e' : Entry) : FM unit :=
  atomic_call (λ fs, i ← fs_names fs !! e;
    Some (tt, set_entry e None (set_entry e' (Some i) fs))).
Definition remove_file (e : Entry) : FM unit :=
  atomic_call (λ fs, _ ← fs_names fs !! e; Some (tt, set_entry e None fs)).
(** [sync_all] of an open directory. *)
Definition sync_entries (dir : string) (fs : Fs) : Fs :=
  {| fs_dirs := fs_dirs fs; fs_inodes := fs_inodes fs; fs_names := fs_names fs;
     fs_stale := filter (λ x, x.1.1 ≠ dir) (fs_stale fs); fs_next := fs_next fs |}.
Definition open_dir (dir : string) : FM unit :=
  atomic_call (λ fs, _ ← fs_dirs fs !! dir; Some (tt, fs)).
Definition sync_dir (dir : string) : FM unit :=
  atomic_call (λ fs, Some (tt, sync_entries dir fs)).
(** [Path::exists]: an error counts as absent. *)
Definition try_call {A} (m : FM A) : FM (result DidError A) := λ w,
  match m w with
  | (Ok a, w') => (Ok (Ok a), w')
  | (Err (Failed e), w') => (Ok (Err e), w')
  | (Err Died, w') => (Err Died, w')
  end.
Definition path_exists (e : Entry) : FM bool :=
  let! r := try_call (atomic_call (λ fs, _ ← fs_names fs !! e; Some (tt, fs))) in
  ret (is_ok r).

(** ** fs_util.rs *)

(** A path: its parent directory and its file name, which may not be valid UTF-8.  The two
    paths without a parent, the root and the empty path, have themselves as name. *)
Record Path := { parent : option string; file_name : string; name_is_utf8 : bool }.
Definition entry_of (dir : string) (p : Path) : Entry := (dir, file_name p).

Definition set_private_dir_mode (dir : string) : FM unit := set_dir_mode dir 448.
Definition set_private_file_mode (e : Entry) : FM unit := set_file_mode e 384.
Definition create_private_file (e : Entry) : FM N := create_new e 384.

Definition ensure_private_dir (dir : string) : FM unit :=
  do! create_dir_all dir; set_private_dir_mode dir.

Definition temporary_name (name : string) (pid sequence : N) : string :=
  ("." +:+ name +:+ "." +:+ pretty pid +:+ "." +:+ pretty sequence +:+ ".tmp")%string.
Definition temporary_path (dir : string) (p : Path) : FM Entry := λ w,
  let name := if name_is_utf8 p then file_name p else "record"%string in
  (Ok (dir, temporary_name name (m_pid w) (m_sequence w)),
   {| m_fs := m_fs w; m_events := m_events w; m_sequence := m_sequence w + 1;
      m_pid := m_pid w |}).

Definition sync_directory (dir : string) : FM unit :=
  do! try_call (do! open_dir dir; sync_dir dir); ret tt.

(** [OpenOptions] without [create_new] and without truncation, and the file of a lock. *)
Definition open_lock_file (e : Entry) : FM N :=
  atomic_call (λ fs, match fs_names fs !! e with
    | Some i => Some (i, fs)
    | None => Some (fs_next fs, set_entry e (Some (fs_next fs))
        (set_inode (fs_next fs)
           {| ino_data := EmptyString; ino_synced := false; ino_mode := 384 |} fs))
    end).
Definition open_private_lock_file (e : Entry) : FM N :=
  do! ensure_private_dir e.1;
  let! file := open_lock_file e in
  do! set_private_file_mode e;
  ret file.

(** The closure of [write_atomic_private]. *)
Definition replace_file (dir : string) (target temporary : Entry) (b : string) : FM unit :=
  let! file := create_private_file temporary in
  do! write_all file b;
  do! sync_all file;
  do! rename temporary target;
  do! set_private_file_mode target;
  sync_directory dir.

Definition write_atomic_private (p : Path) (b : string) : FM unit :=
  let! dir := lift (ok_or (parent p) (Failed (Io "target has no parent directory"))) in
  do! ensure_private_dir dir;
  let! temporary := temporary_path dir p in
  let! r := try_call (replace_file dir (entry_of dir p) temporary b) in
  do! try_call (remove_file temporary);
  lift (map_err Failed r).

Definition write_private_if_absent (p : Path) (b : string) : FM bool :=
  let! there := match parent p with
                | Some dir => path_exists (entry_of dir p)
                | None => ret (negb (is_empty (file_name p)))
                end in
  if there : bool then ret false else do! write_atomic_private p b; ret true.

(** [remove_if_exists] of registry.rs and [remove_file] of keystore.rs: a file that is not
    there is no error. *)
Definition remove_if_exists (e : Entry) : FM unit :=
  atomic_call (λ fs, Some (tt, if decide (is_Some (fs_names fs !! e)) then set_entry e None fs
                               else fs)).
End Calls.

(** ** Reasoning about system calls *)

Definition ftriple {A} (P : Fs → Prop) (m : FM A) (Q : A → Fs → Prop) (X : Fs → Prop) : Prop :=
  triple (λ w, P (m_fs w)) m (λ a w, Q a (m_fs w)) (λ w, X (m_fs w)).

Section CallRules.
Context `{Env}.

Lemma next_event_fs w : m_fs (next_event w).2 = m_fs w.
Proof. unfold next_event. by destruct (m_events w). Qed.

Lemma ftriple_call {A} (act : Fs → option (A * Fs)) partial (P X : Fs → Prop) Q :
  (∀ fs a fs', P fs → act fs = Some (a, fs') → Q a fs') →
  (∀ n fs, P fs → X (partial n fs)) → (∀ fs, P fs → X fs) →
  ftriple P (call act partial) Q X.
Proof.
  intros HQ Hp HX w r w' HP. unfold call, io_error, fail. pose proof (next_event_fs w) as Hw.
  destruct (next_event w) as [[|n|n] w1]; simpl in Hw |- *; rewrite Hw;
    [destruct (act (m_fs w)) as [[a fs]|] eqn:Ea|..]; intros [= <- <-]; simpl; eauto.
  rewrite Hw. auto.
Qed.

Lemma ftriple_atomic {A} (act : Fs → option (A * Fs)) (P X : Fs → Prop) Q :
  (∀ fs a fs', P fs → act fs = Some (a, fs') → Q a fs' ∧ X fs') → (∀ fs, P fs → X fs) →
  ftriple P (atomic_call act) Q X.
Proof.
  intros HQ HX. apply ftriple_call; [|intros [|n] fs HP|done].
  - intros fs a fs' HP Ha. by apply (HQ fs a fs').
  - auto.
  - destruct (act fs) as [[a fs']|] eqn:Ea; [|auto]. by apply (HQ fs a fs').
Qed.

Lemma ftriple_try {A} (m : FM A) (P : Fs → Prop) Q (X : Fs → Prop) :
  ftriple P m Q X →
  ftriple P (try_call m) (λ r fs, match r with Ok a => Q a fs | Err _ => X fs end) X.
Proof.
  intros Hm w r w' HP. unfold try_call.
  destruct (m w) as [[a|[e|]] w1] eqn:Em; intros [= <- <-];
    exact (Hm w _ w1 HP Em).
Qed.

Lemma ftriple_bind {A B} (P X : Fs → Prop) (m : FM A) (k : A → FM B) R Q :
  ftriple P m R X → (∀ a, ftriple (R a) (k a) Q X) → ftriple P (bind m k) Q X.
Proof. apply triple_bind. Qed.

Lemma ftriple_conseq {A} (P P' X X' : Fs → Prop) (m : FM A) Q Q' :
  ftriple P m Q X → (∀ fs, P' fs → P fs) → (∀ a fs, Q a fs → Q' a fs) → (∀ fs, X fs → X' fs) →
  ftriple P' m Q' X'.
Proof. intros Hm HP HQ HX. eapply triple_conseq; [exact Hm|..]; simpl; auto. Qed.

(** ** Well-formed file systems, and what a call leaves alone *)

(** Every inode that has a name, or had one since the last sync, exists; new inodes are new. *)
Record fs_wf (fs : Fs) : Prop := {
  wf_fresh : ∀ i ino, fs_inodes fs !! i = Some ino → i < fs_next fs;
  wf_names : ∀ e i, fs_names fs !! e = Some i → is_Some (fs_inodes fs !! i);
  wf_stale : ∀ e i, Some i ∈ stale_of fs e → is_Some (fs_inodes fs !! i) }.

(** [frame fs0 K fs]: outside the entries in [K], [fs] shows and keeps what [fs0] did. *)
Record frame (fs0 : Fs) (K : Entry → Prop) (fs : Fs) : Prop := {
  fr_inodes : ∀ i ino, fs_inodes fs0 !! i = Some ino → fs_inodes fs !! i = Some ino;
  fr_names : ∀ e, ¬ K e → fs_names fs !! e = fs_names fs0 !! e;
  fr_stale : ∀ e, ¬ K e → stale_of fs e ⊆ stale_of fs0 e }.

Lemma frame_refl fs K : frame fs K fs.
Proof. split; naive_solver. Qed.

Lemma frame_weaken fs0 (K K' : Entry → Prop) fs :
  frame fs0 K fs → (∀ e, K e → K' e) → frame fs0 K' fs.
Proof. intros [] HK. split; naive_solver. Qed.

Lemma stale_set_entry e o fs e' :
  stale_of (set_entry e o fs) e' =
    if decide (e' = e) then {[fs_names fs !! e]} ∪ stale_of fs e else stale_of fs e'.
Proof.
  unfold stale_of at 1. simpl. case_decide; [by simplify_map_eq|].
  rewrite lookup_insert_ne by done. done.
Qed.

Lemma names_set_entry e o fs e' :
  fs_names (set_entry e o fs) !! e' = if decide (e' = e) then o else fs_names fs !! e'.
Proof.
  simpl. case_decide; subst; [by rewrite lookup_partial_alter_eq|].
  by rewrite lookup_partial_alter_ne.
Qed.

Lemma stale_sync_entries dir fs e : stale_of (sync_entries dir fs) e ⊆ stale_of fs e.
Proof.
  unfold stale_of. simpl. rewrite map_lookup_filter.
  destruct (fs_stale fs !! e); simpl; [|done]. case_guard; simpl; set_solver.
Qed.

Lemma frame_set_entry fs0 (K : Entry → Prop) fs e o :
  frame fs0 K fs → K e → frame fs0 K (set_entry e o fs).
Proof.
  intros [Hi Hn Hs] HK. split; [done|intros e' He'..].
  - rewrite names_set_entry. case_decide; naive_solver.
  - rewrite stale_set_entry. case_decide; naive_solver.
Qed.

Lemma wf_set_entry fs e o :
  fs_wf fs → (∀ i, o = Some i → is_Some (fs_inodes fs !! i)) → fs_wf (set_entry e o fs).
Proof.
  intros [Hf Hn Hs] Ho. split; [done|intros e' i..].
  - rewrite names_set_entry. case_decide; eauto.
  - rewrite stale_set_entry. case_decide; [|by apply Hs].
    rewrite elem_of_union, elem_of_singleton. intros [?|?]; eauto.
Qed.

Lemma wf_set_inode fs i ino : fs_wf fs → fs_wf (set_inode i ino fs).
Proof.
  intros [Hf Hn Hs]. split; simpl.
  - intros j jno. rewrite lookup_insert. case_decide; [lia|]. intros ?%Hf. lia.
  - intros e j [jno Hj]%Hn. rewrite lookup_insert. case_decide; eauto.
  - intros e j [jno Hj]%Hs. rewrite lookup_insert. case_decide; eauto.
Qed.

Lemma frame_set_inode fs0 K fs i ino :
  frame fs0 K fs → fs_inodes fs0 !! i = None → frame fs0 K (set_inode i ino fs).
Proof.
  intros [Hi Hn Hs] Hnew. split; [|done..].
  intros j jno Hj. simpl. rewrite lookup_insert_ne by congruence. auto.
Qed.

Lemma wf_sync_entries dir fs : fs_wf fs → fs_wf (sync_entries dir fs).
Proof.
  intros [Hf Hn Hs]. split; [done..|]. intros e i Hi. by eapply Hs, stale_sync_entries.
Qed.

Lemma frame_sync_entries fs0 K dir fs : frame fs0 K fs → frame fs0 K (sync_entries dir fs).
Proof.
  intros [Hi Hn Hs]. split; [done..|]. intros e He. pose proof (stale_sync_entries dir fs e).
  specialize (Hs e He). set_solver.
Qed.
End CallRules.

(** ** Replacing a file *)

Section Replace.
Context `{Env} (fs0 : Fs) (target temporary : Entry) (b : string).
Hypothesis wf0 : fs_wf fs0.
Hypothesis distinct : temporary ≠ target.

(** The target is as it was. *)
Definition untouched (fs : Fs) : Prop := fs_wf fs ∧ frame fs0 (eq temporary) fs.
(** The temporary file is there, with content [d]. *)
Definition written (i : N) (d : string) (synced : bool) (fs : Fs) : Prop :=
  untouched fs ∧ fs_names fs !! temporary = Some i ∧ fs_inodes fs0 !! i = None ∧
  ∃ ino, fs_inodes fs !! i = Some ino ∧ ino_data ino = d ∧ (synced = true → ino_synced ino = true).
(** The target is the new file, with mode [mode] if one is given. *)
Definition replaced (mode : option N) (fs : Fs) : Prop :=
  fs_wf fs ∧ frame fs0 (λ e, e = temporary ∨ e = target) fs ∧
  stale_of fs target ⊆ {[fs_names fs0 !! target]} ∪ stale_of fs0 target ∧
  ∃ i ino, fs_names fs !! target = Some i ∧ fs_inodes fs0 !! i = None ∧
    fs_inodes fs !! i = Some ino ∧ ino_data ino = b ∧ ino_synced ino = true ∧
    (∀ n, mode = Some n → ino_mode ino = n).

Definition old_or_new (fs : Fs) : Prop := untouched fs ∨ replaced None fs.

Lemma written_set_inode i d s ino fs d' s' :
  written i d s fs → ino_data ino = d' → (s' = true → ino_synced ino = true) →
  written i d' s' (set_inode i ino fs).
Proof.
  intros ((Hwf & Hfr) & Hn & Hi & _) Hd Hs. split; [split; [by apply wf_set_inode|]|].
  - by apply frame_set_inode.
  - repeat split; [done..|]. exists ino. simpl. by rewrite lookup_insert_eq.
Qed.

Lemma replaced_set_inode m ino i jno fs :
  replaced m fs → fs_names fs !! target = Some i → fs_inodes fs !! i = Some jno →
  ino_data ino = ino_data jno → ino_synced ino = ino_synced jno →
  replaced (Some (ino_mode ino)) (set_inode i ino fs).
Proof.
  intros (Hwf & Hfr & Hs & i' & kno & Hn & Hnew & Hi & Hd & Hsy & _) Hn' Hi' Ed Es.
  rewrite Hn in Hn'. injection Hn' as ->. rewrite Hi in Hi'. injection Hi' as ->.
  split; [by apply wf_set_inode|]. split; [by apply frame_set_inode|].
  split; [done|]. exists i, ino. simpl. rewrite lookup_insert_eq. repeat split; naive_solver congruence.
Qed.

Lemma replaced_weaken m fs : replaced m fs → replaced None fs.
Proof. clear wf0 distinct. intros (? & ? & ? & i & ino & ?). do 3 (split; [done|]). exists i, ino. naive_solver. Qed.

Lemma untouched_temporary o fs :
  untouched fs → (∀ i, o = Some i → is_Some (fs_inodes fs !! i)) →
  untouched (set_entry temporary o fs).
Proof. intros [Hwf Hfr] Ho. split; [by apply wf_set_entry|by apply frame_set_entry]. Qed.

Lemma replaced_temporary m fs : replaced m fs → replaced m (set_entry temporary None fs).
Proof.
  intros (Hwf & Hfr & Hs & i & ino & Hn & Hr). split; [by apply wf_set_entry|].
  split; [apply frame_set_entry; naive_solver|].
  split; [rewrite stale_set_entry, decide_False; done|].
  exists i, ino. rewrite names_set_entry, decide_False; done.
Qed.

Lemma create_spec :
  ftriple untouched (create_private_file temporary) (λ i, written i EmptyString false) untouched.
Proof.
  apply ftriple_atomic; [|done]. intros fs a fs' [Hwf Hfr] Ha.
  destruct (fs_names fs !! temporary) as [j|] eqn:Hn; [done|]. injection Ha as <- <-.
  assert (fs_inodes fs0 !! fs_next fs = None) as Hnew.
  { apply eq_None_not_Some. intros [ino Hi]. apply (fr_inodes _ _ _ Hfr) in Hi.
    apply (wf_fresh _ Hwf) in Hi. lia. }
  set (ino := {| ino_data := _ |}).
  assert (untouched (set_entry temporary (Some (fs_next fs)) (set_inode (fs_next fs) ino fs))).
  { apply untouched_temporary.
    - split; [by apply wf_set_inode|by apply frame_set_inode].
    - intros i [= <-]. simpl. rewrite lookup_insert_eq. eauto. }
  split; [|done]. split; [done|]. rewrite names_set_entry, decide_True by done.
  do 2 (split; [done|]). exists ino. simpl. by rewrite lookup_insert_eq.
Qed.

Lemma append_spec i d s d' fs :
  written i d s fs → written i (d +:+ d')%string false (append i d' fs).
Proof.
  intros Hw. pose proof Hw as (_ & _ & _ & ino & Hi & Hd & _). unfold append. rewrite Hi.
  apply (written_set_inode _ _ _ _ _ _ _ Hw); simpl; [by rewrite Hd|done].
Qed.

Lemma write_all_spec i :
  ftriple (written i EmptyString false) (write_all i b) (λ _, written i b false) untouched.
Proof.
  apply ftriple_call.
  - intros fs [] fs' Hw [= <-]. by apply (append_spec _ EmptyString false).
  - intros n fs Hw. by eapply append_spec in Hw as [? _].
  - by intros fs [? _].
Qed.

Lemma sync_all_spec i : ftriple (written i b false) (sync_all i) (λ _, written i b true) untouched.
Proof.
  apply ftriple_atomic; [|by intros fs [? _]]. intros fs [] fs' Hw Ha.
  pose proof Hw as (_ & _ & _ & ino & Hi & Hd & _). rewrite Hi in Ha. injection Ha as <-.
  assert (written i b true (set_inode i {| ino_data := ino_data ino; ino_synced := true;
                              ino_mode := ino_mode ino |} fs)) as Hw'.
  { by apply (written_set_inode _ _ _ _ _ _ _ Hw). }
  split; [done|]. apply Hw'.
Qed.

Lemma rename_spec i :
  ftriple (written i b true) (rename temporary target) (λ _, replaced None) old_or_new.
Proof.
  apply ftriple_atomic; [|by intros fs [? _]; left]. intros fs [] fs' Hw Ha.
  destruct Hw as ([Hwf Hfr] & Hn & Hnew & ino & Hi & Hd & Hs). rewrite Hn in Ha.
  injection Ha as <-. assert (replaced None (set_entry temporary None (set_entry target (Some i) fs))).
  { apply replaced_temporary. split; [apply wf_set_entry; naive_solver|].
    split; [apply frame_set_entry; [eapply frame_weaken; naive_solver|by right]|].
    rewrite stale_set_entry, names_set_entry, !decide_True by done. split.
    - rewrite (fr_names _ _ _ Hfr) by done. pose proof (fr_stale _ _ _ Hfr target distinct).
      set_solver.
    - exists i, ino. naive_solver. }
  split; [done|by right].
Qed.

Lemma mode_spec :
  ftriple (replaced None) (set_private_file_mode target) (λ _, replaced (Some 384)) old_or_new.
Proof.
  apply ftriple_atomic; [|by right]. intros fs [] fs' Hr Ha.
  destruct (fs_names fs !! target) as [i|] eqn:Hn; simpl in Ha; [|done].
  destruct (fs_inodes fs !! i) as [ino|] eqn:Hi; simpl in Ha; [|done]. injection Ha as <-.
  assert (replaced (Some 384) (set_inode i {| ino_data := ino_data ino;
            ino_synced := ino_synced ino; ino_mode := 384 |} fs)) as Hr'.
  { change 384 with (ino_mode {| ino_data := ino_data ino; ino_synced := ino_synced ino;
                                   ino_mode := 384 |}) at 1.
    by apply (replaced_set_inode _ _ _ _ _ Hr Hn Hi). }
  split; [done|]. right. by eapply replaced_weaken.
Qed.

Lemma replaced_sync m dir fs : replaced m fs → replaced m (sync_entries dir fs).
Proof.
  intros (Hwf & Hfr & Hs & Hi). split; [by apply wf_sync_entries|].
  split; [by apply frame_sync_entries|]. split; [|done].
  pose proof (stale_sync_entries dir fs target). set_solver.
Qed.

Lemma sync_directory_spec m dir :
  ftriple (replaced m) (sync_directory dir) (λ _, replaced m) old_or_new.
Proof.
  unfold sync_directory.
  assert (ftriple (replaced m) (do! open_dir dir; sync_dir dir) (λ _, replaced m) (replaced m)).
  { eapply ftriple_bind with (R := λ _, replaced m); [|intros []].
    - apply ftriple_atomic; [|done]. intros fs [] fs' Hr Ha.
      destruct (fs_dirs fs !! dir); [by injection Ha as <-|done].
    - apply ftriple_atomic; [|done]. intros fs [] fs' Hr [= <-]. split; by apply replaced_sync. }
  eapply ftriple_bind with (R := λ _, replaced m).
  - eapply ftriple_conseq; [by apply ftriple_try|done|by intros [[]|]|].
    intros fs Hr. right. by eapply replaced_weaken.
  - intros _. by apply triple_ret.
Qed.

Lemma replace_file_spec dir :
  ftriple untouched (replace_file dir target temporary b) (λ _, replaced (Some 384)) old_or_new.
Proof.
  eapply ftriple_bind; [eapply ftriple_conseq; [apply create_spec|done..|by left]|intros i].
  eapply ftriple_bind; [eapply ftriple_conseq; [apply write_all_spec|done..|by left]|intros []].
  eapply ftriple_bind; [eapply ftriple_conseq; [apply sync_all_spec|done..|by left]|intros []].
  eapply ftriple_bind; [apply rename_spec|intros []].
  eapply ftriple_bind; [apply mode_spec|intros []]. apply sync_directory_spec.
Qed.

Lemma remove_temporary_spec (P : Fs → Prop) :
  (∀ fs, P fs → P (set_entry temporary None fs)) → (∀ fs, P fs → old_or_new fs) →
  ftriple P (try_call (remove_file temporary)) (λ _, P) old_or_new.
Proof.
  intros HP HX.
  assert (ftriple P (remove_file temporary) (λ _, P) P) as Hrm.
  { apply ftriple_atomic; [|done]. intros fs [] fs' Hfs Ha.
    destruct (fs_names fs !! temporary); [|done]. injection Ha as <-. auto. }
  eapply ftriple_conseq; [exact (ftriple_try _ _ _ _ Hrm)|done|by intros [[]|]|done].
Qed.

Lemma replace_then_clean_spec dir :
  ftriple untouched
    (let! r := try_call (replace_file dir target temporary b) in
     do! try_call (remove_file temporary); lift (map_err Failed r))
    (λ _, replaced (Some 384)) old_or_new.
Proof.
  eapply ftriple_bind; [apply ftriple_try, replace_file_spec|]. intros [[]|e]; simpl.
  - eapply ftriple_bind; [apply (remove_temporary_spec (replaced (Some 384)))|].
    + intros fs. apply replaced_temporary.
    + intros fs Hr. right. by eapply replaced_weaken.
    + intros ?. by apply triple_ret.
  - eapply ftriple_bind; [apply (remove_temporary_spec old_or_new)|]; [|done|].
    + intros fs [Hu|Hr]; [left|right]; [by apply untouched_temporary|by apply replaced_temporary].
    + intros ?. by apply triple_fail.
Qed.
End Replace.

(** ** Runs without a fault *)

Definition otriple {A} (P : Fs → Prop) (m : FM A) (Q : A → Fs → Prop) : Prop :=
  ∀ w, m_events w = [] → P (m_fs w) →
    ∃ a w', m w = (Ok a, w') ∧ m_events w' = [] ∧ Q a (m_fs w').

Section FaultFree.
Context `{Env}.

Lemma otriple_call {A} (act : Fs → option (A * Fs)) partial (P : Fs → Prop) Q :
  (∀ fs, P fs → ∃ a fs', act fs = Some (a, fs') ∧ Q a fs') → otriple P (call act partial) Q.
Proof.
  intros Ha w Hw HP. unfold call, next_event. rewrite Hw. simpl.
  destruct (Ha _ HP) as (a & fs' & -> & HQ). by exists a, (set_fs fs' w).
Qed.

Lemma otriple_bind {A B} (P : Fs → Prop) (m : FM A) (k : A → FM B) R Q :
  otriple P m R → (∀ a, otriple (R a) (k a) Q) → otriple P (bind m k) Q.
Proof.
  intros Hm Hk w Hw HP. destruct (Hm w Hw HP) as (a & w1 & E & Hw1 & HR).
  destruct (Hk a w1 Hw1 HR) as (c & w2 & E2 & ?). exists c, w2. unfold bind. by rewrite E.
Qed.

Lemma otriple_try {A} (m : FM A) (P : Fs → Prop) Q :
  otriple P m Q → otriple P (try_call m) (λ r fs, ∃ a, r = Ok a ∧ Q a fs).
Proof.
  intros Hm w Hw HP. destruct (Hm w Hw HP) as (a & w1 & E & Hw1 & HQ).
  exists (Ok a), w1. unfold try_call. rewrite E. eauto.
Qed.

(** The temporary file is gone already: removing it is refused and changes nothing. *)
Lemma otriple_remove_absent e (P : Fs → Prop) :
  (∀ fs, P fs → fs_names fs !! e = None) → otriple P (try_call (remove_file e)) (λ _, P).
Proof.
  intros HP w Hw Hfs. exists (Err (Io os_error)), w.
  unfold try_call, remove_file, atomic_call, call, next_event. rewrite Hw. simpl.
  by rewrite (HP _ Hfs).
Qed.

Variables (dir : string) (target temporary : Entry) (b : string).
Hypothesis distinct : temporary ≠ target.
Hypothesis in_dir : target.1 = dir.

Definition ready (fs : Fs) : Prop := is_Some (fs_dirs fs !! dir) ∧ fs_names fs !! temporary = None.
Definition opened (i : N) (fs : Fs) : Prop :=
  is_Some (fs_dirs fs !! dir) ∧ fs_names fs !! temporary = Some i ∧ is_Some (fs_inodes fs !! i).
Definition placed (fs : Fs) : Prop :=
  ready fs ∧ ∃ i, fs_names fs !! target = Some i ∧ is_Some (fs_inodes fs !! i).
Definition settled (fs : Fs) : Prop := ready fs ∧ stale_of fs target = ∅.

Lemma opened_set_inode i ino fs : opened i fs → opened i (set_inode i ino fs).
Proof. intros (? & ? & ?). repeat split; [done..|]. simpl. rewrite lookup_insert_eq. eauto. Qed.

Lemma opened_append i d fs : opened i fs → opened i (append i d fs).
Proof. intros Ho. unfold append. destruct (fs_inodes fs !! i); [by apply opened_set_inode|done]. Qed.

Lemma renamed_placed i fs :
  opened i fs → placed (set_entry temporary None (set_entry target (Some i) fs)).
Proof.
  intros (Hd & Hn & Hi). split; [split; [done|]|exists i].
  - by rewrite names_set_entry, decide_True.
  - by rewrite names_set_entry, decide_False, names_set_entry, decide_True.
Qed.

Lemma placed_set_inode i ino fs :
  placed fs → fs_names fs !! target = Some i → placed (set_inode i ino fs).
Proof.
  intros [Hr _] Hn. split; [done|]. exists i. simpl. rewrite lookup_insert_eq. eauto.
Qed.

Lemma placed_settled fs : placed fs → settled (sync_entries dir fs).
Proof.
  intros [Hr _]. split; [done|]. unfold stale_of. simpl. rewrite map_lookup_filter.
  destruct (fs_stale fs !! target); simpl; [|done]. by rewrite option_guard_False by naive_solver.
Qed.

Lemma ensure_private_dir_runs :
  otriple (λ fs, fs_names fs !! temporary = None) (ensure_private_dir dir) (λ _, ready).
Proof.
  eapply otriple_bind with (R := λ _, ready); [|intros []].
  - apply otriple_call. intros fs Hn. eexists _, _. split; [done|]. case_decide; [done|].
    split; [|done]. simpl. rewrite lookup_insert_eq. eauto.
  - apply otriple_call. intros fs [[m Hd] Hn]. rewrite Hd. simpl. eexists _, _.
    split; [done|]. split; [|done]. simpl. rewrite lookup_insert_eq. eauto.
Qed.

Lemma replace_file_runs : otriple ready (replace_file dir target temporary b) (λ _, settled).
Proof.
  eapply otriple_bind with (R := opened); [|intros i].
  { apply otriple_call. intros fs [Hd Hn]. rewrite Hn. eexists _, _. split; [done|].
    split; [done|]. rewrite names_set_entry, decide_True by done. split; [done|].
    simpl. rewrite lookup_insert_eq. eauto. }
  eapply otriple_bind with (R := λ _, opened i); [|intros []].
  { apply otriple_call. intros fs Ho. eexists _, _. split; [done|]. by apply opened_append. }
  eapply otriple_bind with (R := λ _, opened i); [|intros []].
  { apply otriple_call. intros fs Ho. pose proof Ho as (_ & _ & ino & Hi). rewrite Hi.
    eexists _, _. split; [done|]. by apply opened_set_inode. }
  eapply otriple_bind with (R := λ _, placed); [|intros []].
  { apply otriple_call. intros fs Ho. pose proof Ho as (_ & Hn & _). rewrite Hn.
    eexists _, _. split; [done|]. by apply renamed_placed. }
  eapply otriple_bind with (R := λ _, placed); [|intros []].
  { apply otriple_call. intros fs Hp. pose proof Hp as (_ & i' & Hn & ino & Hi).
    rewrite Hn. simpl. rewrite Hi. eexists _, _. split; [done|]. by apply placed_set_inode. }
  eapply otriple_bind; [apply (otriple_try _ _ (λ _, settled))|intros r].
  - eapply otriple_bind with (R := λ _, placed); [|intros []].
    + apply otriple_call. intros fs Hp. pose proof Hp as ([[m Hd] _] & _). rewrite Hd. eauto.
    + apply otriple_call. intros fs Hp. eexists _, _. split; [done|]. by apply placed_settled.
  - intros w Hw (a & _ & Hs). exists tt, w. naive_solver.
Qed.
End FaultFree.

(** ** What [write_atomic_private] promises *)

Lemma temporary_name_length name pid sequence :
  (String.length name < String.length (temporary_name name pid sequence))%nat.
Proof. unfold temporary_name. rewrite !string_app_length. simpl. lia. Qed.

(** The file of a record: its storage key and the extension the listings look for. *)
Definition json_name (stem : string) : string := (stem +:+ ".json")%string.

Lemma last_byte_app s a : last_byte (s +:+ String a EmptyString)%string = Some a.
Proof.
  unfold last_byte. enough (∀ acc, rev_string acc (s +:+ String a EmptyString)%string =
    String a (rev_string acc s)) as -> by done.
  induction s as [|c s IH]; intros acc; simpl; [done|apply IH].
Qed.

Lemma temporary_not_json name pid sequence stem :
  temporary_name name pid sequence ≠ json_name stem.
Proof.
  intros Heq. apply (f_equal last_byte) in Heq. unfold temporary_name, json_name in Heq.
  change ".tmp"%string with (".tm" +:+ "p")%string in Heq.
  change ".json"%string with (".jso" +:+ "n")%string in Heq.
  rewrite <-!string_app_assoc, !last_byte_app in Heq. done.
Qed.

Section Promise.
Context `{Env}.

(** The temporary entry the next write of [p] uses. *)
Definition temporary_of (dir : string) (p : Path) (w : Machine) : Entry :=
  (dir, temporary_name (file_name p) (m_pid w) (m_sequence w)).

Lemma temporary_of_distinct dir p w : temporary_of dir p w ≠ entry_of dir p.
Proof.
  intros [= Heq]. pose proof (temporary_name_length (file_name p) (m_pid w) (m_sequence w)).
  rewrite Heq in *. lia.
Qed.

Lemma untouched_set_dirs fs0 t f fs : untouched fs0 t fs → untouched fs0 t (set_dirs f fs).
Proof. intros [[] []]. split; split; done. Qed.

Lemma ensure_private_dir_spec fs0 t dir :
  ftriple (untouched fs0 t) (ensure_private_dir dir) (λ _, untouched fs0 t) (untouched fs0 t).
Proof.
  eapply ftriple_bind with (R := λ _, untouched fs0 t); [|intros []].
  - apply ftriple_atomic; [|done]. intros fs [] fs' Hu [= <-].
    case_decide; [done|]. split; by apply untouched_set_dirs.
  - apply ftriple_atomic; [|done]. intros fs [] fs' Hu Ha.
    destruct (fs_dirs fs !! dir); [|done]. injection Ha as <-. split; by apply untouched_set_dirs.
Qed.

Lemma ensure_private_dir_machine dir w r w' :
  ensure_private_dir dir w = (r, w') → m_pid w' = m_pid w ∧ m_sequence w' = m_sequence w.
Proof.
  unfold ensure_private_dir, create_dir_all, set_private_dir_mode, set_dir_mode, atomic_call,
    call, bind, next_event, io_error, fail.
  intros Hr. repeat run_step; simplify_eq; simpl in *; simplify_eq; done.
Qed.

Lemma write_atomic_outcome p dir b w r w' :
  fs_wf (m_fs w) → parent p = Some dir → name_is_utf8 p = true →
  write_atomic_private p b w = (r, w') →
  match r with
  | Ok _ => replaced (m_fs w) (entry_of dir p) (temporary_of dir p w) b (Some 384) (m_fs w')
  | Err _ => old_or_new (m_fs w) (entry_of dir p) (temporary_of dir p w) b (m_fs w')
  end.
Proof.
  intros Hwf Hp Hu. unfold write_atomic_private. rewrite Hp. simpl.
  unfold bind at 1. unfold lift at 1. unfold bind at 1.
  assert (untouched (m_fs w) (temporary_of dir p w) (m_fs w)) as H0.
  { split; [done|apply frame_refl]. }
  destruct (ensure_private_dir dir w) as [[[]|e] w1] eqn:E1;
    pose proof (ensure_private_dir_spec _ _ dir w _ _ H0 E1) as H1; simpl in H1;
    [|intros [= <- <-]; by left].
  destruct (ensure_private_dir_machine _ _ _ _ E1) as [Hpid Hseq].
  unfold bind at 1. unfold temporary_path at 1. rewrite Hu, Hpid, Hseq. intros Hr.
  eapply (replace_then_clean_spec (m_fs w) (entry_of dir p) (temporary_of dir p w) b);
    [done|apply temporary_of_distinct| |exact Hr]. exact H1.
Qed.

Lemma write_atomic_runs p dir b w :
  m_events w = [] → parent p = Some dir → name_is_utf8 p = true →
  fs_names (m_fs w) !! temporary_of dir p w = None →
  ∃ w', write_atomic_private p b w = (Ok tt, w') ∧ stale_of (m_fs w') (entry_of dir p) = ∅.
Proof.
  intros Hw Hp Hu Ht. unfold write_atomic_private. rewrite Hp. simpl.
  unfold bind at 1. unfold lift at 1. unfold bind at 1.
  destruct (ensure_private_dir_runs dir _ w Hw Ht) as ([] & w1 & E1 & Hw1 & Hr1). rewrite E1.
  destruct (ensure_private_dir_machine _ _ _ _ E1) as [Hpid Hseq].
  unfold bind at 1. unfold temporary_path. rewrite Hu, Hpid, Hseq. simpl.
  set (w2 := {| m_fs := m_fs w1 |}). set (t := temporary_of dir p w) in *.
  destruct (otriple_try _ _ _ (replace_file_runs dir (entry_of dir p) t b
    (temporary_of_distinct _ _ _) eq_refl) w2 Hw1 Hr1) as (r & w3 & E3 & Hw3 & [] & -> & Hs).
  unfold bind at 1. unfold t, temporary_of in E3. rewrite E3.
  destruct (otriple_remove_absent t (settled dir (entry_of dir p) t)
    (λ _ Hfs, proj2 (proj1 Hfs)) w3 Hw3 Hs) as (r & w4 & E4 & _ & Hs4).
  unfold bind. unfold t, temporary_of in E4. rewrite E4. exists w4. split; [done|apply Hs4].
Qed.
End Promise.

Section Refinement.
Context `{Env}.

Lemma frame_read fs0 (K : Entry → Prop) fs e :
  fs_wf fs0 → frame fs0 K fs → ¬ K e → content e fs = content e fs0.
Proof.
  intros Hwf Hfr He. unfold content, read_file. rewrite (fr_names _ _ _ Hfr e He).
  destruct (fs_names fs0 !! e) as [i|] eqn:Hn; [|done]. simpl.
  destruct (wf_names _ Hwf _ _ Hn) as [ino Hi]. by rewrite Hi, (fr_inodes _ _ _ Hfr _ _ Hi).
Qed.

Lemma frame_survives fs0 (K : Entry → Prop) fs e c :
  fs_wf fs0 → frame fs0 K fs → ¬ K e → survives e fs c → survives e fs0 c.
Proof.
  intros Hwf Hfr He (o & Ho & Hc). exists o. rewrite (fr_names _ _ _ Hfr e He) in Ho.
  assert (o = fs_names fs0 !! e ∨ o ∈ stale_of fs0 e) as Ho'.
  { pose proof (fr_stale _ _ _ Hfr e He). set_solver. }
  split; [done|]. destruct o as [i|]; [|done]. destruct Hc as (ino & s & Hi & -> & Hs).
  assert (is_Some (fs_inodes fs0 !! i)) as [jno Hj].
  { destruct Ho' as [Hn|Hs']; [by eapply wf_names|by eapply wf_stale]. }
  pose proof (fr_inodes _ _ _ Hfr _ _ Hj). exists ino, s. naive_solver congruence.
Qed.

Lemma replaced_read fs0 e t b m fs : replaced fs0 e t b m fs → content e fs = Some b.
Proof.
  intros (_ & _ & _ & i & ino & Hn & _ & Hi & Hd & _). unfold content, read_file.
  rewrite Hn. simpl. rewrite Hi. simpl. by rewrite Hd.
Qed.

Lemma replaced_survives fs0 e t b m fs c :
  fs_wf fs0 → replaced fs0 e t b m fs → survives e fs c → survives e fs0 c ∨ c = Some b.
Proof.
  intros Hwf (_ & Hfr & Hst & i & ino & Hn & _ & Hi & Hd & Hsy & _) (o & [->|Ho] & Hc).
  - rewrite Hn in Hc. destruct Hc as (jno & s & Hj & -> & Hs). right. naive_solver congruence.
  - left. exists o. assert (o = fs_names fs0 !! e ∨ o ∈ stale_of fs0 e) as Ho' by set_solver.
    split; [done|]. destruct o as [k|]; [|done]. destruct Hc as (jno & s & Hj & -> & Hs).
    assert (is_Some (fs_inodes fs0 !! k)) as [kno Hk].
    { destruct Ho' as [Hn'|Hs']; [by eapply wf_names|by eapply wf_stale]. }
    pose proof (fr_inodes _ _ _ Hfr _ _ Hk). exists jno, s. naive_solver congruence.
Qed.

(** A directory of the store seen as a map of the [Disk] of World.v: the files with the
    extension the listings look for, by stem, as [parse] reads them. *)
Definition represents {A} (parse : string → File A) (dir : string) (fs : Fs)
    (m : gmap string (File A)) : Prop :=
  ∀ stem, m !! stem = parse <$> content (dir, json_name stem) fs.

Lemma represents_untouched {A} (parse : string → File A) dir p w fs m :
  fs_wf (m_fs w) → untouched (m_fs w) (temporary_of dir p w) fs →
  represents parse dir (m_fs w) m → represents parse dir fs m.
Proof.
  intros Hwf [_ Hfr] Hm stem. rewrite Hm, (frame_read _ _ _ _ Hwf Hfr); [done|].
  intros [= Heq]. by apply temporary_not_json in Heq.
Qed.

Lemma json_name_inj stem stem' : json_name stem = json_name stem' → stem = stem'.
Proof.
  unfold json_name. revert stem'. induction stem as [|a s IH]; intros [|a' s'] Heq; [done| | |].
  - apply (f_equal String.length) in Heq. change (String a' s' +:+ ".json")%string
      with (String a' (s' +:+ ".json")) in Heq. simpl in Heq.
    rewrite string_app_length in Heq. simpl in Heq. lia.
  - apply (f_equal String.length) in Heq. change (String a s +:+ ".json")%string
      with (String a (s +:+ ".json")) in Heq. simpl in Heq.
    rewrite string_app_length in Heq. simpl in Heq. lia.
  - change (String a (s +:+ ".json") = String a' (s' +:+ ".json"))%string in Heq.
    injection Heq as -> Heq. f_equal. by apply IH.
Qed.

Lemma represents_replaced {A} (parse : string → File A) dir p w fs m mode stem b :
  fs_wf (m_fs w) → file_name p = json_name stem →
  replaced (m_fs w) (entry_of dir p) (temporary_of dir p w) b mode fs →
  represents parse dir (m_fs w) m → represents parse dir fs (<[stem := parse b]> m).
Proof.
  intros Hwf Hp Hr Hm stem'. unfold entry_of in Hr. rewrite Hp in Hr.
  destruct (decide (stem' = stem)) as [->|Hne].
  - by rewrite lookup_insert_eq, (replaced_read _ _ _ _ _ _ Hr).
  - rewrite lookup_insert_ne, Hm by done. destruct Hr as (_ & Hfr & _).
    rewrite (frame_read _ _ _ _ Hwf Hfr); [done|].
    intros [[= Heq]|[= Heq]]; [by symmetry in Heq; apply temporary_not_json in Heq|].
    by apply json_name_inj in Heq.
Qed.

(** C7.  Refinement.  [write_atomic_private], with every system call free to fail or to be
    the last one before the process dies, has the outcomes of [durable]: for each run there is
    a fault under which [durable] returns when the run returns, and leaves the map the
    directory then represents.  A run without a fault, whose temporary name is free, returns. *)
Theorem write_refines_durable {A} (parse : string → File A) (get : Disk → gmap string (File A))
    (upd : (gmap string (File A) → gmap string (File A)) → Disk → Disk) p dir stem b w :
  (∀ f d, get (upd f d) = f (get d)) →
  fs_wf (m_fs w) → parent p = Some dir → name_is_utf8 p = true → file_name p = json_name stem →
  let (r, w') := write_atomic_private p b w in
  (∃ f, ∀ u, io u = f → represents parse dir (m_fs w) (get (disk u)) →
     let (r', u') := durable (upd (<[stem := parse b]>)) u in
     is_ok r' = is_ok r ∧ represents parse dir (m_fs w') (get (disk u'))) ∧
  (m_events w = [] → fs_names (m_fs w) !! temporary_of dir p w = None → r = Ok tt).
Proof.
  intros Hlens Hwf Hp Hu Hf. destruct (write_atomic_private p b w) as [r w'] eqn:E.
  split; [|intros Hw Ht; destruct (write_atomic_runs p dir b w Hw Hp Hu Ht) as (? & E' & _);
           congruence].
  pose proof (write_atomic_outcome p dir b w r w' Hwf Hp Hu E) as Ho.
  destruct r as [[]|e]; [exists NoFault|destruct Ho as [Ho|Ho];
    [exists (FaultAfter 0 false)|exists (FaultAfter 0 true)]];
    intros u Hio Hrep; unfold durable; rewrite Hio; simpl; rewrite ?Hlens; split;
    try done; eauto using represents_replaced, represents_untouched.
Qed.

(** Removal refines [durable] in the same way. *)
Lemma remove_refines_durable {A} (parse : string → File A) (get : Disk → gmap string (File A))
    (upd : (gmap string (File A) → gmap string (File A)) → Disk → Disk) dir stem w :
  (∀ f d, get (upd f d) = f (get d)) → fs_wf (m_fs w) →
  let (r, w') := remove_if_exists (dir, json_name stem) w in
  ∃ f, ∀ u, io u = f → represents parse dir (m_fs w) (get (disk u)) →
    let (r', u') := durable (upd (delete stem)) u in
    is_ok r' = is_ok r ∧ represents parse dir (m_fs w') (get (disk u')).
Proof.
  intros Hlens Hwf. set (e := (dir, json_name stem)).
  set (after := if decide (is_Some (fs_names (m_fs w) !! e)) then set_entry e None (m_fs w)
                else m_fs w).
  assert (∀ m, represents parse dir (m_fs w) m → represents parse dir after (delete stem m))
    as Hdel.
  { intros m Hm stem'. unfold after, content, read_file, e.
    destruct (decide (stem' = stem)) as [->|Hne].
    - rewrite lookup_delete_eq. case_decide as Hs.
      + by rewrite names_set_entry, decide_True.
      + apply eq_None_not_Some in Hs. by rewrite Hs.
    - rewrite lookup_delete_ne, Hm by done. case_decide; [|done]. unfold content, read_file.
      rewrite names_set_entry, decide_False; [done|]. intros [= Heq]. by apply json_name_inj in Heq. }
  unfold remove_if_exists, atomic_call, call, io_error, fail.
  pose proof (next_event_fs w) as Hw. destruct (next_event w) as [[|n|n] w1]; simpl in Hw |- *.
  - exists NoFault. intros u Hio Hm. unfold durable. rewrite Hio, Hw. simpl. rewrite Hlens. auto.
  - exists (FaultAfter 0 (if n then false else true)). intros u Hio Hm. unfold durable.
    rewrite Hio, Hw. destruct n; simpl; rewrite ?Hlens; auto.
  - exists (FaultAfter 0 (if n then false else true)). intros u Hio Hm. unfold durable.
    rewrite Hio, Hw. destruct n; simpl; rewrite ?Hlens; auto.
Qed.

End Refinement.

(** ** A directory with one record *)

Definition demo_fs : Fs :=
  {| fs_dirs := {["transactions"%string := 448]};
     fs_inodes := {[0 := {| ino_data := "old"; ino_synced := true; ino_mode := 384 |}]};
     fs_names := {[("transactions", "k.json")%string := 0]}; fs_stale := ∅; fs_next := 1 |}.
#[local] Existing Instance toy_env.
(** The process dies in the rename, after it took effect. *)
Definition demo_machine : Machine :=
  {| m_fs := demo_fs; m_events := [Works; Works; Works; Works; Works; Dies 1];
     m_sequence := 0; m_pid := 7 |}.
Definition demo_path : Path :=
  {| parent := Some "transactions"%string; file_name := json_name "k"; name_is_utf8 := true |}.
Definition demo_parse {A} (s : string) : File A :=
  if decide (s = "old"%string) then Garbled else Unreadable.

Lemma demo_wf : fs_wf demo_fs.
Proof.
  split; simpl.
  - intros i ino [<- _]%lookup_singleton_Some. lia.
  - intros e i [_ <-]%lookup_singleton_Some. eauto.
  - intros e i. unfold stale_of. simpl. rewrite lookup_empty. set_solver.
Qed.

Lemma write_refines_durable_witness :
  let (r, w') := write_atomic_private demo_path "new" demo_machine in
  ∃ f, ∀ u, io u = f → represents demo_parse "transactions" demo_fs (d_journals (disk u)) →
    let (r', u') := durable (upd_journals (<["k"%string := demo_parse "new"]>)) u in
    is_ok r' = is_ok r ∧ represents demo_parse "transactions" (m_fs w') (d_journals (disk u')).
Proof.
  pose proof (write_refines_durable demo_parse d_journals upd_journals demo_path "transactions"
    "k" "new" demo_machine (λ f d, eq_refl) demo_wf eq_refl eq_refl eq_refl) as Hr.
  destruct (write_atomic_private demo_path "new" demo_machine) as [r w']. apply Hr.
Defined.

