(* ===== verification/Lock.v ===== *)
(** * The store lock (store_lock.rs)

    [StoreLock::acquire_exclusive] opens the lock file of the store, creating it when it is not
    there, and waits for the exclusive [flock] on what it opened; the guard gives it up when it
    is dropped, the operating system when its holder dies.  An [flock] belongs to an inode and
    not to a name: the lock excludes only as long as all callers open the same inode, that is,
    as long as opening never replaces the file and no operation of the store removes it or
    renames another file over it.  Callers, which may be threads or processes, interleave call
    by call on one file system, on which the operations of the store are the ones of Files.v
    with any of their system calls failing or killing the caller. *)

From stdpp Require Import base strings list gmap.
From S2P Require Import Prelude Errors Records Env Toy World Files.
Local Open Scope N_scope.

(** ** The files of a store *)

(** The files the store writes, by the functions that name them (store.rs, registry.rs,
    keystore.rs, platform.rs). *)
Inductive StoreFile :=
  | ManifestFile
  | RegistryFile
  | RootKeyFile
  | RecordFile (stem : string)
  | IdentityFile (stem : string)
  | JournalFile (stem : string)
  | UpdateJournalFile (stem : string)
  | TransitionFile (stem : string).

Definition store_dir (root : string) (f : StoreFile) : string :=
  match f with
  | ManifestFile | RegistryFile | RootKeyFile => root
  | RecordFile _ => root +:+ "/records"
  | IdentityFile _ => root +:+ "/identities"
  | JournalFile _ => root +:+ "/transactions"
  | UpdateJournalFile _ => root +:+ "/update-transactions"
  | TransitionFile _ => root +:+ "/identity-transitions"
  end.
Definition store_name (f : StoreFile) : string :=
  match f with
  | ManifestFile => "manifest.json"
  | RegistryFile => "registry.json"
  | RootKeyFile => "root-key.b64u"
  | RecordFile stem | IdentityFile stem | JournalFile stem | UpdateJournalFile stem
  | TransitionFile stem => json_name stem
  end.
Definition store_path (root : string) (f : StoreFile) : Path :=
  {| parent := Some (store_dir root f); file_name := store_name f; name_is_utf8 := true |}.

(** What an operation of the store does to a file. *)
Inductive StoreOp :=
  | WriteFile (f : StoreFile) (b : string)
  | WriteIfAbsent (f : StoreFile) (b : string)
  | RemoveFile (f : StoreFile).

Record StoreLock := { sl_store_root : string; sl_lock_path : Entry }.
Definition new_store_lock (store_root : string) : StoreLock :=
  {| sl_store_root := store_root; sl_lock_path := (store_root, ".anp-identity.lock"%string) |}.

(** ** Callers that share a store *)

(** A caller has opened the lock file and waits for the [flock], or holds the guard. *)
Inductive Phase := Idle | Waiting (file : N) | Holding (file : N).

(** [sys_flocks]: which caller has the exclusive lock of an inode. *)
Record System := { sys_fs : Fs; sys_flocks : gmap N nat; sys_phases : gmap nat Phase }.

Inductive SysEvent :=
  | OpenLock (p : nat) (calls : list Event)
  | Flock (p : nat)
  | FlockFails (p : nat)
  | Work (p : nat) (op : StoreOp) (calls : list Event) (sequence pid : N)
  | DropGuard (p : nat)
  | Die (p : nat).

Definition phase_of (s : System) (p : nat) : Phase := default Idle (sys_phases s !! p).
Definition set_phase (p : nat) (x : Phase) (s : System) : System :=
  {| sys_fs := sys_fs s; sys_flocks := sys_flocks s; sys_phases := <[p := x]> (sys_phases s) |}.
Definition set_sys_fs (fs : Fs) (s : System) : System :=
  {| sys_fs := fs; sys_flocks := sys_flocks s; sys_phases := sys_phases s |}.
Definition set_flocks (f : gmap N nat → gmap N nat) (s : System) : System :=
  {| sys_fs := sys_fs s; sys_flocks := f (sys_flocks s); sys_phases := sys_phases s |}.
(** The operating system closes the files of a caller that dies. *)
Definition kill (p : nat) (s : System) : System :=
  set_phase p Idle (set_flocks (filter (λ x, x.2 ≠ p)) s).
Definition initial (fs : Fs) : System := {| sys_fs := fs; sys_flocks := ∅; sys_phases := ∅ |}.

Section Callers.
Context `{Env} (root : string).

Definition lock_entry : Entry := sl_lock_path (new_store_lock root).

Definition run_store_op (op : StoreOp) : FM unit :=
  match op with
  | WriteFile f b => write_atomic_private (store_path root f) b
  | WriteIfAbsent f b => do! write_private_if_absent (store_path root f) b; ret tt
  | RemoveFile f => remove_if_exists (store_dir root f, store_name f)
  end.

Definition machine (s : System) (calls : list Event) (sequence pid : N) : Machine :=
  {| m_fs := sys_fs s; m_events := calls; m_sequence := sequence; m_pid := pid |}.

(** The steps of the system; [None] where an event cannot happen.  [acquire_exclusive] is
    [OpenLock] and, when that succeeds, [Flock] or [FlockFails]; the kernel grants an [flock]
    when no other caller has it on that inode. *)
Definition sys_step (ev : SysEvent) (s : System) : option System :=
  match ev with
  | OpenLock p calls =>
      match phase_of s p with
      | Idle =>
          let (r, w) := open_private_lock_file lock_entry (machine s calls 0 0) in
          Some (set_phase p (match r with Ok file => Waiting file | Err _ => Idle end)
                  (set_sys_fs (m_fs w) s))
      | _ => None
      end
  | Flock p =>
      match phase_of s p with
      | Waiting file =>
          match sys_flocks s !! file with
          | None => Some (set_phase p (Holding file) (set_flocks (<[file := p]>) s))
          | Some _ => None
          end
      | _ => None
      end
  | FlockFails p =>
      match phase_of s p with Waiting _ => Some (set_phase p Idle s) | _ => None end
  | Work p op calls sequence pid =>
      match phase_of s p with
      | Holding _ =>
          let (r, w) := run_store_op op (machine s calls sequence pid) in
          let s' := set_sys_fs (m_fs w) s in
          Some (match r with Err Died => kill p s' | _ => s' end)
      | _ => None
      end
  | DropGuard p =>
      match phase_of s p with
      | Holding file => Some (set_phase p Idle (set_flocks (delete file) s))
      | _ => None
      end
  | Die p => Some (kill p s)
  end.

(** What an observer of the guards sees. *)
Inductive Label := Locked (p : nat) | Did (p : nat) (op : StoreOp) | Unlocked (p : nat).
Definition labels (ev : SysEvent) (s s' : System) : list Label :=
  let ended p := match phase_of s p, phase_of s' p with
                 | Holding _, Idle => [Unlocked p]
                 | _, _ => []
                 end in
  match ev with
  | Flock p => [Locked p]
  | Work p op _ _ _ => Did p op :: ended p
  | DropGuard p | Die p => ended p
  | _ => []
  end.

Fixpoint sys_run (evs : list SysEvent) (s : System) : option (System * list Label) :=
  match evs with
  | [] => Some (s, [])
  | ev :: evs =>
      s' ← sys_step ev s;
      '(s'', l) ← sys_run evs s';
      Some (s'', labels ev s s' ++ l)
  end.

(** ** The lock file stays the same inode *)

Lemma store_name_not_lock f : store_name f ≠ ".anp-identity.lock"%string.
Proof.
  assert (∀ stem, json_name stem ≠ ".anp-identity.lock"%string) as Hj.
  { intros stem Heq. apply (f_equal last_byte) in Heq. unfold json_name in Heq.
    change ".json"%string with (".jso" +:+ "n")%string in Heq.
    rewrite <-!string_app_assoc, !last_byte_app in Heq. done. }
  destruct f; simpl; auto.
Qed.

Lemma temporary_not_lock name pid sequence : temporary_name name pid sequence ≠ ".anp-identity.lock"%string.
Proof.
  intros Heq. apply (f_equal last_byte) in Heq. unfold temporary_name in Heq.
  change ".tmp"%string with (".tm" +:+ "p")%string in Heq.
  rewrite <-!string_app_assoc, !last_byte_app in Heq. done.
Qed.

(** [keeps_lock fs0 fs]: a well-formed file system in which the lock file, if it was there, is
    the same inode. *)
Definition keeps_lock (fs0 fs : Fs) : Prop :=
  fs_wf fs ∧ ∀ i, fs_names fs0 !! lock_entry = Some i → fs_names fs !! lock_entry = Some i.
(** Every file but the lock file is what it was. *)
Definition same_files (fs0 fs : Fs) : Prop :=
  ∀ e, e ≠ lock_entry → content e fs = content e fs0.

Lemma keeps_lock_refl fs : fs_wf fs → keeps_lock fs fs.
Proof. by split. Qed.

Lemma keeps_lock_framed fs0 (K : Entry → Prop) fs :
  fs_wf fs → frame fs0 K fs → ¬ K lock_entry → keeps_lock fs0 fs.
Proof. intros Hwf Hfr HK. split; [done|]. intros i Hi. by rewrite (fr_names _ _ _ Hfr). Qed.

Lemma write_keeps_lock f b w r w' :
  fs_wf (m_fs w) → write_atomic_private (store_path root f) b w = (r, w') →
  keeps_lock (m_fs w) (m_fs w').
Proof.
  intros Hwf Hr.
  pose proof (write_atomic_outcome (store_path root f) (store_dir root f) b w r w' Hwf eq_refl eq_refl Hr)
    as Ho.
  assert (temporary_of (store_dir root f) (store_path root f) w ≠ lock_entry) as Ht.
  { intros Heq%(f_equal snd). by apply temporary_not_lock in Heq. }
  assert (entry_of (store_dir root f) (store_path root f) ≠ lock_entry) as He.
  { intros Heq%(f_equal snd). by apply store_name_not_lock in Heq. }
  assert (old_or_new (m_fs w) (entry_of (store_dir root f) (store_path root f))
    (temporary_of (store_dir root f) (store_path root f) w) b (m_fs w')) as [[Hw Hfr]|(Hw & Hfr & _)].
  { destruct r; [right; exact (replaced_weaken _ _ _ _ _ _ Ho)|done]. }
  - by eapply keeps_lock_framed.
  - eapply keeps_lock_framed; [done|exact Hfr|]. naive_solver.
Qed.

(** [Path::exists] changes nothing. *)
Lemma path_exists_fs e w r w' : path_exists e w = (r, w') → m_fs w' = m_fs w.
Proof.
  assert (ftriple (λ fs, fs = m_fs w) (path_exists e) (λ _ fs, fs = m_fs w) (λ fs, fs = m_fs w)) as Ht.
  { eapply ftriple_bind; [apply ftriple_try|intros x; apply triple_ret].
    - apply (ftriple_atomic _ _ _ (λ _ fs, fs = m_fs w)); [|done].
      intros fs a fs' -> Ha. destruct (fs_names (m_fs w) !! e); by simplify_eq/=.
    - by destruct x. }
  intros Hr. specialize (Ht w r w' eq_refl Hr). by destruct r.
Qed.

Lemma remove_keeps_lock f w r w' :
  fs_wf (m_fs w) → remove_if_exists (store_dir root f, store_name f) w = (r, w') →
  keeps_lock (m_fs w) (m_fs w').
Proof.
  intros Hwf Hr. set (fs0 := m_fs w) in *.
  assert (ftriple (λ fs, fs = fs0) (remove_if_exists (store_dir root f, store_name f))
    (λ _, keeps_lock fs0) (keeps_lock fs0)) as Ht.
  { apply ftriple_atomic; [|by intros fs ->]. intros fs [] fs' -> [= <-]. split; case_decide;
      try done; (split; [by apply wf_set_entry|]); intros i Hi; rewrite names_set_entry, decide_False;
      try done; intros Heq%(f_equal snd); by apply (store_name_not_lock f). }
  specialize (Ht w r w' eq_refl Hr). by destruct r.
Qed.

Lemma store_op_keeps_lock op w r w' :
  fs_wf (m_fs w) → run_store_op op w = (r, w') → keeps_lock (m_fs w) (m_fs w').
Proof.
  intros Hwf. destruct op as [f b|f b|f]; simpl; [by apply write_keeps_lock| |by apply remove_keeps_lock].
  unfold bind, write_private_if_absent, bind. simpl.
  destruct (path_exists _ w) as [[[]|e] w1] eqn:Hp; apply path_exists_fs in Hp.
  - intros [= _ <-]. rewrite Hp. by apply keeps_lock_refl.
  - rewrite <-Hp in *. destruct (write_atomic_private _ _ w1) as [[[]|e] w2] eqn:Hw;
      apply write_keeps_lock in Hw; try done; by intros [= _ <-].
  - intros [= _ <-]. rewrite Hp. by apply keeps_lock_refl.
Qed.

(** ** Opening the lock file *)

(** What a caller that opens the lock file may have done to the file system [fs0]. *)
Definition opening (fs0 fs : Fs) : Prop := keeps_lock fs0 fs ∧ same_files fs0 fs.
Definition lock_opened (fs0 : Fs) (file : N) (fs : Fs) : Prop :=
  opening fs0 fs ∧ fs_names fs !! lock_entry = Some file.

Lemma content_set_mode e i ino mode fs :
  fs_inodes fs !! i = Some ino →
  content e (set_inode i {| ino_data := ino_data ino; ino_synced := ino_synced ino;
                            ino_mode := mode |} fs) = content e fs.
Proof.
  intros Hi. unfold content, read_file. simpl. destruct (fs_names fs !! e) as [j|]; [|done]. simpl.
  rewrite lookup_insert. case_decide as Hj; [|done]. subst j. by rewrite Hi.
Qed.

Lemma opening_set_dirs fs0 f fs : opening fs0 fs → opening fs0 (set_dirs f fs).
Proof. intros [[[] ?] ?]. repeat split; done. Qed.

Lemma ensure_dir_opening fs0 dir :
  ftriple (opening fs0) (ensure_private_dir dir) (λ _, opening fs0) (opening fs0).
Proof.
  eapply ftriple_bind with (R := λ _, opening fs0); [|intros []].
  - apply ftriple_atomic; [|done]. intros fs [] fs' Ho [= <-].
    case_decide; [done|]. split; by apply opening_set_dirs.
  - apply ftriple_atomic; [|done]. intros fs [] fs' Ho Ha.
    destruct (fs_dirs fs !! dir); [|done]. injection Ha as <-. split; by apply opening_set_dirs.
Qed.

Lemma open_lock_file_opening fs0 :
  ftriple (opening fs0) (open_lock_file lock_entry) (lock_opened fs0) (opening fs0).
Proof.
  apply ftriple_atomic; [|done]. intros fs file fs' [[Hwf Hl] Hs] Ha.
  enough (lock_opened fs0 file fs') as Ho by (split; [done|apply Ho]).
  destruct (fs_names fs !! lock_entry) as [i|] eqn:Hn; injection Ha as <- <-;
    [split; [split; [split|]|]; try done; intros j Hj%Hl; congruence|].
  set (ino := {| ino_data := _ |}).
  assert (∀ e i jno, fs_names fs !! e = Some i → fs_inodes fs !! i = Some jno → i ≠ fs_next fs) as Hne.
  { intros e i jno _ Hi%(wf_fresh _ Hwf). lia. }
  split; [split; [split|]|].
  - apply wf_set_entry; [by apply wf_set_inode|]. intros i [= <-]. simpl. rewrite lookup_insert_eq. eauto.
  - intros i Hi%Hl. congruence.
  - intros e He. rewrite <-Hs by done. unfold content, read_file.
    rewrite names_set_entry, decide_False by done. simpl.
    destruct (fs_names fs !! e) as [i|] eqn:Hi; [|done]. simpl.
    destruct (wf_names _ Hwf _ _ Hi) as [jno Hj]. rewrite lookup_insert_ne; [done|].
    intros Heq. by apply (Hne e i jno).
  - by rewrite names_set_entry, decide_True.
Qed.

Lemma lock_mode_opening fs0 file :
  ftriple (lock_opened fs0 file) (set_private_file_mode lock_entry) (λ _, lock_opened fs0 file)
    (opening fs0).
Proof.
  apply ftriple_atomic; [|by intros fs [? _]]. intros fs [] fs' [[[Hwf Hl] Hs] Hn] Ha.
  rewrite Hn in Ha. simpl in Ha. destruct (fs_inodes fs !! file) as [ino|] eqn:Hi; [|done].
  simpl in Ha. injection Ha as <-.
  enough (lock_opened fs0 file (set_inode file {| ino_data := ino_data ino;
    ino_synced := ino_synced ino; ino_mode := 384 |} fs)) as Ho by (split; [done|apply Ho]).
  split; [split; [split; [by apply wf_set_inode|done]|]|done].
  intros e He. rewrite content_set_mode by done. auto.
Qed.

(** Opening creates the lock file or opens the one that is there, and leaves the other files
    alone. *)
Lemma open_lock_run w r w' :
  fs_wf (m_fs w) → open_private_lock_file lock_entry w = (r, w') →
  opening (m_fs w) (m_fs w') ∧
  ∀ file, r = Ok file → fs_names (m_fs w') !! lock_entry = Some file.
Proof.
  intros Hwf Hr.
  assert (ftriple (opening (m_fs w)) (open_private_lock_file lock_entry) (lock_opened (m_fs w))
    (opening (m_fs w))) as Ht.
  { eapply ftriple_bind; [apply ensure_dir_opening|intros []].
    eapply ftriple_bind; [apply open_lock_file_opening|intros file].
    eapply ftriple_bind; [apply lock_mode_opening|intros []]. by apply triple_ret. }
  specialize (Ht w r w' (conj (keeps_lock_refl _ Hwf) (λ _ _, eq_refl)) Hr).
  destruct r as [file|e]; [|by split]. destruct Ht as [Ho Hn]. split; [done|]. by intros ? [= <-].
Qed.

(** ** The invariant *)

(** Every caller that waits or holds has opened the inode the lock path names, and the kernel's
    locks are those of the holders. *)
Record lock_inv (s : System) : Prop := {
  li_wf : fs_wf (sys_fs s);
  li_waiting : ∀ p i, phase_of s p = Waiting i → fs_names (sys_fs s) !! lock_entry = Some i;
  li_holding : ∀ p i, phase_of s p = Holding i → fs_names (sys_fs s) !! lock_entry = Some i;
  li_flocks : ∀ p i, phase_of s p = Holding i ↔ sys_flocks s !! i = Some p }.

Lemma lock_inv_unique s p q i j :
  lock_inv s → phase_of s p = Holding i → phase_of s q = Holding j → p = q.
Proof.
  intros Hinv Hp Hq. pose proof (li_holding _ Hinv _ _ Hp). pose proof (li_holding _ Hinv _ _ Hq).
  apply (li_flocks _ Hinv) in Hp, Hq. congruence.
Qed.

Lemma phase_of_set p x s q :
  phase_of (set_phase p x s) q = if decide (q = p) then x else phase_of s q.
Proof.
  unfold phase_of, set_phase. simpl. rewrite lookup_insert.
  repeat case_decide; subst; naive_solver.
Qed.

Lemma lock_inv_fs s fs :
  lock_inv s → keeps_lock (sys_fs s) fs → lock_inv (set_sys_fs fs s).
Proof. intros [Hwf Hw Hh Hf] [Hwf' Hl]. constructor; simpl; [done| | |done]; intros p i Hp; eauto. Qed.

(** A caller that does not hold the guard changes its phase to one that does not either. *)
Lemma lock_inv_phase s p x :
  lock_inv s → (∀ i, phase_of s p ≠ Holding i) → (∀ i, x ≠ Holding i) →
  (∀ i, x = Waiting i → fs_names (sys_fs s) !! lock_entry = Some i) → lock_inv (set_phase p x s).
Proof.
  intros [Hwf Hw Hh Hf] Hp Hx Hxw. constructor; simpl; [done| | |]; intros q i; rewrite phase_of_set.
  - case_decide; eauto.
  - case_decide; [by intros ?%Hx|eauto].
  - case_decide as Hq; [|apply Hf]. subst q. split; [by intros ?%Hx|]. intros Hi%Hf. by apply Hp in Hi.
Qed.

Lemma lock_inv_kill s p : lock_inv s → lock_inv (kill p s).
Proof.
  intros [Hwf Hw Hh Hf]. constructor; [done| | |]; intros q i; unfold kill; rewrite phase_of_set;
    (case_decide as Hq; [subst q|]).
  - done.
  - apply Hw.
  - done.
  - apply Hh.
  - simpl. rewrite map_lookup_filter_Some. naive_solver.
  - simpl. rewrite map_lookup_filter_Some. specialize (Hf q i). naive_solver.
Qed.

Lemma lock_inv_drop s p i :
  lock_inv s → phase_of s p = Holding i → lock_inv (set_phase p Idle (set_flocks (delete i) s)).
Proof.
  intros Hinv Hp. destruct Hinv as [Hwf Hw Hh Hf].
  pose proof (proj1 (Hf p i) Hp) as Hi.
  constructor; [done| | |]; intros q j; rewrite phase_of_set; (case_decide as Hq; [subst q|]).
  - done.
  - apply Hw.
  - done.
  - apply Hh.
  - simpl. rewrite lookup_delete_Some. split; [done|]. intros [Hne Hj%Hf]. congruence.
  - simpl. rewrite lookup_delete_Some. change (phase_of (set_flocks (delete i) s) q) with (phase_of s q).
    rewrite Hf. split; [|by intros [_ ?]]. intros Hj. split; [|done]. congruence.
Qed.

Lemma lock_inv_flock s p i :
  lock_inv s → phase_of s p = Waiting i → sys_flocks s !! i = None →
  lock_inv (set_phase p (Holding i) (set_flocks (<[i := p]>) s)).
Proof.
  intros Hinv Hp Hi. destruct Hinv as [Hwf Hw Hh Hf].
  constructor; [done| | |]; intros q j; rewrite phase_of_set; (case_decide as Hq; [subst q|]).
  - done.
  - apply Hw.
  - intros [= <-]. by apply (Hw p).
  - apply Hh.
  - simpl. rewrite lookup_insert_Some. split; [intros [= <-]; by left|].
    intros [[<- _]|[_ Hj%Hf]]; [done|congruence].
  - simpl. change (phase_of (set_flocks (<[i:=p]>) s) q) with (phase_of s q).
    rewrite lookup_insert_Some, Hf. split; [|naive_solver].
    intros Hj. right. split; [|done]. intros ->. congruence.
Qed.

(** A step keeps the invariant, and only the work of a holder changes a file of the store. *)
Lemma lock_inv_step ev s s' :
  lock_inv s → sys_step ev s = Some s' →
  lock_inv s' ∧
  ((∃ p op calls sequence pid i, ev = Work p op calls sequence pid ∧ phase_of s p = Holding i) ∨
   same_files (sys_fs s) (sys_fs s')).
Proof.
  intros Hinv. pose proof (li_wf _ Hinv) as Hwf.
  destruct ev as [p calls|p|p|p op calls sequence pid|p|p]; simpl.
  - destruct (phase_of s p) eqn:Hp; [|done..].
    destruct (open_private_lock_file _ _) as [r w] eqn:Ho. intros [= <-].
    apply open_lock_run in Ho as [[Hk Hs] Hfile]; [|done]. simpl in Hk, Hs. split; [|by right].
    apply lock_inv_phase; [by apply lock_inv_fs| | |].
    + intros i. change (phase_of s p ≠ Holding i). by rewrite Hp.
    + by destruct r.
    + destruct r as [file|e]; [|done]. intros i [= <-]. by apply Hfile.
  - destruct (phase_of s p) as [|i|] eqn:Hp; [done| |done].
    destruct (sys_flocks s !! i) eqn:Hi; [done|]. intros [= <-].
    split; [by apply lock_inv_flock|by right].
  - destruct (phase_of s p) as [|i|] eqn:Hp; [done| |done]. intros [= <-].
    split; [|by right]. apply lock_inv_phase; try done. by rewrite Hp.
  - destruct (phase_of s p) as [| |i] eqn:Hp; [done..|].
    destruct (run_store_op _ _) as [r w] eqn:Ho. apply store_op_keeps_lock in Ho; [|done].
    pose proof (lock_inv_fs s (m_fs w) Hinv Ho) as Hinv'. intros [= <-].
    split; [|left; eauto 8]. destruct r as [|[]]; [done..|by apply lock_inv_kill].
  - destruct (phase_of s p) as [| |i] eqn:Hp; [done..|]. intros [= <-].
    split; [by apply lock_inv_drop|by right].
  - intros [= <-]. split; [by apply lock_inv_kill|by right].
Qed.

Lemma lock_inv_run evs s s' l : lock_inv s → sys_run evs s = Some (s', l) → lock_inv s'.
Proof.
  revert s l. induction evs as [|ev evs IH]; intros s l Hinv; simpl; [by intros [= <- _]|].
  destruct (sys_step ev s) as [s1|] eqn:Hs; [|done]. simpl.
  destruct (sys_run evs s1) as [[s2 l2]|] eqn:Hr; [|done]. simpl. intros [= <- _].
  eapply IH; [|exact Hr]. by apply (lock_inv_step ev s).
Qed.

Lemma lock_inv_initial fs : fs_wf fs → lock_inv (initial fs).
Proof.
  intros Hwf. constructor; [done|..]; intros p i; unfold phase_of; simpl; rewrite !lookup_empty;
    [done..|by split].
Qed.

(** ** One guard at a time *)

(** A trace that consists of whole blocks, each the work of one caller between its lock and
    its unlock, the last of which may be open. *)
Inductive blocks : option nat → list Label → option nat → Prop :=
  | blocks_nil o : blocks o [] o
  | blocks_locked p l o : blocks (Some p) l o → blocks None (Locked p :: l) o
  | blocks_did p op l o : blocks (Some p) l o → blocks (Some p) (Did p op :: l) o
  | blocks_unlocked p l o : blocks None l o → blocks (Some p) (Unlocked p :: l) o.

(** [o] is the holder of the guard. *)
Definition held_by (s : System) (o : option nat) : Prop :=
  ∀ p, (∃ i, phase_of s p = Holding i) ↔ o = Some p.

(** A caller that does not hold the guard does not get it by another phase. *)
Lemma held_by_quiet s s1 p x o :
  held_by s o → (∀ i, phase_of s p ≠ Holding i) → (∀ i, x ≠ Holding i) →
  sys_phases s1 = sys_phases s → held_by (set_phase p x s1) o.
Proof.
  intros Ho Hp Hx E q. rewrite phase_of_set. unfold phase_of at 1. rewrite E.
  change (default Idle (sys_phases s !! q)) with (phase_of s q). case_decide as Hq; [subst q|apply Ho].
  split; [intros [i Hi]; by apply Hx in Hi|]. intros [i Hi]%Ho. by apply Hp in Hi.
Qed.

(** When the holder stops, nobody holds the guard. *)
Lemma held_by_end s s1 p i :
  lock_inv s → phase_of s p = Holding i → sys_phases s1 = sys_phases s →
  held_by (set_phase p Idle s1) None.
Proof.
  intros Hinv Hp E q. rewrite phase_of_set. unfold phase_of at 1. rewrite E.
  change (default Idle (sys_phases s !! q)) with (phase_of s q). case_decide as Hq;
    [by split; [intros [? ?]|]|]. split; [|done]. intros [j Hj].
  destruct Hq. by apply (lock_inv_unique s _ _ j i).
Qed.

Lemma blocks_step ev s s' o l :
  lock_inv s → held_by s o → sys_step ev s = Some s' →
  ∃ o', held_by s' o' ∧ ∀ o2, blocks o' l o2 → blocks o (labels ev s s' ++ l) o2.
Proof.
  intros Hinv Ho Hs. pose proof (proj1 (lock_inv_step _ _ _ Hinv Hs)) as Hinv'.
  assert (∀ p i, phase_of s p = Holding i → o = Some p) as Hheld by (intros p i Hp; apply Ho; eauto).
  destruct ev as [p calls|p|p|p op calls sequence pid|p|p]; simpl in Hs |- *.
  - destruct (phase_of s p) eqn:Hp; [|done..]. destruct (open_private_lock_file _ _) as [r w].
    injection Hs as <-. exists o. split; [|done].
    apply (held_by_quiet s); [done|by rewrite Hp|by destruct r|done].
  - destruct (phase_of s p) as [|i|] eqn:Hp; [done| |done].
    destruct (sys_flocks s !! i) as [q|] eqn:Hi; [done|]. injection Hs as <-.
    assert (o = None) as ->.
    { destruct o as [q|]; [|done]. destruct (proj2 (Ho q) eq_refl) as [j Hj].
      pose proof (li_holding _ Hinv _ _ Hj) as Hn. rewrite (li_waiting _ Hinv _ _ Hp) in Hn.
      injection Hn as <-. apply (li_flocks _ Hinv) in Hj. congruence. }
    exists (Some p). split; [|intros o2; by constructor].
    intros q. rewrite phase_of_set. case_decide as Hq; [subst q; split; [done|by exists i]|].
    split; [|by intros [= ->]]. intros [j Hj]. by apply Hheld in Hj.
  - destruct (phase_of s p) as [|i|] eqn:Hp; [done| |done]. injection Hs as <-.
    exists o. split; [|done]. by apply (held_by_quiet s); [|rewrite Hp| |].
  - destruct (phase_of s p) as [| |i] eqn:Hp; [done..|]. pose proof (Hheld _ _ Hp) as ->.
    destruct (run_store_op _ _) as [r w]. injection Hs as <-.
    assert (∀ fs, phase_of (set_sys_fs fs s) p = Holding i) as Hp' by done.
    destruct r as [|[]]; [exists (Some p); rewrite Hp'; (split; [done|by constructor])..|].
    exists None. split; [by apply (held_by_end s _ p i)|]. unfold kill. rewrite phase_of_set, decide_True by done.
    intros o2 Hb. by do 2 constructor.
  - destruct (phase_of s p) as [| |i] eqn:Hp; [done..|]. pose proof (Hheld _ _ Hp) as ->.
    injection Hs as <-. exists None. split; [by apply (held_by_end s _ p i)|].
    rewrite phase_of_set, decide_True by done. intros o2 Hb. by constructor.
  - injection Hs as <-. unfold kill. rewrite phase_of_set, decide_True by done.
    destruct (phase_of s p) as [|i|i] eqn:Hp.
    + exists o. split; [by apply (held_by_quiet s); [|rewrite Hp| |]|done].
    + exists o. split; [by apply (held_by_quiet s); [|rewrite Hp| |]|done].
    + pose proof (Hheld _ _ Hp) as ->. exists None. split; [by apply (held_by_end s _ p i)|].
      intros o2 Hb. by constructor.
Qed.

Lemma blocks_run evs s s' o l :
  lock_inv s → held_by s o → sys_run evs s = Some (s', l) →
  ∃ o', held_by s' o' ∧ blocks o l o'.
Proof.
  revert s o l. induction evs as [|ev evs IH]; intros s o l Hinv Ho; simpl.
  { intros [= <- <-]. exists o. split; [done|constructor]. }
  destruct (sys_step ev s) as [s1|] eqn:Hs; [|done]. simpl.
  destruct (sys_run evs s1) as [[s2 l2]|] eqn:Hr; [|done]. simpl. intros [= <- <-].
  destruct (blocks_step ev s s1 o l2 Hinv Ho Hs) as (o1 & Ho1 & Hb).
  destruct (IH s1 o1 l2) as (o2 & Ho2 & Hl); [by apply (lock_inv_step ev s)|done|done|].
  exists o2. split; [done|]. by apply Hb.
Qed.

(** C9.  Mutual exclusion.  Callers open the lock file, wait for it, work on the files of the
    store, drop the guard and die in any interleaving, from any file system, with any system
    call failing.  Then at most one of them holds the guard, the file it has locked is the one
    the lock path names, and what they do falls into whole blocks of one caller each, between
    its lock and its unlock or death.  Whatever happens next, only a caller that holds the
    guard changes a file of the store. *)
Theorem lock_excludes fs0 evs s l :
  fs_wf fs0 → sys_run evs (initial fs0) = Some (s, l) →
  (∀ p i, phase_of s p = Holding i →
     fs_names (sys_fs s) !! lock_entry = Some i ∧ ∀ q j, phase_of s q = Holding j → q = p) ∧
  (∃ o, held_by s o ∧ blocks None l o) ∧
  (∀ ev s', sys_step ev s = Some s' →
     (∃ p op calls sequence pid i, ev = Work p op calls sequence pid ∧ phase_of s p = Holding i) ∨
     same_files (sys_fs s) (sys_fs s')).
Proof.
  intros Hwf Hrun. pose proof (lock_inv_initial fs0 Hwf) as H0.
  pose proof (lock_inv_run _ _ _ _ H0 Hrun) as Hinv. split; [|split].
  - intros p i Hp. split; [by apply (li_holding _ Hinv p)|].
    intros q j Hq. by apply (lock_inv_unique s q p j i).
  - apply (blocks_run evs (initial fs0)); [done| |done]. intros p. unfold phase_of. simpl.
    rewrite lookup_empty. by split; [intros [? ?]|].
  - intros ev s' Hs. by apply (lock_inv_step ev s).
Qed.
End Callers.

(** ** Two writers *)

#[local] Existing Instance toy_env.
(** Both open the lock file, which the first one creates; the first one dies while it renames
    a record, and only then the second one gets the lock. *)
Definition two_writers : list SysEvent :=
  [OpenLock 1 []; OpenLock 2 []; Flock 1;
   Work 1 (WriteFile (RecordFile "a") "first") [Works; Works; Works; Works; Works; Dies 1] 0 7;
   Flock 2; Work 2 (WriteFile (RecordFile "a") "second") [] 0 8; DropGuard 2].
Definition no_files : Fs :=
  {| fs_dirs := ∅; fs_inodes := ∅; fs_names := ∅; fs_stale := ∅; fs_next := 0 |}.

Lemma no_files_wf : fs_wf no_files.
Proof.
  constructor; simpl; intros *; unfold stale_of; simpl; rewrite ?lookup_empty; try discriminate.
Defined.

Lemma lock_excludes_witness :
  ∃ s l, sys_run "store" two_writers (initial no_files) = Some (s, l) ∧
    l = [Locked 1; Did 1 (WriteFile (RecordFile "a") "first"); Unlocked 1; Locked 2;
         Did 2 (WriteFile (RecordFile "a") "second"); Unlocked 2] ∧
    ∃ o, held_by s o ∧ blocks None l o.
Proof.
  destruct (sys_run "store" two_writers (initial no_files)) as [[s l]|] eqn:Hrun;
    [|vm_compute in Hrun; discriminate Hrun].
  exists s, l. split; [reflexivity|].
  destruct (lock_excludes "store" no_files two_writers s l no_files_wf Hrun) as (_ & Hb & _).
  split; [|exact Hb].
  assert (snd <$> sys_run "store" two_writers (initial no_files) = Some l) as Hl by (rewrite Hrun; reflexivity).
  vm_compute in Hl. injection Hl as <-. reflexivity.
Defined.
